(* ===== verification/_CoqProject ===== *)
-Q . S2P
Prelude.v
Xdr.v
Protocol.v
GoStrings.v
GoPath.v
OS.v
Hook.v
Proxy.v
ProxyConn.v
Daemon.v
Server.v
SriovVF.v
SriovKernel.v
Hugepages.v
Containerd.v
Alignment.v
Workernode.v
MemoryDriver.v
Calls.v
CpuDriver.v
SriovDriver.v
GenericAlignment.v
