(* ===== verification/Prelude.v ===== *)
(** * Verification of the DRA driver integration environment

    The repository holds the tools that prepare a machine for testing DRA
    drivers and the entry points of the drivers.  This development models the
    tools with logic of their own and proves what makes them correct.

    ** The program and its model

    - virtinjectd is a proxy on libvirt's RPC socket that passes the domain XML
      of define calls through hook scripts.  [Xdr.v] models
      virtinjectd/xdr.go (XDR strings), [Protocol.v] virtinjectd/protocol.go
      (headers, framing, reading from chunked connections), [Hook.v]
      virtinjectd/hook.go (the hook chain), [Proxy.v] the processing functions
      and the forwarding loop of virtinjectd/proxy.go, [ProxyConn.v] its
      connection handler (two goroutines, the peers, the closes) and accept
      loop, [Daemon.v] virtinjectd/main.go, and [Server.v] the whole process at
      work: the accept loop, the signal goroutine and all connections, which
      share the world their hooks run in.  The proxy uses the hook chain
      through the interface [HookRunner] of [Hook.v], which [HookChain]
      implements, as a whole run and as the same run script by script;
      [Daemon.main] composes [NewHookChain] and [ProxyConn.Run]; a connection is proved correct under interference ([ProxyConn.step_world])
      and [Server.handler_reachable] shows that the rest of the process is such
      interference, before and between the scripts.
    - setup/sriovvf creates SR-IOV virtual functions through sysfs and assigns
      them to NUMA nodes: [SriovVF.v].  [SriovKernel.v] has the other side of
      sysfs, the kernel, as a class of laws and an instance.
    - setup/hugepages provisions huge pages through sysfs: [Hugepages.v]
      (setup/pkg/hugepages/provision, its api/v0 and setup/hugepages).
    - setup/containerd edits a containerd configuration: [Containerd.v]
      (setup/pkg/containerd and setup/containerd).
    - setup/workernode prints a Job for the workers of a cluster:
      [Workernode.v].
    - validation/kind/alignment reports the NUMA zones of the containers of a
      pod: [Alignment.v]; validation/generic/alignment checks the alignment from
      inside a container: [GenericAlignment.v].
    - driver/memory, driver/cpu and driver/sriov are entry points of drivers
      from other repositories: [MemoryDriver.v], [CpuDriver.v] and
      [SriovDriver.v] model their command selection, their flags, and which
      calls they make with which arguments to start and stop their parts.

    Shared: this file (Go errors and results, machine integers, bytes,
    infinite runs and fairness, tactics, hints), [GoStrings.v] (the strings and strconv functions the code
    calls, and the text of errors), [GoPath.v] (path/filepath, sorting),
    [OS.v] (files and processes as interfaces over an abstract world, and the
    in-memory instance [MemFS] used in examples), [Calls.v] (runs that are a
    sequence of calls into packages).

    ** Correspondence

    A Go function keeps its name; helper definitions in lower case with
    underscores are loop bodies or parts of a longer function.  A function that
    returns a value and an error is a [res]; where the code returns both at
    once it is a pair.  Functions with effects take and return the world [W],
    whose operations are the classes of [OS.v] and [Daemon.v]; the code that
    can wait forever (running scripts) is a [prog], [None] being no return; an
    entry point that only calls packages is a [calls], the calls it makes and
    its result; a function that can panic returns a [panicking].  [int] values are [Z]
    wherever the code cannot leave their range; lengths on the wire are
    wrapped to 32 bits as in the source.  Structs are records, loggers are
    dropped, an error keeps its format string and arguments, so that its text
    can be compared as [isConnectionClosed] does.  Maps that are shared by
    reference (the containerd configuration) live in a heap.

    ** What is proved

    - [XdrProps], [ProtocolProps]: the encoders write the RFC 4506 and libvirt
      formats, round trips in both directions, exact acceptance conditions,
      independence of read boundaries, 32-bit overflow behaviour.
    - [HookProps]: [HookChain.Run] refines an abstract pipeline, the configured
      script first, terminates within three seconds per hook when scripts leave
      no descendants, keeps the XML on failures, and runs the executable regular
      files of the directory in file name order.
    - [ProxyProps]: total correctness of client-to-server forwarding, exact
      effect on define calls (with a hook chain, the output of the pipeline of
      scripts, also while others change the world), fail-safe on all others,
      transparency from server to client, termination.
    - [ProxyConnProps]: invariants over all interleavings of a connection
      (prefix of the server's bytes, in-order processed client messages, closed
      on return, messages in flight well-typed and no panic with bounded hooks),
      whatever else changes the world the hooks run in, bounded draining once
      closed, and that a script whose descendant keeps its output holds the
      connection for good.
    - [DaemonProps]: the life of the process, why it exits and how it replaces a
      stale socket, and its verbosity table.
    - [ServerProps]: every connection of a running daemon behaves as one alone
      under interference; in every infinite run with a fair signal goroutine and
      a fair [main] a signal ends the process, whatever the connections do.
    - [SriovVFProps]: address grammar, device selection, VF count protocol,
      balanced assignment, refused requests without effect, and that try mode
      reports success exactly when a strict run succeeds.
    - [SriovKernelProps]: on a physical function that works, the run succeeds
      and leaves the requested number of VFs, placed as requested.
    - [HugepagesProps]: pages are conserved over nodes; when it panics; the node
      field is ignored on machines with several nodes.
    - [ContainerdProps]: editing through references refines an update of trees;
      it sets exactly the documented keys, keeps all others and is idempotent;
      files are only written with a complete result.
    - [AlignmentProps]: the cgroup path of a container, the topology that is
      read and the report, exactly.
    - [WorkernodeProps]: the job asks for as many pods as there are nodes its
      node selector admits, and when none is printed.
    - [MemoryDriverProps], [CpuDriverProps], [SriovDriverProps],
      [GenericAlignmentProps]: one command per run; flags set to what was given
      or their default; the calls of a start-up in order up to the first that
      fails, the driver started once and as configured, ready only after its
      start, and which signals end it in order; parts stopped on the paths that
      should; one report before the wait.

    ** Bounds and fuel

    [Proxy.forward] is the only loop with fuel, one unit per message; since a
    message has at least 28 bytes, one more than the number of bytes in the
    stream is enough ([forward_terminates]).  [GoStrings.trim_left] uses the
    length of its argument.  All other loops are structural.  The connection
    handler is a step relation and has no bound.

    ** Parameters

    Files, processes, sockets, the YAML, TOML, CPU set and Kubernetes libraries
    and the topology discovery are parameters, with their documented behaviour
    as laws of a class where a theorem needs it ([FileSystemLaws],
    [SocketsLaws], [TomlLaws], [ClusterLaws], [SriovKernelLaws]).  The flag
    packages are represented by the values they found.  The drivers' packages
    are given by the results of their calls.

    ** Not modelled

    Logging output, the layout of printed text, the flags that the client and
    logging packages of driver/sriov add, the embedded setup script of
    setup/containerd (a shell script it only prints), container images and
    manifests, and what a Kubernetes cluster does with the job that
    setup/workernode prints.  In [ProxyConn.v] and [Server.v] every script is a step, so the
    scripts of different connections interleave; what a script does to the world
    is one step, and so is listing the directory of scripts. *)

From Stdlib Require Import Strings.Byte.
From Stdlib Require Export Init.Byte.
From Stdlib Require Strings.Ascii.
From stdpp Require Export base tactics numbers list strings gmap sorting pretty.

Export Strings.Ascii (ascii(..)).
Export (notations) Strings.Ascii.

#[global] Open Scope Z_scope.

Declare Scope go_scope.
Delimit Scope go_scope with go.

(** ** Errors

    A Go [error] value.  Sentinel errors compared with [==] are constants;
    [fmt.Errorf] keeps its format string and its arguments, so that both the
    identity and the rendered text of an error can be inspected. *)

Inductive goerror :=
  | EOF
  | ErrUnexpectedEOF
  | ErrClosed
  | ErrNotExist (what : string)
  | SysError (text : string)
  | Errorf (format : string) (args : list fmtarg)
with fmtarg :=
  | ArgD (z : Z)
  | ArgS (s : string)
  | ArgQ (s : string)
  | ArgW (e : goerror).

(** The result of a Go function whose last return value is an [error]: a value
    when the error is nil, the error otherwise. *)
Inductive res (A : Type) :=
  | Ok (a : A)
  | Err (e : goerror).
Arguments Ok {A} _.
Arguments Err {A} _.

Definition rbind {A B} (m : res A) (k : A → res B) : res B :=
  match m with
  | Ok a => k a
  | Err e => Err e
  end.

(** The result of a Go function that may panic. *)
Inductive panicking (A : Type) :=
  | Normal (a : A)
  | Panic (why : string).
Arguments Normal {A} _.
Arguments Panic {A} _.

Notation "'let*' x ':=' m 'in' k" := (rbind m (λ x, k))
  (at level 10, x pattern, m at level 100, k at level 200)
  : go_scope.

Definition is_ok {A} (m : res A) : bool :=
  match m with Ok _ => true | Err _ => false end.

(** ** Machine integers *)

Definition two32 : Z := 4294967296.
Definition two63 : Z := 9223372036854775808.
Definition two64 : Z := 18446744073709551616.

Definition wrap_u32 (z : Z) : Z := z mod two32.
Definition is_u32 (z : Z) : Prop := 0 ≤ z < two32.
Definition is_int64 (z : Z) : Prop := - two63 ≤ z < two63.
Definition is_int32 (z : Z) : Prop := - 2147483648 ≤ z < 2147483648.
Definition wrap_i32 (z : Z) : Z := (z + 2147483648) mod two32 - 2147483648.

#[global] Instance is_u32_dec z : Decision (is_u32 z).
Proof. unfold is_u32. apply _. Defined.
#[global] Instance is_int64_dec z : Decision (is_int64 z).
Proof. unfold is_int64. apply _. Defined.
#[global] Instance is_int32_dec z : Decision (is_int32 z).
Proof. unfold is_int32. apply _. Defined.

(** ** Bytes *)

#[global] Instance byte_eq_dec : EqDecision byte := Byte.byte_eq_dec.

Definition b2z (b : byte) : Z := Z.of_N (Byte.to_N b).
Definition z2b (z : Z) : byte :=
  match Byte.of_N (Z.to_N (z mod 256)) with Some b => b | None => x00 end.

(** [binary.BigEndian.Uint32] on a slice of four bytes. *)
Definition be_uint32 (bs : list byte) : Z :=
  match bs with
  | b0 :: b1 :: b2 :: b3 :: _ =>
      Z.lor (b2z b3) (Z.lor (Z.shiftl (b2z b2) 8)
        (Z.lor (Z.shiftl (b2z b1) 16) (Z.shiftl (b2z b0) 24)))
  | _ => 0
  end.

(** The four bytes [binary.BigEndian.PutUint32] stores. *)
Definition be_bytes (v : Z) : list byte :=
  [z2b (Z.shiftr v 24); z2b (Z.shiftr v 16); z2b (Z.shiftr v 8); z2b v].

(** Slices: [make([]byte, n)], [buf[lo:hi]], [copy(dst[off:], src)]. *)
Definition make_bytes (n : Z) : list byte := replicate (Z.to_nat n) x00.

Definition slice {A} (l : list A) (lo hi : nat) : list A :=
  take (hi - lo) (drop lo l).

Definition copy_at (off : nat) (dst src : list byte) : list byte :=
  take off dst ++ take (length dst - off) src ++ drop (off + length src) dst.

Definition zlen {A} (l : list A) : Z := Z.of_nat (length l).

Definition strlen (s : string) : Z := Z.of_nat (String.length s).

(** Conversions [string(data)] and [[]byte(s)]. *)
Definition string_of_bytes (l : list byte) : string := String.string_of_list_byte l.
Definition bytes_of_string (s : string) : list byte := String.list_byte_of_string s.

(** ** Automation *)

Create HintDb go discriminated.
Create Rewrite HintDb go_len.

Ltac go_inv :=
  repeat match goal with
  | H : Ok _ = Ok _ |- _ => injection H as H
  | H : Err _ = Err _ |- _ => injection H as H
  | H : Ok _ = Err _ |- _ => discriminate H
  | H : Err _ = Ok _ |- _ => discriminate H
  | H : Normal _ = Normal _ |- _ => injection H as H
  | H : Normal _ = Panic _ |- _ => discriminate H
  | H : Panic _ = Normal _ |- _ => discriminate H
  | H : Some _ = Some _ |- _ => injection H as H
  | H : Some _ = None |- _ => discriminate H
  | H : None = Some _ |- _ => discriminate H
  | H : (_, _) = (_, _) |- _ => injection H as H
  end; subst.

(** Case analysis on the conditions of a definition, keeping the equations. *)
Ltac case_cond :=
  match goal with
  | |- context [if ?b then _ else _] => destruct b eqn:?
  | H : context [if ?b then _ else _] |- _ => destruct b eqn:?
  end.

Ltac case_res :=
  match goal with
  | |- context [rbind ?m _] => destruct m eqn:?; simpl
  | H : context [rbind ?m _] |- _ => destruct m eqn:?; simpl in H
  end.

(** Boolean comparisons on [Z] to propositions. *)
Ltac zb :=
  repeat match goal with
  | H : (_ <? _) = true |- _ => apply Z.ltb_lt in H
  | H : (_ <? _) = false |- _ => apply Z.ltb_ge in H
  | H : (_ <=? _) = true |- _ => apply Z.leb_le in H
  | H : (_ <=? _) = false |- _ => apply Z.leb_gt in H
  | H : (_ >? _) = true |- _ => rewrite Z.gtb_ltb in H; apply Z.ltb_lt in H
  | H : (_ >? _) = false |- _ => rewrite Z.gtb_ltb in H; apply Z.ltb_ge in H
  | H : (_ >=? _) = true |- _ => rewrite Z.geb_leb in H; apply Z.leb_le in H
  | H : (_ >=? _) = false |- _ => rewrite Z.geb_leb in H; apply Z.leb_gt in H
  | H : (_ =? _) = true |- _ => apply Z.eqb_eq in H
  | H : (_ =? _) = false |- _ => apply Z.eqb_neq in H
  | H : (_ || _)%bool = true |- _ => apply orb_true_iff in H
  | H : (_ || _)%bool = false |- _ => apply orb_false_iff in H; destruct H
  | H : (_ && _)%bool = true |- _ => apply andb_true_iff in H; destruct H
  | H : (_ && _)%bool = false |- _ => apply andb_false_iff in H
  | H : negb _ = true |- _ => apply negb_true_iff in H
  | H : negb _ = false |- _ => apply negb_false_iff in H
  end.

(** ** Lemmas: results *)

Lemma rbind_Ok {A B} (m : res A) (k : A → res B) b :
  rbind m k = Ok b → ∃ a, m = Ok a ∧ k a = Ok b.
Proof. destruct m; simpl; intros; naive_solver. Qed.

(** ** Lemmas: bytes and big-endian words *)

Lemma b2z_range b : 0 ≤ b2z b < 256.
Proof.
  unfold b2z. pose proof (Byte.to_N_bounded b) as Hb.
  split; [apply N2Z.is_nonneg | apply N2Z.inj_le in Hb; lia].
Qed.

Lemma z2b_b2z b : z2b (b2z b) = b.
Proof.
  unfold z2b. rewrite Z.mod_small by apply b2z_range.
  unfold b2z. rewrite N2Z.id. by rewrite Byte.of_to_N.
Qed.

Lemma b2z_z2b z : b2z (z2b z) = z mod 256.
Proof.
  unfold z2b, b2z. pose proof (Z.mod_pos_bound z 256 ltac:(lia)) as Hr.
  destruct (Byte.of_N _) as [b|] eqn:E.
  - apply Byte.to_of_N in E. rewrite E. lia.
  - apply Byte.of_N_None_iff in E. lia.
Qed.

Lemma lor_shiftl_add a b n :
  0 ≤ n → 0 ≤ a < 2 ^ n → Z.lor a (Z.shiftl b n) = a + b * 2 ^ n.
Proof.
  intros Hn Ha. rewrite Z.shiftl_mul_pow2 by lia.
  symmetry. apply Z.add_nocarry_lor.
  apply Z.bits_inj'. intros i Hi. rewrite Z.land_spec, Z.bits_0.
  destruct (decide (i < n)) as [Hlt|Hge].
  - rewrite Z.mul_pow2_bits_low by lia. apply andb_false_r.
  - destruct (decide (a = 0)) as [->|]; [by rewrite Z.bits_0|].
    rewrite (Z.bits_above_log2 a i); [done|lia|].
    apply Z.log2_lt_pow2; [lia|]. eapply Z.lt_le_trans; [apply Ha|].
    apply Z.pow_le_mono_r; lia.
Qed.

Lemma be_uint32_arith b0 b1 b2 b3 rest :
  be_uint32 (b0 :: b1 :: b2 :: b3 :: rest)
  = b2z b3 + 256 * b2z b2 + 65536 * b2z b1 + 16777216 * b2z b0.
Proof.
  cbn [be_uint32].
  pose proof (b2z_range b0). pose proof (b2z_range b1).
  pose proof (b2z_range b2). pose proof (b2z_range b3).
  replace (Z.shiftl (b2z b0) 24) with (Z.shiftl (Z.shiftl (b2z b0) 8) 16)
    by (rewrite Z.shiftl_shiftl by lia; done).
  rewrite <-Z.shiftl_lor.
  rewrite (lor_shiftl_add (b2z b1) (b2z b0) 8) by (simpl; lia).
  replace 16 with (8 + 8) by lia. rewrite <-Z.shiftl_shiftl by lia.
  rewrite <-Z.shiftl_lor.
  rewrite (lor_shiftl_add (b2z b2)) by (simpl; lia).
  rewrite lor_shiftl_add by (simpl; lia). simpl. lia.
Qed.

Lemma be_uint32_range bs : is_u32 (be_uint32 bs).
Proof.
  unfold is_u32, two32.
  destruct bs as [|b0 [|b1 [|b2 [|b3 bs]]]]; try (simpl; lia).
  rewrite be_uint32_arith.
  pose proof (b2z_range b0). pose proof (b2z_range b1).
  pose proof (b2z_range b2). pose proof (b2z_range b3). lia.
Qed.

Lemma be_uint32_be_bytes v rest : be_uint32 (be_bytes v ++ rest) = wrap_u32 v.
Proof.
  unfold be_bytes, wrap_u32, two32. cbn [app].
  rewrite be_uint32_arith, !b2z_z2b, !Z.shiftr_div_pow2 by lia.
  change (2 ^ 24) with 16777216. change (2 ^ 16) with 65536. change (2 ^ 8) with 256.
  Z.div_mod_to_equations. lia.
Qed.

Lemma be_bytes_be_uint32 bs :
  length bs = 4%nat → be_bytes (be_uint32 bs) = bs.
Proof.
  destruct bs as [|b0 [|b1 [|b2 [|b3 [|]]]]]; try done. intros _.
  rewrite be_uint32_arith. unfold be_bytes. rewrite !Z.shiftr_div_pow2 by lia.
  change (2 ^ 24) with 16777216. change (2 ^ 16) with 65536. change (2 ^ 8) with 256.
  pose proof (b2z_range b0). pose proof (b2z_range b1).
  pose proof (b2z_range b2). pose proof (b2z_range b3).
  assert (∀ z b, z mod 256 = b2z b → z2b z = b) as Hz.
  { intros z b Hzb. unfold z2b. rewrite Hzb. unfold b2z.
    by rewrite N2Z.id, Byte.of_to_N. }
  repeat f_equal; apply Hz; Z.div_mod_to_equations; lia.
Qed.

Lemma length_be_bytes v : length (be_bytes v) = 4%nat.
Proof. done. Qed.

Lemma wrap_u32_small z : is_u32 z → wrap_u32 z = z.
Proof. intros H. by apply Z.mod_small. Qed.

Lemma wrap_u32_range z : is_u32 (wrap_u32 z).
Proof. apply Z.mod_pos_bound. done. Qed.

Lemma wrap_i32_small z : is_int32 z → wrap_i32 z = z.
Proof. unfold is_int32, wrap_i32, two32. intros. rewrite Z.mod_small; lia. Qed.

(** ** Lemmas: slices and strings *)

Lemma length_make_bytes n : length (make_bytes n) = Z.to_nat n.
Proof. apply length_replicate. Qed.

Lemma copy_at_fill off pre mid post src :
  length pre = off → length mid = length src →
  copy_at off (pre ++ mid ++ post) src = pre ++ src ++ post.
Proof.
  intros <- Hm. unfold copy_at.
  rewrite take_app_length. f_equal.
  rewrite take_ge by (rewrite !length_app; lia). f_equal.
  rewrite drop_app_add', <-Hm by done. apply drop_app_length.
Qed.

Lemma copy_at_0 mid post src :
  length mid = length src → copy_at 0 (mid ++ post) src = src ++ post.
Proof. apply (copy_at_fill 0 []). done. Qed.

Lemma length_copy_at off dst src :
  (off <= length dst)%nat → length (copy_at off dst src) = length dst.
Proof.
  intros. unfold copy_at.
  rewrite !length_app, length_drop, !length_take. lia.
Qed.

Lemma length_slice {A} (l : list A) lo hi :
  (lo <= hi <= length l)%nat → length (slice l lo hi) = (hi - lo)%nat.
Proof. intros. unfold slice. rewrite length_take, length_drop. lia. Qed.

Lemma bytes_of_string_of_bytes l : bytes_of_string (string_of_bytes l) = l.
Proof. apply String.list_byte_of_string_of_list_byte. Qed.

Lemma string_of_bytes_of_string s : string_of_bytes (bytes_of_string s) = s.
Proof. apply String.string_of_list_byte_of_string. Qed.

Lemma length_bytes_of_string s : length (bytes_of_string s) = String.length s.
Proof.
  unfold bytes_of_string. induction s as [|a s IH]; [done|].
  cbn [String.list_byte_of_string String.length length].
  by rewrite <-IH.
Qed.

Lemma zlen_bytes_of_string s : zlen (bytes_of_string s) = strlen s.
Proof. unfold zlen, strlen. by rewrite length_bytes_of_string. Qed.

Lemma strlen_string_of_bytes l : strlen (string_of_bytes l) = zlen l.
Proof. by rewrite <-zlen_bytes_of_string, bytes_of_string_of_bytes. Qed.

Lemma strlen_nonneg s : 0 ≤ strlen s.
Proof. unfold strlen. lia. Qed.

Lemma zlen_nonneg {A} (l : list A) : 0 ≤ zlen l.
Proof. unfold zlen. lia. Qed.

Lemma zlen_app {A} (l k : list A) : zlen (l ++ k) = zlen l + zlen k.
Proof. unfold zlen. rewrite length_app. lia. Qed.

(** ** Lemmas: sublists *)

Lemma Forall_sublist {A} (P : A → Prop) l k :
  Forall P l → k `sublist_of` l → Forall P k.
Proof.
  intros Hl Hk. induction Hk as [|x k l _ IH|x k l _ IH]; [done| |];
    apply Forall_cons in Hl as [? ?]; [constructor|]; auto.
Qed.

Lemma StronglySorted_sublist {A} (R : relation A) l k :
  StronglySorted R l → k `sublist_of` l → StronglySorted R k.
Proof.
  intros Hl Hk. induction Hk as [|x k l Hs IH|x k l Hs IH]; [done| |];
    apply StronglySorted_inv in Hl as [Hl Hall]; [|by apply IH].
  constructor; [by apply IH|]. by eapply Forall_sublist.
Qed.

#[export] Hint Resolve b2z_range be_uint32_range wrap_u32_range strlen_nonneg
  zlen_nonneg : go.
#[export] Hint Rewrite @length_app @length_take @length_drop @length_replicate
  length_be_bytes length_make_bytes length_bytes_of_string
  bytes_of_string_of_bytes string_of_bytes_of_string : go_len.

(** Lengths normalised, then linear arithmetic. *)
Ltac len_solve := unfold zlen, strlen, slice in *; autorewrite with go_len in *; lia.

(** ** Infinite runs

    A run of a transition system as a function of time, which may pause, and weak
    fairness of some of its steps: at some later time, again and again, such a
    step is taken or cannot be taken. *)
Section executions.
Context {S : Type}.
Implicit Types (R step : relation S) (run : nat → S).

Definition execution step run : Prop :=
  ∀ n, run (Datatypes.S n) = run n ∨ step (run n) (run (Datatypes.S n)).

Definition enabled R (s : S) : Prop := ∃ s', R s s'.

Definition weakly_fair R run : Prop :=
  ∀ n, ∃ m, (n <= m)%nat ∧ (R (run m) (run (Datatypes.S m)) ∨ ¬ enabled R (run m)).

(** What steps keep holds from any time on. *)
Lemma execution_stable step run (P : S → Prop) n m :
  execution step run → (∀ s s', step s s' → P s → P s') →
  (n <= m)%nat → P (run n) → P (run m).
Proof.
  intros Hrun HP Hle Hn. induction Hle as [|m _ IH]; [done|].
  destruct (Hrun m) as [->|Hs]; eauto.
Qed.

(** A measure no step increases. *)
Lemma execution_decreasing step run (f : S → nat) n m :
  execution step run → (∀ s s', step s s' → (f s' <= f s)%nat) →
  (n <= m)%nat → (f (run m) <= f (run n))%nat.
Proof.
  intros Hrun Hf Hle. apply (execution_stable step run (λ s, f s <= f (run n))%nat n); [done|..|done|done].
  intros s s' Hs ?. specialize (Hf _ _ Hs). lia.
Qed.

(** The moment a condition begins to hold. *)
Lemma execution_begins run (P : S → Prop) `{!∀ s, Decision (P s)} n m :
  (n <= m)%nat → ¬ P (run n) → P (run m) →
  ∃ k, (n <= k)%nat ∧ ¬ P (run k) ∧ P (run (Datatypes.S k)).
Proof.
  intros Hle Hn. induction Hle as [|m Hle IH]; [done|]. intros Hm.
  destruct (decide (P (run m))) as [Hp|Hp]; [auto|by exists m].
Qed.

End executions.
