(* ===== verification/Xdr.v ===== *)
(** * XDR strings (virtinjectd/xdr.go)

    The RFC 4506 variable-length string codec the proxy uses to take the
    domain XML out of a call payload and to put the patched XML back:
    [xdrPad], [DecodeXDRString], [EncodeXDRString], [ReplaceXDRString].

    [EncodeXDRString] and [ReplaceXDRString] fill buffers in place as the
    source does; [encode_spec] is the reference encoding they are shown equal
    to. Lengths are Go [int]s (64-bit), the length word on the wire is 32-bit. *)

From S2P Require Import Prelude.
Local Open Scope go_scope.
Local Open Scope Z_scope.

Module Xdr.

Definition xdrStringMaxLen : Z := 4194304.

(** [n % 4] truncates, as in Go. *)
Definition xdrPad (n : Z) : Z :=
  let remainder := Z.rem n 4 in
  if remainder =? 0 then 0 else 4 - remainder.

Definition DecodeXDRString (data : list byte) : res (string * Z) :=
  if zlen data <? 4 then
    Err (Errorf "XDR string: need at least 4 bytes for length, got %d" [ArgD (zlen data)])
  else
    let strLen := be_uint32 (slice data 0 4) in
    if (strLen <? 0) || (strLen >? xdrStringMaxLen) then
      Err (Errorf "XDR string: length %d out of range [0, %d]"
              [ArgD strLen; ArgD xdrStringMaxLen])
    else
      let pad := xdrPad strLen in
      let totalConsumed := 4 + strLen + pad in
      if zlen data <? totalConsumed then
        Err (Errorf "XDR string: need %d bytes, got %d" [ArgD totalConsumed; ArgD (zlen data)])
      else
        Ok (string_of_bytes (slice data 4 (Z.to_nat (4 + strLen))), totalConsumed).

Definition EncodeXDRString (s : string) : list byte :=
  let strLen := strlen s in
  let pad := xdrPad strLen in
  let buf := make_bytes (4 + strLen + pad) in
  let buf := copy_at 0 buf (be_bytes (wrap_u32 strLen)) in
  copy_at 4 buf (bytes_of_string s).

(** Returns the payload and the error, both: on an error the payload is the
    one that was passed in. *)
Definition ReplaceXDRString (payload : list byte) (newStr : string)
  : list byte * option goerror :=
  match DecodeXDRString payload with
  | Err e => (payload, Some (Errorf "decoding existing XDR string: %w" [ArgW e]))
  | Ok (_, consumed) =>
      let newEncoded := EncodeXDRString newStr in
      let remainder := drop (Z.to_nat consumed) payload in
      let result := make_bytes (zlen newEncoded + zlen remainder) in
      let result := copy_at 0 result newEncoded in
      (copy_at (length newEncoded) result remainder, None)
  end.

(** ** Reference definitions *)

(** Zero padding to the next multiple of four. *)
Definition padding (n : Z) : list byte := replicate (Z.to_nat (xdrPad n)) x00.

(** RFC 4506, 4.11: length word, data, zero padding. *)
Definition encode_spec (s : string) : list byte :=
  be_bytes (wrap_u32 (strlen s)) ++ bytes_of_string s ++ padding (strlen s).

(** A string libvirt accepts ([REMOTE_STRING_MAX]). *)
Definition in_bounds (s : string) : Prop := strlen s ≤ xdrStringMaxLen.

(** ** Padding *)

Lemma xdrPad_bounds n : 0 ≤ n → 0 ≤ xdrPad n ≤ 3.
Proof.
  intros Hn. unfold xdrPad. pose proof (Z.rem_bound_pos n 4 Hn ltac:(lia)).
  destruct (_ =? 0) eqn:E; zb; lia.
Qed.

Lemma xdrPad_divide n : 0 ≤ n → (4 | n + xdrPad n).
Proof.
  intros Hn. unfold xdrPad. pose proof (Z.quot_rem n 4 ltac:(lia)) as Hq.
  destruct (_ =? 0) eqn:E; zb.
  - exists (Z.quot n 4). lia.
  - exists (Z.quot n 4 + 1). lia.
Qed.

Lemma xdrPad_minimal n k : 0 ≤ n → 0 ≤ k → (4 | n + k) → xdrPad n ≤ k.
Proof.
  intros Hn Hk Hd. destruct (xdrPad_divide n Hn) as [q Hq].
  destruct Hd as [p Hp]. pose proof (xdrPad_bounds n Hn). lia.
Qed.

(** ** Encoding *)

Lemma EncodeXDRString_spec s : EncodeXDRString s = encode_spec s.
Proof.
  unfold EncodeXDRString, encode_spec, make_bytes, padding.
  pose proof (xdrPad_bounds (strlen s) (strlen_nonneg s)) as Hp.
  pose proof (strlen_nonneg s).
  replace (Z.to_nat (4 + strlen s + xdrPad (strlen s)))
    with (4 + (String.length s + Z.to_nat (xdrPad (strlen s))))%nat
    by (unfold strlen in *; lia).
  rewrite !replicate_add.
  rewrite copy_at_0 by done. apply copy_at_fill; [done|].
  by rewrite length_replicate, length_bytes_of_string.
Qed.

Lemma zlen_encode_spec s :
  zlen (encode_spec s) = 4 + strlen s + xdrPad (strlen s).
Proof.
  unfold encode_spec, padding.
  pose proof (xdrPad_bounds (strlen s) (strlen_nonneg s)).
  rewrite !zlen_app, zlen_bytes_of_string. unfold zlen at 1 2.
  rewrite length_be_bytes, length_replicate. lia.
Qed.

Lemma decode_encode_app s rest :
  in_bounds s →
  DecodeXDRString (encode_spec s ++ rest)
  = Ok (s, 4 + strlen s + xdrPad (strlen s)).
Proof.
  unfold in_bounds, xdrStringMaxLen. intros Hs.
  pose proof (strlen_nonneg s). pose proof (zlen_encode_spec s) as Hl.
  pose proof (xdrPad_bounds (strlen s) ltac:(lia)).
  pose proof (zlen_nonneg rest).
  unfold DecodeXDRString. rewrite zlen_app, Hl.
  assert (be_uint32 (slice (encode_spec s ++ rest) 0 4) = strlen s) as ->.
  { change (slice (encode_spec s ++ rest) 0 4) with (be_bytes (wrap_u32 (strlen s)) ++ []).
    rewrite be_uint32_be_bytes, (wrap_u32_small (wrap_u32 _)) by apply wrap_u32_range.
    apply wrap_u32_small. unfold is_u32, two32. lia. }
  unfold xdrStringMaxLen.
  repeat (case_cond; zb; try lia). f_equal. f_equal.
  unfold slice, encode_spec. rewrite <-!app_assoc.
  replace (drop 4 _) with (bytes_of_string s ++ padding (strlen s) ++ rest) by done.
  replace (Z.to_nat (4 + strlen s) - 4)%nat with (length (bytes_of_string s))
    by (rewrite length_bytes_of_string; unfold strlen; lia).
  by rewrite take_app_length, string_of_bytes_of_string.
Qed.

(** ** Decoding *)

(** What a successful decode says about the bytes it read. *)
Lemma DecodeXDRString_inv data s n :
  DecodeXDRString data = Ok (s, n) →
  in_bounds s ∧ n = 4 + strlen s + xdrPad (strlen s) ∧ n ≤ zlen data ∧
  take (4 + String.length s) data = be_bytes (strlen s) ++ bytes_of_string s.
Proof.
  unfold DecodeXDRString. repeat (case_cond; [done|]). intros; go_inv.
  set (w := be_uint32 (slice data 0 4)) in *. zb.
  assert (strlen (string_of_bytes (slice data 4 (Z.to_nat (4 + w)))) = w) as Hlen.
  { rewrite strlen_string_of_bytes. unfold zlen. rewrite length_slice; [lia|].
    unfold zlen in *. pose proof (xdrPad_bounds w). lia. }
  unfold in_bounds. rewrite Hlen. repeat split; [lia|lia|].
  set (s := string_of_bytes _) in *.
  replace (4 + String.length s)%nat with (4 + Z.to_nat w)%nat
    by (unfold strlen in Hlen; lia).
  rewrite <-take_take_drop. f_equal.
  - unfold w, slice. simpl. rewrite drop_0. symmetry.
    apply be_bytes_be_uint32. rewrite length_take. unfold zlen in *. lia.
  - unfold s. rewrite bytes_of_string_of_bytes. unfold slice. f_equal. lia.
Qed.

(** ** Replacing *)

Lemma ReplaceXDRString_ok payload s n xml' :
  DecodeXDRString payload = Ok (s, n) →
  ReplaceXDRString payload xml'
  = (EncodeXDRString xml' ++ drop (Z.to_nat n) payload, None).
Proof.
  intros Hd. unfold ReplaceXDRString. rewrite Hd. f_equal.
  set (enc := EncodeXDRString xml'). set (rest := drop _ payload).
  unfold make_bytes.
  replace (Z.to_nat (zlen enc + zlen rest)) with (length enc + (length rest + 0))%nat
    by (unfold zlen; lia).
  rewrite !replicate_add, copy_at_0 by (by rewrite length_replicate).
  rewrite copy_at_fill by (rewrite ?length_replicate; done).
  by rewrite app_nil_r.
Qed.

(** A string of [n] characters. *)
Definition of_big (n : Z) : string := string_of_bytes (replicate (Z.to_nat n) x61).

Lemma strlen_of_big n : 0 ≤ n → strlen (of_big n) = n.
Proof.
  intros. unfold of_big. rewrite strlen_string_of_bytes. unfold zlen.
  rewrite length_replicate. lia.
Qed.

End Xdr.

(** * Properties of the codec *)
Module XdrProps.
Import Xdr.

(** C15: every string libvirt accepts survives encoding and decoding, whatever
    follows it in the payload, and the decoder consumes exactly the encoding. *)
Theorem xdr_roundtrip (s : string) (rest : list byte) :
  strlen s ≤ xdrStringMaxLen →
  DecodeXDRString (EncodeXDRString s ++ rest) = Ok (s, zlen (EncodeXDRString s)).
Proof. intros Hs. rewrite EncodeXDRString_spec, zlen_encode_spec. by apply decode_encode_app. Qed.

Lemma xdr_roundtrip_witness :
  strlen "<domain/>" ≤ xdrStringMaxLen ∧
  DecodeXDRString (EncodeXDRString "<domain/>" ++ [x01; x02]) = Ok ("<domain/>", 16).
Proof. split; [vm_compute; discriminate|]. apply (xdr_roundtrip "<domain/>" [x01; x02]). vm_compute. discriminate. Defined.

(** C17: the in-place encoder writes the RFC 4506 encoding: big-endian length,
    data, the least number of zero bytes that aligns the whole to four. *)
Theorem xdr_encode_rfc4506 (s : string) :
  EncodeXDRString s =
    be_bytes (wrap_u32 (strlen s)) ++ bytes_of_string s ++
    replicate (Z.to_nat (xdrPad (strlen s))) x00 ∧
  (4 | zlen (EncodeXDRString s)) ∧
  0 ≤ xdrPad (strlen s) ≤ 3 ∧
  ∀ k, 0 ≤ k → (4 | strlen s + k) → xdrPad (strlen s) ≤ k.
Proof.
  pose proof (strlen_nonneg s). rewrite EncodeXDRString_spec, zlen_encode_spec. split_and!.
  - done.
  - rewrite <-Z.add_assoc. apply Z.divide_add_r; [by exists 1|by apply xdrPad_divide].
  - by apply xdrPad_bounds.
  - by apply xdrPad_bounds.
  - intros. by apply xdrPad_minimal.
Qed.

(** Decoding succeeds exactly when the length word is there, is at most
    4 MiB, and the data and padding are there; it then returns those bytes.
    Otherwise it returns an error: no input makes it read out of range. *)
Theorem xdr_decode_exact (data : list byte) :
  let n := be_uint32 (take 4 data) in
  let ok := 4 ≤ zlen data ∧ n ≤ xdrStringMaxLen ∧ 4 + n + xdrPad n ≤ zlen data in
  (ok → DecodeXDRString data
        = Ok (string_of_bytes (take (Z.to_nat n) (drop 4 data)), 4 + n + xdrPad n)) ∧
  (¬ ok → ∃ e, DecodeXDRString data = Err e).
Proof.
  intros n. unfold DecodeXDRString, slice. rewrite drop_0.
  change (4 - 0)%nat with 4%nat. fold n.
  pose proof (be_uint32_range (take 4 data)) as Hn. fold n in Hn.
  replace (Z.to_nat (4 + n) - 4)%nat with (Z.to_nat n) by (unfold is_u32 in Hn; lia).
  split; intros Hok; repeat (case_cond; zb; try (unfold is_u32 in Hn; lia)); eauto.
Qed.

(** C16: replacing the string of a payload keeps everything after it and gives
    a payload that decodes to the new string; a payload that does not decode
    comes back unchanged, with an error. *)
Theorem xdr_replace (payload : list byte) (new : string) :
  match DecodeXDRString payload with
  | Ok (_, consumed) =>
      ∃ p', ReplaceXDRString payload new = (p', None) ∧
        p' = EncodeXDRString new ++ drop (Z.to_nat consumed) payload ∧
        (strlen new ≤ xdrStringMaxLen →
         DecodeXDRString p' = Ok (new, zlen (EncodeXDRString new)))
  | Err e =>
      ReplaceXDRString payload new =
        (payload, Some (Errorf "decoding existing XDR string: %w" [ArgW e]))
  end.
Proof.
  destruct (DecodeXDRString payload) as [[s n]|e] eqn:Hd.
  - eexists. split; [by eapply ReplaceXDRString_ok|]. split; [done|]. intros Hn.
    rewrite EncodeXDRString_spec, zlen_encode_spec. by apply decode_encode_app.
  - unfold ReplaceXDRString. by rewrite Hd.
Qed.

(** Nothing bounds the replacement: a new string longer than
    REMOTE_STRING_MAX is encoded all the same, into a payload whose string no
    decoder with that limit accepts. *)
Theorem xdr_replace_oversize (payload : list byte) (new : string) :
  xdrStringMaxLen < strlen new < two32 →
  is_ok (DecodeXDRString payload) = true →
  (ReplaceXDRString payload new).2 = None ∧
  is_ok (DecodeXDRString (ReplaceXDRString payload new).1) = false.
Proof.
  intros Hn Hd. destruct (DecodeXDRString payload) as [[s n]|] eqn:E; [|done].
  erewrite ReplaceXDRString_ok by done. split; [done|]. cbn [fst].
  rewrite EncodeXDRString_spec. unfold encode_spec. rewrite <-!app_assoc.
  set (l := be_bytes _ ++ _). unfold DecodeXDRString. case_cond; [done|].
  assert (be_uint32 (slice l 0 4) = strlen new) as ->.
  { change (slice l 0 4) with (be_bytes (wrap_u32 (strlen new)) ++ []).
    rewrite be_uint32_be_bytes, !wrap_u32_small; unfold is_u32, xdrStringMaxLen in *; try lia.
    rewrite wrap_u32_small; unfold is_u32; lia. }
  case_cond; [done|]. zb. lia.
Qed.

Lemma xdr_replace_oversize_witness :
  let new := of_big 4194305 in
  (ReplaceXDRString (EncodeXDRString "a") new).2 = None ∧
  is_ok (DecodeXDRString (ReplaceXDRString (EncodeXDRString "a") new).1) = false.
Proof.
  apply (xdr_replace_oversize (EncodeXDRString "a") (of_big 4194305)).
  - rewrite strlen_of_big by lia. unfold xdrStringMaxLen, two32. lia.
  - vm_compute. reflexivity.
Defined.

End XdrProps.
