(* ===== verification/Protocol.v ===== *)
(** * The libvirt RPC wire protocol (virtinjectd/protocol.go)

    Message headers, framing and the two stream operations [ReadMessage] and
    [WriteMessage], over a model of [net.Conn] as the sequence of chunks its
    reads return and the bytes its writes accept; [io.ReadFull] reassembles
    the chunks.  Words on the wire are 32-bit; a payload too long for the
    32-bit length word makes [WriteMessage] panic on its slice bounds, which
    is an outcome of the model. *)

From S2P Require Import Prelude.
Local Open Scope go_scope.
Local Open Scope Z_scope.

Module Protocol.

Definition RemoteProgram : Z := 0x20008086.
Definition RemoteProtocolVersion : Z := 1.
Definition ProcDomainDefineXML : Z := 11.
Definition ProcDomainDefineXMLFlags : Z := 350.

Definition TypeCall : Z := 0.
Definition TypeReply : Z := 1.
Definition TypeMessage : Z := 2.
Definition TypeStream : Z := 3.
Definition TypeCallWithFDs : Z := 4.
Definition TypeReplyWithFDs : Z := 5.

Definition HeaderSize : Z := 24.
Definition LengthPrefixSize : Z := 4.
Definition MaxMessageSize : Z := 33554432.

Record Header := mkHeader {
  Program : Z;
  Version : Z;
  Procedure : Z;
  Type_ : Z;
  Serial : Z;
  Status : Z;
}.

#[global] Instance Header_eq_dec : EqDecision Header.
Proof. solve_decision. Defined.

(** Every field is a [uint32]. *)
Definition header_ok (h : Header) : Prop :=
  is_u32 (Program h) ∧ is_u32 (Version h) ∧ is_u32 (Procedure h) ∧
  is_u32 (Type_ h) ∧ is_u32 (Serial h) ∧ is_u32 (Status h).

#[global] Instance header_ok_dec h : Decision (header_ok h).
Proof. unfold header_ok. apply _. Defined.

Definition ParseHeader (buf : list byte) : res Header :=
  if zlen buf <? HeaderSize then
    Err (Errorf "header buffer too short: %d < %d" [ArgD (zlen buf); ArgD HeaderSize])
  else
    Ok {| Program := be_uint32 (slice buf 0 4);
          Version := be_uint32 (slice buf 4 8);
          Procedure := be_uint32 (slice buf 8 12);
          Type_ := be_uint32 (slice buf 12 16);
          Serial := be_uint32 (slice buf 16 20);
          Status := be_uint32 (slice buf 20 24) |}.

Definition MarshalHeader (h : Header) : list byte :=
  let buf := make_bytes HeaderSize in
  let buf := copy_at 0 buf (be_bytes (Program h)) in
  let buf := copy_at 4 buf (be_bytes (Version h)) in
  let buf := copy_at 8 buf (be_bytes (Procedure h)) in
  let buf := copy_at 12 buf (be_bytes (Type_ h)) in
  let buf := copy_at 16 buf (be_bytes (Serial h)) in
  copy_at 20 buf (be_bytes (Status h)).

(** ** Connections *)

(** The read side of a connection: the chunks successive reads return, then
    the error every later read returns ([io.EOF] when the peer closed). *)
Record reader := mkReader {
  rd_chunks : list (list byte);
  rd_err : goerror;
}.

Definition stream (r : reader) : list byte := concat (rd_chunks r).

(** The loop of [io.ReadFull] for [n] more bytes: what it got and what is
    left to read. A read returns at most what was asked for. *)
Fixpoint read_chunks (n : nat) (cs : list (list byte)) : list byte * list (list byte) :=
  match n, cs with
  | O, _ => ([], cs)
  | _, [] => ([], [])
  | _, c :: cs' =>
      if (length c <=? n)%nat then
        let '(bs, rest) := read_chunks (n - length c) cs' in (c ++ bs, rest)
      else (take n c, drop n c :: cs')
  end.

(** The error of a read that stopped early: [io.EOF] after some bytes is
    [io.ErrUnexpectedEOF]. *)
Definition short_err (got : list byte) (err : goerror) : goerror :=
  match got, err with
  | _ :: _, EOF => ErrUnexpectedEOF
  | _, e => e
  end.

Definition ReadFull (n : nat) (r : reader) : res (list byte * reader) :=
  let '(bs, rest) := read_chunks n (rd_chunks r) in
  if (n <=? length bs)%nat then Ok (bs, mkReader rest (rd_err r))
  else Err (short_err bs (rd_err r)).

(** The write side: the bytes the peer received, and how many more bytes the
    connection accepts before writes fail with [wr_err] ([None]: no limit). *)
Record writer := mkWriter {
  wr_out : list byte;
  wr_room : option nat;
  wr_err : goerror;
}.

Definition conn_Write (w : writer) (buf : list byte) : option goerror * writer :=
  match wr_room w with
  | None => (None, mkWriter (wr_out w ++ buf) None (wr_err w))
  | Some k =>
      if (length buf <=? k)%nat then
        (None, mkWriter (wr_out w ++ buf) (Some (k - length buf)%nat) (wr_err w))
      else
        (Some (wr_err w), mkWriter (wr_out w ++ take k buf) (Some O) (wr_err w))
  end.

(** ** Messages *)

Definition ReadMessage (conn : reader) : res (Header * list byte * reader) :=
  match ReadFull (Z.to_nat LengthPrefixSize) conn with
  | Err e => Err (Errorf "reading message length: %w" [ArgW e])
  | Ok (lengthBuf, conn) =>
      let totalLength := be_uint32 lengthBuf in
      if totalLength <? LengthPrefixSize + HeaderSize then
        Err (Errorf "message too short: %d bytes" [ArgD totalLength])
      else
        let dataLength := wrap_u32 (totalLength - LengthPrefixSize) in
        if dataLength >? MaxMessageSize then
          Err (Errorf "message too large: %d > %d" [ArgD dataLength; ArgD MaxMessageSize])
        else
          match ReadFull (Z.to_nat dataLength) conn with
          | Err e => Err (Errorf "reading message data (%d bytes): %w" [ArgD dataLength; ArgW e])
          | Ok (data, conn) =>
              match ParseHeader (slice data 0 (Z.to_nat HeaderSize)) with
              | Err e => Err (Errorf "parsing header: %w" [ArgW e])
              | Ok header => Ok (header, drop (Z.to_nat HeaderSize) data, conn)
              end
          end
  end.

(** The buffer [WriteMessage] builds. [buf[4:28]] is out of range when the
    32-bit total length wrapped below 28. *)
Definition message_buffer (header : Header) (payload : list byte) : panicking (list byte) :=
  let totalLength := wrap_u32 (LengthPrefixSize + HeaderSize + zlen payload) in
  let buf := make_bytes totalLength in
  if totalLength <? LengthPrefixSize + HeaderSize then
    Panic "slice bounds out of range"
  else
    let buf := copy_at 0 buf (be_bytes totalLength) in
    let buf := copy_at 4 buf (MarshalHeader header) in
    Normal (copy_at 28 buf payload).

Definition WriteMessage (conn : writer) (header : Header) (payload : list byte)
  : panicking (option goerror * writer) :=
  match message_buffer header payload with
  | Panic why => Panic why
  | Normal buf =>
      match conn_Write conn buf with
      | (Some e, conn) =>
          Normal (Some (Errorf "writing message (%d bytes): %w" [ArgD (zlen buf); ArgW e]), conn)
      | (None, conn) => Normal (None, conn)
      end
  end.

Definition IsDomainDefineCall (h : Header) : bool :=
  (Program h =? RemoteProgram) &&
  (Version h =? RemoteProtocolVersion) &&
  (Type_ h =? TypeCall) &&
  ((Procedure h =? ProcDomainDefineXML) || (Procedure h =? ProcDomainDefineXMLFlags)).

(** ** Reference definitions *)

Definition header_bytes (h : Header) : list byte :=
  be_bytes (Program h) ++ be_bytes (Version h) ++ be_bytes (Procedure h) ++
  be_bytes (Type_ h) ++ be_bytes (Serial h) ++ be_bytes (Status h).

(** One message on the wire: length word, header, payload. *)
Definition frame (h : Header) (p : list byte) : list byte :=
  be_bytes (28 + zlen p) ++ header_bytes h ++ p.

(** The payload sizes [ReadMessage] accepts. *)
Definition payload_ok (p : list byte) : Prop := zlen p ≤ MaxMessageSize - HeaderSize.

(** Two readers that deliver the same bytes, however fragmented. *)
#[global] Instance reader_equiv : Equiv reader := λ r1 r2,
  stream r1 = stream r2 ∧ rd_err r1 = rd_err r2.

#[global] Instance reader_equivalence : Equivalence (≡@{reader}).
Proof.
  split.
  - by intros r.
  - by intros r1 r2 [? ?].
  - intros r1 r2 r3 [? ?] [? ?]; split; congruence.
Qed.

(** ** Headers *)

Lemma MarshalHeader_spec h : MarshalHeader h = header_bytes h.
Proof. reflexivity. Qed.

Lemma length_header_bytes h : length (header_bytes h) = 24%nat.
Proof. reflexivity. Qed.

Lemma word_at a v b n :
  length a = n → slice (a ++ be_bytes v ++ b) n (n + 4) = be_bytes v.
Proof.
  intros <-. unfold slice. rewrite drop_app_length.
  replace (length a + 4 - length a)%nat with (length (be_bytes v))
    by (rewrite length_be_bytes; lia).
  apply take_app_length.
Qed.

Lemma be_uint32_be_bytes_id v : is_u32 v → be_uint32 (be_bytes v) = v.
Proof.
  intros Hv. rewrite <-(app_nil_r (be_bytes v)), be_uint32_be_bytes.
  by apply wrap_u32_small.
Qed.

Lemma ParseHeader_header_bytes h :
  header_ok h → ParseHeader (header_bytes h) = Ok h.
Proof.
  intros (H1 & H2 & H3 & H4 & H5 & H6). unfold ParseHeader.
  change (zlen (header_bytes h) <? HeaderSize) with false. cbv iota.
  destruct h as [p v q t s st]; simpl in *. unfold header_bytes; cbn [Program Version Procedure Type_ Serial Status].
  f_equal. f_equal; (etransitivity; [|by apply be_uint32_be_bytes_id]); reflexivity.
Qed.

(** Parsing 24 bytes and marshalling the result gives the bytes back. *)
Lemma ParseHeader_inv bs h :
  length bs = 24%nat → ParseHeader bs = Ok h → header_bytes h = bs ∧ header_ok h.
Proof.
  intros Hl. unfold ParseHeader. case_cond; [done|]. intros; go_inv.
  split; [|by repeat split; apply be_uint32_range].
  unfold header_bytes; cbn [Program Version Procedure Type_ Serial Status].
  rewrite !be_bytes_be_uint32 by (rewrite length_slice; lia).
  do 24 (destruct bs as [|? bs]; [done|]). by destruct bs.
Qed.

(** ** Reassembling chunks *)

Lemma read_chunks_spec n cs bs rest :
  read_chunks n cs = (bs, rest) →
  bs = take n (concat cs) ∧ concat rest = drop n (concat cs).
Proof.
  revert n bs rest. induction cs as [|c cs IH]; intros n bs rest.
  - destruct n; intros; simpl in *; go_inv; done.
  - destruct n as [|n]; [intros; simpl in *; go_inv; done|].
    cbn [read_chunks concat]. destruct (length c <=? S n)%nat eqn:E.
    + apply Nat.leb_le in E. destruct (read_chunks _ cs) as [bs' rest'] eqn:Er.
      apply IH in Er as [-> ?]. intros; go_inv.
      rewrite take_app_ge, drop_app_ge by lia. done.
    + apply Nat.leb_gt in E. intros; go_inv.
      rewrite take_app_le, drop_app_le by lia. done.
Qed.

(** [ReadFull] succeeds exactly when enough bytes are to come, and takes them
    off the front of the stream. *)
Lemma ReadFull_enough n r :
  (n <= length (stream r))%nat →
  ∃ r', ReadFull n r = Ok (take n (stream r), r') ∧
        stream r' = drop n (stream r) ∧ rd_err r' = rd_err r.
Proof.
  intros Hn. unfold ReadFull.
  destruct (read_chunks n (rd_chunks r)) as [bs rest] eqn:E.
  apply read_chunks_spec in E as [-> Hrest]. fold (stream r) in *.
  rewrite (proj2 (Nat.leb_le _ _)) by (rewrite length_take; lia).
  eexists. split; [done|]. done.
Qed.

(** Otherwise it fails: with the connection's error when nothing was read,
    with [io.ErrUnexpectedEOF] when the stream ends in the middle. *)
Lemma ReadFull_short n r :
  (length (stream r) < n)%nat →
  ReadFull n r = Err (short_err (stream r) (rd_err r)).
Proof.
  intros Hn. unfold ReadFull.
  destruct (read_chunks n (rd_chunks r)) as [bs rest] eqn:E.
  apply read_chunks_spec in E as [-> _]. fold (stream r) in *.
  rewrite (proj2 (Nat.leb_gt _ _)) by (rewrite length_take; lia).
  by rewrite take_ge by lia.
Qed.

(** [ReadMessage] seen on the flat stream of bytes. *)
Definition read_flat (bs : list byte) (err : goerror) : res (Header * list byte * list byte) :=
  if zlen bs <? 4 then Err (Errorf "reading message length: %w" [ArgW (short_err bs err)])
  else
    let total := be_uint32 (take 4 bs) in
    if total <? 28 then Err (Errorf "message too short: %d bytes" [ArgD total])
    else if total - 4 >? MaxMessageSize then
      Err (Errorf "message too large: %d > %d" [ArgD (total - 4); ArgD MaxMessageSize])
    else if zlen bs <? total then
      Err (Errorf "reading message data (%d bytes): %w"
             [ArgD (total - 4); ArgW (short_err (drop 4 bs) err)])
    else
      match ParseHeader (take 24 (drop 4 bs)) with
      | Err e => Err (Errorf "parsing header: %w" [ArgW e])
      | Ok h => Ok (h, slice bs 28 (Z.to_nat total), drop (Z.to_nat total) bs)
      end.

(** The two results agree, the readers being compared by what they deliver. *)
Definition agrees (err : goerror)
  (x : res (Header * list byte * reader)) (y : res (Header * list byte * list byte)) : Prop :=
  match x, y with
  | Ok (h, p, r), Ok (h', p', bs) => h = h' ∧ p = p' ∧ stream r = bs ∧ rd_err r = err
  | Err e, Err e' => e = e'
  | _, _ => False
  end.

Lemma ReadMessage_flat r : agrees (rd_err r) (ReadMessage r) (read_flat (stream r) (rd_err r)).
Proof.
  unfold ReadMessage, read_flat.
  change (Z.to_nat LengthPrefixSize) with 4%nat.
  change (LengthPrefixSize + HeaderSize) with 28.
  destruct (zlen (stream r) <? 4) eqn:E4; zb.
  { rewrite ReadFull_short by (unfold zlen in E4; lia). reflexivity. }
  destruct (ReadFull_enough 4 r) as (r1 & -> & Hs1 & He1); [unfold zlen in E4; lia|].
  set (total := be_uint32 (take 4 (stream r))).
  assert (is_u32 total) as Ht by apply be_uint32_range.
  destruct (total <? 28) eqn:E28; [done|]. zb.
  rewrite wrap_u32_small by (unfold is_u32, two32, LengthPrefixSize in *; lia).
  change (total - LengthPrefixSize) with (total - 4).
  destruct (total - 4 >? MaxMessageSize) eqn:EM; [done|]. zb.
  destruct (zlen (stream r) <? total) eqn:El; zb; rewrite <-He1.
  { rewrite ReadFull_short by (rewrite Hs1, length_drop; unfold zlen in *; lia).
    rewrite Hs1. reflexivity. }
  destruct (ReadFull_enough (Z.to_nat (total - 4)) r1) as (r2 & -> & Hs2 & He2).
  { rewrite Hs1, length_drop. unfold zlen in *. lia. }
  rewrite Hs1. unfold slice. change (Z.to_nat HeaderSize) with 24%nat.
  rewrite drop_0. change (24 - 0)%nat with 24%nat.
  rewrite take_take, Nat.min_l by lia.
  destruct (ParseHeader _) as [h|e]; simpl; [|done].
  repeat split.
  - rewrite skipn_firstn_comm, drop_drop. f_equal. lia.
  - rewrite Hs2, Hs1, drop_drop. f_equal. lia.
  - by rewrite He2.
Qed.

(** How a stream is cut into chunks does not matter. *)
#[global] Instance ReadMessage_proper :
  Proper ((≡) ==> λ x y : res (Header * list byte * reader),
    match x, y with
    | Ok (h, p, r), Ok (h', p', r') => h = h' ∧ p = p' ∧ r ≡ r'
    | Err e, Err e' => e = e'
    | _, _ => False
    end) ReadMessage.
Proof.
  intros r1 r2 [Hs He]. pose proof (ReadMessage_flat r1) as H1.
  pose proof (ReadMessage_flat r2) as H2. rewrite Hs, He in H1.
  destruct (read_flat _ _) as [[[h p] bs]|e];
    destruct (ReadMessage r1) as [[[h1 p1] r1']|e1], (ReadMessage r2) as [[[h2 p2] r2']|e2];
    simpl in *; try done; destruct_and?; subst; try done.
  repeat split; congruence.
Qed.

(** ** Framing *)

Lemma zlen_frame h p : zlen (frame h p) = 28 + zlen p.
Proof.
  unfold frame, zlen. rewrite !length_app, length_be_bytes, length_header_bytes. lia.
Qed.

Lemma message_buffer_spec h p :
  zlen p < two32 - 28 → message_buffer h p = Normal (frame h p).
Proof.
  intros Hp. unfold message_buffer. pose proof (zlen_nonneg p).
  change (LengthPrefixSize + HeaderSize) with 28.
  rewrite wrap_u32_small by (unfold is_u32; lia).
  case_cond; zb; [lia|]. f_equal. rewrite MarshalHeader_spec.
  unfold make_bytes.
  replace (Z.to_nat (28 + zlen p)) with (4 + (24 + (length p + 0)))%nat by (unfold zlen; lia).
  rewrite !replicate_add, copy_at_0 by done.
  rewrite copy_at_fill by done. unfold frame.
  rewrite app_assoc, copy_at_fill; [|done|by rewrite length_replicate].
  cbn [replicate]. by rewrite app_nil_r, <-app_assoc.
Qed.

Lemma message_buffer_length h p buf :
  message_buffer h p = Normal buf → (28 <= length buf)%nat.
Proof.
  unfold message_buffer. set (n := wrap_u32 _). case_cond; [done|]. zb. intros [= <-].
  assert (28 <= length (make_bytes n))%nat as Hn.
  { rewrite length_make_bytes. unfold LengthPrefixSize, HeaderSize in *. lia. }
  assert (length (copy_at 0 (make_bytes n) (be_bytes n)) = length (make_bytes n)) as H1
    by (apply length_copy_at; lia).
  assert (length (copy_at 4 (copy_at 0 (make_bytes n) (be_bytes n)) (MarshalHeader h))
          = length (make_bytes n)) as H2 by (rewrite length_copy_at; lia).
  rewrite length_copy_at; lia.
Qed.

(** A total length that wraps below the header size makes the code panic. *)
Lemma message_buffer_panic h p :
  two32 - 28 ≤ zlen p < two32 → message_buffer h p = Panic "slice bounds out of range".
Proof.
  intros Hp. unfold message_buffer. change (LengthPrefixSize + HeaderSize) with 28.
  replace (wrap_u32 (28 + zlen p)) with (28 + zlen p - two32).
  - case_cond; zb; [done|unfold two32 in *; lia].
  - unfold wrap_u32. rewrite <-(Z_mod_plus_full _ (-1)), Z.mod_small; unfold two32 in *; lia.
Qed.

Lemma read_flat_frame h p rest err :
  header_ok h → payload_ok p →
  read_flat (frame h p ++ rest) err = Ok (h, p, rest).
Proof.
  unfold payload_ok, MaxMessageSize, HeaderSize. intros Hh Hp.
  pose proof (zlen_nonneg p). pose proof (zlen_nonneg rest).
  unfold read_flat. rewrite zlen_app, zlen_frame.
  assert (take 4 (frame h p ++ rest) = be_bytes (28 + zlen p)) as -> by done.
  assert (take 24 (drop 4 (frame h p ++ rest)) = header_bytes h) as -> by done.
  rewrite be_uint32_be_bytes_id by (unfold is_u32, two32; lia).
  rewrite ParseHeader_header_bytes by done. unfold MaxMessageSize.
  repeat (case_cond; zb; try lia).
  replace (Z.to_nat (28 + zlen p)) with (28 + length p)%nat by (unfold zlen; lia).
  unfold slice. assert (drop 28 (frame h p ++ rest) = p ++ rest) as Hd by done.
  rewrite <-drop_drop, Hd, drop_app_length, Nat.add_sub'. by rewrite take_app_length.
Qed.

(** A successful read consumed exactly the frame of what it returned. *)
Lemma read_flat_inv bs err h p rest :
  read_flat bs err = Ok (h, p, rest) →
  bs = frame h p ++ rest ∧ header_ok h ∧ payload_ok p.
Proof.
  unfold read_flat. set (total := be_uint32 (take 4 bs)).
  repeat (case_cond; [done|]). zb. destruct (ParseHeader _) as [h'|] eqn:Eh; [|done].
  intros; go_inv.
  apply ParseHeader_inv in Eh as [Hb Hok]; [|rewrite length_take, length_drop; unfold zlen in *; lia].
  assert (zlen (slice bs 28 (Z.to_nat total)) = total - 28) as Hl.
  { unfold zlen. rewrite length_slice; unfold zlen in *; lia. }
  split; [|split; [done|unfold payload_ok, HeaderSize; lia]].
  unfold frame. rewrite Hl. replace (28 + (total - 28)) with total by lia.
  unfold total at 1. rewrite be_bytes_be_uint32 by (rewrite length_take; unfold zlen in *; lia).
  rewrite Hb. unfold slice. rewrite <-!app_assoc.
  rewrite <-(take_drop 4 bs) at 1. f_equal.
  rewrite <-(take_drop 24 (drop 4 bs)) at 1. f_equal. rewrite drop_drop.
  rewrite <-(take_drop (Z.to_nat total - 28) (drop (4 + 24) bs)) at 1. f_equal.
  rewrite drop_drop. f_equal. lia.
Qed.

Lemma ReadMessage_inv r h p r' :
  ReadMessage r = Ok (h, p, r') →
  stream r = frame h p ++ stream r' ∧ rd_err r' = rd_err r ∧ header_ok h ∧ payload_ok p.
Proof.
  intros H. pose proof (ReadMessage_flat r) as Hf. rewrite H in Hf.
  destruct (read_flat _ _) as [[[h' p'] rest]|] eqn:E; [|done].
  destruct Hf as (-> & -> & <- & He). apply read_flat_inv in E. naive_solver.
Qed.

Lemma ReadMessage_frame r h p rest :
  stream r = frame h p ++ rest → header_ok h → payload_ok p →
  ∃ r', ReadMessage r = Ok (h, p, r') ∧ stream r' = rest ∧ rd_err r' = rd_err r.
Proof.
  intros Hs Hh Hp. pose proof (ReadMessage_flat r) as Hf.
  rewrite Hs, read_flat_frame in Hf by done.
  destruct (ReadMessage r) as [[[h' p'] r']|]; [|done].
  destruct Hf as (-> & -> & ? & ?). eauto.
Qed.

End Protocol.

(** * Properties of the wire protocol *)
Module ProtocolProps.
Import Protocol.

(** C12: what [WriteMessage] puts on the wire is read back by [ReadMessage] as
    the same header and payload, leaving the rest of the stream, for every
    payload within the message size limit and however the bytes arrive in
    chunks. *)
Theorem message_roundtrip (h : Header) (p rest : list byte) (dst : writer) (src : reader) :
  header_ok h → payload_ok p → wr_room dst = None →
  ∃ buf, WriteMessage dst h p = Normal (None, mkWriter (wr_out dst ++ buf) None (wr_err dst)) ∧
    (stream src = buf ++ rest →
     ∃ src', ReadMessage src = Ok (h, p, src') ∧ stream src' = rest).
Proof.
  intros Hh Hp Hr. exists (frame h p). split.
  - unfold WriteMessage, conn_Write. rewrite message_buffer_spec, Hr; [done|].
    unfold payload_ok, MaxMessageSize, HeaderSize, two32 in *. lia.
  - intros Hs. destruct (ReadMessage_frame src h p rest) as (src' & ? & ? & _); eauto.
Qed.

Definition demo_header : Header := mkHeader RemoteProgram 1 11 TypeCall 7 0.

Lemma message_roundtrip_witness :
  ∃ buf, WriteMessage (mkWriter [] None EOF) demo_header [x2a] =
      Normal (None, mkWriter ([] ++ buf) None EOF) ∧
    (stream (mkReader [be_bytes 29; header_bytes demo_header ++ [x2a]] EOF) = buf ++ [] →
     ∃ src', ReadMessage (mkReader [be_bytes 29; header_bytes demo_header ++ [x2a]] EOF)
       = Ok (demo_header, [x2a], src') ∧ stream src' = []).
Proof.
  apply (message_roundtrip demo_header [x2a] [] (mkWriter [] None EOF)
    (mkReader [be_bytes 29; header_bytes demo_header ++ [x2a]] EOF)).
  - apply (bool_decide_unpack _). vm_compute. exact I.
  - vm_compute. discriminate.
  - reflexivity.
Defined.

(** C13: a message that was read and is written back is the same bytes: the
    frame written is exactly the part of the stream the read consumed, so an
    unmodified message is forwarded byte for byte although the proxy parses
    and rebuilds it. *)
Theorem read_write_identity (src : reader) :
  match ReadMessage src with
  | Ok (h, p, src') =>
      ∃ buf, message_buffer h p = Normal buf ∧ stream src = buf ++ stream src'
  | Err _ => True
  end.
Proof.
  destruct (ReadMessage src) as [[[h p] src']|] eqn:E; [|done].
  apply ReadMessage_inv in E as (Hs & _ & _ & Hp). exists (frame h p). split; [|done].
  apply message_buffer_spec. unfold payload_ok, MaxMessageSize, HeaderSize, two32 in *. lia.
Qed.

(** C14: [ReadMessage] does not depend on how the stream is cut into chunks:
    readers that deliver the same bytes and end the same way give the same
    header, payload and error, and leave equivalent readers. *)
Theorem read_chunking_irrelevant (r1 r2 : reader) :
  r1 ≡ r2 →
  match ReadMessage r1, ReadMessage r2 with
  | Ok (h1, p1, r1'), Ok (h2, p2, r2') => h1 = h2 ∧ p1 = p2 ∧ r1' ≡ r2'
  | Err e1, Err e2 => e1 = e2
  | _, _ => False
  end.
Proof. intros Hr. exact (ReadMessage_proper _ _ Hr). Qed.

Lemma read_chunking_irrelevant_witness :
  let r1 := mkReader [frame demo_header [x2a]] EOF in
  let r2 := mkReader [be_bytes 29; []; header_bytes demo_header; [x2a]] EOF in
  match ReadMessage r1, ReadMessage r2 with
  | Ok (h1, p1, r1'), Ok (h2, p2, r2') => h1 = h2 ∧ p1 = p2 ∧ r1' ≡ r2'
  | Err e1, Err e2 => e1 = e2
  | _, _ => False
  end.
Proof.
  intros r1 r2. apply (read_chunking_irrelevant r1 r2). split; vm_compute; reflexivity.
Defined.

(** C18: the size checks: a length word below 28 or above 32 MiB + 4 is refused
    before any data is read, a stream that ends inside a message is an error,
    and every message that is returned has 32-bit header fields and a payload
    within the limit. *)
Theorem read_message_bounds (src : reader) :
  let total := be_uint32 (take 4 (stream src)) in
  (4 ≤ zlen (stream src) → total < 28 →
     ReadMessage src = Err (Errorf "message too short: %d bytes" [ArgD total])) ∧
  (4 ≤ zlen (stream src) → MaxMessageSize + 4 < total →
     ReadMessage src = Err (Errorf "message too large: %d > %d"
                              [ArgD (total - 4); ArgD MaxMessageSize])) ∧
  (zlen (stream src) < 4 ∨ zlen (stream src) < total → is_ok (ReadMessage src) = false) ∧
  (∀ h p src', ReadMessage src = Ok (h, p, src') → header_ok h ∧ payload_ok p).
Proof.
  intros total. pose proof (ReadMessage_flat src) as Hf. unfold read_flat in Hf. fold total in Hf.
  split_and!.
  - intros ? ?. do 2 (case_cond; zb; try lia).
    destruct (ReadMessage src) as [[[? ?] ?]|]; simpl in Hf; [done|by subst].
  - intros ? ?. unfold MaxMessageSize in *. do 3 (case_cond; zb; try lia).
    destruct (ReadMessage src) as [[[? ?] ?]|]; simpl in Hf; [done|by subst].
  - intros Hs. destruct (ReadMessage src) as [[[h p] src']|] eqn:E; [|done].
    repeat (case_cond; [done|]). zb. lia.
  - intros h p src' E. apply ReadMessage_inv in E. tauto.
Qed.

(** Parsing a marshalled header gives the header back, and marshalling a
    parsed 24-byte buffer gives the buffer back. *)
Theorem header_roundtrip :
  (∀ h, header_ok h → ParseHeader (MarshalHeader h) = Ok h) ∧
  (∀ buf h, zlen buf = HeaderSize → ParseHeader buf = Ok h → MarshalHeader h = buf) ∧
  (∀ buf, is_ok (ParseHeader buf) = bool_decide (HeaderSize ≤ zlen buf)).
Proof.
  split_and!.
  - intros h Hh. rewrite MarshalHeader_spec. by apply ParseHeader_header_bytes.
  - intros buf h Hl Hp. rewrite MarshalHeader_spec. unfold zlen, HeaderSize in Hl.
    apply ParseHeader_inv in Hp as [? _]; [done|lia].
  - intros buf. unfold ParseHeader. case_cond; zb; case_bool_decide; done || lia.
Qed.

(** A payload of 4 GiB - 28 bytes or more wraps the 32-bit total length
    and makes [WriteMessage] panic; below that it never panics. *)
Theorem write_message_panic (dst : writer) (h : Header) (p : list byte) :
  (zlen p < two32 - 28 → ∃ e dst', WriteMessage dst h p = Normal (e, dst')) ∧
  (two32 - 28 ≤ zlen p < two32 →
     WriteMessage dst h p = Panic "slice bounds out of range").
Proof.
  split; intros Hp; unfold WriteMessage.
  - rewrite message_buffer_spec by done. destruct (conn_Write _ _) as [[e|] dst']; eauto.
  - by rewrite message_buffer_panic.
Qed.

End ProtocolProps.
