(* ===== verification/GoStrings.v ===== *)
(** * What the program uses of Go's strings, strconv and errors

    Byte strings with [strings.Contains], [HasPrefix], [TrimPrefix],
    [TrimSpace] and [Split], [strconv.Itoa] and [strconv.Atoi], and the text
    an error renders to.  Strings are sequences of bytes; [TrimSpace] removes
    the UTF-8 encodings of the code points [unicode.IsSpace] accepts. *)

From S2P Require Import Prelude.
Local Open Scope Z_scope.

Abbreviation chars := String.list_ascii_of_string.
Abbreviation of_chars := String.string_of_list_ascii.

Definition code (c : ascii) : Z := Z.of_N (Strings.Ascii.N_of_ascii c).
Definition chr (z : Z) : ascii := Strings.Ascii.ascii_of_N (Z.to_N z).

(** ** Searching and cutting *)

Fixpoint strip_prefix (p l : list ascii) : option (list ascii) :=
  match p, l with
  | [], _ => Some l
  | a :: p', b :: l' => if decide (a = b) then strip_prefix p' l' else None
  | _ :: _, [] => None
  end.

Definition HasPrefix (s p : string) : bool :=
  bool_decide (is_Some (strip_prefix (chars p) (chars s))).

Definition TrimPrefix (s p : string) : string :=
  match strip_prefix (chars p) (chars s) with
  | Some l => of_chars l
  | None => s
  end.

Fixpoint contains (sub l : list ascii) : bool :=
  bool_decide (is_Some (strip_prefix sub l)) ||
  match l with [] => false | _ :: l' => contains sub l' end.

Definition Contains (s sub : string) : bool := contains (chars sub) (chars s).

(** [strings.Split] with a one-byte separator. *)
Fixpoint split_on (c : ascii) (l : list ascii) : list (list ascii) :=
  match l with
  | [] => [[]]
  | a :: l' =>
      if decide (a = c) then [] :: split_on c l'
      else match split_on c l' with
           | w :: ws => (a :: w) :: ws
           | [] => [[a]]
           end
  end.

Definition Split (s : string) (sep : ascii) : list string :=
  of_chars <$> split_on sep (chars s).

(** [strings.Split] with a longer separator; [skip] bytes of a separator are
    still to be passed over. *)
Fixpoint split_str (sep : list ascii) (skip : nat) (l : list ascii) : list (list ascii) :=
  match l with
  | [] => [[]]
  | a :: l' =>
      match skip with
      | S k => split_str sep k l'
      | O =>
          if bool_decide (is_Some (strip_prefix sep l)) then
            [] :: split_str sep (length sep - 1) l'
          else match split_str sep 0 l' with
               | w :: ws => (a :: w) :: ws
               | [] => [[a]]
               end
      end
  end.

Definition SplitStr (s sep : string) : list string :=
  of_chars <$> split_str (chars sep) 0 (chars s).

(** [strings.ReplaceAll] of one byte by another. *)
Definition ReplaceAll (s : string) (old new : ascii) : string :=
  of_chars ((λ c, if decide (c = old) then new else c) <$> chars s).

(** ** TrimSpace *)

(** The UTF-8 encodings of the white-space code points. *)
Definition spaces : list (list ascii) :=
  ((λ z, [chr z]) <$> [9; 10; 11; 12; 13; 32])
  ++ [[chr 0xC2; chr 0x85]; [chr 0xC2; chr 0xA0]; [chr 0xE1; chr 0x9A; chr 0x80]]
  ++ ((λ z, [chr 0xE2; chr 0x80; chr z]) <$>
        [0x80; 0x81; 0x82; 0x83; 0x84; 0x85; 0x86; 0x87; 0x88; 0x89; 0x8A; 0xA8; 0xA9; 0xAF])
  ++ [[chr 0xE2; chr 0x81; chr 0x9F]; [chr 0xE3; chr 0x80; chr 0x80]].

Fixpoint strip_any (ps : list (list ascii)) (l : list ascii) : option (list ascii) :=
  match ps with
  | [] => None
  | p :: ps' => match strip_prefix p l with Some l' => Some l' | None => strip_any ps' l end
  end.

Fixpoint trim_left (ps : list (list ascii)) (fuel : nat) (l : list ascii) : list ascii :=
  match fuel with
  | O => l
  | S fuel => match strip_any ps l with Some l' => trim_left ps fuel l' | None => l end
  end.

Definition trim (l : list ascii) : list ascii :=
  let l := trim_left spaces (length l) l in
  reverse (trim_left (reverse <$> spaces) (length l) (reverse l)).

Definition TrimSpace (s : string) : string := of_chars (trim (chars s)).

(** ** Integers *)

Definition Itoa (z : Z) : string := pretty z.

Definition digit_val (c : ascii) : option Z :=
  if (48 <=? code c) && (code c <=? 57) then Some (code c - 48) else None.

Inductive parsed := Digits (n : Z) | BadSyntax | TooLarge.

(** [strconv.ParseUint(s, 10, 64)]: the first bad byte or the first overflow
    of 64 bits ends the scan. *)
Fixpoint parse_digits (n : Z) (l : list ascii) : parsed :=
  match l with
  | [] => Digits n
  | c :: l' =>
      match digit_val c with
      | None => BadSyntax
      | Some d => if n * 10 + d >=? two64 then TooLarge else parse_digits (n * 10 + d) l'
      end
  end.

Definition parse_uint (l : list ascii) : parsed :=
  match l with [] => BadSyntax | _ => parse_digits 0 l end.

Definition split_sign (l : list ascii) : bool * list ascii :=
  match l with
  | c :: l' =>
      if decide (c = "-"%char) then (true, l')
      else if decide (c = "+"%char) then (false, l')
      else (false, l)
  | [] => (false, [])
  end.

Definition ErrSyntax (s : string) : goerror :=
  Errorf "strconv.Atoi: parsing %q: invalid syntax" [ArgQ s].
Definition ErrRange (s : string) : goerror :=
  Errorf "strconv.Atoi: parsing %q: value out of range" [ArgQ s].

(** Both results: the value is 0 on a syntax error and the nearest [int] on a
    range error. *)
Definition Atoi (s : string) : Z * option goerror :=
  let '(neg, l) := split_sign (chars s) in
  match parse_uint l with
  | BadSyntax => (0, Some (ErrSyntax s))
  | TooLarge => (if neg then - two63 else two63 - 1, Some (ErrRange s))
  | Digits un =>
      if neg then
        if un >? two63 then (- two63, Some (ErrRange s)) else (- un, None)
      else
        if un >=? two63 then (two63 - 1, Some (ErrRange s)) else (un, None)
  end.

Definition parse_int (s : string) : res Z :=
  match Atoi s with
  | (z, None) => Ok z
  | (_, Some e) => Err e
  end.

(** ** The text of an error *)

(** [%q] of printable ASCII: quotes and backslashes are escaped. *)
Definition quote (s : string) : string :=
  let esc c := if decide (c = chr 34 ∨ c = chr 92) then [chr 92; c] else [c] in
  of_chars (chr 34 :: concat (esc <$> chars s) ++ [chr 34]).

(** The format with its verbs replaced by the arguments, in order. *)
Fixpoint fill (fmt : list ascii) (args : list (list ascii)) : list ascii :=
  match fmt with
  | [] => []
  | a :: fmt1 =>
      if decide (a = "%"%char) then
        match fmt1, args with
        | _ :: fmt2, x :: args' => x ++ fill fmt2 args'
        | _, _ => a :: fill fmt1 args
        end
      else a :: fill fmt1 args
  end.

(** [err.Error()]. *)
Fixpoint err_text (e : goerror) : string :=
  match e with
  | EOF => "EOF"
  | ErrUnexpectedEOF => "unexpected EOF"
  | ErrClosed => "use of closed network connection"
  | ErrNotExist what => what +:+ ": no such file or directory"
  | SysError text => text
  | Errorf format args =>
      of_chars (fill (chars format)
        (map (λ a, chars (match a with
           | ArgD z => Itoa z
           | ArgS s => s
           | ArgQ s => quote s
           | ArgW e => err_text e
           end)) args))
  end.

(** ** Lemmas: characters *)

Lemma chars_app s t : chars (s +:+ t) = chars s ++ chars t.
Proof.
  induction s as [|a s IH]; [done|].
  change (String a s +:+ t) with (String a (s +:+ t)). simpl. by rewrite IH.
Qed.

Lemma of_chars_chars s : of_chars (chars s) = s.
Proof. apply String.string_of_list_ascii_of_string. Qed.

Lemma chars_of_chars l : chars (of_chars l) = l.
Proof. apply String.list_ascii_of_string_of_list_ascii. Qed.

#[global] Instance chars_inj : Inj (=) (=) (String.list_ascii_of_string).
Proof. intros s t H. by rewrite <-(of_chars_chars s), H, of_chars_chars. Qed.

Lemma strip_prefix_Some p l r : strip_prefix p l = Some r ↔ l = p ++ r.
Proof.
  revert l. induction p as [|a p IH]; intros l; simpl.
  - split; [by intros [= ->]|by intros ->].
  - destruct l as [|b l]; [done|]. case_decide as E; subst.
    + rewrite IH. split; [by intros ->|by intros [= ->]].
    + split; [done|]. intros [= -> ->]. done.
Qed.

Lemma HasPrefix_spec s p : HasPrefix s p = true ↔ ∃ t, s = p +:+ t.
Proof.
  unfold HasPrefix. rewrite bool_decide_eq_true. split.
  - intros [r Hr]. apply strip_prefix_Some in Hr. exists (of_chars r).
    apply (inj String.list_ascii_of_string). by rewrite Hr, chars_app, chars_of_chars.
  - intros [t ->]. exists (chars t). apply strip_prefix_Some. by rewrite chars_app.
Qed.

Lemma HasPrefix_app s t : HasPrefix (s +:+ t) s = true.
Proof. apply HasPrefix_spec. eauto. Qed.

Lemma TrimPrefix_app s t : TrimPrefix (s +:+ t) s = t.
Proof.
  unfold TrimPrefix. rewrite (proj2 (strip_prefix_Some _ _ (chars t))) by (by rewrite chars_app).
  apply of_chars_chars.
Qed.

Lemma contains_spec sub l : contains sub l = true ↔ ∃ a b, l = a ++ sub ++ b.
Proof.
  induction l as [|c l IH]; cbn [contains]; rewrite orb_true_iff, bool_decide_eq_true.
  - split.
    + intros [[r Hr%strip_prefix_Some]|?]; [|done]. by exists [], r.
    + intros (a & b & H). left. destruct a; [|done]. exists b. by apply strip_prefix_Some.
  - rewrite IH. split.
    + intros [[r Hr%strip_prefix_Some]|(a & b & ->)]; [by exists [], r|by exists (c :: a), b].
    + intros (a & b & H). destruct a as [|? a]; simplify_eq/=.
      * left. exists b. by apply strip_prefix_Some.
      * right. eauto.
Qed.

Lemma Contains_app s pre : Contains (pre +:+ s) s = true.
Proof.
  unfold Contains. rewrite contains_spec. exists (chars pre), [].
  by rewrite chars_app, app_nil_r.
Qed.

(** ** Lemmas: decimal numbers *)

Lemma code_chr z : 0 ≤ z < 256 → code (chr z) = z.
Proof. intros. unfold code, chr. rewrite Strings.Ascii.N_ascii_embedding; lia. Qed.

Lemma digit_val_pretty n : (n < 10)%N → digit_val (pretty_N_char n) = Some (Z.of_N n).
Proof.
  intros Hn. assert (∃ k, n = N.of_nat k ∧ (k < 10)%nat) as (k & -> & Hk)
    by (exists (N.to_nat n); lia).
  do 10 (destruct k as [|k]; [done|]). lia.
Qed.

Lemma parse_digits_pretty_go x s :
  Z.of_N x < two64 →
  parse_digits 0 (chars (pretty_N_go x s)) = parse_digits (Z.of_N x) (chars s).
Proof.
  revert s. induction (N.lt_wf_0 x) as [x _ IH]. intros s Hx.
  destruct (decide (x = 0%N)) as [->|Hne]; [by rewrite pretty_N_go_0|].
  rewrite pretty_N_go_step by lia.
  pose proof (N.div_mod' x 10) as Hdm.
  pose proof (N.mod_lt x 10 ltac:(lia)).
  pose proof (N.div_lt x 10 ltac:(lia) ltac:(lia)).
  rewrite IH; [|done|by etransitivity; [apply N2Z.inj_lt|]].
  cbn [String.list_ascii_of_string parse_digits].
  rewrite digit_val_pretty by lia.
  replace (Z.of_N (x `div` 10)%N * 10 + Z.of_N (x `mod` 10)%N) with (Z.of_N x)
    by (rewrite Hdm at 1; rewrite N2Z.inj_add, N2Z.inj_mul; lia).
  case_cond; zb; [lia|done].
Qed.

Lemma pretty_N_go_nonempty x s : (0 < x)%N → pretty_N_go x s ≠ "".
Proof.
  revert s. induction (N.lt_wf_0 x) as [x _ IH]. intros s Hx.
  rewrite pretty_N_go_step by lia.
  destruct (decide (x `div` 10 = 0)%N) as [->|Hne]; [by rewrite pretty_N_go_0|].
  apply IH; [apply N.div_lt; lia|by apply N.neq_0_lt_0].
Qed.

Lemma parse_uint_pretty (x : N) :
  Z.of_N x < two64 → parse_uint (chars (pretty x)) = Digits (Z.of_N x).
Proof.
  intros Hx. unfold pretty, pretty_N. case_decide as E; [by subst|].
  pose proof (parse_digits_pretty_go x "" Hx) as Hp.
  destruct (pretty_N_go x "") as [|c s] eqn:Es.
  - by apply pretty_N_go_nonempty in Es; [|lia].
  - exact Hp.
Qed.

Lemma pretty_N_head (x : N) : ∃ c s, pretty x = String c s ∧ is_Some (digit_val c).
Proof.
  unfold pretty, pretty_N. case_decide as E; [by exists "0"%char, ""|].
  assert (∀ s, (∃ c t, s = String c t ∧ is_Some (digit_val c)) ∨ (0 < x)%N →
    ∃ c t, pretty_N_go x s = String c t ∧ is_Some (digit_val c)) as H.
  { clear E. induction (N.lt_wf_0 x) as [x _ IH]. intros s Hs.
    destruct (decide (x = 0%N)) as [->|Hne].
    { rewrite pretty_N_go_0. destruct Hs; [done|lia]. }
    rewrite pretty_N_go_step by lia. apply IH; [apply N.div_lt; lia|left].
    eexists _, _. split; [done|]. rewrite digit_val_pretty by (apply N.mod_lt; lia). eauto. }
  apply H. right. lia.
Qed.

Lemma split_sign_digit c l : is_Some (digit_val c) → split_sign (c :: l) = (false, c :: l).
Proof.
  intros [d Hd]. unfold split_sign. do 2 (case_decide; [subst; discriminate Hd|]). done.
Qed.

(** Printing an [int] and reading it back. *)
Lemma Atoi_Itoa z : is_int64 z → Atoi (Itoa z) = (z, None).
Proof.
  unfold is_int64, Itoa, Atoi. intros Hz.
  destruct z as [|p|p]; [done| |].
  - change (pretty (Z.pos p)) with (pretty (N.pos p)).
    destruct (pretty_N_head (Npos p)) as (c & s & Hp & Hc).
    pose proof (parse_uint_pretty (Npos p)) as Hu. rewrite Hp in *.
    cbn [String.list_ascii_of_string] in *. rewrite split_sign_digit by done.
    rewrite Hu by (unfold two63, two64 in *; lia). cbn [Z.of_N].
    case_cond; zb; [lia|done].
  - change (pretty (Z.neg p)) with ("-" +:+ pretty (N.pos p)). rewrite chars_app.
    change (chars "-" ++ ?l) with ("-"%char :: l). cbn [split_sign].
    rewrite decide_True by done.
    rewrite parse_uint_pretty by (unfold two63, two64 in *; lia). cbn [Z.of_N].
    case_cond; zb; [lia|done].
Qed.

(** ** Lemmas: numbers in files *)

Definition number_char (c : ascii) : Prop := c ∈ chars "-0123456789".

Lemma strip_any_number c l :
  number_char c → strip_any spaces (c :: l) = None ∧ strip_any (reverse <$> spaces) (c :: l) = None.
Proof.
  unfold number_char. intros Hc.
  repeat (apply elem_of_cons in Hc as [->|Hc]; [by split|]). by apply elem_of_nil in Hc.
Qed.

Lemma trim_left_number ps n c l :
  strip_any ps (c :: l) = None → trim_left ps n (c :: l) = c :: l.
Proof. intros H. destruct n; cbn [trim_left]; [done|]. by rewrite H. Qed.

(** [TrimSpace] removes the line feed after a number, and nothing else. *)
Lemma trim_number l : l ≠ [] → Forall number_char l → trim (l ++ [chr 10]) = l.
Proof.
  intros Hne Hl. unfold trim. destruct l as [|c l]; [done|].
  pose proof (proj1 (Forall_cons _ _ _) Hl) as [Hc _].
  assert (∀ n, trim_left spaces n ((c :: l) ++ [chr 10]) = (c :: l) ++ [chr 10]) as ->
    by (intros n; exact (trim_left_number _ _ _ _ (proj1 (strip_any_number c _ Hc)))).
  rewrite reverse_app. change (reverse [chr 10] ++ ?x) with (chr 10 :: x).
  rewrite length_app, Nat.add_comm. change (length [chr 10] + ?n)%nat with (S n).
  cbn [trim_left].
  change (strip_any (reverse <$> spaces) (chr 10 :: ?x)) with (Some x). cbv iota.
  destruct (reverse (c :: l)) as [|d r] eqn:Er.
  { apply (f_equal length) in Er. rewrite length_reverse in Er. done. }
  assert (number_char d) as Hd.
  { apply (proj1 (Forall_forall number_char (c :: l)) Hl).
    apply elem_of_reverse. rewrite Er. by left. }
  rewrite (trim_left_number _ _ _ _ (proj2 (strip_any_number d _ Hd))).
  by rewrite <-Er, reverse_involutive.
Qed.

Lemma number_char_digit n : (n < 10)%N → number_char (pretty_N_char n).
Proof.
  intros Hn. assert (∃ k, n = N.of_nat k ∧ (k < 10)%nat) as (k & -> & Hk)
    by (exists (N.to_nat n); lia).
  unfold number_char. do 10 (destruct k as [|k]; [vm_compute; set_solver|]). lia.
Qed.

Lemma number_chars_go x s :
  Forall number_char (chars s) → Forall number_char (chars (pretty_N_go x s)).
Proof.
  revert s. induction (N.lt_wf_0 x) as [x _ IH]. intros s Hs.
  destruct (decide (x = 0%N)) as [->|Hne]; [by rewrite pretty_N_go_0|].
  rewrite pretty_N_go_step by lia. apply IH; [apply N.div_lt; lia|].
  constructor; [|done]. apply number_char_digit, N.mod_lt. lia.
Qed.

Lemma number_chars_N (x : N) : chars (pretty x) ≠ [] ∧ Forall number_char (chars (pretty x)).
Proof.
  split; [by destruct (pretty_N_head x) as (c & s & -> & _)|].
  unfold pretty, pretty_N. case_decide; [|apply number_chars_go; constructor].
  constructor; [|constructor]. unfold number_char. vm_compute. set_solver.
Qed.

Lemma number_chars z : chars (Itoa z) ≠ [] ∧ Forall number_char (chars (Itoa z)).
Proof.
  unfold Itoa. destruct z as [|p|p].
  - apply (number_chars_N 0).
  - apply (number_chars_N (Npos p)).
  - change (pretty (Z.neg p)) with ("-" +:+ pretty (N.pos p)). rewrite chars_app.
    split; [done|]. constructor; [|apply number_chars_N]. unfold number_char. set_solver.
Qed.

(** A number written with a line feed, as sysfs files hold it, is read back. *)
Lemma parse_int_Itoa z : is_int64 z → parse_int (Itoa z) = Ok z.
Proof. intros Hz. unfold parse_int. by rewrite Atoi_Itoa. Qed.

Lemma parse_int_line z :
  is_int64 z → parse_int (TrimSpace (Itoa z +:+ String (chr 10) "")) = Ok z.
Proof.
  intros Hz. unfold TrimSpace. rewrite chars_app. destruct (number_chars z) as [Hne Hall].
  change (chars (String (chr 10) "")) with [chr 10]. rewrite trim_number by done.
  rewrite of_chars_chars. by apply parse_int_Itoa.
Qed.

(** ** Lemmas: longer separators *)

Lemma split_str_skip sep k l :
  (k <= length l)%nat → split_str sep k l = split_str sep 0 (drop k l).
Proof.
  revert l. induction k as [|k IH]; intros [|a l] Hk; simpl in *; try done; try lia.
  apply IH. lia.
Qed.

(** The first separator cuts, if its first byte is not in the field before. *)
Lemma split_str_first a sep l r :
  a ∉ l → split_str (a :: sep) 0 (l ++ (a :: sep) ++ r) = l :: split_str (a :: sep) 0 r.
Proof.
  induction l as [|b l IH]; intros Hl.
  - simpl. rewrite decide_True by done. rewrite bool_decide_eq_true_2.
    + f_equal. rewrite split_str_skip by (rewrite length_app; lia).
      by rewrite Nat.sub_0_r, drop_app_length.
    + exists r. by apply strip_prefix_Some.
  - apply not_elem_of_cons in Hl as [Hb Hl]. specialize (IH Hl).
    cbn [app split_str strip_prefix] in IH |- *.
    rewrite decide_False by done. rewrite bool_decide_eq_false_2 by (by intros [? ?]).
    by rewrite IH.
Qed.

Lemma split_str_none sep l : sep ≠ [] → contains sep l = false → split_str sep 0 l = [l].
Proof.
  intros Hs. induction l as [|a l IH]; [done|]. cbn [contains split_str].
  intros [-> Hc]%orb_false_iff. by rewrite IH.
Qed.
