(* ===== verification/GoPath.v ===== *)
(** * What the program uses of Go's path/filepath (Unix)

    [Clean], [Join] and [Base] on slash-separated paths, and the facts the
    clients rely on: joining a directory with a file name prepends a prefix
    that depends on the directory only, so comparing full paths of one
    directory is comparing file names. *)

From S2P Require Import Prelude GoStrings.

Definition slash : ascii := "/"%char.

(** One step of [Clean] over the path elements already kept (last first):
    empty elements and [.] are dropped, [..] removes the element before it
    unless that is a [..] or there is none; at the root it is dropped. *)
Definition clean_step (rooted : bool) (kept : list string) (elem : string) : list string :=
  if decide (elem = "" ∨ elem = ".") then kept
  else if decide (elem = "..") then
    match kept with
    | [] => if rooted then [] else [".."]
    | last :: kept' => if decide (last = "..") then ".." :: kept else kept'
    end
  else elem :: kept.

Definition is_rooted (path : string) : bool :=
  match path with String c _ => bool_decide (c = slash) | EmptyString => false end.

Fixpoint join_slash (elems : list string) : string :=
  match elems with
  | [] => ""
  | [e] => e
  | e :: es => e +:+ String slash (join_slash es)
  end.

Definition clean_elems (path : string) : list string :=
  reverse (foldl (clean_step (is_rooted path)) [] (Split path slash)).

(** The cleaned elements written out. *)
Definition render (rooted : bool) (elems : list string) : string :=
  if rooted then String slash (join_slash elems)
  else match elems with [] => "." | _ => join_slash elems end.

Definition Clean (path : string) : string := render (is_rooted path) (clean_elems path).

(** [Join] ignores leading empty elements, joins the rest and cleans. *)
Fixpoint Join (elems : list string) : string :=
  match elems with
  | [] => ""
  | e :: es => if decide (e = "") then Join es else Clean (join_slash elems)
  end.

Definition Base (path : string) : string :=
  match reverse (filter (λ e, e ≠ "") (Split path slash)) with
  | e :: _ => e
  | [] => if decide (path = "") then "." else "/"
  end.

(** A directory entry's name: one path element that [Clean] keeps. *)
Definition plain_name (s : string) : Prop :=
  s ≠ "" ∧ s ≠ "." ∧ s ≠ ".." ∧ slash ∉ chars s.

#[global] Instance plain_name_dec s : Decision (plain_name s).
Proof. unfold plain_name. apply _. Defined.

(** What [Join] puts before a plain name in a directory. *)
Definition dir_prefix (dir : string) : string :=
  if decide (dir = "") then ""
  else match is_rooted dir, clean_elems dir with
       | false, [] => ""
       | true, [] => "/"
       | rooted, es => render rooted es +:+ "/"
       end.

(** ** Lemmas *)

Lemma string_app_assoc s t u : (s +:+ t) +:+ u = s +:+ (t +:+ u).
Proof. apply (inj String.list_ascii_of_string). by rewrite !chars_app, app_assoc. Qed.

Lemma string_app_nil_r s : s +:+ "" = s.
Proof. apply (inj String.list_ascii_of_string). by rewrite chars_app, app_nil_r. Qed.

Lemma split_on_nonempty c l : split_on c l ≠ [].
Proof. destruct l; simpl; [done|]. case_decide; [done|]. by destruct (split_on c l). Qed.

Lemma split_on_plain c l : c ∉ l → split_on c l = [l].
Proof.
  induction l as [|a l IH]; [done|]. rewrite not_elem_of_cons. intros [? ?].
  simpl. rewrite decide_False by congruence. by rewrite IH.
Qed.

Lemma split_on_app c l r : split_on c (l ++ c :: r) = split_on c l ++ split_on c r.
Proof.
  induction l as [|a l IH]; simpl.
  - by rewrite decide_True.
  - case_decide; [by rewrite IH|]. rewrite IH.
    pose proof (split_on_nonempty c l). by destruct (split_on c l).
Qed.

(** Fields joined by a separator byte. *)
Fixpoint join_on (c : ascii) (ws : list (list ascii)) : list ascii :=
  match ws with
  | [] => []
  | [w] => w
  | w :: ws => w ++ c :: join_on c ws
  end.

Lemma join_split_on c l : join_on c (split_on c l) = l.
Proof.
  induction l as [|a l IH]; [done|]. simpl. pose proof (split_on_nonempty c l).
  case_decide as E; [subst|]; destruct (split_on c l) as [|w [|w' ws]]; try done; simpl in *;
    by rewrite IH.
Qed.

Lemma split_on_join c ws :
  ws ≠ [] → Forall (λ w, c ∉ w) ws → split_on c (join_on c ws) = ws.
Proof.
  induction ws as [|w ws IH]; [done|]. intros _ [Hw Hws]%Forall_cons.
  destruct ws as [|w' ws]; [by apply split_on_plain|].
  change (join_on c (w :: w' :: ws)) with (w ++ c :: join_on c (w' :: ws)).
  rewrite split_on_app, split_on_plain, IH by done. done.
Qed.

Lemma Split_join dir name :
  slash ∉ chars name →
  Split (dir +:+ String slash name) slash = Split dir slash ++ [name].
Proof.
  intros Hn. unfold Split. rewrite chars_app. cbn [String.list_ascii_of_string].
  rewrite split_on_app, fmap_app. f_equal. rewrite split_on_plain by done.
  simpl. by rewrite of_chars_chars.
Qed.

Lemma is_rooted_app dir s : dir ≠ "" → is_rooted (dir +:+ s) = is_rooted dir.
Proof. by destruct dir. Qed.

Lemma clean_elems_join dir name :
  dir ≠ "" → plain_name name →
  clean_elems (dir +:+ String slash name) = clean_elems dir ++ [name].
Proof.
  intros Hd (Hn1 & Hn2 & Hn3 & Hn4). unfold clean_elems.
  rewrite is_rooted_app, Split_join, foldl_app by done. cbn [foldl].
  unfold clean_step at 1. rewrite !decide_False by naive_solver.
  by rewrite reverse_cons.
Qed.

Lemma join_slash_snoc es name :
  es ≠ [] → join_slash (es ++ [name]) = join_slash es +:+ String slash name.
Proof.
  induction es as [|e es IH]; [done|]. intros _. destruct es as [|e' es]; [done|].
  change ((e :: e' :: es) ++ [name]) with (e :: (e' :: es) ++ [name]).
  change (join_slash (e :: (e' :: es) ++ [name]))
    with (e +:+ String slash (join_slash ((e' :: es) ++ [name]))).
  rewrite IH by done.
  change (join_slash (e :: e' :: es)) with (e +:+ String slash (join_slash (e' :: es))).
  by rewrite string_app_assoc.
Qed.

Lemma render_snoc rooted es name :
  render rooted (es ++ [name]) =
  match rooted, es with
  | false, [] => name
  | true, [] => String slash name
  | _, _ => render rooted es +:+ String slash name
  end.
Proof.
  unfold render. destruct es as [|e es]; [by destruct rooted|].
  destruct rooted; rewrite join_slash_snoc by done; [done|]. by destruct es.
Qed.

(** Joining a plain name to a directory only prepends the directory's prefix. *)
Lemma Join_plain dir name :
  plain_name name → Join [dir; name] = dir_prefix dir +:+ name.
Proof.
  intros Hn. unfold Join, dir_prefix. case_decide as Hd.
  - subst. destruct Hn as (? & Hn). rewrite decide_False by done.
    change (join_slash [name]) with name.
    unfold Clean. assert (is_rooted name = false) as Hr.
    { destruct name as [|c s]; [done|]. simpl. apply bool_decide_eq_false.
      intros ->. destruct Hn as (_ & _ & Hs). set_solver. }
    assert (clean_elems name = [name]) as ->.
    { unfold clean_elems, Split. rewrite split_on_plain by naive_solver.
      simpl. rewrite of_chars_chars. unfold clean_step.
      by rewrite !decide_False by naive_solver. }
    by rewrite Hr.
  - change (join_slash [dir; name]) with (dir +:+ String slash name).
    unfold Clean. rewrite is_rooted_app, clean_elems_join, render_snoc by done.
    destruct (is_rooted dir), (clean_elems dir); try done; by rewrite string_app_assoc.
Qed.

(** ** The byte order on paths *)

Lemma compare_app_l p s t : String.compare (p +:+ s) (p +:+ t) = String.compare s t.
Proof.
  induction p as [|a p IH]; [done|].
  change (String a p +:+ s) with (String a (p +:+ s)).
  change (String a p +:+ t) with (String a (p +:+ t)). simpl.
  unfold Strings.Ascii.compare. by rewrite N.compare_refl.
Qed.

Lemma string_le_app_l p s t : String.le (p +:+ s) (p +:+ t) ↔ String.le s t.
Proof. unfold String.le, String.leb. by rewrite compare_app_l. Qed.

(** [sort.Strings]. *)
Definition sort_Strings (l : list string) : list string := merge_sort String.le l.

Lemma sort_Strings_sorted l : StronglySorted String.le (sort_Strings l).
Proof. apply (StronglySorted_merge_sort _). Qed.

Lemma sort_Strings_perm l : sort_Strings l ≡ₚ l.
Proof. apply merge_sort_Permutation. Qed.

(** Sorting commutes with an order-reflecting map. *)
Lemma sort_Strings_fmap (f : string → string) l :
  (∀ s t, s ∈ l → t ∈ l → String.le s t → String.le (f s) (f t)) →
  sort_Strings (f <$> l) = f <$> sort_Strings l.
Proof.
  intros Hf. apply (StronglySorted_unique String.le).
  - apply sort_Strings_sorted.
  - pose proof (sort_Strings_sorted l) as Hs.
    assert (∀ s, s ∈ sort_Strings l → s ∈ l) as Hin
      by (intros s; by rewrite sort_Strings_perm).
    induction Hs as [|s k Hk IH Hall]; simpl; [constructor|]. constructor.
    + apply IH. intros t Ht. apply Hin. by right.
    + rewrite Forall_fmap. rewrite Forall_forall in *. intros t Ht. simpl.
      apply Hf; [apply Hin; by left|apply Hin; by right|by apply Hall].
  - by rewrite !sort_Strings_perm.
Qed.

Lemma sort_Strings_id l : StronglySorted String.le l → sort_Strings l = l.
Proof.
  intros Hl. apply (StronglySorted_unique String.le); [apply sort_Strings_sorted|done|].
  apply sort_Strings_perm.
Qed.

(** ** Absolute paths *)

(** The absolute path of some elements. *)
Definition abs (elems : list string) : string := String slash (join_slash elems).

(** An element a path is built from: a plain name, or empty, which is dropped. *)
Definition optional_name (s : string) : Prop := s = "" ∨ plain_name s.

Lemma chars_join_slash es : chars (join_slash es) = join_on slash (String.list_ascii_of_string <$> es).
Proof.
  induction es as [|e es IH]; [done|]. destruct es as [|e' es]; [done|].
  change (join_slash (e :: e' :: es)) with (e +:+ String slash (join_slash (e' :: es))).
  rewrite chars_app. cbn [String.list_ascii_of_string]. by rewrite IH.
Qed.

Lemma Split_join_slash es :
  es ≠ [] → Forall (λ e, slash ∉ chars e) es → Split (join_slash es) slash = es.
Proof.
  intros Hne Hes. unfold Split. rewrite chars_join_slash, split_on_join.
  - rewrite <-list_fmap_compose. rewrite (list_fmap_ext _ id); [by rewrite list_fmap_id|].
    intros i e _. apply of_chars_chars.
  - by destruct es.
  - by rewrite Forall_fmap.
Qed.

Lemma clean_optional rooted kept es :
  Forall optional_name es →
  foldl (clean_step rooted) kept es = reverse (filter (λ e, e ≠ "") es) ++ kept.
Proof.
  intros Hes. revert kept. induction Hes as [|e es He _ IH]; intros kept; [done|]. simpl.
  rewrite IH, filter_cons. unfold clean_step. destruct He as [->|(? & ? & ? & ?)].
  - by rewrite decide_True, decide_False by auto.
  - rewrite !decide_False by tauto. rewrite decide_True by done.
    by rewrite reverse_cons, <-app_assoc.
Qed.

Lemma optional_no_slash e : optional_name e → slash ∉ chars e.
Proof. intros [->|(_ & _ & _ & H)]; [|done]. apply not_elem_of_nil. Qed.

(** Joining to an absolute path appends the elements that are not empty. *)
Lemma Join_abs es es' :
  es ≠ [] → Forall optional_name es → Forall optional_name es' →
  Join (abs es :: es') = abs (filter (λ e, e ≠ "") (es ++ es')).
Proof.
  intros Hne Hes Hes'. unfold Join. rewrite decide_False by done.
  assert (join_slash (abs es :: es') = join_slash ("" :: es ++ es')) as ->.
  { apply (inj String.list_ascii_of_string). rewrite !chars_join_slash.
    destruct es as [|e es]; [done|]. clear. unfold abs. cbn [fmap list_fmap app].
    cbn [String.list_ascii_of_string]. rewrite chars_join_slash. cbn [fmap list_fmap].
    rewrite fmap_app. revert e. induction es as [|e2 es IH]; intros e; cbn [fmap list_fmap app].
    - by destruct (String.list_ascii_of_string <$> es').
    - specialize (IH e2). destruct es'; simpl in *.
      + rewrite app_nil_r. done.
      + cbn [join_on] in *. injection IH as IH. rewrite <-app_assoc. by rewrite <-IH. }
  unfold Clean, clean_elems. rewrite Split_join_slash; [|done|].
  - cbn [foldl]. rewrite clean_optional by (by apply Forall_app). rewrite app_nil_r, reverse_involutive.
    destruct es as [|e es]; [done|]. done.
  - constructor; [apply not_elem_of_nil|]. apply Forall_app. split; eapply Forall_impl; eauto using optional_no_slash.
Qed.
