(* ===== verification/OS.v ===== *)
(** * The operating system the tools run on

    The parts of the environment the program reaches through Go's os, os/exec
    and path/filepath packages.  They are interfaces ([FileSystem],
    [Processes]) over an abstract world [W] that every component takes as a
    parameter; [prog W A] is a computation that reads and changes the world
    and may block forever ([None]).  [cmd_Run] models [exec.Cmd.Run] with a
    deadline, which returns when the process is gone and its output pipes have
    reached their end.  [MemFS] is a concrete instance for evaluation. *)

From S2P Require Import Prelude GoStrings GoPath.
Local Open Scope Z_scope.

(** ** Computations *)

Definition prog (W A : Type) : Type := W → option (A * W).

Definition pret {W A} (a : A) : prog W A := λ w, Some (a, w).

Definition pbind {W A B} (m : prog W A) (k : A → prog W B) : prog W B :=
  λ w, match m w with
       | None => None
       | Some (a, w') => k a w'
       end.

(** Reading the world without changing it. *)
Definition pget {W A} (f : W → A) : prog W A := λ w, Some (f w, w).

Declare Scope prog_scope.
Delimit Scope prog_scope with prog.

Notation "'let!' x ':=' m 'in' k" := (pbind m (λ x, k))
  (at level 10, x pattern, m at level 100, k at level 200) : prog_scope.

Lemma pbind_Some {W A B} (m : prog W A) (k : A → prog W B) w b w2 :
  pbind m k w = Some (b, w2) ↔
  ∃ a w1, m w = Some (a, w1) ∧ k a w1 = Some (b, w2).
Proof.
  unfold pbind. destruct (m w) as [[a w1]|]; naive_solver.
Qed.

(** ** Files *)

(** [fs.FileInfo]: the type of the file and its permission bits. *)
Record FileInfo := mkFileInfo {
  fi_IsDir : bool;
  fi_IsRegular : bool;
  fi_Perm : Z;
}.

(** [fs.DirEntry]: the type is the entry's own, a symbolic link is not
    followed. *)
Record DirEntry := mkDirEntry {
  de_Name : string;
  de_IsDir : bool;
  de_IsSymlink : bool;
}.

(** [os_Stat] follows symbolic links, [os_Lstat] does not. [os_WriteFile path
    data perm] truncates an existing file and creates a missing one with the
    permissions [perm]. *)
Class FileSystem (W : Type) := {
  os_Stat : string → W → res FileInfo;
  os_Lstat : string → W → res FileInfo;
  os_ReadDir : string → W → res (list DirEntry);
  os_ReadFile : string → W → res string;
  os_WriteFile : string → string → Z → W → option goerror * W;
  filepath_EvalSymlinks : string → W → res string;
}.

(** Files opened for writing without truncation: [os.OpenFile(path,
    os.O_WRONLY, 0)], which fails when the file is not there, and a write at
    the start of the open file. *)
Class OpenFiles (W : Type) := {
  os_OpenWrite : string → W → option goerror;
  file_WriteString : string → string → W → option goerror * W;
}.

(** [os.ReadDir] returns the entries sorted by filename; names are single
    path elements and distinct. *)
Class FileSystemLaws (W : Type) `{FileSystem W} := {
  ReadDir_sorted : ∀ dir w es,
    os_ReadDir dir w = Ok es → StronglySorted String.le (de_Name <$> es);
  ReadDir_plain : ∀ dir w es,
    os_ReadDir dir w = Ok es → Forall plain_name (de_Name <$> es);
  ReadDir_nodup : ∀ dir w es,
    os_ReadDir dir w = Ok es → NoDup (de_Name <$> es);
}.

(** [info.Mode()&0111 == 0]. *)
Definition not_executable (info : FileInfo) : bool := Z.land (fi_Perm info) 73 =? 0.

(** ** Processes *)

(** What a started command does, times in milliseconds after the start.
    [p_exit_at = None]: it never exits on its own. [p_holders] are its
    descendants that inherited the output pipes, by the time each of them exits;
    [None] is one that never does. *)
Record process := mkProcess {
  p_start_err : option goerror;
  p_exit_at : option Z;
  p_exit_code : Z;
  p_stdout : string;
  p_stderr : string;
  p_holders : list (option Z);
}.

(** Starting [path] with arguments and standard input. *)
Class Processes (W : Type) := {
  exec_start : string → list string → string → W → process * W;
}.

Record run_result := mkRun {
  run_err : option goerror;
  run_stdout : string;
  run_stderr : string;
  run_elapsed : Z;
}.

(** The time the process is gone: on its own, or killed at the deadline. *)
Definition gone_at (deadline : Z) (p : process) : Z :=
  match p_exit_at p with
  | Some t => Z.min t deadline
  | None => deadline
  end.

Definition killed (deadline : Z) (p : process) : bool :=
  match p_exit_at p with Some t => t >? deadline | None => true end.

(** The time the output pipes reach end of file: when the last of the processes
    that hold them is gone ([None]: never). *)
Fixpoint pipes_eof (t : Z) (holders : list (option Z)) : option Z :=
  match holders with
  | [] => Some t
  | None :: _ => None
  | Some t' :: holders => pipes_eof (Z.max t t') holders
  end.

(** [cmd.Run] of an [exec.CommandContext] with a deadline, with in-memory
    output buffers and no [WaitDelay]: the deadline kills the process, and only
    it; the call returns once the process is gone and the output was read up to
    its end. *)
Definition cmd_Run (deadline : Z) (p : process) : option run_result :=
  match p_start_err p with
  | Some e => Some (mkRun (Some e) "" "" 0)
  | None =>
      let err :=
        if killed deadline p then Some (SysError "signal: killed")
        else if p_exit_code p =? 0 then None
        else Some (Errorf "exit status %d" [ArgD (p_exit_code p)]) in
      match pipes_eof (gone_at deadline p) (p_holders p) with
      | Some t => Some (mkRun err (p_stdout p) (p_stderr p) t)
      | None => None
      end
  end.

(** No descendant keeps the pipes open past the process. *)
Definition no_orphans (p : process) : Prop := p_holders p = [].

Lemma pipes_eof_None t holders : pipes_eof t holders = None ↔ None ∈ holders.
Proof.
  revert t. induction holders as [|[t'|] holders IH]; intros t; simpl.
  - split; [done|]. by intros ?%elem_of_nil.
  - rewrite IH, elem_of_cons. naive_solver.
  - split; [left|done].
Qed.

(** The call hangs exactly when the command was started and a descendant keeps
    an output pipe for good, whatever the deadline. *)
Lemma cmd_Run_hangs deadline p :
  cmd_Run deadline p = None ↔ p_start_err p = None ∧ None ∈ p_holders p.
Proof.
  unfold cmd_Run. destruct (p_start_err p); [naive_solver|].
  rewrite <-(pipes_eof_None (gone_at deadline p)).
  destruct (pipes_eof _ _); naive_solver.
Qed.

Lemma cmd_Run_bounded deadline p r :
  0 ≤ deadline → no_orphans p → (∀ t, p_exit_at p = Some t → 0 ≤ t) →
  cmd_Run deadline p = Some r → 0 ≤ run_elapsed r ≤ deadline.
Proof.
  unfold cmd_Run, no_orphans, gone_at. intros Hd -> Ht. cbn [pipes_eof].
  destruct (p_start_err p); intros; go_inv; simpl; [lia|].
  destruct (p_exit_at p) as [t|]; [|lia]. specialize (Ht t eq_refl). lia.
Qed.

Lemma cmd_Run_returns deadline p : no_orphans p → is_Some (cmd_Run deadline p).
Proof. unfold cmd_Run, no_orphans. intros ->. destruct (p_start_err p); eauto. Qed.

(** ** An in-memory file system *)

Inductive node :=
  | NFile (perm : Z) (content : string)
  | NDir (entries : list DirEntry).

Record MemFS := mkMemFS {
  mem_nodes : gmap string node;
  mem_links : gmap string string;
}.

Definition mem_lookup (path : string) (w : MemFS) : option node :=
  mem_nodes w !! default path (mem_links w !! path).

#[global] Instance MemFS_FileSystem : FileSystem MemFS := {|
  os_Stat path w :=
    match mem_lookup path w with
    | Some (NFile perm _) => Ok (mkFileInfo false true perm)
    | Some (NDir _) => Ok (mkFileInfo true false 493)
    | None => Err (ErrNotExist ("stat " +:+ path))
    end;
  os_Lstat path w :=
    match mem_links w !! path, mem_nodes w !! path with
    | Some _, _ => Ok (mkFileInfo false false 511)
    | None, Some (NFile perm _) => Ok (mkFileInfo false true perm)
    | None, Some (NDir _) => Ok (mkFileInfo true false 493)
    | None, None => Err (ErrNotExist ("lstat " +:+ path))
    end;
  os_ReadDir path w :=
    match mem_lookup path w with
    | Some (NDir es) => Ok es
    | Some (NFile _ _) => Err (SysError ("readdirent " +:+ path +:+ ": not a directory"))
    | None => Err (ErrNotExist ("open " +:+ path))
    end;
  os_ReadFile path w :=
    match mem_lookup path w with
    | Some (NFile _ c) => Ok c
    | Some (NDir _) => Err (SysError ("read " +:+ path +:+ ": is a directory"))
    | None => Err (ErrNotExist ("open " +:+ path))
    end;
  os_WriteFile path data perm w :=
    match mem_lookup path w with
    | Some (NFile old _) =>
        (None, mkMemFS (<[default path (mem_links w !! path) := NFile old data]> (mem_nodes w))
                       (mem_links w))
    | Some (NDir _) => (Some (SysError ("open " +:+ path +:+ ": is a directory")), w)
    | None => (None, mkMemFS (<[path := NFile perm data]> (mem_nodes w)) (mem_links w))
    end;
  filepath_EvalSymlinks path w :=
    match mem_lookup path w with
    | Some _ => Ok (default path (mem_links w !! path))
    | None => Err (ErrNotExist ("lstat " +:+ path))
    end;
|}.

(** Writing at the start of a regular file keeps what is past the new data. *)
Definition overwrite (old new : string) : string :=
  new +:+ of_chars (drop (String.length new) (chars old)).

#[global] Instance MemFS_OpenFiles : OpenFiles MemFS := {|
  os_OpenWrite path w :=
    match mem_lookup path w with
    | Some (NFile _ _) => None
    | Some (NDir _) => Some (SysError ("open " +:+ path +:+ ": is a directory"))
    | None => Some (ErrNotExist ("open " +:+ path))
    end;
  file_WriteString path data w :=
    match mem_lookup path w with
    | Some (NFile perm old) =>
        (None, mkMemFS (<[default path (mem_links w !! path) := NFile perm (overwrite old data)]>
                          (mem_nodes w)) (mem_links w))
    | _ => (Some (SysError ("write " +:+ path +:+ ": bad file descriptor")), w)
    end;
|}.
