(* ===== verification/Hook.v ===== *)
(** * Hook scripts (virtinjectd/hook.go)

    [HookChain] runs one configured script and the scripts of a directory as
    a pipeline of filters over the domain XML.  The file system and the
    scripts are the interfaces of [OS]; logging is not modelled.
    [runHook] may block forever when a script leaves a descendant that holds
    its output, whatever the timeout: this is an outcome of the model. *)

From S2P Require Import Prelude GoStrings GoPath OS.
Local Open Scope Z_scope.
Local Open Scope go_scope.
Local Open Scope prog_scope.

(** A run of the hooks that has begun: some are still to run, or it has its
    result. *)
Inductive progress (T : Type) :=
  | Running (t : T)
  | Finished (r : string * option goerror).
Arguments Running {T} _.
Arguments Finished {T} _.

(** Hooks run one after the other, in a world that others may change ([rely])
    before each of them. *)
Inductive runs {T W : Type} (next : T → W → option (progress T * W)) (rely : relation W)
  : progress T → W → string * option goerror → W → Prop :=
  | runs_done r w : runs next rely (Finished r) w r w
  | runs_next t w w0 p w1 r w2 :
      rtc rely w w0 → next t w0 = Some (p, w1) → runs next rely p w1 r w2 →
      runs next rely (Running t) w r w2.

(** Nobody else changes the world. *)
Definition undisturbed {W : Type} : relation W := λ _ _, False.

(** What the proxy needs of a chain of hooks: a filter on the XML with an
    error result. On an error the XML is the one that was passed in. The same
    run step by step: [hook_begin] finds the hooks, [hook_next] runs the next
    one ([None] if it never returns), and there are [hook_size] more after it. *)
Class HookRunner (W H : Type) := {
  hook_run : H → string → prog W (string * option goerror);
  hook_run_err : ∀ h xml w s e w',
    hook_run h xml w = Some ((s, Some e), w') → s = xml;
  hook_thread : Type;
  hook_begin : H → string → W → progress hook_thread;
  hook_next : hook_thread → W → option (progress hook_thread * W);
  hook_size : hook_thread → nat;
  hook_next_size : ∀ t w t' w',
    hook_next t w = Some (Running t', w') → (hook_size t' < hook_size t)%nat;
  hook_run_steps : ∀ h xml w r w',
    hook_run h xml w = Some (r, w') ↔ runs hook_next undisturbed (hook_begin h xml w) w r w';
}.

Section runs.
Context {T W : Type} (next : T → W → option (progress T * W)).

(** Waiting before the first step makes no difference. *)
Lemma runs_wait (rely : relation W) t w w0 r w' :
  rtc rely w w0 → runs next rely (Running t) w0 r w' → runs next rely (Running t) w r w'.
Proof.
  intros Hw Hr. inversion Hr; subst. econstructor; [|done..]. by etrans.
Qed.

Lemma runs_mono (r1 r2 : relation W) p w r w' :
  (∀ x y, r1 x y → r2 x y) → runs next r1 p w r w' → runs next r2 p w r w'.
Proof.
  intros Hsub. induction 1 as [|t w w0 p w1 r w2 Hw Hn _ IH]; [constructor|].
  econstructor; [|done..]. clear -Hw Hsub. induction Hw; eauto using rtc.
Qed.

Lemma rtc_undisturbed (w w' : W) : rtc undisturbed w w' → w' = w.
Proof. by destruct 1. Qed.

End runs.

Module Hook.

(** [3 * time.Second], in milliseconds. *)
Definition hookTimeout : Z := 3000.

Definition defaultHookDomainName : string := "virtinjectd".

Record HookChain := mkHookChain {
  hookPath : string;
  hookDirPath : string;
  hookDomainName : string;
}.

Section hooks.
Context {W : Type} `{!FileSystem W, !Processes W}.

(** The validation of the single hook script. *)
Definition check_hook (hookPath : string) (w : W) : res unit :=
  if bool_decide (hookPath = "") then Ok ()
  else
    match os_Stat hookPath w with
    | Err e => Err (Errorf "hook script %q: %w" [ArgQ hookPath; ArgW e])
    | Ok info =>
        if fi_IsDir info then
          Err (Errorf "hook script %q is a directory, not a file" [ArgQ hookPath])
        else if not_executable info then
          Err (Errorf "hook script %q is not executable" [ArgQ hookPath])
        else Ok ()
    end.

(** The validation of the hook directory. *)
Definition check_dir (hookDirPath : string) (w : W) : res unit :=
  if bool_decide (hookDirPath = "") then Ok ()
  else
    match os_Stat hookDirPath w with
    | Err e => Err (Errorf "hook directory %q: %w" [ArgQ hookDirPath; ArgW e])
    | Ok info =>
        if negb (fi_IsDir info) then
          Err (Errorf "hook directory %q is not a directory" [ArgQ hookDirPath])
        else Ok ()
    end.

Definition NewHookChain (hookPath hookDirPath hookDomainName : string) (w : W) : res HookChain :=
  if bool_decide (hookPath = "") && bool_decide (hookDirPath = "") then
    Err (Errorf "at least one of hookPath or hookDirPath must be specified" [])
  else
    let* _ := check_hook hookPath w in
    let* _ := check_dir hookDirPath w in
    let hookDomainName :=
      if bool_decide (hookDomainName = "") then defaultHookDomainName else hookDomainName in
    Ok {| hookPath := hookPath;
          hookDirPath := hookDirPath;
          hookDomainName := hookDomainName |}.

(** The path of a directory entry that is kept: not a directory, can be
    stat'ed, regular, executable. *)
Definition hook_entry (dirPath : string) (w : W) (entry : DirEntry) : option string :=
  if de_IsDir entry then None
  else
    let fullPath := Join [dirPath; de_Name entry] in
    match os_Stat fullPath w with
    | Err _ => None
    | Ok info =>
        if negb (fi_IsRegular info) then None
        else if not_executable info then None
        else Some fullPath
    end.

Definition listHookDir (dirPath : string) (w : W) : res (list string) :=
  match os_ReadDir dirPath w with
  | Err e => Err (Errorf "reading directory %q: %w" [ArgQ dirPath; ArgW e])
  | Ok entries => Ok (sort_Strings (omap (hook_entry dirPath w) entries))
  end.

(** The arguments after the script path. *)
Definition hook_args (domainName : string) : list string :=
  [domainName; "prepare"; "begin"; "-"].

(** Returns the XML and the error, both. *)
Definition runHook (hookPath domainName xmlInput : string) : prog W (string * option goerror) :=
  λ w,
    let '(p, w) := exec_start hookPath (hook_args domainName) xmlInput w in
    match cmd_Run hookTimeout p with
    | None => None
    | Some r =>
        match run_err r with
        | Some e => Some ((xmlInput, Some (Errorf "hook %q failed: %w" [ArgQ hookPath; ArgW e])), w)
        | None =>
            let output := run_stdout r in
            if bool_decide (TrimSpace output = "") then Some ((xmlInput, None), w)
            else Some ((output, None), w)
        end
    end.

(** The loop over the discovered hooks: a failing hook keeps the current XML. *)
Fixpoint run_all (domainName : string) (hooks : list string) (currentXML : string)
  : prog W string :=
  match hooks with
  | [] => pret currentXML
  | hookPath :: hooks =>
      let! r := runHook hookPath domainName currentXML in
      match r with
      | (_, Some _) => run_all domainName hooks currentXML
      | (output, None) => run_all domainName hooks output
      end
  end.

(** Steps 1 and 2: the hooks of a chain, in execution order. *)
Definition chain_hooks (hc : HookChain) (w : W) : res (list string) :=
  let hooks := if bool_decide (hookPath hc = "") then [] else [hookPath hc] in
  if bool_decide (hookDirPath hc = "") then Ok hooks
  else
    match listHookDir (hookDirPath hc) w with
    | Err e => Err (Errorf "listing hook directory %q: %w" [ArgQ (hookDirPath hc); ArgW e])
    | Ok hooksFromDir => Ok (hooks ++ hooksFromDir)
    end.

Definition HookChain_Run (hc : HookChain) (xmlInput : string) : prog W (string * option goerror) :=
  λ w,
    match chain_hooks hc w with
    | Err e => Some ((xmlInput, Some e), w)
    | Ok hooks => (let! out := run_all (hookDomainName hc) hooks xmlInput in pret (out, None)) w
    end.

(** ** The chain is a hook runner *)

Lemma HookChain_Run_err hc xml w s e w' :
  HookChain_Run hc xml w = Some ((s, Some e), w') → s = xml.
Proof.
  unfold HookChain_Run. destruct (chain_hooks hc w).
  - rewrite pbind_Some. intros (? & ? & _ & ?). by go_inv.
  - intros. by go_inv.
Qed.

(** A chain under way: the hook to run next, those after it, and the XML they
    get. *)
Record chain_thread := mkThread {
  ct_domainName : string;
  ct_next : string;
  ct_rest : list string;
  ct_currentXML : string;
}.

(** The loop of [Run] at the top of an iteration. *)
Definition chain_progress (domainName : string) (hooks : list string) (currentXML : string)
  : progress chain_thread :=
  match hooks with
  | [] => Finished (currentXML, None)
  | hookPath :: hooks => Running (mkThread domainName hookPath hooks currentXML)
  end.

(** Up to the loop. *)
Definition chain_begin (hc : HookChain) (xmlInput : string) (w : W) : progress chain_thread :=
  match chain_hooks hc w with
  | Err e => Finished (xmlInput, Some e)
  | Ok hooks => chain_progress (hookDomainName hc) hooks xmlInput
  end.

(** One iteration of the loop. *)
Definition chain_next (t : chain_thread) (w : W) : option (progress chain_thread * W) :=
  match runHook (ct_next t) (ct_domainName t) (ct_currentXML t) w with
  | None => None
  | Some ((_, Some _), w) => Some (chain_progress (ct_domainName t) (ct_rest t) (ct_currentXML t), w)
  | Some ((output, None), w) => Some (chain_progress (ct_domainName t) (ct_rest t) output, w)
  end.

Lemma chain_next_size t w t' w' :
  chain_next t w = Some (Running t', w') → (length (ct_rest t') < length (ct_rest t))%nat.
Proof.
  unfold chain_next, chain_progress.
  destruct (runHook _ _ _ w) as [[[x [e|]] w1]|]; [..|done];
    destruct (ct_rest t); intros [= <- _]; simpl; lia.
Qed.

(** The loop and its iterations. *)
Lemma chain_runs dn hooks xml w r w' :
  runs chain_next undisturbed (chain_progress dn hooks xml) w r w' ↔
  r.2 = None ∧ run_all dn hooks xml w = Some (r.1, w').
Proof.
  revert xml w. induction hooks as [|path hooks IH]; intros xml w; cbn [chain_progress run_all].
  - split; [intros Hr; by inversion Hr|]. destruct r as [x e]. intros [? Hr]. simpl in *. unfold pret in Hr.
    simplify_eq. constructor.
  - unfold pbind. split.
    + intros Hr. inversion Hr as [|? ? w0 p w1 ? ? Hw Hn Hr']; subst. apply rtc_undisturbed in Hw as ->.
      unfold chain_next in Hn. cbn in Hn.
      destruct (runHook path dn xml w) as [[[x [e|]] w2]|]; simplify_eq; by apply IH.
    + intros [He Hr]. destruct (runHook path dn xml w) as [[[x [e|]] w2]|] eqn:E; [| |done];
        (eapply runs_next; [done|unfold chain_next; cbn; by rewrite E|]); by apply IH.
Qed.

Lemma HookChain_Run_steps hc xml w r w' :
  HookChain_Run hc xml w = Some (r, w') ↔ runs chain_next undisturbed (chain_begin hc xml w) w r w'.
Proof.
  unfold HookChain_Run, chain_begin. destruct (chain_hooks hc w) as [hooks|e].
  - rewrite chain_runs, pbind_Some. destruct r as [x e]. unfold pret. simpl. split.
    + intros (? & ? & ? & ?). by simplify_eq.
    + intros [-> ?]. eauto.
  - split; [intros [= <- <-]; constructor|]. intros Hr. by inversion Hr.
Qed.

#[global] Instance HookChain_HookRunner : HookRunner W HookChain := {|
  hook_run := HookChain_Run;
  hook_run_err := HookChain_Run_err;
  hook_thread := chain_thread;
  hook_begin := chain_begin;
  hook_next := chain_next;
  hook_size t := length (ct_rest t);
  hook_next_size := chain_next_size;
  hook_run_steps := HookChain_Run_steps;
|}.

(** ** Specification of a chain

    [effect] is what one finished hook does to the current XML; [pipeline]
    is the run of a list of hooks with the documented arguments and three
    seconds each: each gets the XML its predecessor left, and the elapsed times
    add up. *)

Definition effect (xml : string) (r : run_result) : string :=
  match run_err r with
  | Some _ => xml
  | None => if bool_decide (TrimSpace (run_stdout r) = "") then xml else run_stdout r
  end.

Inductive pipeline (dn : string) : list string → string → W → string → W → Z → Prop :=
  | pipeline_nil xml w : pipeline dn [] xml w xml w 0
  | pipeline_cons path hooks xml w p w1 r out w2 t :
      exec_start path [dn; "prepare"; "begin"; "-"] xml w = (p, w1) →
      cmd_Run 3000 p = Some r →
      pipeline dn hooks (effect xml r) w1 out w2 t →
      pipeline dn (path :: hooks) xml w out w2 (run_elapsed r + t).

(** The same with others at work: each hook is run in a world that came after
    the one its predecessor left. *)
Inductive ipipeline (rely : relation W) (dn : string) : list string → string → W → string → W → Prop :=
  | ipipeline_nil xml w : ipipeline rely dn [] xml w xml w
  | ipipeline_cons path hooks xml w w0 p w1 r out w2 :
      rtc rely w w0 →
      exec_start path [dn; "prepare"; "begin"; "-"] xml w0 = (p, w1) →
      cmd_Run 3000 p = Some r →
      ipipeline rely dn hooks (effect xml r) w1 out w2 →
      ipipeline rely dn (path :: hooks) xml w out w2.

(** Every script exits without leaving its output open, at a time >= 0. *)
Definition scripts_behave : Prop := ∀ path args stdin w,
  let p := (exec_start path args stdin w).1 in
  no_orphans p ∧ ∀ t, p_exit_at p = Some t → 0 ≤ t.

(** ** Lemmas: validation *)

Lemma check_hook_ok path w :
  check_hook path w = Ok () ↔
  (path ≠ "" → ∃ i, os_Stat path w = Ok i ∧ fi_IsDir i = false ∧ not_executable i = false).
Proof.
  unfold check_hook. case_bool_decide as E; [naive_solver|].
  destruct (os_Stat path w) as [i|].
  - destruct (fi_IsDir i) eqn:?, (not_executable i) eqn:?; split; try done;
      intros H; destruct (H E) as (? & ? & ? & ?) || eauto 10; go_inv; congruence.
  - split; [done|]. intros H. by destruct (H E) as (? & ? & ?).
Qed.

Lemma check_dir_ok path w :
  check_dir path w = Ok () ↔ (path ≠ "" → ∃ i, os_Stat path w = Ok i ∧ fi_IsDir i = true).
Proof.
  unfold check_dir. case_bool_decide as E; [naive_solver|].
  destruct (os_Stat path w) as [i|].
  - destruct (fi_IsDir i) eqn:?; simpl; split; try done; eauto.
    intros H. destruct (H E) as (? & ? & ?); go_inv; congruence.
  - split; [done|]. intros H. by destruct (H E) as (? & ? & ?).
Qed.

(** ** Lemmas: one hook *)

Lemma runHook_Some path dn xml w x e w' :
  runHook path dn xml w = Some ((x, e), w') ↔
  ∃ p r, exec_start path (hook_args dn) xml w = (p, w') ∧
    cmd_Run hookTimeout p = Some r ∧ x = effect xml r ∧
    e = (λ e, Errorf "hook %q failed: %w" [ArgQ path; ArgW e]) <$> run_err r.
Proof.
  unfold runHook, effect. destruct (exec_start _ _ _ w) as [p w1] eqn:Es.
  destruct (cmd_Run _ p) as [r|] eqn:Er; [|naive_solver].
  split.
  - intros H. exists p, r. split_and!; try done;
      destruct (run_err r) as [err|]; try case_bool_decide; by go_inv.
  - intros (? & ? & ? & ? & -> & ->). simplify_eq.
    destruct (run_err _) as [err|]; try case_bool_decide; done.
Qed.

Lemma runHook_unfold path dn xml w p w' r :
  exec_start path (hook_args dn) xml w = (p, w') →
  cmd_Run hookTimeout p = Some r →
  runHook path dn xml w = Some ((effect xml r,
    (λ e, Errorf "hook %q failed: %w" [ArgQ path; ArgW e]) <$> run_err r), w').
Proof. intros. apply runHook_Some. eauto 10. Qed.

(** The loop keeps the XML a hook leaves, whether it failed or not. *)
Lemma run_all_cons dn path hooks xml w :
  run_all dn (path :: hooks) xml w =
  match runHook path dn xml w with
  | None => None
  | Some ((x, _), w') => run_all dn hooks x w'
  end.
Proof.
  cbn [run_all]. unfold pbind. destruct (runHook _ _ _ w) as [[[x [e|]] w']|] eqn:E; try done.
  apply runHook_Some in E as (p & r & _ & _ & -> & He).
  unfold effect. destruct (run_err r); done.
Qed.

Lemma run_all_pipeline dn hooks xml w out w' :
  run_all dn hooks xml w = Some (out, w') ↔ ∃ t, pipeline dn hooks xml w out w' t.
Proof.
  revert xml w. induction hooks as [|path hooks IH]; intros xml w.
  - split.
    + intros; simpl in *. unfold pret in *. go_inv. eexists. constructor.
    + intros [t H]. by inversion H.
  - rewrite run_all_cons. split.
    + destruct (runHook _ _ _ w) as [[[x e] w1]|] eqn:E; [|done].
      apply runHook_Some in E as (p & r & ? & ? & -> & _).
      intros [t Ht]%IH. eexists. by econstructor.
    + intros [t H]. inversion H as [|? ? ? ? p w1 r ? ? t' Hs Hr Hp]; subst.
      rewrite (runHook_unfold _ _ _ _ _ _ _ Hs Hr). apply IH. eauto.
Qed.

(** A chain among others is a pipeline among others. *)
Lemma chain_next_effect dn path hooks xml w p w' :
  chain_next (mkThread dn path hooks xml) w = Some (p, w') ↔
  ∃ x r, exec_start path (hook_args dn) xml w = (x, w') ∧ cmd_Run hookTimeout x = Some r ∧
    p = chain_progress dn hooks (effect xml r).
Proof.
  unfold chain_next. cbn [ct_next ct_domainName ct_currentXML ct_rest]. split.
  - destruct (runHook path dn xml w) as [[[x e] w1]|] eqn:E; [|done].
    apply runHook_Some in E as (q & r & ? & ? & -> & ->). intros Hn. exists q, r.
    unfold effect in *. destruct (run_err r); simpl in Hn; simplify_eq; done.
  - intros (x & r & Hs & Hr & ->). rewrite (runHook_unfold _ _ _ _ _ _ _ Hs Hr).
    unfold effect. by destruct (run_err r).
Qed.

(** The next hook never returns exactly when it starts and a descendant keeps
    its output for good. *)
Lemma chain_next_hangs t w :
  chain_next t w = None ↔
  let q := (exec_start (ct_next t) [ct_domainName t; "prepare"; "begin"; "-"] (ct_currentXML t) w).1 in
  p_start_err q = None ∧ None ∈ p_holders q.
Proof.
  unfold chain_next, runHook. change (hook_args (ct_domainName t)) with [ct_domainName t; "prepare"; "begin"; "-"].
  destruct (exec_start _ _ _ w) as [q w1]. cbn [fst]. rewrite <-(cmd_Run_hangs hookTimeout).
  destruct (cmd_Run hookTimeout q) as [r|]; [|done].
  destruct (run_err r); [done|]. by case_bool_decide.
Qed.

Lemma chain_ipipeline rely dn hooks xml w r w' :
  runs chain_next rely (chain_progress dn hooks xml) w r w' ↔
  r.2 = None ∧ ipipeline rely dn hooks xml w r.1 w'.
Proof.
  revert xml w. induction hooks as [|path hooks IH]; intros xml w; cbn [chain_progress].
  - split; [intros Hr; inversion Hr; subst; split; [done|constructor]|].
    destruct r as [x e]. intros [? Hr]. simpl in *. inversion Hr; subst. constructor.
  - split.
    + intros Hr. inversion Hr as [|? ? w0 p w1 ? ? Hw Hn Hr']; subst.
      apply chain_next_effect in Hn as (x & rr & ? & ? & ->). apply IH in Hr' as [? ?].
      split; [done|]. by econstructor.
    + intros [He Hr]. inversion Hr; subst. eapply runs_next; [done|by apply chain_next_effect; eauto|].
      by apply IH.
Qed.

(** ** Lemmas: termination and time *)

Lemma pipeline_total dn hooks xml w :
  scripts_behave → ∃ out w' t, pipeline dn hooks xml w out w' t.
Proof.
  intros Hb. revert xml w. induction hooks as [|path hooks IH]; intros xml w.
  { eexists _, _, _. constructor. }
  destruct (exec_start path (hook_args dn) xml w) as [p w1] eqn:Es.
  destruct (Hb path (hook_args dn) xml w) as [Ho _]. rewrite Es in Ho.
  destruct (cmd_Run_returns hookTimeout p Ho) as [r Hr].
  destruct (IH (effect xml r) w1) as (out & w2 & t & ?).
  eexists _, _, _. by econstructor.
Qed.

Lemma pipeline_time dn hooks xml w out w' t :
  scripts_behave → pipeline dn hooks xml w out w' t → 0 ≤ t ≤ hookTimeout * zlen hooks.
Proof.
  intros Hb. induction 1 as [|path hooks xml w p w1 r out w2 t Hs Hr Hp IH].
  { unfold zlen; simpl; lia. }
  destruct (Hb path [dn; "prepare"; "begin"; "-"] xml w) as [Ho Ht]. rewrite Hs in Ho, Ht.
  pose proof (cmd_Run_bounded hookTimeout p r ltac:(done) Ho Ht Hr).
  unfold zlen in *. cbn [length]. lia.
Qed.

(** ** Lemmas: the hook directory *)

Lemma hook_entry_Some dir w entry path :
  hook_entry dir w entry = Some path ↔
  path = Join [dir; de_Name entry] ∧ de_IsDir entry = false ∧
  ∃ info, os_Stat path w = Ok info ∧ fi_IsRegular info = true ∧ not_executable info = false.
Proof.
  unfold hook_entry. split.
  - destruct (de_IsDir entry); [done|].
    destruct (os_Stat _ w) as [info|] eqn:E; [|done].
    destruct (fi_IsRegular info) eqn:?; simpl; [|done].
    destruct (not_executable info) eqn:?; [done|]. intros; go_inv. eauto 10.
  - by intros (-> & -> & info & -> & -> & ->).
Qed.

(** ** Lemmas: the hooks of a chain *)

Lemma chain_hooks_ok hc w hooks :
  chain_hooks hc w = Ok hooks ↔
  ∃ scripts,
    (hookDirPath hc = "" ∧ scripts = [] ∨
     hookDirPath hc ≠ "" ∧ listHookDir (hookDirPath hc) w = Ok scripts) ∧
    hooks = (if decide (hookPath hc = "") then [] else [hookPath hc]) ++ scripts.
Proof.
  unfold chain_hooks.
  assert ((if bool_decide (hookPath hc = "") then [] else [hookPath hc]) =
          (if decide (hookPath hc = "") then [] else [hookPath hc])) as -> by (by case_bool_decide; case_decide).
  case_bool_decide as Hd.
  - split; [intros; go_inv; exists []; rewrite app_nil_r; auto|].
    intros (? & [[_ ->]|[? _]] & ->); [by rewrite app_nil_r|done].
  - destruct (listHookDir (hookDirPath hc) w) as [ss|]; split.
    + intros; go_inv. eauto.
    + intros (? & [[? _]|[_ ?]] & ->); by go_inv.
    + done.
    + intros (? & [[? _]|[_ ?]] & ->); by go_inv.
Qed.

Lemma chain_hooks_err hc w e :
  chain_hooks hc w = Err e →
  ∃ err, hookDirPath hc ≠ "" ∧ os_ReadDir (hookDirPath hc) w = Err err ∧
    e = Errorf "listing hook directory %q: %w" [ArgQ (hookDirPath hc);
          ArgW (Errorf "reading directory %q: %w" [ArgQ (hookDirPath hc); ArgW err])].
Proof.
  unfold chain_hooks, listHookDir. case_bool_decide; [done|].
  destruct (os_ReadDir _ w) as [|err]; intros; go_inv; eauto.
Qed.

(** The names of the entries that are kept. *)
Definition kept_names (dir : string) (w : W) (es : list DirEntry) : list string :=
  de_Name <$> filter (λ e, is_Some (hook_entry dir w e)) es.

Lemma omap_hook_entry dir w es :
  Forall plain_name (de_Name <$> es) →
  omap (hook_entry dir w) es = String.app (dir_prefix dir) <$> kept_names dir w es.
Proof.
  unfold kept_names. induction es as [|e es IH]; [done|]. cbn [fmap list_fmap omap list_omap].
  intros [He Hes]%Forall_cons. rewrite filter_cons.
  destruct (hook_entry dir w e) as [path|] eqn:E.
  - rewrite decide_True by eauto. simpl. f_equal; [|by apply IH].
    apply hook_entry_Some in E as [-> _]. by apply Join_plain.
  - rewrite decide_False by (by intros [? ?]). by apply IH.
Qed.

Lemma elem_of_kept_names dir w es name :
  name ∈ kept_names dir w es ↔ ∃ entry info,
    entry ∈ es ∧ de_Name entry = name ∧ de_IsDir entry = false ∧
    os_Stat (Join [dir; name]) w = Ok info ∧
    fi_IsRegular info = true ∧ Z.land (fi_Perm info) 73 ≠ 0.
Proof.
  unfold kept_names. rewrite list_elem_of_fmap. split.
  - intros (entry & -> & [[path Hh] Hin]%list_elem_of_filter).
    apply hook_entry_Some in Hh as (-> & Hd & info & Hst & Hr & Hx).
    exists entry, info. split_and!; try done. by apply Z.eqb_neq.
  - intros (entry & info & Hin & <- & Hd & Hst & Hr & Hx). exists entry. split; [done|].
    apply list_elem_of_filter. split; [|done]. eexists. apply hook_entry_Some.
    split_and!; try done. exists info. split_and!; try done. by apply Z.eqb_neq.
Qed.

Lemma kept_names_sublist dir w es : kept_names dir w es `sublist_of` (de_Name <$> es).
Proof. apply fmap_sublist, sublist_filter. Qed.

End hooks.
End Hook.

(** * Properties of the hook chain *)
Module HookProps.
Import Hook.

Section props.
Context {W : Type} `{!FileSystem W, !Processes W}.

(** C9: [HookChain.Run] implements the documented pipeline: the configured
    script first, if there is one, then the scripts of the directory, if there
    is one, each receiving on stdin the XML left by the previous one, a failing
    or silent script leaving it unchanged; the only error is a configured
    directory that cannot be read, and then no script runs, the configured one
    included, and the input comes back. *)
Theorem hook_chain_is_pipeline (hc : HookChain) (xml : string) (w : W) out e w' :
  HookChain_Run hc xml w = Some ((out, e), w') ↔
  (∃ single scripts t,
     single = (if decide (hookPath hc = "") then [] else [hookPath hc]) ∧
     (hookDirPath hc = "" ∧ scripts = [] ∨
      hookDirPath hc ≠ "" ∧ listHookDir (hookDirPath hc) w = Ok scripts) ∧
     pipeline (hookDomainName hc) (single ++ scripts) xml w out w' t ∧ e = None) ∨
  (∃ err, hookDirPath hc ≠ "" ∧ os_ReadDir (hookDirPath hc) w = Err err ∧
     e = Some (Errorf "listing hook directory %q: %w" [ArgQ (hookDirPath hc);
           ArgW (Errorf "reading directory %q: %w" [ArgQ (hookDirPath hc); ArgW err])]) ∧
     out = xml ∧ w' = w).
Proof.
  unfold HookChain_Run. destruct (chain_hooks hc w) as [hooks|err] eqn:E.
  - apply chain_hooks_ok in E as (scripts & Hd & ->).
    rewrite pbind_Some. unfold pret. split.
    + intros (x & w1 & [t Ht]%run_all_pipeline & ?); go_inv. left. eauto 10.
    + intros [(? & s & t & -> & Hd' & Ht & ->)|(err & ? & Herr & _)].
      * assert (s = scripts) as -> by (destruct Hd as [[] | []], Hd' as [[] | []]; congruence).
        exists out, w'. split; [|done]. apply run_all_pipeline. eauto.
      * destruct Hd as [[]|[_ Hl]]; [done|]. unfold listHookDir in Hl. by rewrite Herr in Hl.
  - apply chain_hooks_err in E as (e0 & Hd & Hr & ->). split.
    + intros; go_inv. right. eauto 10.
    + intros [(? & s & t & -> & Hd' & _)|(err & _ & Hr' & -> & -> & ->)]; [|congruence].
      destruct Hd' as [[]|[_ Hl]]; [done|]. unfold listHookDir in Hl. by rewrite Hr in Hl.
Qed.

(** C20: if every script exits without leaving a descendant that holds its
    output, [HookChain.Run] always returns, and the hooks together take at
    most three seconds each. *)
Theorem hook_chain_terminates (hc : HookChain) (xml : string) (w : W) :
  scripts_behave →
  ∃ out e w', HookChain_Run hc xml w = Some ((out, e), w') ∧
    ∀ hooks, chain_hooks hc w = Ok hooks →
      ∃ t, pipeline (hookDomainName hc) hooks xml w out w' t ∧
           0 ≤ t ≤ 3000 * zlen hooks.
Proof.
  intros Hb. unfold HookChain_Run. destruct (chain_hooks hc w) as [hooks|err].
  - destruct (pipeline_total (hookDomainName hc) hooks xml w Hb) as (out & w' & t & Hp).
    exists out, None, w'. split.
    + apply pbind_Some. exists out, w'. split; [|done]. apply run_all_pipeline. eauto.
    + intros ? [= <-]. eauto using pipeline_time.
  - naive_solver.
Qed.

(** A script that fails, or prints nothing but white space, never changes
    the XML: if all scripts do so, the chain returns its input. *)
Theorem hook_failures_keep_xml (hc : HookChain) (xml : string) (w : W) out e w' :
  (∀ path args stdin w0 r,
     cmd_Run hookTimeout (exec_start path args stdin w0).1 = Some r →
     is_Some (run_err r) ∨ TrimSpace (run_stdout r) = "") →
  HookChain_Run hc xml w = Some ((out, e), w') → out = xml.
Proof.
  intros Hf. unfold HookChain_Run. destruct (chain_hooks hc w) as [hooks|]; [|naive_solver].
  rewrite pbind_Some. unfold pret. intros (x & w1 & Hr & ?); go_inv.
  apply run_all_pipeline in Hr as [t Hp].
  induction Hp as [|path hooks xml w p w1 r out w2 t Hs Hr Hp IH]; [done|].
  rewrite IH. specialize (Hf path [hookDomainName hc; "prepare"; "begin"; "-"] xml w r).
  rewrite Hs in Hf. unfold effect. destruct (Hf Hr) as [[err ->]|Ht]; [done|].
  destruct (run_err r); [done|]. by rewrite bool_decide_eq_true_2.
Qed.

(** C21: the directory's hooks are exactly its entries that are not
    directories and lead, links followed, to a regular file with an execute
    bit (octal 0111), each once, and sorting their full paths is sorting their
    file names. *)
Theorem listHookDir_by_filename `{!FileSystemLaws W} (dir : string) (w : W) hooks :
  listHookDir dir w = Ok hooks →
  ∃ es names,
    os_ReadDir dir w = Ok es ∧
    hooks = String.app (dir_prefix dir) <$> names ∧
    StronglySorted String.le names ∧ NoDup names ∧
    ∀ name, name ∈ names ↔ ∃ entry info,
      entry ∈ es ∧ de_Name entry = name ∧ de_IsDir entry = false ∧
      os_Stat (Join [dir; name]) w = Ok info ∧
      fi_IsRegular info = true ∧ Z.land (fi_Perm info) 73 ≠ 0.
Proof.
  unfold listHookDir. destruct (os_ReadDir dir w) as [es|] eqn:E; [|done]. intros; go_inv.
  pose proof (ReadDir_sorted _ _ _ E) as Hs. pose proof (ReadDir_plain _ _ _ E) as Hp.
  pose proof (ReadDir_nodup _ _ _ E) as Hn.
  pose proof (kept_names_sublist dir w es) as Hk.
  exists es, (kept_names dir w es). split_and!; [done|..].
  - rewrite omap_hook_entry by done. rewrite sort_Strings_fmap.
    + f_equal. apply sort_Strings_id. by eapply StronglySorted_sublist.
    + intros s t _ _. by rewrite string_le_app_l.
  - by eapply StronglySorted_sublist.
  - by eapply sublist_NoDup.
  - intros name. apply elem_of_kept_names.
Qed.

(** [NewHookChain] accepts a configuration exactly when at least one path
    is given, the hook is an existing non-directory with an execute bit, and
    the hook directory is an existing directory; the chain keeps the paths and
    has a non-empty domain name. *)
Theorem NewHookChain_valid (hook dir name : string) (w : W) hc :
  NewHookChain hook dir name w = Ok hc ↔
  (hook ≠ "" ∨ dir ≠ "") ∧
  (hook ≠ "" → ∃ i, os_Stat hook w = Ok i ∧ fi_IsDir i = false ∧ not_executable i = false) ∧
  (dir ≠ "" → ∃ i, os_Stat dir w = Ok i ∧ fi_IsDir i = true) ∧
  hc = mkHookChain hook dir (if decide (name = "") then "virtinjectd" else name).
Proof.
  unfold NewHookChain, defaultHookDomainName.
  rewrite <-check_hook_ok, <-check_dir_ok.
  destruct (check_hook hook w) as [[]|], (check_dir dir w) as [[]|];
    do 3 case_bool_decide; rewrite ?decide_True, ?decide_False by done; simpl; naive_solver.
Qed.

End props.

(** ** Witnesses

    A directory with a hook that upper-cases nothing but appends a comment, a
    failing one and a file that is not executable. *)

Definition demo_es : list DirEntry :=
  [mkDirEntry "10-first" false false; mkDirEntry "20-fail" false false;
   mkDirEntry "README" false false; mkDirEntry "sub" true false].

Definition demo_fs : FileSystem unit := {|
  os_Stat path _ :=
    if decide (path = "/hooks") then Ok (mkFileInfo true false 493)
    else if decide (path = "/hooks/README") then Ok (mkFileInfo false true 420)
    else Ok (mkFileInfo false true 493);
  os_ReadDir _ _ := Ok demo_es;
  os_ReadFile path _ := Err (ErrNotExist path);
  os_Lstat path _ := Err (ErrNotExist path);
  os_WriteFile path _ _ w := (Some (ErrNotExist path), w);
  filepath_EvalSymlinks path _ := Ok path;
|}.

Definition demo_exec : Processes unit := {|
  exec_start path _ stdin w :=
    (if decide (path = "/hooks/20-fail") then mkProcess None (Some 5) 1 "junk" "boom" []
     else mkProcess None (Some 10) 0 (stdin +:+ "<!---->") "" [], w);
|}.

#[local] Existing Instance demo_fs.
#[local] Existing Instance demo_exec.

Definition demo_chain : HookChain := mkHookChain "/bin/hook" "/hooks" "virtinjectd".

#[local] Instance demo_fs_laws : FileSystemLaws unit.
Proof.
  split; intros dir w es H; injection H as <-; cbv [demo_es fmap list_fmap de_Name].
  - repeat constructor.
  - repeat constructor; vm_compute; (done || set_solver || idtac).
    all: intros Hin; repeat (apply elem_of_cons in Hin as [Hin|Hin]; [discriminate Hin|]);
      by apply elem_of_nil in Hin.
  - repeat constructor; set_solver.
Qed.

Lemma demo_scripts_behave : scripts_behave.
Proof.
  intros path args stdin w. unfold no_orphans. simpl.
  case_decide; simpl; (split; [done|]); intros t [= <-]; lia.
Qed.

Lemma hook_chain_terminates_witness :
  ∃ out e w', HookChain_Run demo_chain "<domain/>" () = Some ((out, e), w') ∧
    ∀ hooks, chain_hooks demo_chain () = Ok hooks →
      ∃ t, pipeline "virtinjectd" hooks "<domain/>" () out w' t ∧
           0 ≤ t ≤ 3000 * zlen hooks.
Proof. apply (hook_chain_terminates demo_chain "<domain/>" ()). exact demo_scripts_behave. Defined.

Lemma listHookDir_by_filename_witness :
  ∃ es names,
    os_ReadDir "/hooks" () = Ok es ∧
    ["/hooks/10-first"; "/hooks/20-fail"] = String.app (dir_prefix "/hooks") <$> names ∧
    StronglySorted String.le names ∧ NoDup names ∧
    ∀ name, name ∈ names ↔ ∃ entry info,
      entry ∈ es ∧ de_Name entry = name ∧ de_IsDir entry = false ∧
      os_Stat (Join ["/hooks"; name]) () = Ok info ∧
      fi_IsRegular info = true ∧ Z.land (fi_Perm info) 73 ≠ 0.
Proof. apply (listHookDir_by_filename "/hooks" ()). vm_compute. reflexivity. Defined.

(** Scripts that print only a line feed. *)
Definition silent_exec : Processes unit := {|
  exec_start _ _ _ w := (mkProcess None (Some 1) 0 (of_chars [chr 10; chr 32]) "" [], w);
|}.

Lemma hook_failures_keep_xml_witness :
  @HookChain_Run unit demo_fs silent_exec demo_chain "<domain/>" ()
    = Some (("<domain/>", None), ()) ∧ "<domain/>" = "<domain/>".
Proof.
  split; [vm_compute; reflexivity|].
  apply (@hook_failures_keep_xml unit demo_fs silent_exec demo_chain "<domain/>" ()
           "<domain/>" None ()).
  - intros path args stdin w0 r H. right. injection H as <-. vm_compute. reflexivity.
  - vm_compute. reflexivity.
Defined.

End HookProps.
