(* ===== verification/Proxy.v ===== *)
(** * The proxy's message path (virtinjectd/proxy.go)

    [patchDefineXML], the two message processors of [handleConnection]
    ([intercept] from client to server, [passthrough] back), the [forward]
    loop and [isConnectionClosed].  The hooks are any [HookRunner]; the loop
    runs until a read or a write fails, with a fuel that is shown sufficient.
    The two goroutines of a connection are in [ProxyConn]. *)

From S2P Require Import Prelude GoStrings GoPath OS Xdr Protocol Hook.
Import Xdr Protocol.
Local Open Scope Z_scope.
Local Open Scope prog_scope.

Module Proxy.

(** [err == io.EOF] and [err == net.ErrClosed] compare the error itself, not
    what it wraps. *)
Definition isConnectionClosed (err : option goerror) : bool :=
  match err with
  | None => false
  | Some EOF => true
  | Some ErrClosed => true
  | Some e =>
      let errStr := err_text e in
      Contains errStr "use of closed network connection" ||
      Contains errStr "connection reset by peer"
  end.

Abbreviation msg := (Header * list byte)%type.

#[global] Arguments isConnectionClosed : simpl never.

(** The text of the error of a failed length read. *)
Lemma err_text_length e :
  err_text (Errorf "reading message length: %w" [ArgW e])
  = "reading message length: " +:+ err_text e.
Proof.
  apply (inj String.list_ascii_of_string). rewrite chars_app.
  transitivity (chars "reading message length: " ++ chars (err_text e) ++ []);
    [|by rewrite app_nil_r].
  unfold err_text at 1; fold err_text. rewrite chars_of_chars. reflexivity.
Qed.

Section proxy.
Context {W H : Type} `{!HookRunner W H}.

(** [patchDefineXML] once the hooks have answered. *)
Definition patch_answer (payload : list byte) (xmlStr : string) (r : string * option goerror)
  : list byte * option goerror :=
  match r with
  | (_, Some e) => (payload, Some e)
  | (patchedXML, None) =>
      if bool_decide (patchedXML = xmlStr) then (payload, None)
      else
        match ReplaceXDRString payload patchedXML with
        | (_, Some e) => (payload, Some e)
        | (newPayload, None) => (newPayload, None)
        end
  end.

(** Returns the payload and the error, both. *)
Definition patchDefineXML (payload : list byte) (hooks : H) : prog W (list byte * option goerror) :=
  match DecodeXDRString payload with
  | Err e => pret (payload, Some e)
  | Ok (xmlStr, _) => let! r := hook_run hooks xmlStr in pret (patch_answer payload xmlStr r)
  end.

(** An error is logged and the original payload forwarded. *)
Definition updated (payload : list byte) (r : list byte * option goerror) : list byte :=
  match r with
  | (_, Some _) => payload
  | (updatedPayload, None) => updatedPayload
  end.

(** The client-to-server processor. *)
Definition intercept (hooks : H) (header : Header) (payload : list byte) : prog W (list byte) :=
  if negb (IsDomainDefineCall header) then pret payload
  else
    let! r := patchDefineXML payload hooks in
    pret (updated payload r).

(** The server-to-client processor. *)
Definition passthrough (_ : Header) (payload : list byte) : prog W (list byte) := pret payload.

(** How a forwarding loop ends. *)
Inductive fwd_end :=
  | FwdErr (e : goerror)
  | FwdPanic (why : string)
  | FwdBlocked
  | FwdOutOfFuel.

Definition processor : Type := Header → list byte → prog W (list byte).

(** One iteration per unit of fuel. *)
Fixpoint forward (fuel : nat) (src : reader) (dst : writer) (proc : processor) (w : W)
  : fwd_end * writer * W :=
  match fuel with
  | O => (FwdOutOfFuel, dst, w)
  | S fuel =>
      match ReadMessage src with
      | Err e => (FwdErr e, dst, w)
      | Ok (header, payload, src) =>
          match proc header payload w with
          | None => (FwdBlocked, dst, w)
          | Some (payload, w) =>
              match WriteMessage dst header payload with
              | Panic why => (FwdPanic why, dst, w)
              | Normal (Some e, dst) => (FwdErr e, dst, w)
              | Normal (None, dst) => forward fuel src dst proc w
              end
          end
      end
  end.

(** ** Specification *)

Definition frames (ms : list msg) : list byte := concat ((λ m, frame m.1 m.2) <$> ms).

(** Messages processed and written one after the other. *)
Inductive relay (proc : processor) : list msg → W → list byte → W → Prop :=
  | relay_nil w : relay proc [] w [] w
  | relay_cons h p ms w p' w1 buf out w2 :
      proc h p w = Some (p', w1) →
      message_buffer h p' = Normal buf →
      relay proc ms w1 out w2 →
      relay proc ((h, p) :: ms) w (buf ++ out) w2.

(** The payload [intercept] forwards for a call whose XML the hooks turned
    into [xml'] with error [e]. *)
Definition patched (payload : list byte) (xml : string) (consumed : Z)
  (xml' : string) (e : option goerror) : list byte :=
  match e with
  | Some _ => payload
  | None => if bool_decide (xml' = xml) then payload
            else EncodeXDRString xml' ++ drop (Z.to_nat consumed) payload
  end.

(** [intercept] with others at work while the hooks run. *)
Definition iintercept (rely : relation W) (hooks : H) (h : Header) (p : list byte) (w : W)
  (p' : list byte) (w' : W) : Prop :=
  if negb (IsDomainDefineCall h) then p' = p ∧ w' = w
  else
    match DecodeXDRString p with
    | Err _ => p' = p ∧ w' = w
    | Ok (xml, _) =>
        ∃ r, runs hook_next rely (hook_begin hooks xml w) w r w' ∧ p' = updated p (patch_answer p xml r)
    end.

Definition msg_ok (m : msg) : Prop := header_ok m.1 ∧ payload_ok m.2.

(** What a run of the loop from [src] wrote: the processed messages of a prefix
    of the input, whole and in order, and possibly a proper prefix of the
    next one. *)
Definition forwarded (proc : processor) (src : reader) (w : W) (written : list byte) (w' : W) : Prop :=
  ∃ ms rest out w1 part,
    stream src = frames ms ++ rest ∧ Forall msg_ok ms ∧
    relay proc ms w out w1 ∧ written = out ++ part ∧
    (part = [] ∨ ∃ h p rest' p' buf k,
       rest = frame h p ++ rest' ∧ msg_ok (h, p) ∧ proc h p w1 = Some (p', w') ∧
       message_buffer h p' = Normal buf ∧ part = take k buf ∧ (k < length buf)%nat).

(** ** Lemmas: patching *)

Lemma patch_answer_spec payload xml n xml' e :
  DecodeXDRString payload = Ok (xml, n) →
  patch_answer payload xml (xml', e) = (patched payload xml n xml' e, e).
Proof.
  intros Hd. unfold patch_answer, patched. destruct e; [done|].
  case_bool_decide; [done|]. by erewrite ReplaceXDRString_ok.
Qed.

Lemma updated_patched payload xml n xml' e :
  DecodeXDRString payload = Ok (xml, n) →
  updated payload (patch_answer payload xml (xml', e)) = patched payload xml n xml' e.
Proof. intros Hd. rewrite (patch_answer_spec _ _ n) by done. by destruct e. Qed.

Lemma intercept_other hooks h p w :
  IsDomainDefineCall h = false → intercept hooks h p w = Some (p, w).
Proof. unfold intercept. by intros ->. Qed.

Lemma intercept_define hooks h p w :
  IsDomainDefineCall h = true →
  intercept hooks h p w =
  match DecodeXDRString p with
  | Err _ => Some (p, w)
  | Ok (xml, n) =>
      match hook_run hooks xml w with
      | None => None
      | Some ((xml', e), w') => Some (patched p xml n xml' e, w')
      end
  end.
Proof.
  intros Hc. unfold intercept, patchDefineXML. rewrite Hc. cbn [negb]. unfold pbind.
  destruct (DecodeXDRString p) as [[xml n]|] eqn:Hd; [|done].
  destruct (hook_run hooks xml w) as [[[xml' e] w']|]; [|done].
  unfold pret. by rewrite (updated_patched _ _ n).
Qed.

(** Without interference it is the code. *)
Lemma iintercept_alone hooks h p w p' w' :
  iintercept undisturbed hooks h p w p' w' ↔ intercept hooks h p w = Some (p', w').
Proof.
  unfold iintercept. destruct (IsDomainDefineCall h) eqn:Hc; cbn [negb].
  2: { rewrite intercept_other by done. naive_solver. }
  rewrite intercept_define by done. destruct (DecodeXDRString p) as [[xml n]|] eqn:Hd; [|naive_solver].
  split.
  - intros ([xml' e] & Hr%hook_run_steps & ->). rewrite Hr. by rewrite (updated_patched _ _ n).
  - destruct (hook_run hooks xml w) as [[[xml' e] w1]|] eqn:E; [|done]. intros [= <- <-].
    apply hook_run_steps in E. exists (xml', e). split; [done|]. by rewrite (updated_patched _ _ n).
Qed.

(** ** Lemmas: the loop *)

Lemma WriteMessage_ok dst h p dst' :
  WriteMessage dst h p = Normal (None, dst') →
  ∃ buf, message_buffer h p = Normal buf ∧ wr_out dst' = wr_out dst ++ buf.
Proof.
  unfold WriteMessage, conn_Write. destruct (message_buffer h p) as [buf|]; [|done].
  destruct (wr_room dst); [case_cond|]; intros; go_inv; eauto.
Qed.

Lemma WriteMessage_err dst h p e dst' :
  WriteMessage dst h p = Normal (Some e, dst') →
  ∃ buf k, message_buffer h p = Normal buf ∧ (k < length buf)%nat ∧
           wr_out dst' = wr_out dst ++ take k buf.
Proof.
  unfold WriteMessage, conn_Write. destruct (message_buffer h p) as [buf|]; [|done].
  destruct (wr_room dst) as [k|]; [case_cond|]; intros; go_inv.
  apply Nat.leb_gt in Heqb. eauto 10.
Qed.

Lemma frames_cons m ms : frames (m :: ms) = frame m.1 m.2 ++ frames ms.
Proof. done. Qed.

Lemma forwarded_nothing proc src w w' : forwarded proc src w [] w'.
Proof.
  exists [], (stream src), [], w, []. split_and!; try done; [constructor|by left].
Qed.

Lemma forwarded_cons proc src h p src' w p' w1 buf out w' :
  stream src = frame h p ++ stream src' → header_ok h → payload_ok p →
  proc h p w = Some (p', w1) → message_buffer h p' = Normal buf →
  forwarded proc src' w1 out w' → forwarded proc src w (buf ++ out) w'.
Proof.
  intros Hs Hh Hp Hpr Hb (ms & rest & o & w2 & part & Hs' & Hms & Hr & -> & Hpart).
  exists ((h, p) :: ms), rest, (buf ++ o), w2, part. split_and!; try done.
  - rewrite frames_cons, Hs, Hs'. by rewrite app_assoc.
  - by constructor.
  - by econstructor.
  - by rewrite <-app_assoc.
Qed.

Lemma forward_inv fuel src dst proc w fe dst' w' :
  forward fuel src dst proc w = (fe, dst', w') →
  ∃ written, wr_out dst' = wr_out dst ++ written ∧ forwarded proc src w written w'.
Proof.
  revert src dst w. induction fuel as [|fuel IH]; intros src dst w; cbn [forward];
    [|destruct (ReadMessage src) as [[[h p] src']|] eqn:Er;
      [destruct (proc h p w) as [[p' w1]|] eqn:Epr;
        [destruct (WriteMessage dst h p') as [[[e|] dst1]|] eqn:Ew|]|]].
  all: try (intros; go_inv; exists []; rewrite app_nil_r; by auto using forwarded_nothing).
  all: apply ReadMessage_inv in Er as (Hs & _ & Hh & Hp).
  - apply WriteMessage_err in Ew as (buf & k & Hb & Hk & Ho). intros; go_inv.
    exists (take k buf). split; [done|].
    exists [], (stream src), [], w, (take k buf). split_and!; try done; [constructor|].
    right. do 6 eexists. by split_and!.
  - apply WriteMessage_ok in Ew as (buf & Hb & Ho). intros Hf.
    apply IH in Hf as (out & Hout & Hfw). exists (buf ++ out).
    rewrite Hout, Ho, <-app_assoc. eauto using forwarded_cons.
Qed.

(** Each iteration consumes at least the 28 bytes of a header, so more fuel
    than the stream has bytes is never exhausted. *)
Lemma forward_fuel fuel src dst proc w fe dst' w' :
  (length (stream src) < fuel)%nat →
  forward fuel src dst proc w = (fe, dst', w') → fe ≠ FwdOutOfFuel.
Proof.
  revert src dst w. induction fuel as [|fuel IH]; intros src dst w Hf; [lia|]. cbn [forward].
  destruct (ReadMessage src) as [[[h p] src']|] eqn:Er; [|intros; by go_inv].
  apply ReadMessage_inv in Er as (Hs & _ & Hh & Hp).
  destruct (proc h p w) as [[p' w1]|]; [|intros; by go_inv].
  destruct (WriteMessage dst h p') as [[[e|] dst1]|]; try (intros; by go_inv).
  apply IH. rewrite Hs, length_app in Hf. pose proof (zlen_frame h p). unfold zlen in *. lia.
Qed.

(** On a stream of well-formed messages followed by bytes that are not one,
    an unlimited writer gets all of them, and the loop ends with the read
    error. *)
Lemma forward_complete proc ms src dst tail w out w' e fuel :
  stream src = frames ms ++ tail → Forall msg_ok ms →
  relay proc ms w out w' → read_flat tail (rd_err src) = Err e →
  wr_room dst = None → (length ms < fuel)%nat →
  forward fuel src dst proc w = (FwdErr e, mkWriter (wr_out dst ++ out) None (wr_err dst), w').
Proof.
  intros Hs Hms Hr He Hroom. revert src dst fuel Hs He Hroom Hms.
  induction Hr as [w|h p ms w p' w1 buf out w2 Hp Hb Hr IH]; intros src dst fuel Hs He Hroom Hms Hf;
    (destruct fuel as [|fuel]; [simpl in Hf; lia|]); cbn [forward].
  - pose proof (ReadMessage_flat src) as Hfl. rewrite Hs in Hfl. cbn in Hfl. rewrite He in Hfl.
    destruct (ReadMessage src) as [[[? ?] ?]|]; [done|]. simpl in Hfl. subst.
    destruct dst; simpl in *. subst. by rewrite app_nil_r.
  - apply Forall_cons in Hms as [[Hh Hpl] Hms]. rewrite frames_cons, <-app_assoc in Hs.
    destruct (ReadMessage_frame src h p _ Hs Hh Hpl) as (src' & -> & Hs' & He').
    rewrite Hp. unfold WriteMessage, conn_Write. rewrite Hb, Hroom.
    rewrite (IH src' _ fuel); simpl; [by rewrite app_assoc|done|by rewrite He'|done|done|].
    simpl in Hf. lia.
Qed.

(** The hooks return, with an XML within libvirt's limit. *)
Definition hooks_answer (hooks : H) : Prop := ∀ xml w,
  ∃ xml' e w', hook_run hooks xml w = Some ((xml', e), w') ∧ in_bounds xml'.

Lemma length_frames ms : (length ms <= length (frames ms))%nat.
Proof.
  induction ms as [|[h p] ms IH]; [done|]. rewrite frames_cons, length_app.
  pose proof (zlen_frame h p). unfold zlen in *. cbn [length fst snd]. lia.
Qed.

(** Hooks that never answer with more than libvirt accepts, among others or
    alone. *)
Definition hooks_bounded_in (rely : relation W) (hooks : H) : Prop := ∀ xml w xml' w',
  runs hook_next rely (hook_begin hooks xml w) w (xml', None) w' → in_bounds xml'.

Definition hooks_bounded : H → Prop := hooks_bounded_in (λ _ _, True).

Lemma hooks_bounded_any rely hooks : hooks_bounded hooks → hooks_bounded_in rely hooks.
Proof. intros Hb xml w xml' w' Hr. eapply Hb, runs_mono, Hr. done. Qed.

(** A processed payload is far from the 32-bit limit of the length word. *)
Lemma patched_bounded p xml n xml' e :
  payload_ok p → (e = None → in_bounds xml') → zlen (patched p xml n xml' e) < two32 - 28.
Proof.
  unfold payload_ok, MaxMessageSize, HeaderSize, two32, patched. intros Hp Hb. destruct e; [lia|].
  case_bool_decide; [lia|]. rewrite EncodeXDRString_spec, zlen_app, zlen_encode_spec.
  pose proof (xdrPad_bounds (strlen xml') (strlen_nonneg _)).
  specialize (Hb eq_refl). unfold in_bounds, xdrStringMaxLen in Hb.
  unfold zlen in *. rewrite length_drop. lia.
Qed.

Lemma payload_bounded p : payload_ok p → zlen p < two32 - 28.
Proof. unfold payload_ok, MaxMessageSize, HeaderSize, two32. lia. Qed.

Lemma iintercept_bounded rely hooks h p w p' w' :
  hooks_bounded_in rely hooks → payload_ok p → iintercept rely hooks h p w p' w' → zlen p' < two32 - 28.
Proof.
  intros Hh Hp. unfold iintercept. case_cond; [intros [-> _]; by apply payload_bounded|].
  destruct (DecodeXDRString p) as [[xml n]|] eqn:Hd; [|intros [-> _]; by apply payload_bounded].
  intros ([xml' e] & Hr & ->). rewrite (updated_patched _ _ n) by done.
  apply patched_bounded; [done|]. intros ->. by eapply Hh.
Qed.

Lemma hooks_answer_bounded hooks : hooks_answer hooks → hooks_bounded_in undisturbed hooks.
Proof.
  intros Hh xml w xml' w' E%hook_run_steps. destruct (Hh xml w) as (? & ? & ? & E' & ?). congruence.
Qed.

Lemma intercept_total hooks h p w :
  hooks_answer hooks → payload_ok p →
  ∃ p' w', intercept hooks h p w = Some (p', w') ∧ zlen p' < two32 - 28.
Proof.
  intros Hh Hp. assert (∃ p' w', intercept hooks h p w = Some (p', w')) as (p' & w' & Hi).
  { destruct (IsDomainDefineCall h) eqn:Hc; [rewrite intercept_define by done|].
    2: { rewrite intercept_other by done. by eexists _, _. }
    destruct (DecodeXDRString p) as [[xml n]|]; [|by eexists _, _].
    destruct (Hh xml w) as (xml' & e & w' & -> & _). by eexists _, _. }
  exists p', w'. split; [done|]. apply iintercept_alone in Hi.
  eauto using iintercept_bounded, hooks_answer_bounded.
Qed.

Lemma relay_intercept_total hooks ms w :
  hooks_answer hooks → Forall msg_ok ms → ∃ out w', relay (intercept hooks) ms w out w'.
Proof.
  intros Hh. revert w. induction ms as [|[h p] ms IH]; intros w Hms.
  { eexists _, _. constructor. }
  apply Forall_cons in Hms as [[_ Hp] Hms].
  destruct (intercept_total hooks h p w Hh Hp) as (p' & w1 & Hi & Hl).
  destruct (IH w1 Hms) as (out & w2 & Hr). eexists _, _. econstructor; [done| |done].
  by apply message_buffer_spec.
Qed.

(** A define call with an encoded XML: the hooks' answer is encoded in its
    place, unless they fail. *)
Lemma patched_encoded xml rest xml' e :
  in_bounds xml →
  ∃ n, DecodeXDRString (EncodeXDRString xml ++ rest) = Ok (xml, n) ∧
    patched (EncodeXDRString xml ++ rest) xml n xml' e
    = EncodeXDRString (match e with Some _ => xml | None => xml' end) ++ rest.
Proof.
  intros Hx. pose proof (decode_encode_app xml rest Hx) as Hd. rewrite <-EncodeXDRString_spec in Hd.
  eexists. split; [exact Hd|]. unfold patched. destruct e; [done|]. case_bool_decide; [by subst|].
  f_equal. rewrite <-zlen_encode_spec, <-EncodeXDRString_spec. unfold zlen. by rewrite Nat2Z.id, drop_app_length.
Qed.

Lemma intercept_encoded hooks h xml rest w :
  IsDomainDefineCall h = true → in_bounds xml →
  intercept hooks h (EncodeXDRString xml ++ rest) w =
  match hook_run hooks xml w with
  | None => None
  | Some ((xml', None), w') => Some (EncodeXDRString xml' ++ rest, w')
  | Some ((_, Some _), w') => Some (EncodeXDRString xml ++ rest, w')
  end.
Proof.
  intros Hc Hx. rewrite intercept_define by done.
  destruct (patched_encoded xml rest "" None Hx) as (n & Hd & _). rewrite Hd. cbv beta iota.
  destruct (hook_run hooks xml w) as [[[xml' e] w']|]; [|done].
  destruct (patched_encoded xml rest xml' e Hx) as (n' & Hd' & Hp). rewrite Hd in Hd'. injection Hd' as <-.
  rewrite Hp. by destruct e.
Qed.

Lemma iintercept_encoded rely hooks h xml rest w p' w' :
  IsDomainDefineCall h = true → in_bounds xml →
  iintercept rely hooks h (EncodeXDRString xml ++ rest) w p' w' ↔
  ∃ xml' e, runs hook_next rely (hook_begin hooks xml w) w (xml', e) w' ∧
    p' = EncodeXDRString (match e with Some _ => xml | None => xml' end) ++ rest.
Proof.
  intros Hc Hx. unfold iintercept. rewrite Hc. cbn [negb]. split.
  - destruct (patched_encoded xml rest "" None Hx) as (n0 & Hd & _). rewrite Hd.
    intros ([xml' e] & Hr & ->). exists xml', e. split; [done|].
    destruct (patched_encoded xml rest xml' e Hx) as (n & Hd' & <-). by apply updated_patched.
  - intros (xml' & e & Hr & ->). destruct (patched_encoded xml rest xml' e Hx) as (n & Hd & <-). rewrite Hd.
    exists (xml', e). split; [done|]. symmetry. by apply updated_patched.
Qed.

Lemma message_buffer_frame h p buf :
  payload_ok p → message_buffer h p = Normal buf → buf = frame h p.
Proof.
  intros Hp. rewrite message_buffer_spec by (unfold payload_ok, MaxMessageSize, HeaderSize, two32 in *; lia).
  congruence.
Qed.

Lemma relay_passthrough ms w :
  Forall msg_ok ms → relay passthrough ms w (frames ms) w.
Proof.
  induction 1 as [|[h p] ms [Hh Hp] Hms IH]; [constructor|]. rewrite frames_cons.
  econstructor; [done| |done]. apply message_buffer_spec.
  unfold payload_ok, MaxMessageSize, HeaderSize, two32 in *. simpl in *. lia.
Qed.

Lemma relay_passthrough_inv ms w out w' :
  Forall msg_ok ms → relay passthrough ms w out w' → out = frames ms ∧ w' = w.
Proof.
  intros Hms Hr. induction Hr as [|h p ms w p' w1 buf out w2 Hp Hb Hr IH]; [done|].
  apply Forall_cons in Hms as [[_ Hpl] Hms]. injection Hp as <- <-.
  apply message_buffer_frame in Hb as ->; [|done]. destruct (IH Hms) as [-> ->]. done.
Qed.

End proxy.
End Proxy.

(** * Properties of the message path *)
Module ProxyProps.
Import Proxy.

Section props.
Context {W H : Type} `{!HookRunner W H}.

(** Server to client the proxy is transparent: on any input, well-formed
    or not, and whatever the writer accepts, the client receives a prefix of
    the bytes the server sent, unchanged. *)
Theorem passthrough_transparent (fuel : nat) (src : reader) (dst : writer) (w : W) :
  let '(_, dst', _) := forward fuel src dst passthrough w in
  ∃ k, wr_out dst' = wr_out dst ++ take k (stream src).
Proof.
  destruct (forward fuel src dst passthrough w) as [[fe dst'] w'] eqn:E.
  apply forward_inv in E as (written & -> & ms & rest & out & w1 & part & Hs & Hms & Hr & -> & Hp).
  apply relay_passthrough_inv in Hr as [-> ->]; [|done].
  destruct Hp as [->|(h & p & rest' & p' & buf & k & -> & Hok & Hpr & Hb & -> & Hk)].
  - exists (length (frames ms)). by rewrite Hs, app_nil_r, take_app_length.
  - injection Hpr as <- <-. apply message_buffer_frame in Hb as ->; [|apply Hok].
    exists (length (frames ms) + k)%nat. rewrite Hs, take_app_add.
    by rewrite (take_app_le (frame h p)) by lia.
Qed.


(** C2: the patched call: for a DomainDefineXML or DomainDefineXMLFlags call
    carrying [xml], if the hooks turn it into [xml'] the forwarded payload
    decodes to [xml'] and ends with the same bytes (the flags) as the
    original. *)
Theorem define_call_patched (hooks : H) (h : Header) (xml xml' : string) (rest : list byte) (w w' : W) :
  IsDomainDefineCall h = true →
  in_bounds xml → in_bounds xml' →
  hook_run hooks xml w = Some ((xml', None), w') →
  ∃ p', intercept hooks h (EncodeXDRString xml ++ rest) w = Some (p', w') ∧
    p' = EncodeXDRString xml' ++ rest ∧
    DecodeXDRString p' = Ok (xml', zlen (EncodeXDRString xml')).
Proof.
  intros Hc Hx Hx' Hh. exists (EncodeXDRString xml' ++ rest). split_and!; [|done|].
  - by rewrite intercept_encoded, Hh.
  - rewrite EncodeXDRString_spec, zlen_encode_spec. by apply decode_encode_app.
Qed.

(** C8: only define calls are touched, and a failure is never fatal: any other
    message, an undecodable payload, a hook error or unchanged XML all forward
    the original payload. *)
Theorem intercept_failsafe (hooks : H) (h : Header) (p : list byte) (w w' : W) (p' : list byte) :
  intercept hooks h p w = Some (p', w') →
  p' = p ∨
  (Program h = RemoteProgram ∧ Version h = RemoteProtocolVersion ∧ Type_ h = TypeCall ∧
   (Procedure h = ProcDomainDefineXML ∨ Procedure h = ProcDomainDefineXMLFlags) ∧
   ∃ xml n xml', DecodeXDRString p = Ok (xml, n) ∧
     hook_run hooks xml w = Some ((xml', None), w') ∧ xml' ≠ xml).
Proof.
  destruct (IsDomainDefineCall h) eqn:Hc.
  2: { rewrite intercept_other by done. intros; go_inv. by left. }
  rewrite intercept_define by done.
  destruct (DecodeXDRString p) as [[xml n]|]; [|intros; go_inv; by left].
  destruct (hook_run hooks xml w) as [[[xml' [e|]] w1]|] eqn:Hh; [|..|done];
    intros; go_inv; unfold patched; [by left|].
  case_bool_decide; [by left|]. right. unfold IsDomainDefineCall in Hc. zb.
  rewrite !Z.eqb_eq in *. split_and!; try done. eauto 10.
Qed.

(** C19: the loop terminates: with more fuel than the stream has bytes it ends
    with an error, a panic or in a blocked hook, never by running out. *)
Theorem forward_terminates (proc : processor) (src : reader) (dst : writer) (w : W) (fuel : nat) :
  (length (stream src) < fuel)%nat →
  (forward fuel src dst proc w).1.1 ≠ FwdOutOfFuel.
Proof.
  intros Hf. destruct (forward fuel src dst proc w) as [[fe dst'] w'] eqn:E.
  simpl. by eapply forward_fuel.
Qed.

End props.

Section scripts.
Import Hook.
Context {W : Type} `{!FileSystem W} `{!Processes W}.

(** C3: the parts put together: a define call through the proxy with a hook
    chain carries exactly the XML the pipeline of the scripts makes of the
    client's XML, each script in the world as other connections and processes
    left it, and the rest of its arguments unchanged; if the scripts cannot be
    listed it is forwarded as it came. *)
Theorem define_call_through_scripts (rely : relation W) (hc : HookChain) (h : Header) (xml : string)
    (rest p' : list byte) (w w' : W) :
  IsDomainDefineCall h = true → in_bounds xml →
  iintercept rely hc h (EncodeXDRString xml ++ rest) w p' w' ↔
  match chain_hooks hc w with
  | Ok scripts => ∃ xml', ipipeline rely (hookDomainName hc) scripts xml w xml' w' ∧
                          p' = EncodeXDRString xml' ++ rest
  | Err _ => p' = EncodeXDRString xml ++ rest ∧ w' = w
  end.
Proof.
  intros Hc Hx. rewrite iintercept_encoded by done.
  cbn [hook_next hook_begin HookChain_HookRunner]. unfold chain_begin.
  destruct (chain_hooks hc w) as [scripts|err]; split.
  - intros (xml' & e & [He ?]%chain_ipipeline & ->). simpl in He. subst. eauto.
  - intros (xml' & ? & ->). exists xml', None. split; [|done]. by apply chain_ipipeline.
  - intros (xml' & e & Hr & ->). by inversion Hr.
  - intros [-> ->]. exists xml, (Some err). split; [constructor|done].
Qed.

End scripts.

(** C39: end of file is not recognised as a normal close: when the peer closes
    at a message boundary, [ReadMessage] wraps [io.EOF], [isConnectionClosed]
    compares the wrapped error with [==], and the normal end of a connection
    is reported as a forwarding error. A closed local socket, recognised by
    its text, is not. *)
Theorem eof_not_recognised (src : reader) (text : string) :
  stream src = [] →
  (rd_err src = EOF →
     ∃ e, ReadMessage src = Err e ∧ isConnectionClosed (Some e) = false) ∧
  (rd_err src = SysError (text +:+ "use of closed network connection") →
     ∃ e, ReadMessage src = Err e ∧ isConnectionClosed (Some e) = true).
Proof.
  intros Hs. pose proof (ReadMessage_flat src) as Hf. rewrite Hs in Hf. cbn in Hf.
  destruct (ReadMessage src) as [[[? ?] ?]|e]; [done|]. simpl in Hf. subst e.
  split; intros ->; (eexists; split; [reflexivity|]).
  - vm_compute. reflexivity.
  - unfold isConnectionClosed. rewrite err_text_length. apply orb_true_iff. left.
    cbn [short_err err_text]. rewrite <-string_app_assoc. apply Contains_app.
Qed.

Lemma eof_not_recognised_witness :
  (EOF = EOF → ∃ e, ReadMessage (mkReader [] EOF) = Err e ∧ isConnectionClosed (Some e) = false) ∧
  (EOF = SysError ("" +:+ "use of closed network connection") →
   ∃ e, ReadMessage (mkReader [] EOF) = Err e ∧ isConnectionClosed (Some e) = true).
Proof. apply (eof_not_recognised (mkReader [] EOF) ""). reflexivity. Defined.

(** ** Witnesses: hooks that answer with a fixed domain *)

Program Definition fixed_hooks : HookRunner unit unit := {|
  hook_run _ xml w := Some (("<patched/>", None), w);
  hook_thread := Empty_set;
  hook_begin _ _ _ := Finished ("<patched/>", None);
  hook_next t _ := match t with end;
  hook_size _ := O;
|}.
Next Obligation. done. Qed.
Next Obligation. by intros []. Qed.
Next Obligation.
  intros h xml w r w'. split; [intros [= <- <-]; constructor|]. intros Hr. by inversion Hr.
Qed.

#[local] Existing Instance fixed_hooks.

Definition define_header : Header := mkHeader RemoteProgram 1 350 TypeCall 7 0.
Definition other_header : Header := mkHeader RemoteProgram 1 66 TypeCall 8 0.

Definition demo_msgs : list msg :=
  [(define_header, EncodeXDRString "<d/>" ++ be_bytes 1); (other_header, [x2a])].

Definition demo_src : reader := mkReader (map (λ m, frame m.1 m.2) demo_msgs) EOF.

Lemma fixed_hooks_answer : hooks_answer ().
Proof.
  intros xml w. eexists _, _, _. split; [done|]. vm_compute. discriminate.
Qed.


Lemma define_call_patched_witness :
  ∃ p', intercept () define_header (EncodeXDRString "<d/>" ++ be_bytes 1) () = Some (p', ()) ∧
    p' = EncodeXDRString "<patched/>" ++ be_bytes 1 ∧
    DecodeXDRString p' = Ok ("<patched/>", zlen (EncodeXDRString "<patched/>")).
Proof.
  apply (define_call_patched () define_header "<d/>" "<patched/>" (be_bytes 1) () ());
    [reflexivity | vm_compute; discriminate | vm_compute; discriminate | reflexivity].
Defined.

Lemma intercept_failsafe_witness :
  [x2a] = [x2a] ∨
  (Program other_header = RemoteProgram ∧ Version other_header = RemoteProtocolVersion ∧
   Type_ other_header = TypeCall ∧
   (Procedure other_header = ProcDomainDefineXML ∨ Procedure other_header = ProcDomainDefineXMLFlags) ∧
   ∃ xml n xml', DecodeXDRString [x2a] = Ok (xml, n) ∧
     hook_run () xml () = Some ((xml', None), ()) ∧ xml' ≠ xml).
Proof. apply (intercept_failsafe () other_header [x2a] () () [x2a]). reflexivity. Defined.

Lemma forward_terminates_witness :
  (forward 200 demo_src (mkWriter [] (Some 10%nat) ErrClosed) (intercept ()) ()).1.1 ≠ FwdOutOfFuel.
Proof. apply forward_terminates. vm_compute. lia. Defined.

(** Scripts that append the state of a world which others count up. *)
#[local] Instance counting_files : FileSystem Z := {|
  os_Stat p _ := Ok (if decide (p = "/hooks") then mkFileInfo true false 493 else mkFileInfo false true 493);
  os_Lstat p _ := Err (ErrNotExist p);
  os_ReadDir _ _ := Ok [mkDirEntry "10-second" false false];
  os_ReadFile p _ := Err (ErrNotExist p);
  os_WriteFile p _ _ w := (Some (ErrNotExist p), w);
  filepath_EvalSymlinks p _ := Ok p;
|}.

#[local] Instance counting_exec : Processes Z := {|
  exec_start _ _ stdin w := (mkProcess None (Some 10) 0 (stdin +:+ Itoa w) "" [], w);
|}.

Definition tick : relation Z := λ w w', w' = w + 1.

Definition counting_chain : Hook.HookChain := Hook.mkHookChain "/bin/first" "/hooks" "virtinjectd".

Lemma counting_pipeline :
  Hook.ipipeline tick "virtinjectd" ["/bin/first"; "/hooks/10-second"] "<d/>" 0 "<d/>01" 1.
Proof.
  eapply Hook.ipipeline_cons; [apply rtc_refl|reflexivity|reflexivity|].
  eapply Hook.ipipeline_cons; [by apply rtc_once|reflexivity|reflexivity|]. vm_compute. apply Hook.ipipeline_nil.
Qed.

Lemma define_call_through_scripts_witness :
  iintercept tick counting_chain define_header (EncodeXDRString "<d/>" ++ be_bytes 1) 0
    (EncodeXDRString "<d/>01" ++ be_bytes 1) 1.
Proof.
  assert (in_bounds "<d/>") as Hx by (vm_compute; discriminate).
  apply (define_call_through_scripts tick counting_chain define_header "<d/>" (be_bytes 1)
    (EncodeXDRString "<d/>01" ++ be_bytes 1) 0 1 eq_refl Hx).
  exists "<d/>01". split; [exact counting_pipeline|reflexivity].
Defined.

End ProxyProps.
