(* ===== verification/ProxyConn.v ===== *)
(** * One proxied connection (virtinjectd/proxy.go, handleConnection)

    The two forwarding goroutines of [handleConnection] and its final wait, as
    a transition system: each goroutine reads a message from its source,
    processes it, which for a define call runs the hooks one by one, writes it
    to its destination, and on the first error closes both connections; the
    environment sends bytes and closes its ends, in any interleaving.  A panic in a goroutine takes the process down.  The accept
    loop [Run] is at the end of the file. *)

From S2P Require Import Prelude GoStrings OS Xdr Protocol Hook Proxy.
Import Xdr Protocol Proxy.
Local Open Scope Z_scope.

Module ProxyConn.

Inductive dir := C2S | S2C.

#[global] Instance dir_eq_dec : EqDecision dir.
Proof. solve_decision. Defined.

(** A connection as the proxy sees it: all bytes received so far, the ones
    not read yet, whether the peer closed, whether the proxy closed it, and
    the bytes written to the peer. *)
Record conn := mkConn {
  cn_recv : list byte;
  cn_in : list byte;
  cn_eof : bool;
  cn_closed : bool;
  cn_out : list byte;
}.

Definition conn_open : conn := mkConn [] [] false false [].

(** Where a goroutine is: in [ReadMessage], about to process a message, in the
    hooks for the XML of one (with [t] still to run), in [WriteMessage], about
    to report an error, at the two [Close] calls, done. *)
Inductive gstate {T : Type} :=
  | GRead
  | GProc (h : Header) (p : list byte)
  | GHook (h : Header) (p : list byte) (xml : string) (t : T)
  | GWrite (h : Header) (p : list byte)
  | GFail (e : goerror)
  | GClose1
  | GClose2
  | GDone.
Arguments gstate : clear implicits.

Section conn.
Context {W H : Type} `{!HookRunner W H} (hooks : H).

(** What the rest of the system may do to the world between two steps of this
    connection: other connections run hooks too. *)
Context (rely : relation W).

Abbreviation goroutine := (gstate (hook_thread (W:=W) (H:=H))).

Record state := mkState {
  client : conn;
  upstream : conn;
  c2s : goroutine;
  s2c : goroutine;
  world : W;
  logged : list (dir * goerror);
  crashed : bool;
  returned : bool;
}.

Definition src (d : dir) (s : state) : conn :=
  match d with C2S => client s | S2C => upstream s end.
Definition dst (d : dir) (s : state) : conn :=
  match d with C2S => upstream s | S2C => client s end.
Definition pc (d : dir) (s : state) : goroutine :=
  match d with C2S => c2s s | S2C => s2c s end.

(** After the hooks were begun or one of them returned. *)
Definition hook_state (h : Header) (p : list byte) (xml : string) (r : progress hook_thread) : goroutine :=
  match r with
  | Running t => GHook h p xml t
  | Finished r => GWrite h (updated p (patch_answer p xml r))
  end.

(** The processor of a direction, up to the first hook: [intercept] with
    [patchDefineXML], or [passthrough]. *)
Definition proc_begin (d : dir) (h : Header) (p : list byte) (w : W) : goroutine :=
  match d with
  | S2C => GWrite h p
  | C2S =>
      if negb (IsDomainDefineCall h) then GWrite h p
      else
        match DecodeXDRString p with
        | Err e => GWrite h (updated p (p, Some e))
        | Ok (xml, _) => hook_state h p xml (hook_begin hooks xml w)
        end
  end.

Arguments hook_state : simpl never.
Arguments proc_begin : simpl never.

Definition set_src (d : dir) (c : conn) (s : state) : state :=
  match d with
  | C2S => mkState c (upstream s) (c2s s) (s2c s) (world s) (logged s) (crashed s) (returned s)
  | S2C => mkState (client s) c (c2s s) (s2c s) (world s) (logged s) (crashed s) (returned s)
  end.
Definition other (d : dir) : dir := match d with C2S => S2C | S2C => C2S end.
Definition set_dst (d : dir) (c : conn) (s : state) : state := set_src (other d) c s.
Definition set_pc (d : dir) (g : goroutine) (s : state) : state :=
  match d with
  | C2S => mkState (client s) (upstream s) g (s2c s) (world s) (logged s) (crashed s) (returned s)
  | S2C => mkState (client s) (upstream s) (c2s s) g (world s) (logged s) (crashed s) (returned s)
  end.
Definition set_world (w : W) (s : state) : state :=
  mkState (client s) (upstream s) (c2s s) (s2c s) w (logged s) (crashed s) (returned s).
Definition add_log (d : dir) (e : goerror) (s : state) : state :=
  mkState (client s) (upstream s) (c2s s) (s2c s) (world s) (logged s ++ [(d, e)])
    (crashed s) (returned s).
Definition set_crashed (s : state) : state :=
  mkState (client s) (upstream s) (c2s s) (s2c s) (world s) (logged s) true (returned s).
Definition set_returned (s : state) : state :=
  mkState (client s) (upstream s) (c2s s) (s2c s) (world s) (logged s) (crashed s) true.

Definition conn_consume (c : conn) (rest : list byte) : conn :=
  mkConn (cn_recv c) rest (cn_eof c) (cn_closed c) (cn_out c).
Definition conn_send (c : conn) (bs : list byte) : conn :=
  mkConn (cn_recv c) (cn_in c) (cn_eof c) (cn_closed c) (cn_out c ++ bs).
Definition conn_close (c : conn) : conn :=
  mkConn (cn_recv c) (cn_in c) (cn_eof c) true (cn_out c).
Definition conn_receive (c : conn) (bs : list byte) : conn :=
  mkConn (cn_recv c ++ bs) (cn_in c ++ bs) (cn_eof c) (cn_closed c) (cn_out c).
Definition conn_finish (c : conn) : conn :=
  mkConn (cn_recv c) (cn_in c) true (cn_closed c) (cn_out c).

Definition init (w : W) : state :=
  mkState conn_open conn_open GRead GRead w [] false false.

(** More bytes are needed to know how the read ends. *)
Definition needs_more (bs : list byte) : bool :=
  let total := be_uint32 (take 4 bs) in
  (zlen bs <? 4) ||
  ((28 <=? total) && (total - 4 <=? MaxMessageSize) && (zlen bs <? total)).

(** What a read of a locally closed connection fails with. *)
Definition closed_error : goerror :=
  SysError "read unix: use of closed network connection".

(** ** Steps of a goroutine

    Each hook is a step of its own, between which the others go on. A read ends
    with a message, with the error [er] the peer's end gave
    ([io.EOF], or a reset) or a refused length word, or, once the connection
    is closed locally, with [closed_error] after any part [k] of the bytes. A
    failed write may have sent any proper part of the message. *)
Inductive gstep (d : dir) (s : state) : state → Prop :=
  | g_read_ok h p r' :
      pc d s = GRead → cn_closed (src d s) = false →
      ReadMessage (mkReader [cn_in (src d s)] EOF) = Ok (h, p, r') →
      gstep d s (set_pc d (GProc h p) (set_src d (conn_consume (src d s) (stream r')) s))
  | g_read_err er e :
      pc d s = GRead → cn_closed (src d s) = false →
      ReadMessage (mkReader [cn_in (src d s)] er) = Err e →
      cn_eof (src d s) = true ∨ needs_more (cn_in (src d s)) = false →
      gstep d s (set_pc d (GFail e) s)
  | g_read_closed k e :
      pc d s = GRead → cn_closed (src d s) = true →
      ReadMessage (mkReader [take k (cn_in (src d s))] closed_error) = Err e →
      gstep d s (set_pc d (GFail e) s)
  | g_process h p :
      pc d s = GProc h p →
      gstep d s (set_pc d (proc_begin d h p (world s)) s)
  | g_hook h p xml t r w' :
      pc d s = GHook h p xml t → hook_next t (world s) = Some (r, w') →
      gstep d s (set_pc d (hook_state h p xml r) (set_world w' s))
  | g_write_ok h p buf :
      pc d s = GWrite h p → cn_closed (dst d s) = false →
      message_buffer h p = Normal buf →
      gstep d s (set_pc d GRead (set_dst d (conn_send (dst d s) buf) s))
  | g_write_err h p buf k e :
      pc d s = GWrite h p → message_buffer h p = Normal buf → (k < length buf)%nat →
      (cn_closed (dst d s) = true → k = O) →
      gstep d s (set_pc d (GFail (Errorf "writing message (%d bytes): %w" [ArgD (zlen buf); ArgW e]))
                   (set_dst d (conn_send (dst d s) (take k buf)) s))
  | g_write_panic h p why :
      pc d s = GWrite h p → message_buffer h p = Panic why →
      gstep d s (set_crashed s)
  | g_report e :
      pc d s = GFail e →
      gstep d s (set_pc d GClose1 (if isConnectionClosed (Some e) then s else add_log d e s))
  | g_close_client :
      pc d s = GClose1 →
      gstep d s (set_pc d GClose2 (set_src C2S (conn_close (client s)) s))
  | g_close_upstream :
      pc d s = GClose2 →
      gstep d s (set_pc d GDone (set_src S2C (conn_close (upstream s)) s)).

(** ** Steps of the environment and of the waiting function *)
Inductive step (s : state) : state → Prop :=
  | step_go d s' : crashed s = false → gstep d s s' → step s s'
  | step_receive d bs :
      cn_eof (src d s) = false →
      step s (set_src d (conn_receive (src d s) bs) s)
  | step_peer_close d : step s (set_src d (conn_finish (src d s)) s)
  | step_world w' : rely (world s) w' → step s (set_world w' s)
  | step_return :
      crashed s = false → c2s s = GDone → s2c s = GDone →
      step s (set_returned (set_src C2S (conn_close (client s))
                (set_src S2C (conn_close (upstream s)) s))).

(** How [handleConnection] starts: the upstream socket is dialled; when that
    fails the deferred close of the client runs and nothing else. A connection
    that was never opened is a closed one. *)
Inductive started (w : W) : state → Prop :=
  | dial_ok : started w (init w)
  | dial_failed :
      started w (mkState (conn_close conn_open) (conn_close conn_open) GDone GDone w [] false true).

Definition reachable (w : W) (s : state) : Prop := ∃ s0, started w s0 ∧ rtc step s0 s.

(** Messages processed and written one after the other, with interference
    before each of them and while their hooks run. Without interference this is
    [relay]. *)
Inductive irelay : list msg → W → list byte → W → Prop :=
  | irelay_nil w : irelay [] w [] w
  | irelay_snoc ms h p w out w1 w2 p' w3 buf :
      irelay ms w out w1 → rtc rely w1 w2 →
      iintercept rely hooks h p w2 p' w3 → message_buffer h p' = Normal buf →
      irelay (ms ++ [(h, p)]) w (out ++ buf) w3.

(** ** The invariant

    Per direction: the received bytes are the frames of the messages taken off
    so far followed by the unread bytes. From the server to the client, what
    was written is a prefix of what was received. *)

Definition inv_s2c (s : state) : Prop :=
  ∃ ms pend part,
    Forall msg_ok ms ∧
    cn_recv (upstream s) = frames ms ++ pend ++ cn_in (upstream s) ∧
    cn_out (client s) = frames ms ++ part ∧
    match s2c s with
    | GProc h p | GWrite h p => msg_ok (h, p) ∧ pend = frame h p ∧ part = []
    | GHook _ _ _ _ => False
    | GRead => pend = [] ∧ part = []
    | _ => ∃ k, part = take k pend
    end.

(** Whatever the hooks that are still to run make of it, in the world [w] and
    with others at work, is what [intercept] makes of the message from [wa] on. *)
Definition promised (h : Header) (p : list byte) (xml : string) (t : hook_thread) (wa w : W) : Prop :=
  ∀ r w2, runs hook_next rely (Running t) w r w2 →
    iintercept rely hooks h p wa (updated p (patch_answer p xml r)) w2.

(** From the client to the server: in a message that is being written, or was
    when the write failed, the payload is what [intercept] computed in a world
    [wa] that came after the messages before it. *)
Definition inv_c2s (w0 : W) (s : state) : Prop :=
  ∃ ms pend out part w1,
    Forall msg_ok ms ∧
    cn_recv (client s) = frames ms ++ pend ++ cn_in (client s) ∧
    irelay ms w0 out w1 ∧
    cn_out (upstream s) = out ++ part ∧
    match c2s s with
    | GRead => pend = [] ∧ part = [] ∧ rtc rely w1 (world s)
    | GProc h p => msg_ok (h, p) ∧ pend = frame h p ∧ part = [] ∧ rtc rely w1 (world s)
    | GHook h p xml t =>
        msg_ok (h, p) ∧ pend = frame h p ∧ part = [] ∧ ∃ wa, rtc rely w1 wa ∧ promised h p xml t wa (world s)
    | GWrite h p' =>
        part = [] ∧ ∃ p wa wb, msg_ok (h, p) ∧ pend = frame h p ∧ rtc rely w1 wa ∧
          iintercept rely hooks h p wa p' wb ∧ rtc rely wb (world s)
    | _ => (pend = [] ∧ part = []) ∨
           ∃ h p p' wa wb buf k, msg_ok (h, p) ∧ pend = frame h p ∧ rtc rely w1 wa ∧
             iintercept rely hooks h p wa p' wb ∧
             message_buffer h p' = Normal buf ∧ (k < length buf)%nat ∧ part = take k buf
    end.

(** Hooks under way that do not answer with more than libvirt accepts. *)
Definition bounded_progress (r : progress hook_thread) : Prop :=
  ∀ w xml' w', runs hook_next (λ _ _, True) r w (xml', None) w' → in_bounds xml'.

(** The message a goroutine holds is well-typed: 32-bit header fields, and a
    payload whose length fits the 32-bit length word. *)
Definition typed_pc (g : goroutine) : Prop :=
  match g with
  | GProc h p => msg_ok (h, p)
  | GHook h p xml t =>
      msg_ok (h, p) ∧ (∃ n, DecodeXDRString p = Ok (xml, n)) ∧ bounded_progress (Running t)
  | GWrite h p => header_ok h ∧ zlen p < two32 - 28
  | _ => True
  end.

Definition inv_typed (s : state) : Prop := crashed s = false ∧ ∀ d, typed_pc (pc d s).

(** A goroutine past its first [Close] has closed the client, a finished one
    both connections. *)
Definition inv_closed (s : state) : Prop :=
  (∀ d, pc d s = GClose2 → cn_closed (client s) = true) ∧
  (∀ d, pc d s = GDone → cn_closed (client s) = true ∧ cn_closed (upstream s) = true) ∧
  (returned s = true → c2s s = GDone ∧ s2c s = GDone).

(** ** Lemmas: runs of messages *)

Lemma frames_app ms ns : frames (ms ++ ns) = frames ms ++ frames ns.
Proof. unfold frames. by rewrite fmap_app, concat_app. Qed.

Lemma frames_snoc ms h p : frames (ms ++ [(h, p)]) = frames ms ++ frame h p.
Proof. rewrite frames_app. unfold frames at 2. simpl. by rewrite app_nil_r. Qed.

Lemma relay_snoc (pr : processor (W:=W)) ms (w : W) out w1 h p p' w2 buf :
  relay pr ms w out w1 → pr h p w1 = Some (p', w2) → message_buffer h p' = Normal buf →
  relay pr (ms ++ [(h, p)]) w (out ++ buf) w2.
Proof.
  intros Hr Hp Hb. induction Hr as [w|h0 p0 ms w p1 w3 b out w4 ? ? _ IH]; simpl.
  - rewrite <-(app_nil_r buf). econstructor; eauto using relay.
  - rewrite <-app_assoc. econstructor; eauto.
Qed.

(** Processing up to the first hook. *)
Lemma proc_begin_spec h p w :
  match proc_begin C2S h p w with
  | GWrite h' p' => h' = h ∧ iintercept rely hooks h p w p' w
  | GHook h' p0 xml t =>
      h' = h ∧ p0 = p ∧ (∃ n, DecodeXDRString p = Ok (xml, n)) ∧
      hook_begin hooks xml w = Running t ∧ promised h p xml t w w
  | _ => False
  end.
Proof.
  unfold proc_begin, promised, iintercept. destruct (IsDomainDefineCall h); cbn [negb]; [|done].
  destruct (DecodeXDRString p) as [[xml n]|e]; [|done]. unfold hook_state.
  destruct (hook_begin hooks xml w) as [t|r] eqn:Eb; [by eauto 10|].
  split; [done|]. exists r. split; [constructor|done].
Qed.

(** Processing goes on with a hook or with the write. *)
Definition in_process (g : goroutine) : bool :=
  match g with GHook _ _ _ _ | GWrite _ _ => true | _ => false end.

Lemma hook_state_in_process h p xml r : in_process (hook_state h p xml r) = true.
Proof. by destruct r. Qed.

Lemma proc_begin_in_process d h p w : in_process (proc_begin d h p w) = true.
Proof.
  destruct d; [|done]. unfold proc_begin. case_cond; [done|].
  destruct (DecodeXDRString p) as [[xml n]|]; [apply hook_state_in_process|done].
Qed.

(** A hook that returned, with more to run or not. *)
Lemma promised_next h p xml t wa w r w' :
  promised h p xml t wa w → hook_next t w = Some (r, w') →
  match r with
  | Running t' => promised h p xml t' wa w'
  | Finished r => iintercept rely hooks h p wa (updated p (patch_answer p xml r)) w'
  end.
Proof.
  intros Hp Hn. destruct r as [t'|r].
  - intros r w2 Hr. by eapply Hp, runs_next.
  - eapply Hp, runs_next; [done..|]. constructor.
Qed.

Lemma promised_wait h p xml t wa w w' : promised h p xml t wa w → rely w w' → promised h p xml t wa w'.
Proof. intros Hp Hr r w2 Hruns. eapply Hp, runs_wait, Hruns. by apply rtc_once. Qed.

(** Without interference the messages are relayed one directly after the other. *)
Lemma irelay_alone ms w out w1 :
  (∀ w w', ¬ rely w w') → irelay ms w out w1 → relay (intercept hooks) ms w out w1.
Proof.
  intros Hno. induction 1 as [w|ms h p w out w1 w2 p' w3 buf _ IH Hgap Hp Hb]; [constructor|].
  assert (w2 = w1) as -> by (inversion Hgap; naive_solver).
  eapply relay_snoc; [done| |done]. apply iintercept_alone. unfold iintercept in *.
  case_cond; [done|]. destruct (DecodeXDRString p) as [[xml n]|]; [|done].
  destruct Hp as (r & Hr & ->). exists r. split; [|done]. eapply runs_mono, Hr. intros x y ?. by destruct (Hno x y).
Qed.

Lemma read_one bs h p r' :
  ReadMessage (mkReader [bs] EOF) = Ok (h, p, r') →
  bs = frame h p ++ stream r' ∧ msg_ok (h, p).
Proof.
  intros Hr. apply ReadMessage_inv in Hr as (Hs & _ & ? & ?).
  unfold stream in Hs at 1. simpl in Hs. rewrite app_nil_r in Hs. done.
Qed.

(** ** Lemmas: preservation *)

(** The invariants only look at a few fields. *)
Lemma inv_s2c_frame s s' :
  cn_recv (upstream s') = cn_recv (upstream s) → cn_in (upstream s') = cn_in (upstream s) →
  cn_out (client s') = cn_out (client s) → s2c s' = s2c s →
  inv_s2c s → inv_s2c s'.
Proof. unfold inv_s2c. by intros -> -> -> ->. Qed.

Lemma inv_c2s_frame w0 s s' :
  cn_recv (client s') = cn_recv (client s) → cn_in (client s') = cn_in (client s) →
  cn_out (upstream s') = cn_out (upstream s) → c2s s' = c2s s → world s' = world s →
  inv_c2s w0 s → inv_c2s w0 s'.
Proof. unfold inv_c2s. by intros -> -> -> -> ->. Qed.

Lemma inv_s2c_gstep s s' : gstep S2C s s' → inv_s2c s → inv_s2c s'.
Proof.
  intros Hstep (ms & pend & part & Hms & Hrecv & Hout & Hpc).
  destruct Hstep as [h p r' E Hc Hr|er e E Hc Hr Hm|j e E Hc Hr|h p E|h p xml t r w' E Hn|h p buf E Hc Hb
    |h p buf k e E Hb Hk Hc|h p why E Hb|e E|E|E]; simpl in E; rewrite E in Hpc.
  - destruct Hpc as [-> ->]. apply read_one in Hr as [Hr Hok]. simpl in Hr.
    exists ms, (frame h p), []. split_and!; try done. simpl. by rewrite Hrecv, Hr.
  - destruct Hpc as [-> ->]. exists ms, [], []. split_and!; try done. by exists O.
  - destruct Hpc as [-> ->]. exists ms, [], []. split_and!; try done. by exists O.
  - by exists ms, pend, part.
  - done.
  - destruct Hpc as (Hok & -> & ->). apply message_buffer_frame in Hb as ->; [|apply Hok].
    exists (ms ++ [(h, p)]), [], []. rewrite frames_snoc. simpl.
    rewrite Hrecv, Hout, !app_nil_r, <-app_assoc. split_and!; try done.
    apply Forall_app. split; [done|]. by constructor.
  - destruct Hpc as (Hok & -> & ->). apply message_buffer_frame in Hb as ->; [|apply Hok].
    exists ms, (frame h p), (take k (frame h p)). simpl. rewrite Hout, app_nil_r.
    split_and!; try done. by exists k.
  - exists ms, pend, part. split_and!; try done. simpl. by rewrite E.
  - destruct Hpc as [k ->]. case_cond; exists ms, pend, (take k pend); split_and!; try done; by exists k.
  - destruct Hpc as [k ->]. exists ms, pend, (take k pend). split_and!; try done. by exists k.
  - destruct Hpc as [k ->]. exists ms, pend, (take k pend). split_and!; try done. by exists k.
Qed.

Lemma inv_c2s_gstep w0 s s' : gstep C2S s s' → inv_c2s w0 s → inv_c2s w0 s'.
Proof.
  intros Hstep (ms & pend & out & part & w1 & Hms & Hrecv & Hrel & Hout & Hpc).
  destruct Hstep as [h p r' E Hc Hr|er e E Hc Hr Hm|j e E Hc Hr|h p E|h p xml t r w' E Hn|h p buf E Hc Hb
    |h p buf k e E Hb Hk Hc|h p why E Hb|e E|E|E]; simpl in E; rewrite E in Hpc.
  - destruct Hpc as (-> & -> & Hw). apply read_one in Hr as [Hr Hok]. simpl in Hr.
    exists ms, (frame h p), out, [], w1. split_and!; try done. simpl. by rewrite Hrecv, Hr.
  - destruct Hpc as (-> & -> & _). exists ms, [], out, [], w1. split_and!; try done. by left.
  - destruct Hpc as (-> & -> & _). exists ms, [], out, [], w1. split_and!; try done. by left.
  - destruct Hpc as (Hok & -> & -> & Hw).
    exists ms, (frame h p), out, [], w1. split_and!; try done. cbn [c2s set_pc world].
    pose proof (proc_begin_spec h p (world s)) as Hb. destruct (proc_begin C2S h p (world s)); try done.
    + destruct Hb as (-> & -> & _ & _ & Hb). split_and!; try done. by exists (world s).
    + destruct Hb as [-> Hi]. split; [done|]. by exists p, (world s), (world s).
  - destruct Hpc as (Hok & -> & -> & wa & Hw & Hpr).
    exists ms, (frame h p), out, [], w1. split_and!; try done. cbn [c2s set_pc set_world world].
    apply (promised_next _ _ _ _ _ _ _ _ Hpr) in Hn. destruct r as [t'|r]; unfold hook_state.
    + split_and!; try done. by exists wa.
    + split; [done|]. by exists p, wa, w'.
  - destruct Hpc as (-> & p0 & wa & wb & Hok & -> & Hgap & Hi & Hw).
    exists (ms ++ [(h, p0)]), [], (out ++ buf), [], wb. rewrite frames_snoc. simpl.
    rewrite Hrecv, Hout, !app_nil_r, <-app_assoc. split_and!; try done; [|by eapply irelay_snoc].
    apply Forall_app. split; [done|]. by constructor.
  - destruct Hpc as (-> & p0 & wa & wb & Hok & -> & Hgap & Hi & Hw).
    exists ms, (frame h p0), out, (take k buf), w1. simpl. rewrite Hout, app_nil_r.
    split_and!; try done. right. by exists h, p0, p, wa, wb, buf, k.
  - exists ms, pend, out, part, w1. split_and!; try done. simpl. by rewrite E.
  - case_cond; by exists ms, pend, out, part, w1.
  - by exists ms, pend, out, part, w1.
  - by exists ms, pend, out, part, w1.
Qed.

(** Interference only delays. *)
Lemma inv_c2s_world w0 s w' : rely (world s) w' → inv_c2s w0 s → inv_c2s w0 (set_world w' s).
Proof.
  intros Hr (ms & pend & out & part & w1 & Hms & Hrecv & Hrel & Hout & Hpc).
  exists ms, pend, out, part, w1. split_and!; try done. simpl.
  destruct (c2s s) as [|h p|h p xml t|h p'|e| | |]; try done.
  - destruct Hpc as (? & ? & ?). split_and!; [done..|by eapply rtc_r].
  - destruct Hpc as (? & ? & ? & ?). split_and!; [done..|by eapply rtc_r].
  - destruct Hpc as (? & ? & ? & wa & ? & ?). split_and!; [done..|]. eauto using promised_wait.
  - destruct Hpc as (? & p & wa & wb & ? & ? & ? & ? & ?). split; [done|].
    exists p, wa, wb. split_and!; [done..|by eapply rtc_r].
Qed.

(** A goroutine does not disturb the other direction. *)
Lemma gstep_c2s_other s s' : gstep C2S s s' → inv_s2c s → inv_s2c s'.
Proof.
  intros Hstep. apply inv_s2c_frame; destruct Hstep; simpl; try case_cond; done.
Qed.

Lemma gstep_s2c_other w0 s s' : gstep S2C s s' → inv_s2c s → inv_c2s w0 s → inv_c2s w0 s'.
Proof.
  intros Hstep (ms & pend & part & _ & _ & _ & Hpc).
  apply inv_c2s_frame; destruct Hstep as [| | | |h p xml t r w' E| | | | | |]; simpl in *; try case_cond; try done.
  by rewrite E in Hpc.
Qed.

Lemma inv_s2c_step s s' : step s s' → inv_s2c s → inv_s2c s'.
Proof.
  destruct 1 as [[] s' _ Hg|[] bs He|[]|w' Hw|]; eauto using inv_s2c_gstep, gstep_c2s_other;
    try (apply inv_s2c_frame; done).
  intros (ms & pend & part & ? & Hr & ? & ?). exists ms, pend, part. simpl.
  rewrite Hr, <-!app_assoc. done.
Qed.

Lemma inv_c2s_step w0 s s' : step s s' → inv_s2c s → inv_c2s w0 s → inv_c2s w0 s'.
Proof.
  intros Hstep Hs2c. destruct Hstep as [[] s' _ Hg|[] bs He|[]|w' Hw|]; eauto using inv_c2s_gstep, gstep_s2c_other, inv_c2s_world;
    try (apply inv_c2s_frame; done).
  intros (ms & pend & out & part & w1 & ? & Hr & ?). exists ms, pend, out, part, w1. simpl.
  rewrite Hr, <-!app_assoc. done.
Qed.

(** Rule induction over reachable states. *)
Lemma reachable_ind (P : state → Prop) w :
  (∀ s, started w s → P s) → (∀ s s', P s → step s s' → P s') → ∀ s, reachable w s → P s.
Proof.
  intros H0 Hs s (s0 & Hst & Hr). refine (rtc_ind_r P s0 (H0 _ Hst) _ s Hr). eauto.
Qed.

Lemma reachable_inv_s2c w s : reachable w s → inv_s2c s.
Proof.
  revert s. apply reachable_ind; [|eauto using inv_s2c_step].
  intros s []; exists [], [], []; split_and!; try done; by exists O.
Qed.

Lemma reachable_inv_c2s w s : reachable w s → inv_c2s w s.
Proof.
  assert (∀ s, reachable w s → inv_s2c s ∧ inv_c2s w s) as Hboth; [|intros Hr; by apply Hboth].
  clear s. apply reachable_ind; [|intros s s' []; eauto using inv_s2c_step, inv_c2s_step].
  intros s Hst. split; [eapply reachable_inv_s2c; exists s; split; [done|constructor]|].
  destruct Hst; exists [], [], [], [], w; split_and!; try done; [constructor..|by left].
Qed.

(** What the invariants say about the bytes on the wire. *)
Lemma inv_s2c_prefix s : inv_s2c s → cn_out (client s) `prefix_of` cn_recv (upstream s).
Proof.
  intros (ms & pend & part & _ & -> & -> & Hpc). apply prefix_app.
  assert (∃ k, part = take k pend) as [k ->].
  { destruct (s2c s); try done; destruct_and?; exists O; by subst. }
  exists (drop k pend ++ cn_in (upstream s)). by rewrite app_assoc, take_drop.
Qed.

(** The server holds the processed messages of a prefix of what the client
    sent, and possibly a part of one more. *)
Definition delivered (w0 : W) (s : state) : Prop :=
  ∃ ms out part w1 rest,
    cn_recv (client s) = frames ms ++ rest ∧ Forall msg_ok ms ∧
    irelay ms w0 out w1 ∧ cn_out (upstream s) = out ++ part ∧
    (part = [] ∨ ∃ h p rest' p' wa wb buf k, rest = frame h p ++ rest' ∧ msg_ok (h, p) ∧
       rtc rely w1 wa ∧ iintercept rely hooks h p wa p' wb ∧
       message_buffer h p' = Normal buf ∧ (k < length buf)%nat ∧ part = take k buf).

Lemma inv_c2s_delivered w0 s : inv_c2s w0 s → delivered w0 s.
Proof.
  intros (ms & pend & out & part & w1 & Hms & Hrecv & Hrel & Hout & Hpc).
  exists ms, out, part, w1, (pend ++ cn_in (client s)). split_and!; try done.
  destruct (c2s s); destruct_and?; try (by left);
    destruct Hpc as [[_ ->]|(h' & p & p' & wa & wb & buf & k & ? & -> & ? & ? & ? & ? & ->)];
    try (by left); right; by exists h', p, (cn_in (client s)), p', wa, wb, buf, k.
Qed.

(** ** Lemmas: types *)

(** Where nothing is relied on, it does not matter in which world a run starts. *)
Lemma runs_anywhere r (w0 w : W) a w' :
  runs hook_next (λ _ _, True) r w0 a w' → ∃ w2, runs hook_next (λ _ _, True) r w a w2.
Proof.
  destruct r as [t|a'].
  - intros Hr. exists w'. eapply runs_wait, Hr. by apply rtc_once.
  - intros Hr. inversion Hr; subst. eexists. constructor.
Qed.

Lemma hook_state_typed h p xml n r (w : W) :
  msg_ok (h, p) → DecodeXDRString p = Ok (xml, n) → bounded_progress r → typed_pc (hook_state h p xml r).
Proof.
  intros Hok Hd Hb. destruct r as [t|[xml' e]]; unfold hook_state; cbn [typed_pc]; [by eauto|]. destruct Hok as [Hh Hp].
  split; [done|]. rewrite (updated_patched _ _ n) by done.
  apply patched_bounded; [done|]. intros ->. by eapply (Hb w), runs_done.
Qed.

Lemma proc_begin_typed d h p w :
  hooks_bounded hooks → msg_ok (h, p) → typed_pc (proc_begin d h p w).
Proof.
  intros Hh Hok. assert (typed_pc (GWrite h p)) as Hw.
  { destruct Hok as [? ?]. split; [done|]. by apply payload_bounded. }
  destruct d; [|done]. unfold proc_begin. case_cond; [done|].
  destruct (DecodeXDRString p) as [[xml n]|] eqn:Hd; [|done].
  eapply (hook_state_typed _ _ _ _ _ w); [done..|]. intros w0 xml' w' Hr.
  apply (runs_anywhere _ _ w) in Hr as [w2 Hr]. by eapply Hh.
Qed.

Lemma inv_typed_gstep d s s' : hooks_bounded hooks → gstep d s s' → inv_typed s → inv_typed s'.
Proof.
  intros Hh Hg [Hcr Hty].
  assert (crashed s' = false) as Hcr'.
  { destruct Hg as [| | | | | | |h p why E Hb| | |]; try (destruct d; simpl; try case_cond; done).
    specialize (Hty d). rewrite E in Hty. destruct Hty as [_ Hp].
    by rewrite message_buffer_spec in Hb. }
  split; [done|]. intros d'. specialize (Hty d') as Hd'. specialize (Hty d).
  destruct (decide (d' = d)) as [->|Hne].
  - assert (∀ g s0, typed_pc g → typed_pc (pc d (set_pc d g s0))) as Hset by (by destruct d).
    destruct Hg as [h p r' E Hc Hr|er e E Hc Hr Hm|j e E Hc Hr|h p E|h p xml t r w' E Hn|h p buf E Hc Hb
      |h p buf k e E Hb Hk Hc|h p why E Hb|e E|E|E]; try (by apply Hset); rewrite E in Hty.
    + apply Hset. by apply read_one in Hr as [_ Hok].
    + apply Hset. by apply proc_begin_typed.
    + apply Hset. destruct Hty as (Hok & [n Hd] & Hb). eapply (hook_state_typed _ _ _ _ _ w'); [done..|].
      intros w0 xml' w2 Hr. apply (runs_anywhere _ _ w') in Hr as [w3 Hr]. by eapply Hb, runs_next.
    + done.
  - assert (pc d' s' = pc d' s) as ->; [|done].
    destruct Hg, d, d'; try done; simpl; try case_cond; done.
Qed.

Lemma inv_typed_step s s' : hooks_bounded hooks → step s s' → inv_typed s → inv_typed s'.
Proof.
  intros Hh. destruct 1 as [d s' _ Hg|[] bs He|[]|w' Hw|Hcr H1 H2]; eauto using inv_typed_gstep;
    intros [? Hty]; (split; [done|]); intros d; specialize (Hty d); by destruct d.
Qed.

Lemma reachable_inv_typed w s : hooks_bounded hooks → reachable w s → inv_typed s.
Proof.
  intros Hh. revert s. apply reachable_ind; [|eauto using inv_typed_step].
  intros s []; (split; [done|]); by intros [].
Qed.

(** ** Lemmas: closing *)

Definition both_closed (s : state) : Prop :=
  cn_closed (client s) = true ∧ cn_closed (upstream s) = true.

Lemma gstep_closed_mono d s s' :
  gstep d s s' →
  (cn_closed (client s) = true → cn_closed (client s') = true) ∧
  (cn_closed (upstream s) = true → cn_closed (upstream s') = true).
Proof. destruct 1, d; simpl; try case_cond; done. Qed.

Lemma step_closed_mono s s' :
  step s s' →
  (cn_closed (client s) = true → cn_closed (client s') = true) ∧
  (cn_closed (upstream s) = true → cn_closed (upstream s') = true).
Proof. destruct 1 as [d s' _ Hg|[] ? ?|[]|w' Hw|]; eauto using gstep_closed_mono. Qed.

(** A goroutine that is processing is not at its end. *)
Local Ltac in_process_absurd :=
  exfalso; match goal with
  | E : proc_begin ?d ?h ?p ?w = _ |- _ => pose proof (proc_begin_in_process d h p w) as X; by rewrite E in X
  | E : hook_state ?h ?p ?xml ?r = _ |- _ => pose proof (hook_state_in_process h p xml r) as X; by rewrite E in X
  end.

Lemma inv_closed_gstep d s s' : gstep d s s' → inv_closed s → inv_closed s'.
Proof.
  intros Hg (H2 & Hd & Hr). pose proof (gstep_closed_mono _ _ _ Hg) as [Hc Hu].
  assert (∀ d', d' ≠ d → pc d' s' = pc d' s) as Hother.
  { destruct Hg, d; intros [] ?; try done; simpl; try case_cond; done. }
  assert (returned s' = returned s) as Hret by (destruct Hg, d; simpl; try case_cond; done).
  split_and!.
  - intros d' Hpc. destruct (decide (d' = d)) as [->|Hne].
    + destruct Hg, d; simpl in *; try case_cond; simpl in *; first [done|congruence|in_process_absurd].
    + rewrite Hother in Hpc by done. eauto.
  - intros d' Hpc. destruct (decide (d' = d)) as [->|Hne].
    + destruct Hg as [| | | | | | | | | |E], d; simpl in *; try case_cond; simpl in *;
        first [done|congruence|in_process_absurd|split; [first [by apply (H2 C2S)|by apply (H2 S2C)]|done]].
    + rewrite Hother in Hpc by done. destruct (Hd d' Hpc). eauto.
  - intros Hr'. rewrite Hret in Hr'. destruct (Hr Hr').
    destruct d; destruct Hg; simpl in *; try case_cond; congruence.
Qed.

Lemma inv_closed_step s s' : step s s' → inv_closed s → inv_closed s'.
Proof.
  destruct 1 as [d s' _ Hg|[] bs He|[]|w' Hw|Hcr H1 H2]; eauto using inv_closed_gstep.
  intros (? & ? & ?). split_and!; simpl; try done; intros []; simpl; naive_solver.
Qed.

Lemma reachable_inv_closed w s : reachable w s → inv_closed s.
Proof.
  revert s. apply reachable_ind; [|eauto using inv_closed_step].
  intros s []; split_and!; try done; by intros [].
Qed.

(** ** Lemmas: draining

    Once both connections are closed every goroutine step gets closer to the
    end. *)

(** The hooks that will run for a message that is about to be processed. *)
Definition pending_hooks (g : goroutine) : nat :=
  match g with GHook _ _ _ t => S (hook_size t) | _ => 0 end.

Definition weight (d : dir) (w : W) (g : goroutine) : nat :=
  match g with
  | GProc h p => 6 + pending_hooks (proc_begin d h p w)
  | GHook _ _ _ t => 6 + hook_size t
  | GWrite _ _ => 5 | GRead => 5
  | GFail _ => 4 | GClose1 => 3 | GClose2 => 2 | GDone => 1
  end.

Definition measure (s : state) : nat :=
  weight C2S (world s) (c2s s) + weight S2C (world s) (s2c s) + (if crashed s then 0 else 1).

(** The scripts the connection is still going to run for the message it holds. *)
Definition hook_work (s : state) : nat :=
  match c2s s with
  | GProc h p => pending_hooks (proc_begin C2S h p (world s))
  | GHook _ _ _ t => hook_size t
  | _ => 0
  end.

(** There are no hooks on the way from the server. *)
Definition plain_s2c (s : state) : Prop := pending_hooks (s2c s) = 0%nat.

Lemma inv_s2c_plain s : inv_s2c s → plain_s2c s.
Proof. intros (ms & pend & part & _ & _ & _ & Hpc). unfold plain_s2c. by destruct (s2c s). Qed.

(** A step of some goroutine of a process that is still up. *)
Definition go (s s' : state) : Prop := crashed s = false ∧ ∃ d, gstep d s s'.

Lemma weight_s2c w w' g : weight S2C w g = weight S2C w' g.
Proof. by destruct g. Qed.

Lemma weight_process d w h p : (weight d w (proc_begin d h p w) < weight d w (GProc h p))%nat.
Proof.
  pose proof (proc_begin_in_process d h p w) as Hp. simpl.
  destruct (proc_begin d h p w); try done; simpl; lia.
Qed.

Lemma weight_hook d w w' w0 h p xml t r :
  hook_next t w = Some (r, w') → (weight d w0 (hook_state h p xml r) < 6 + hook_size t)%nat.
Proof.
  destruct r as [t'|r]; unfold hook_state; simpl; [|lia]. intros Hn%hook_next_size. lia.
Qed.

Lemma gstep_plain d s s' : gstep d s s' → plain_s2c s → plain_s2c s'.
Proof.
  unfold plain_s2c. destruct 1 as [| | |h p E|h p xml t r w' E Hn| | | | | |], d; simpl in *; try case_cond; try done.
  by rewrite E.
Qed.

Lemma go_measure s s' :
  go s s' → both_closed s → plain_s2c s → (measure s' < measure s)%nat ∧ both_closed s' ∧ plain_s2c s'.
Proof.
  intros [Hcr [d Hg]] [Hc Hu] Hpl. pose proof (gstep_closed_mono _ _ _ Hg) as [Hc' Hu'].
  split; [|split; [split; auto|by eapply gstep_plain]]. unfold measure.
  destruct Hg as [h p r' E Hcl Hr|er e E Hcl Hr Hm|j e E Hcl Hr|h p E|h p xml t r w' E Hn|h p buf E Hcl Hb
    |h p buf k e E Hb Hk Hcl|h p why E Hb|e E|E|E]; destruct d; simpl in *; try congruence;
    try case_cond; simpl; rewrite ?E, ?Hcr; try (simpl; lia).
  - pose proof (weight_process C2S (world s) h p). simpl in *. lia.
  - pose proof (weight_hook C2S _ _ w' h p xml t r Hn). rewrite (weight_s2c w' (world s)). simpl. lia.
  - unfold plain_s2c in Hpl. by rewrite E in Hpl.
Qed.

(** A goroutine can step unless it is done, waits for bytes on an open
    connection, or runs a hook that never returns. *)
Lemma gstep_progress d s :
  both_closed s → pc d s ≠ GDone →
  (∃ s', gstep d s s') ∨ ∃ h p xml t, pc d s = GHook h p xml t ∧ hook_next t (world s) = None.
Proof.
  intros [Hc Hu] Hd. destruct (pc d s) as [|h p|h p xml t|h p|e| | |] eqn:E; [..|done].
  - left. eexists. eapply (g_read_closed d s O); [done|by destruct d|reflexivity].
  - left. eexists. by eapply g_process.
  - destruct (hook_next t (world s)) as [[r w']|] eqn:En; [|by eauto 10].
    left. eexists. by eapply g_hook.
  - left. destruct (message_buffer h p) as [buf|why] eqn:Eb.
    + apply message_buffer_length in Eb as Hl.
      eexists. eapply (g_write_err d s h p buf O ErrClosed); [done..|lia|done].
    + eexists. by eapply g_write_panic.
  - left. eexists. by eapply g_report.
  - left. eexists. by eapply g_close_client.
  - left. eexists. by eapply g_close_upstream.
Qed.

Lemma gstate_done_dec (g : goroutine) : g = GDone ∨ g ≠ GDone.
Proof. destruct g; auto. Qed.

Lemma go_bounded n s s' :
  both_closed s → plain_s2c s → nsteps go n s s' →
  (n + measure s' <= measure s)%nat ∧ both_closed s' ∧ plain_s2c s'.
Proof.
  intros Hb Hp Hn. induction Hn as [s|n s1 s2 s3 Hg Hn IH]; [done|].
  destruct (go_measure _ _ Hg Hb Hp) as (Hm & Hb2 & Hp2). destruct (IH Hb2 Hp2) as (? & ? & ?).
  split_and!; [lia|done..].
Qed.

Lemma measure_bounds s : plain_s2c s → (2 <= measure s <= 13 + hook_work s)%nat.
Proof.
  unfold measure, hook_work, plain_s2c. destruct (c2s s), (s2c s), (crashed s); simpl; try done; lia.
Qed.

(** ** Lemmas: a hook that never returns *)

(** A goroutine in a hook that returns in no world stays there. *)
Lemma hook_stuck_step s s' h p xml t :
  c2s s = GHook h p xml t → returned s = false → (∀ w, hook_next t w = None) → step s s' →
  c2s s' = GHook h p xml t ∧ returned s' = false ∧ cn_out (upstream s') = cn_out (upstream s).
Proof.
  intros Hc Hret Hno [d s1 _ Hg|[] bs _|[]|w' _|_ Hd _]; try (by rewrite Hc in Hd); try done.
  destruct d; destruct Hg as [h' p' r' E|er e E|j e E|h' p' E|h' p' xml' t' r w' E Hn|h' p' buf E
    |h' p' buf k e E|h' p' why E|e E|E|E]; simpl in *; try congruence; try case_cond; try done.
Qed.

Lemma hook_stuck_forever s s' h p xml t :
  c2s s = GHook h p xml t → returned s = false → (∀ w, hook_next t w = None) → rtc step s s' →
  c2s s' = GHook h p xml t ∧ returned s' = false ∧ cn_out (upstream s') = cn_out (upstream s).
Proof.
  intros Hc Hret Hno Hr. revert Hc Hret. induction Hr as [s|s1 s2 s3 Hs _ IH]; [done|].
  intros Hc Hret. destruct (hook_stuck_step _ _ _ _ _ _ Hc Hret Hno Hs) as (Hc2 & Hret2 & Ho).
  destruct (IH Hc2 Hret2) as (? & ? & Ho'). by rewrite Ho', Ho.
Qed.

End conn.

(** ** The accept loop (Proxy.Run) *)

Inductive accept_result :=
  | Accepted (conn_id : nat)
  | AcceptErr (e : goerror).

(** The connections a handler was started for, and whether the loop returned,
    after the given results of [listener.Accept]. *)
Fixpoint Run (accepts : list accept_result) : list nat * bool :=
  match accepts with
  | [] => ([], false)
  | AcceptErr err :: accepts =>
      if isConnectionClosed (Some err) then ([], true) else Run accepts
  | Accepted clientConn :: accepts =>
      let '(spawned, stopped) := Run accepts in (clientConn :: spawned, stopped)
  end.

Definition is_accepted (a : accept_result) : option nat :=
  match a with Accepted c => Some c | AcceptErr _ => None end.

Definition is_closed (a : accept_result) : bool :=
  match a with Accepted _ => false | AcceptErr e => isConnectionClosed (Some e) end.

End ProxyConn.

(** * Properties of a connection *)
Module ProxyConnProps.
Import ProxyConn.

Section props.
Context {W H : Type} `{!HookRunner W H} (hooks : H) (rely : relation W).

(** C5: in every reachable state of a connection, whatever the interleaving of
    the two goroutines, the peers and the closes, the bytes the client got are
    a prefix of the bytes the server sent: nothing is reordered, duplicated or
    changed on the way back. *)
Theorem server_bytes_prefix (w : W) (s : state) :
  reachable hooks rely w s → cn_out (client s) `prefix_of` cn_recv (upstream s).
Proof.
  intros Hr. eapply inv_s2c_prefix, reachable_inv_s2c, Hr.
Qed.

(** C4: in every reachable state the server got exactly the messages of a
    prefix of the client's byte stream, in order, each rebuilt from the payload
    [intercept] computed for it from a world on that came after the messages
    before it, whatever other connections do to the world in between and while
    the hooks run; after a failed write, at most a part of one further message,
    which is the client's next one. *)
Theorem client_messages_in_order (w : W) (s : state) :
  reachable hooks rely w s →
  ∃ ms out part w1 rest,
    cn_recv (client s) = frames ms ++ rest ∧ Forall msg_ok ms ∧
    irelay hooks rely ms w out w1 ∧ cn_out (upstream s) = out ++ part ∧
    (part = [] ∨ ∃ h p rest' p' wa wb buf k, rest = frame h p ++ rest' ∧ msg_ok (h, p) ∧
       rtc rely w1 wa ∧ iintercept rely hooks h p wa p' wb ∧
       message_buffer h p' = Normal buf ∧ (k < length buf)%nat ∧ part = take k buf).
Proof.
  intros Hr. by apply inv_c2s_delivered, reachable_inv_c2s.
Qed.

(** C10: no connection is left behind: a finished goroutine has closed both
    connections, and when [handleConnection] returns both goroutines are done
    and both connections closed. *)
Theorem handler_closes_both (w : W) (s : state) :
  reachable hooks rely w s →
  (∀ d, pc d s = GDone → both_closed s) ∧
  (returned s = true → c2s s = GDone ∧ s2c s = GDone ∧ both_closed s).
Proof.
  intros Hr. apply reachable_inv_closed in Hr as (_ & Hd & Hret). split.
  - intros d. apply Hd.
  - intros E. destruct (Hret E) as [H1 H2]. split_and!; try done. apply (Hd C2S H1).
Qed.

(** C7: a connection never brings the process down: if the hooks do not answer
    with more than libvirt accepts, no reachable state has crashed, and every
    message a goroutine holds is well-typed. Its header fields are 32-bit; as it
    was read, and while hooks run for it, its payload is within the protocol's
    message size, and what the hooks run on is the XML it decodes to; as it is
    about to be written its size, which the hooks may have grown, still fits the
    32-bit length word, so that building the message does not panic and gives
    its frame. Hooks only run for messages of the client, and messages of the
    server keep the protocol's bound. *)
Theorem connection_well_typed (w : W) (s : state) :
  hooks_bounded hooks → reachable hooks rely w s →
  crashed s = false ∧
  ∀ d, match pc d s with
       | GProc h p => header_ok h ∧ zlen p ≤ MaxMessageSize - HeaderSize
       | GHook h p xml _ =>
           d = C2S ∧ header_ok h ∧ zlen p ≤ MaxMessageSize - HeaderSize ∧
           ∃ n, DecodeXDRString p = Ok (xml, n)
       | GWrite h p =>
           header_ok h ∧ 28 + zlen p < two32 ∧ message_buffer h p = Normal (frame h p) ∧
           (d = S2C → zlen p ≤ MaxMessageSize - HeaderSize)
       | _ => True
       end.
Proof.
  intros Hh Hr. destruct (reachable_inv_typed _ _ _ _ Hh Hr) as [Hcr Hty]. split; [done|].
  intros d. specialize (Hty d).
  destruct (reachable_inv_s2c _ _ _ _ Hr) as (ms & pend & part & _ & _ & _ & Hs).
  destruct (pc d s) as [|h p|h p xml t|h p| | | |] eqn:E; try done.
  - destruct Hty as ([? ?] & ? & _). destruct d; [done|]. simpl in E. by rewrite E in Hs.
  - destruct Hty as [? Hp]. split_and!; [done|lia|by apply message_buffer_spec|].
    intros ->. simpl in E. rewrite E in Hs. by destruct Hs as [[_ ?] _].
Qed.

(** C11: closing drains the handler: once both connections are closed the
    goroutines take at most eleven more steps together, besides the hooks that
    are still to run for the client's last message, and they can only stop with
    both done, unless a hook never returns or the process crashed. *)
Theorem closed_connection_drains (w : W) (s s' : state) (n : nat) :
  reachable hooks rely w s → both_closed s → nsteps (go hooks) n s s' →
  (n <= 11 + hook_work hooks s)%nat ∧
  ((∀ s'', ¬ go hooks s' s'') →
   crashed s' = true ∨ (c2s s' = GDone ∧ s2c s' = GDone) ∨
   ∃ h p xml t, c2s s' = GHook h p xml t ∧ hook_next t (world s') = None).
Proof.
  intros Hr Hb Hn. pose proof (inv_s2c_plain _ (reachable_inv_s2c _ _ _ _ Hr)) as Hpl.
  apply go_bounded in Hn as (Hn & Hb' & Hpl'); [|done..].
  pose proof (measure_bounds hooks s Hpl). pose proof (measure_bounds hooks s' Hpl'). split; [lia|].
  intros Hstuck. destruct (crashed s') eqn:Ec; [by left|]. right.
  assert (∀ d, pc d s' = GDone ∨ ∃ h p xml t, pc d s' = GHook h p xml t ∧ hook_next t (world s') = None) as Hpc.
  { intros d. destruct (gstate_done_dec (pc d s')) as [|Hnd]; [by left|].
    destruct (gstep_progress hooks d s' Hb' Hnd) as [[s'' Hg]|]; [|by right].
    destruct (Hstuck s''). split; eauto. }
  destruct (Hpc C2S) as [Hdone|?]; [|by right]. left. split; [done|].
  destruct (Hpc S2C) as [Hdone'|(h & p & xml & t & E & _)]; [exact Hdone'|].
  unfold plain_s2c in Hpl'. simpl in E. by rewrite E in Hpl'.
Qed.

End props.

Section wedged.
Context {W : Type} `{!FileSystem W, !Processes W} (hc : Hook.HookChain) (rely : relation W).

(** C40: the hook timeout does not free a connection: if the script a
    connection is running leaves a descendant that holds its output and never
    exits, then the
    goroutine stays in that hook for good, whatever else happens, the peers
    hanging up and both connections being closed included: the message is never
    delivered, nothing more is sent to the server and [handleConnection] never
    returns. *)
Theorem orphan_wedges_connection (w : W) (s s' : state) h p xml t :
  reachable hc rely w s → c2s s = GHook h p xml t →
  (∀ w1, let q := (exec_start (Hook.ct_next t) [Hook.ct_domainName t; "prepare"; "begin"; "-"]
                     (Hook.ct_currentXML t) w1).1 in
         p_start_err q = None ∧ None ∈ p_holders q) →
  rtc (step hc rely) s s' →
  c2s s' = GHook h p xml t ∧ returned s' = false ∧ cn_out (upstream s') = cn_out (upstream s).
Proof.
  intros Hr Hc Hq Hs.
  eapply (hook_stuck_forever hc rely s s' h p xml t); [done| | |exact Hs].
  - destruct (reachable_inv_closed _ _ _ _ Hr) as (_ & _ & Hret).
    destruct (returned s) eqn:E; [|done]. destruct (Hret eq_refl). congruence.
  - intros w1. apply Hook.chain_next_hangs. apply Hq.
Qed.

End wedged.

(** The accept loop starts one handler per connection accepted before the
    listener is closed, in order, skips other accept errors, and returns
    exactly when an accept reports the closed listener. *)
Theorem accept_loop (accepts : list accept_result) :
  (existsb is_closed accepts = false → Run accepts = (omap is_accepted accepts, false)) ∧
  (∀ pre e post, accepts = pre ++ AcceptErr e :: post →
     existsb is_closed pre = false → isConnectionClosed (Some e) = true →
     Run accepts = (omap is_accepted pre, true)).
Proof.
  split.
  - induction accepts as [|[c|e] accepts IH]; [done|..]; simpl; intros Hc.
    + by rewrite IH.
    + destruct (isConnectionClosed (Some e)); [done|]. by apply IH.
  - intros pre e post -> Hpre He. induction pre as [|[c|e'] pre IH]; simpl in *.
    + by rewrite He.
    + by rewrite IH.
    + destruct (isConnectionClosed (Some e')); [done|]. by apply IH.
Qed.

(** ** Witnesses

    A server message travels to the client, then the client hangs up. *)
Import ProxyProps.
#[local] Existing Instance fixed_hooks.

Abbreviation demo_state := (@state unit unit fixed_hooks).

(** No interference. *)
Definition alone : relation unit := λ _ _, False.

Definition demo_bytes : list byte := frame other_header [x2a].

Definition demo_received : demo_state :=
  set_src S2C (conn_receive conn_open demo_bytes) (init ()).
Definition demo_read : demo_state :=
  set_pc S2C (GProc other_header [x2a])
    (set_src S2C (conn_consume (upstream demo_received) []) demo_received).
Definition demo_processed : demo_state :=
  set_pc S2C (GWrite other_header [x2a]) demo_read.
Definition demo_written : demo_state :=
  set_pc S2C GRead (set_dst S2C (conn_send (client demo_processed) demo_bytes) demo_processed).

Lemma fixed_hooks_bounded : hooks_bounded ().
Proof. intros xml w xml' w' Hr. inversion Hr; subst. vm_compute. discriminate. Qed.

Lemma demo_processed_reachable : reachable () alone () demo_processed.
Proof.
  exists (init ()). split; [constructor|].
  eapply rtc_l; [exact (step_receive () alone (init ()) S2C demo_bytes eq_refl)|].
  eapply rtc_l.
  { eapply (step_go _ _ _ S2C); [reflexivity|].
    by eapply (g_read_ok () S2C demo_received other_header [x2a] (mkReader [] EOF)). }
  eapply rtc_l.
  { eapply (step_go _ _ _ S2C); [reflexivity|].
    by eapply (g_process () S2C demo_read other_header [x2a]). }
  apply rtc_refl.
Qed.

Lemma demo_reachable : reachable () alone () demo_written.
Proof.
  destruct demo_processed_reachable as (s0 & H0 & Hr). exists s0. split; [done|].
  eapply rtc_r; [exact Hr|]. eapply (step_go _ _ _ S2C); [reflexivity|].
  by eapply (g_write_ok () S2C demo_processed other_header [x2a] demo_bytes).
Qed.

Lemma server_bytes_prefix_witness :
  cn_out (client demo_written) = demo_bytes ∧
  cn_out (client demo_written) `prefix_of` cn_recv (upstream demo_written).
Proof. split; [reflexivity|]. apply (server_bytes_prefix () alone ()). exact demo_reachable. Defined.

(** A define call of the client, processed and delivered. *)
Definition demo_call : list byte := EncodeXDRString "<d/>" ++ be_bytes 1.
Definition demo_patched : list byte := EncodeXDRString "<patched/>" ++ be_bytes 1.

Lemma demo_delivered : ∃ s : demo_state,
  reachable () alone () s ∧ cn_recv (client s) = frame define_header demo_call ∧
  cn_out (upstream s) = frame define_header demo_patched.
Proof.
  eexists. split; [exists (init ()); split; [constructor|]|].
  - eapply rtc_l; [apply (step_receive _ _ _ C2S (frame define_header demo_call)); reflexivity|].
    eapply rtc_l; [eapply (step_go _ _ _ C2S); [reflexivity|];
      eapply (g_read_ok _ _ _ define_header demo_call (mkReader [] EOF)); reflexivity|].
    eapply rtc_l; [eapply (step_go _ _ _ C2S); [reflexivity|];
      eapply (g_process _ _ _ define_header demo_call); reflexivity|].
    eapply rtc_l; [eapply (step_go _ _ _ C2S); [reflexivity|];
      eapply (g_write_ok _ _ _ define_header demo_patched (frame define_header demo_patched)); reflexivity|].
    apply rtc_refl.
  - vm_compute. split; reflexivity.
Qed.

Lemma client_messages_in_order_witness :
  ∃ s : demo_state, cn_out (upstream s) = frame define_header demo_patched ∧
  ∃ ms out part w1 rest,
    cn_recv (client s) = frames ms ++ rest ∧ Forall msg_ok ms ∧
    irelay () alone ms () out w1 ∧ cn_out (upstream s) = out ++ part ∧
    (part = [] ∨ ∃ h p rest' p' wa wb buf k, rest = frame h p ++ rest' ∧ msg_ok (h, p) ∧
       rtc alone w1 wa ∧ iintercept alone () h p wa p' wb ∧
       message_buffer h p' = Normal buf ∧ (k < length buf)%nat ∧ part = take k buf).
Proof.
  destruct demo_delivered as (s & Hs & _ & Ho). exists s. split; [exact Ho|].
  apply (client_messages_in_order () alone ()). exact Hs.
Defined.

Lemma connection_well_typed_witness :
  s2c demo_processed = GWrite other_header [x2a] ∧
  header_ok other_header ∧ 28 + zlen [x2a] < two32 ∧
  message_buffer other_header [x2a] = Normal (frame other_header [x2a]) ∧
  (S2C = S2C → zlen [x2a] ≤ MaxMessageSize - HeaderSize).
Proof.
  split; [reflexivity|].
  exact (proj2 (connection_well_typed () alone () demo_processed fixed_hooks_bounded
                  demo_processed_reachable) S2C).
Defined.

(** The client hangs up: its goroutine reads EOF, reports it and closes both
    sides; the other finds its source closed; the handler returns. *)
Lemma demo_hangup : ∃ s : demo_state,
  reachable () alone () s ∧ returned s = true ∧ logged s = [(C2S, Errorf "reading message length: %w" [ArgW EOF])].
Proof.
  eexists. split; [exists (init ()); split; [constructor|]|].
  - eapply rtc_l; [apply (step_peer_close _ _ _ C2S)|].
    eapply rtc_l; [eapply (step_go _ _ _ C2S); [reflexivity|]; eapply (g_read_err _ _ _ EOF);
      [reflexivity..|by left]|].
    do 3 (eapply rtc_l; [eapply (step_go _ _ _ C2S); [reflexivity|];
      first [eapply g_report; reflexivity|eapply g_close_client; reflexivity
            |eapply g_close_upstream; reflexivity]|]).
    eapply rtc_l; [eapply (step_go _ _ _ S2C); [reflexivity|]; eapply (g_read_closed _ _ _ O); reflexivity|].
    do 3 (eapply rtc_l; [eapply (step_go _ _ _ S2C); [reflexivity|];
      first [eapply g_report; reflexivity|eapply g_close_client; reflexivity
            |eapply g_close_upstream; reflexivity]|]).
    eapply rtc_l; [eapply step_return; reflexivity|apply rtc_refl].
  - vm_compute. split; reflexivity.
Qed.

Lemma handler_closes_both_witness :
  ∃ s : demo_state, returned s = true ∧ c2s s = GDone ∧ s2c s = GDone ∧ both_closed s.
Proof.
  destruct demo_hangup as (s & Hs & Hr & _). exists s. split; [exact Hr|].
  apply (handler_closes_both () alone () s Hs). exact Hr.
Defined.

(** The client is gone and its goroutine done; the other one has a step to take. *)
Lemma demo_closed : ∃ s s' : demo_state,
  reachable () alone () s ∧ both_closed s ∧ hook_work () s = 0%nat ∧ nsteps (go ()) 1 s s' ∧ s2c s' ≠ GDone.
Proof.
  eexists _, _. split; [exists (init ()); split; [constructor|]|].
  - eapply rtc_l; [apply (step_peer_close _ _ _ C2S)|].
    eapply rtc_l; [eapply (step_go _ _ _ C2S); [reflexivity|]; eapply (g_read_err _ _ _ EOF);
      [reflexivity..|by left]|].
    do 3 (eapply rtc_l; [eapply (step_go _ _ _ C2S); [reflexivity|];
      first [eapply g_report; reflexivity|eapply g_close_client; reflexivity
            |eapply g_close_upstream; reflexivity]|]).
    apply rtc_refl.
  - split_and!; [by split|reflexivity| |].
    + apply nsteps_once. split; [reflexivity|]. exists S2C. eapply (g_read_closed _ _ _ O); reflexivity.
    + done.
Qed.

Lemma closed_connection_drains_witness :
  ∃ s', s2c s' ≠ GDone ∧ (1 <= 11)%nat ∧
  ((∀ s'', ¬ go () s' s'') →
   crashed s' = true ∨ (c2s s' = GDone ∧ s2c s' = GDone) ∨
   ∃ h p xml t, c2s s' = GHook h p xml t ∧ hook_next t (world s') = None).
Proof.
  destruct demo_closed as (s & s' & Hr & Hb & Hw & Hn & Hd). exists s'. split; [exact Hd|].
  pose proof (closed_connection_drains () alone () s s' 1 Hr Hb Hn) as H. rewrite Hw in H. exact H.
Defined.

(** A hook that leaves a daemon with its output behind. *)
#[local] Instance any_files : FileSystem unit := {|
  os_Stat _ _ := Ok (mkFileInfo false true 493);
  os_Lstat p _ := Err (ErrNotExist p);
  os_ReadDir p _ := Err (ErrNotExist p);
  os_ReadFile p _ := Err (ErrNotExist p);
  os_WriteFile p _ _ w := (Some (ErrNotExist p), w);
  filepath_EvalSymlinks p _ := Ok p;
|}.

#[local] Instance daemon_exec : Processes unit := {|
  exec_start _ _ stdin w := (mkProcess None (Some 10) 0 stdin "" [Some 20; None], w);
|}.

Definition daemon_chain : Hook.HookChain := Hook.mkHookChain "/bin/hook" "" "virtinjectd".

Definition daemon_thread : Hook.chain_thread := Hook.mkThread "virtinjectd" "/bin/hook" [] "<d/>".

(** The client sends a define call, the goroutine gets to its hook, and both
    peers hang up. *)
Lemma demo_in_hook : ∃ s s',
  reachable daemon_chain alone () s ∧ c2s s = GHook define_header demo_call "<d/>" daemon_thread ∧
  rtc (step daemon_chain alone) s s' ∧ cn_eof (client s') = true ∧ cn_eof (upstream s') = true.
Proof.
  eexists _, _. split; [exists (init ()); split; [constructor|]|].
  - eapply rtc_l; [apply (step_receive _ _ _ C2S (frame define_header demo_call)); reflexivity|].
    eapply rtc_l; [eapply (step_go _ _ _ C2S); [reflexivity|];
      eapply (g_read_ok _ _ _ define_header demo_call (mkReader [] EOF)); reflexivity|].
    eapply rtc_l; [eapply (step_go _ _ _ C2S); [reflexivity|];
      eapply (g_process _ _ _ define_header demo_call); reflexivity|].
    apply rtc_refl.
  - split; [vm_compute; reflexivity|]. split.
    + eapply rtc_l; [apply (step_peer_close _ _ _ C2S)|].
      eapply rtc_l; [apply (step_peer_close _ _ _ S2C)|apply rtc_refl].
    + split; reflexivity.
Qed.

Lemma orphan_wedges_connection_witness :
  ∃ s' : @state unit Hook.HookChain _, cn_eof (client s') = true ∧ cn_eof (upstream s') = true ∧
  c2s s' = GHook define_header demo_call "<d/>" daemon_thread ∧ returned s' = false.
Proof.
  destruct demo_in_hook as (s & s' & Hr & Hc & Hs & He & Hu). exists s'. split; [exact He|]. split; [exact Hu|].
  destruct (orphan_wedges_connection daemon_chain alone () s s' _ _ _ _ Hr Hc) as (H1 & H2 & _).
  - intros w1. split; [reflexivity|]. right. left.
  - exact Hs.
  - split; [exact H1|exact H2].
Defined.

End ProxyConnProps.
