(* ===== verification/Daemon.v ===== *)
(** * The virtinjectd process (virtinjectd/main.go)

    The log level a verbosity selects, and [main]: the checks before the
    socket is touched, the stale socket, the accept loop of [ProxyConn.Run]
    and the cleanup after it. The socket calls are an interface; the arguments
    are the values of the flags and what successive accepts return, the closed
    listener (closed by the signal handler) included. *)

From S2P Require Import Prelude GoStrings GoPath OS Protocol Hook Proxy ProxyConn.
Local Open Scope Z_scope.

(** Sockets of the unix domain: unlinking a path, listening on it and closing
    the listener. *)
Class Sockets (W : Type) := {
  os_Remove : string → W → option goerror * W;
  net_Listen : string → W → option goerror * W;
  listener_Close : string → W → W;
}.

(** Unlinking a path either removes it, or it was not there, or it fails;
    listening creates the socket, and is refused where a file exists. *)
Class SocketsLaws (W : Type) `{!FileSystem W} `{!Sockets W} := {
  Remove_gone : ∀ path (w w' : W),
    os_Remove path w = (None, w') → is_ok (os_Lstat path w') = false;
  Remove_missing : ∀ path (w w' : W) what,
    os_Remove path w = (Some (ErrNotExist what), w') → w' = w ∧ is_ok (os_Lstat path w) = false;
  Listen_exists : ∀ path (w w' : W),
    net_Listen path w = (None, w') → is_ok (os_Lstat path w) = false ∧ is_ok (os_Lstat path w') = true;
}.

Module Daemon.
Import Protocol Hook Proxy ProxyConn.

Definition LevelInfo : Z := 0.
Definition LevelDebug : Z := -4.
Definition LevelTrace : Z := -8.
Definition LevelTraceXML : Z := -12.

(** 64-bit arithmetic of [int]. *)
Definition wrap_i64 (z : Z) : Z := (z + two63) mod two64 - two63.

(** Where log records go and the least level that is kept. *)
Inductive log_output := Stderr | Discard.

Definition log_config (verbosity : Z) : log_output * Z :=
  if verbosity <=? 0 then (Discard, LevelInfo)
  else (Stderr, wrap_i64 (-4 * wrap_i64 (verbosity - 1))).

(** A record of a level is printed. *)
Definition printed (verbosity level : Z) : bool :=
  match log_config verbosity with
  | (Discard, _) => false
  | (Stderr, least) => least <=? level
  end.

Record options := mkOptions {
  listenPath : string;
  upstreamPath : string;
  opt_hookPath : string;
  opt_hookDirPath : string;
  opt_hookDomainName : string;
  verbosity : Z;
}.

Definition default_options : options :=
  mkOptions "/tmp/libvirt-proxy.sock" "/var/run/libvirt/libvirt-sock" "" "" "virtinjectd" 0.

(** [type Proxy struct] *)
Record Proxy := mkProxy {
  UpstreamPath : string;
  Hooks : HookChain;
}.

(** How the process ends up: an exit code, or the proxy that serves, the
    connections it started a handler for and whether it stopped (exit code 0)
    or is still accepting. *)
Inductive outcome :=
  | Exited (code : Z)
  | Serving (proxy : Proxy) (handled : list nat)
  | Stopped (proxy : Proxy) (handled : list nat).

Section main.
Context {W : Type} `{!FileSystem W} `{!Sockets W}.

(** [os.Remove] failing is fine if there was nothing to remove. *)
Definition remove_stale (path : string) (w : W) : option goerror * W :=
  match os_Remove path w with
  | (Some (ErrNotExist _), w) => (None, w)
  | r => r
  end.

Definition serve (opts : options) (hooks : HookChain) (accepts : list accept_result) (w : W)
  : outcome * W :=
  let proxy := mkProxy (upstreamPath opts) hooks in
  match Run accepts with
  | (handled, false) => (Serving proxy handled, w)
  | (handled, true) =>
      let w := listener_Close (listenPath opts) w in
      (Stopped proxy handled, (os_Remove (listenPath opts) w).2)
  end.

Definition main (opts : options) (accepts : list accept_result) (w : W) : outcome * W :=
  if bool_decide (opt_hookPath opts = "") && bool_decide (opt_hookDirPath opts = "") then
    (Exited 1, w)
  else
    match NewHookChain (opt_hookPath opts) (opt_hookDirPath opts) (opt_hookDomainName opts) w with
    | Err _ => (Exited 1, w)
    | Ok hooks =>
        match remove_stale (listenPath opts) w with
        | (Some _, w) => (Exited 1, w)
        | (None, w) =>
            match net_Listen (listenPath opts) w with
            | (Some _, w) => (Exited 1, w)
            | (None, w) => serve opts hooks accepts w
            end
        end
    end.

End main.
End Daemon.

(** * Properties of the process *)
Module DaemonProps.
Import Protocol Hook Proxy ProxyConn Daemon.

Lemma wrap_i64_small z : is_int64 z → wrap_i64 z = z.
Proof. unfold is_int64, wrap_i64, two63, two64. intros. rewrite Z.mod_small; lia. Qed.

(** The verbosity table of the documentation: 0 and below is silent, and
    each of the levels info, debug, trace and trace with XML is printed from
    verbosity 1, 2, 3 and 4 on, for every verbosity whose level does not
    overflow. *)
Theorem verbosity_table (v : Z) :
  v < two63 / 4 →
  printed v LevelInfo = bool_decide (1 ≤ v) ∧
  printed v LevelDebug = bool_decide (2 ≤ v) ∧
  printed v LevelTrace = bool_decide (3 ≤ v) ∧
  printed v LevelTraceXML = bool_decide (4 ≤ v).
Proof.
  intros Hv. change (two63 / 4) with 2305843009213693952 in Hv.
  unfold printed, log_config, LevelInfo, LevelDebug, LevelTrace, LevelTraceXML.
  case_cond; zb.
  - rewrite !bool_decide_eq_false_2 by lia. done.
  - rewrite (wrap_i64_small (v - 1)) by (unfold is_int64, two63; lia).
    rewrite wrap_i64_small by (unfold is_int64, two63; lia).
    split_and!; case_bool_decide; [apply Z.leb_le|apply Z.leb_gt| | | | | |];
      try apply Z.leb_le; try apply Z.leb_gt; lia.
Qed.

Lemma verbosity_table_witness :
  printed 3 LevelInfo = true ∧ printed 3 LevelDebug = true ∧
  printed 3 LevelTrace = true ∧ printed 3 LevelTraceXML = false.
Proof. apply (verbosity_table 3). reflexivity. Defined.

(** The accept loop either goes on or stopped at the first accept that reports
    a closed listener. *)
Lemma Run_cases accepts :
  match Run accepts with
  | (handled, false) => existsb is_closed accepts = false ∧ handled = omap is_accepted accepts
  | (handled, true) =>
      ∃ pre e post, accepts = pre ++ AcceptErr e :: post ∧ existsb is_closed pre = false ∧
        isConnectionClosed (Some e) = true ∧ handled = omap is_accepted pre
  end.
Proof.
  induction accepts as [|[c|e] accepts IH]; [done|..]; cbn [Run].
  - destruct (Run accepts) as [handled []].
    + destruct IH as (pre & e & post & -> & ? & ? & ->). by exists (Accepted c :: pre), e, post.
    + destruct IH as [? ->]. done.
  - destruct (isConnectionClosed (Some e)) eqn:Ee; [by exists [], e, accepts|].
    destruct (Run accepts) as [handled []].
    + destruct IH as (pre & e' & post & -> & ? & ? & ->).
      exists (AcceptErr e :: pre), e', post. cbn [existsb is_closed]. by rewrite Ee.
    + destruct IH as [? ->]. cbn [existsb is_closed]. by rewrite Ee.
Qed.

Section props.
Context {W : Type} `{!FileSystem W} `{!Sockets W} `{!SocketsLaws W}.

(** The path was unlinked, or there was nothing to unlink. *)
Definition cleared (path : string) (w w1 : W) : Prop :=
  os_Remove path w = (None, w1) ∨ ∃ what, os_Remove path w = (Some (ErrNotExist what), w1).

Lemma remove_stale_cases path (w : W) :
  match remove_stale path w with
  | (None, w1) => cleared path w w1 ∧ is_ok (os_Lstat path w1) = false
  | (Some e, w1) => os_Remove path w = (Some e, w1) ∧ ∀ what, e ≠ ErrNotExist what
  end.
Proof.
  unfold remove_stale, cleared. destruct (os_Remove path w) as [[e|] w1] eqn:E.
  - destruct e; try done. destruct (Remove_missing _ _ _ _ E) as [-> ?]. eauto.
  - split; [by left|]. by eapply Remove_gone.
Qed.

(** After an unlink the path is gone, unless it failed for another reason. *)
Lemma remove_gone_or_failed path (w : W) :
  is_ok (os_Lstat path (os_Remove path w).2) = false ∨
  ∃ e, os_Remove path w = (Some e, (os_Remove path w).2) ∧ ∀ what, e ≠ ErrNotExist what.
Proof.
  destruct (os_Remove path w) as [[e|] w'] eqn:E; simpl.
  - destruct e; try (right; by eauto). left. by destruct (Remove_missing _ _ _ _ E) as [-> ?].
  - left. by eapply Remove_gone.
Qed.

(** C22: the life of the daemon. It exits with code 1 only for one of three
    reasons: the hook configuration is invalid, and then nothing was touched; a
    stale socket could not be unlinked; or, the path being free, listening on it
    failed. Otherwise whatever was at the path was unlinked, or nothing was
    there, before it listened on it, so that a stale socket is replaced by its
    own, and every accepted connection has a handler. It stops at the first
    accept that reports the closed listener; then the listener is closed and the
    path unlinked, and the socket is gone, unless unlinking it failed for a reason
    other than its absence. *)
Theorem daemon_lifecycle (opts : options) (accepts : list accept_result) (w : W) :
  let chain := NewHookChain (opt_hookPath opts) (opt_hookDirPath opts) (opt_hookDomainName opts) w in
  let path := listenPath opts in
  match main opts accepts w with
  | (Exited code, w') => code = 1 ∧
      (is_ok chain = false ∧ w' = w ∨
       is_ok chain = true ∧ (∃ e, os_Remove path w = (Some e, w') ∧ ∀ what, e ≠ ErrNotExist what) ∨
       is_ok chain = true ∧ ∃ w1 e, cleared path w w1 ∧ is_ok (os_Lstat path w1) = false ∧
         net_Listen path w1 = (Some e, w'))
  | (Serving proxy handled, w') =>
      chain = Ok (Hooks proxy) ∧ UpstreamPath proxy = upstreamPath opts ∧
      (∃ w1, cleared path w w1 ∧ net_Listen path w1 = (None, w')) ∧
      is_ok (os_Lstat path w') = true ∧
      existsb is_closed accepts = false ∧ handled = omap is_accepted accepts
  | (Stopped proxy handled, w') =>
      chain = Ok (Hooks proxy) ∧ UpstreamPath proxy = upstreamPath opts ∧
      (∃ pre e post, accepts = pre ++ AcceptErr e :: post ∧ existsb is_closed pre = false ∧
         isConnectionClosed (Some e) = true ∧ handled = omap is_accepted pre) ∧
      ∃ w1 w2 r, cleared path w w1 ∧ net_Listen path w1 = (None, w2) ∧
        os_Remove path (listener_Close path w2) = (r, w') ∧
        (is_ok (os_Lstat path w') = false ∨ ∃ e, r = Some e ∧ ∀ what, e ≠ ErrNotExist what)
  end.
Proof.
  intros chain path. unfold main. case_cond.
  { split; [done|]. left. split; [|done]. unfold chain, NewHookChain. by case_cond. }
  fold chain. destruct chain as [hooks|]; [|by split; [|left]]. fold path.
  pose proof (remove_stale_cases path w) as Hst.
  destruct (remove_stale path w) as [[e|] w1]; [by split; [|right; left; eauto]|]. destruct Hst as [Hc Hg].
  destruct (net_Listen path w1) as [[e|] w2] eqn:El; [by split; [|right; right; eauto 10]|].
  pose proof El as [_ Hex]%Listen_exists. unfold serve. fold path. pose proof (Run_cases accepts) as Hrun.
  destruct (Run accepts) as [handled []]; [|destruct Hrun; split_and!; by eauto].
  split_and!; [done..|].
  exists w1, w2, (os_Remove path (listener_Close path w2)).1. split_and!; [done..|by destruct (os_Remove _ _)|].
  destruct (remove_gone_or_failed path (listener_Close path w2)) as [?|(e & -> & ?)]; [by left|right; eauto].
Qed.

End props.

(** ** Witness: an in-memory file system with a stale socket *)

#[local] Instance MemFS_Sockets : Sockets MemFS := {|
  os_Remove path w :=
    match mem_links w !! path, mem_nodes w !! path with
    | None, Some (NDir _) => (Some (SysError ("remove " +:+ path +:+ ": directory not empty")), w)
    | None, None => (Some (ErrNotExist ("remove " +:+ path)), w)
    | _, _ => (None, mkMemFS (delete path (mem_nodes w)) (delete path (mem_links w)))
    end;
  net_Listen path w :=
    if is_ok (os_Lstat path w) then (Some (SysError "listen unix: address already in use"), w)
    else (None, mkMemFS (<[path := NFile 493 ""]> (mem_nodes w)) (delete path (mem_links w)));
  listener_Close path w := mkMemFS (delete path (mem_nodes w)) (mem_links w);
|}.

#[local] Instance MemFS_SocketsLaws : SocketsLaws MemFS.
Proof.
  split.
  - intros path w w'. simpl.
    destruct (mem_links w !! path), (mem_nodes w !! path) as [[]|]; intros; go_inv; simpl;
      by rewrite !lookup_delete_eq.
  - intros path w w' what. simpl.
    destruct (mem_links w !! path), (mem_nodes w !! path) as [[]|]; intros; go_inv; done.
  - intros path w w'. unfold net_Listen, MemFS_Sockets. destruct (is_ok (os_Lstat path w)) eqn:E; [done|].
    intros; go_inv. split; [done|]. simpl. by rewrite lookup_delete_eq, lookup_insert_eq.
Qed.

Definition socket_fs : MemFS :=
  mkMemFS (list_to_map [("/bin/hook", NFile 493 "#!"); ("/tmp/p.sock", NFile 493 "")]) ∅.

Definition demo_opts : options := mkOptions "/tmp/p.sock" "/run/libvirt-sock" "/bin/hook" "" "" 1.

Definition demo_accepts : list accept_result :=
  [Accepted 1; AcceptErr (SysError "accept: too many open files"); Accepted 2;
   AcceptErr (SysError "accept unix /tmp/p.sock: use of closed network connection"); Accepted 3].

(** The stale socket is replaced; after the listener is closed the path is free. *)
Lemma daemon_lifecycle_witness :
  ∃ w', main demo_opts demo_accepts socket_fs
        = (Stopped (mkProxy "/run/libvirt-sock" (mkHookChain "/bin/hook" "" "virtinjectd")) [1; 2]%nat, w') ∧
  ∃ w1 w2 r, cleared "/tmp/p.sock" socket_fs w1 ∧ net_Listen "/tmp/p.sock" w1 = (None, w2) ∧
    os_Remove "/tmp/p.sock" (listener_Close "/tmp/p.sock" w2) = (r, w') ∧
    (is_ok (os_Lstat "/tmp/p.sock" w') = false ∨ ∃ e, r = Some e ∧ ∀ what, e ≠ ErrNotExist what).
Proof.
  eexists. split; [vm_compute; reflexivity|].
  exact (proj2 (proj2 (proj2 (daemon_lifecycle demo_opts demo_accepts socket_fs)))).
Defined.

End DaemonProps.
