(* ===== verification/Server.v ===== *)
(** * The whole daemon: accept loop, signal handler and all connections

    [ProxyConn.v] models one connection and [Daemon.v] one run of [main]; here
    they run together: the accept loop of [Proxy.Run], the goroutine that waits
    for a signal, and any number of connection handlers that share the world
    their hooks run in. A panic in any goroutine ends the process; when [main]
    returns, all handlers end with it. What the signal goroutine and [main] do
    without waiting for others are step relations of their own, so that fairness
    can be asked of each. [Server.disturb] is what one connection
    sees of all this, and [handler_reachable] the projection of a run of the
    daemon to one of its connections. *)

From S2P Require Import Prelude GoStrings GoPath OS Xdr Protocol Hook Proxy ProxyConn Daemon.
Local Open Scope Z_scope.

Module Server.
Import Xdr Protocol Hook Proxy ProxyConn Daemon.

(** Where [main] is: in the accept loop, after it, gone. *)
Inductive main_pc := Accepting | LoopDone | ProcessExited.

Section server.
Context {W H : Type} `{!HookRunner W H} `{!Sockets W} (hooks : H) (path : string).
(** What other processes do to the world. *)
Context (ext : relation W).

Abbreviation handler := (@state W H _).

Record server := mkServer {
  sv_listening : bool;
  sv_signalled : bool;
  sv_pc : main_pc;
  sv_handlers : gmap nat handler;
  sv_world : W;
}.

(** The process is still there. *)
Definition alive (sv : server) : Prop :=
  sv_pc sv ≠ ProcessExited ∧ map_Forall (λ _ s, crashed s = false) (sv_handlers sv).

(** The deferred cleanup of [main]: closing a closed listener does nothing. *)
Definition cleanup (listening : bool) (w : W) : W :=
  (os_Remove path (if listening then listener_Close path w else w)).2.

(** A handler runs in the shared world; nothing else happens meanwhile. *)
Definition handler_step : relation handler := step hooks (λ _ _, False).

(** ** Steps *)

(** The goroutine that waits for a signal closes the listener. *)
Inductive signal_step (sv : server) : server → Prop :=
  | sv_close :
      alive sv → sv_signalled sv = true → sv_listening sv = true →
      signal_step sv (mkServer false true (sv_pc sv) (sv_handlers sv) (listener_Close path (sv_world sv))).

(** What [Accept] of a closed listener fails with. *)
Definition accept_closed_error : goerror :=
  SysError ("accept unix " +:+ path +:+ ": use of closed network connection").

(** Steps of [main] that wait for nobody: with the listener closed the accept
    fails, and the loop ends if it recognises the error; then the deferred
    cleanup runs and the process is gone. *)
Inductive main_step (sv : server) : server → Prop :=
  | sv_loop_end :
      alive sv → sv_pc sv = Accepting → sv_listening sv = false →
      isConnectionClosed (Some accept_closed_error) = true →
      main_step sv (mkServer false (sv_signalled sv) LoopDone (sv_handlers sv) (sv_world sv))
  | sv_cleanup :
      alive sv → sv_pc sv = LoopDone →
      main_step sv (mkServer false (sv_signalled sv) ProcessExited (sv_handlers sv)
                      (cleanup (sv_listening sv) (sv_world sv))).

(** All steps. An accept on the open listener waits for a client, or fails: the
    loop goes on, unless it takes the error for a closed listener. *)
Inductive sv_step (sv : server) : server → Prop :=
  | sv_main sv' : main_step sv sv' → sv_step sv sv'
  | sv_signal_goroutine sv' : signal_step sv sv' → sv_step sv sv'
  | sv_accept i s :
      alive sv → sv_pc sv = Accepting → sv_listening sv = true →
      sv_handlers sv !! i = None → started (sv_world sv) s →
      sv_step sv (mkServer true (sv_signalled sv) Accepting (<[i := s]> (sv_handlers sv)) (sv_world sv))
  | sv_accept_err e :
      alive sv → sv_pc sv = Accepting → sv_listening sv = true →
      isConnectionClosed (Some e) = false → sv_step sv sv
  | sv_accept_fatal e :
      alive sv → sv_pc sv = Accepting → sv_listening sv = true →
      isConnectionClosed (Some e) = true →
      sv_step sv (mkServer true (sv_signalled sv) LoopDone (sv_handlers sv) (sv_world sv))
  | sv_signal :
      alive sv →
      sv_step sv (mkServer (sv_listening sv) true (sv_pc sv) (sv_handlers sv) (sv_world sv))
  | sv_handler i s s' :
      alive sv → sv_handlers sv !! i = Some s → handler_step (set_world (sv_world sv) s) s' →
      sv_step sv (mkServer (sv_listening sv) (sv_signalled sv) (sv_pc sv)
                    (<[i := s']> (sv_handlers sv)) (world s'))
  | sv_ext w' :
      ext (sv_world sv) w' →
      sv_step sv (mkServer (sv_listening sv) (sv_signalled sv) (sv_pc sv) (sv_handlers sv) w').

(** The state [main] enters the accept loop in. *)
Definition sv_init (w : W) : server := mkServer true false Accepting ∅ w.

Definition sv_reachable (w : W) (sv : server) : Prop := rtc sv_step (sv_init w) sv.

(** ** What a connection sees of the rest *)

(** A hook ran. *)
Definition hooked (w w' : W) : Prop := ∃ (t : hook_thread (W:=W) (H:=H)) r, hook_next t w = Some (r, w').

Inductive disturb (w : W) : W → Prop :=
  | disturb_ext w' : ext w w' → disturb w w'
  | disturb_hooked w' : hooked w w' → disturb w w'
  | disturb_close : disturb w (listener_Close path w)
  | disturb_cleanup b : disturb w (cleanup b w).

(** A handler as it is in the shared world. *)
Definition handler_at (sv : server) (i : nat) : option handler :=
  set_world (sv_world sv) <$> sv_handlers sv !! i.

(** ** Lemmas *)

Lemma set_world_id (s : handler) : set_world (world s) s = s.
Proof. by destruct s. Qed.

Lemma set_world_twice w w' (s : handler) : set_world w' (set_world w s) = set_world w' s.
Proof. by destruct s. Qed.

Lemma world_set_world w (s : handler) : world (set_world w s) = w.
Proof. by destruct s. Qed.

(** The guarantee of a handler: it changes the world by running hooks only. *)
Lemma handler_step_world s s' : handler_step s s' → world s' = world s ∨ hooked (world s) (world s').
Proof.
  destruct 1 as [d s' _ Hg|[] bs He|[]|w' []|]; try (by left).
  destruct Hg as [| | | |h p xml t r w' E Hn| | | | | |]; try (destruct d; simpl; try case_cond; by left).
  right. exists t, r. by destruct d.
Qed.

Lemma step_mono (r1 r2 : relation W) s s' :
  (∀ w w', r1 w w' → r2 w w') → step hooks r1 s s' → step hooks r2 s s'.
Proof. intros Hr. destruct 1; eauto using @step. Qed.

Lemma reachable_step r w s s' : reachable hooks r w s → step hooks r s s' → reachable hooks r w s'.
Proof. intros (s0 & Hst & Hr) Hs. exists s0. split; [done|]. by eapply rtc_r. Qed.

(** A handler of the daemon is a connection that runs under interference. *)
Definition projects (w0 : W) (sv : server) : Prop :=
  rtc disturb w0 (sv_world sv) ∧
  ∀ i s, handler_at sv i = Some s → ∃ wi, rtc disturb w0 wi ∧ reachable hooks disturb wi s.

(** A change of the world that handlers may see keeps them reachable. *)
Lemma projects_world w0 sv l g pc w' :
  projects w0 sv → w' = sv_world sv ∨ disturb (sv_world sv) w' →
  projects w0 (mkServer l g pc (sv_handlers sv) w').
Proof.
  intros [Hw Hall] Hd. split.
  - destruct Hd as [->|Hd]; [done|]. by eapply rtc_r.
  - intros i s. unfold handler_at. simpl. intros (s1 & Hs & ->)%fmap_Some.
    destruct (Hall i (set_world (sv_world sv) s1)) as (wi & Hwi & Hr).
    { unfold handler_at. by rewrite Hs. }
    exists wi. split; [done|]. destruct Hd as [->|Hd]; [done|].
    rewrite <-(set_world_twice (sv_world sv)). eapply reachable_step; [done|]. by apply step_world.
Qed.

Lemma projects_step w0 sv sv' : sv_step sv sv' → projects w0 sv → projects w0 sv'.
Proof.
  intros Hstep Hp.
  destruct Hstep as [sv' [|]|sv' []|i s Ha Hpc Hl Hi Hst|e|e|Ha|i s s' Ha Hi Hs|w' He];
    try (by apply (projects_world _ _ _ _ _ _ Hp); left);
    try (by apply (projects_world _ _ _ _ _ _ Hp); right; constructor); [| done |].
  - destruct Hp as [Hw Hall]. split; [done|]. intros j s1. unfold handler_at. simpl.
    destruct (decide (i = j)) as [<-|Hne].
    + rewrite lookup_insert_eq. simpl. intros [= <-]. exists (sv_world sv). split; [done|].
      assert (set_world (sv_world sv) s = s) as -> by (by destruct Hst). exists s. split; [done|]. constructor.
    + rewrite lookup_insert_ne by done. apply Hall.
  - pose proof (handler_step_world _ _ Hs) as Hws. rewrite world_set_world in Hws.
    assert (world s' = sv_world sv ∨ disturb (sv_world sv) (world s')) as Hd.
    { destruct Hws as [->|?]; [by left|right; by constructor]. }
    pose proof (projects_world _ _ (sv_listening sv) (sv_signalled sv) (sv_pc sv) _ Hp Hd) as [Hw' Hall'].
    destruct Hp as [_ Hall]. split; [done|]. intros j s1. unfold handler_at. simpl.
    destruct (decide (i = j)) as [<-|Hne].
    + rewrite lookup_insert_eq. simpl. intros [= <-]. rewrite set_world_id.
      destruct (Hall i (set_world (sv_world sv) s)) as (wi & Hwi & Hr); [by unfold handler_at; rewrite Hi|].
      exists wi. split; [done|]. eapply reachable_step; [done|]. eapply step_mono; [|exact Hs]. done.
    + rewrite lookup_insert_ne by done. apply (Hall' j s1).
Qed.

(** Projection: every handler of a reachable daemon is a reachable state of a
    connection that started in a world the daemon went through. *)
Lemma handler_reachable w0 sv : sv_reachable w0 sv → projects w0 sv.
Proof.
  intros Hr. refine (rtc_ind_r (projects w0) (sv_init w0) _ _ sv Hr).
  - split; [constructor|]. intros i s. unfold handler_at. simpl. by rewrite lookup_empty.
  - intros sv1 sv2 _ Hs. by apply projects_step.
Qed.

(** With bounded hooks nothing panics: the process is there until [main] ends. *)
Lemma reachable_alive w0 sv :
  hooks_bounded hooks → sv_reachable w0 sv → sv_pc sv ≠ ProcessExited → alive sv.
Proof.
  intros Hb Hr Hpc. split; [done|]. intros i s Hs.
  destruct (handler_reachable _ _ Hr) as [_ Hall].
  destruct (Hall i (set_world (sv_world sv) s)) as (wi & _ & Hrs); [by unfold handler_at; rewrite Hs|].
  by destruct (reachable_inv_typed _ _ _ _ Hb Hrs).
Qed.

(** How far [main] is from its end, and with it the listener to be closed. *)
Definition to_go (sv : server) : nat :=
  match sv_pc sv with Accepting => 2 | LoopDone => 1 | ProcessExited => 0 end.

Definition remaining (sv : server) : nat := to_go sv + (if sv_listening sv then 1 else 0).

Lemma main_step_remaining sv sv' : main_step sv sv' → (remaining sv' < remaining sv)%nat.
Proof.
  unfold remaining, to_go. destruct 1 as [_ Hpc Hl _|_ Hpc]; simpl; rewrite Hpc; [lia|].
  destruct (sv_listening sv); lia.
Qed.

Lemma signal_step_remaining sv sv' : signal_step sv sv' → (remaining sv' < remaining sv)%nat.
Proof. unfold remaining, to_go. destruct 1 as [_ _ Hl]; simpl. rewrite Hl. lia. Qed.

(** Nothing sets them back. *)
Lemma sv_step_to_go sv sv' : sv_step sv sv' → (to_go sv' <= to_go sv)%nat.
Proof.
  unfold to_go. destruct 1 as [sv' [? Hpc|? Hpc]|sv' []|i s _ Hpc Hl|e|e _ Hpc Hl| | |]; simpl; rewrite ?Hpc; lia.
Qed.

Lemma sv_step_signalled sv sv' : sv_step sv sv' → sv_signalled sv = true → sv_signalled sv' = true.
Proof. by destruct 1 as [sv' []|sv' []| | | | | |]. Qed.

Lemma sv_step_closed sv sv' : sv_step sv sv' → sv_listening sv = false → sv_listening sv' = false.
Proof. destruct 1 as [sv' []|sv' []|? ? ? ? Hl| |? ? ? Hl| | |]; simpl; congruence. Qed.

Lemma sv_step_remaining sv sv' : sv_step sv sv' → (remaining sv' <= remaining sv)%nat.
Proof.
  intros Hs. pose proof (sv_step_to_go _ _ Hs). unfold remaining.
  destruct (sv_listening sv) eqn:El; [by case_match; lia|]. by rewrite (sv_step_closed _ _ Hs El); lia.
Qed.

(** The process ends in the cleanup only, and stays gone. *)
Lemma sv_step_exits sv sv' :
  sv_step sv sv' → sv_pc sv ≠ ProcessExited → sv_pc sv' = ProcessExited →
  sv_world sv' = cleanup (sv_listening sv) (sv_world sv).
Proof. by destruct 1 as [sv' []|sv' []| | | | | |]. Qed.

Lemma sv_step_gone sv sv' : sv_step sv sv' → sv_pc sv = ProcessExited → sv_pc sv' = ProcessExited.
Proof. destruct 1 as [sv' []|sv' []| | | | | |]; simpl; congruence. Qed.

(** The loop takes the error of the closed listener for what it is. *)
Lemma accept_closed_recognised : isConnectionClosed (Some accept_closed_error) = true.
Proof.
  unfold isConnectionClosed, accept_closed_error. apply orb_true_iff. left. cbn [err_text].
  change (": use of closed network connection") with (": " +:+ "use of closed network connection").
  rewrite <-!string_app_assoc. apply Contains_app.
Qed.

Lemma main_enabled sv : alive sv → sv_listening sv = false → enabled main_step sv.
Proof.
  intros Ha Hl. destruct (sv_pc sv) eqn:Epc.
  - eexists. apply sv_loop_end; [done..|]. apply accept_closed_recognised.
  - eexists. by apply sv_cleanup.
  - by destruct Ha.
Qed.

#[global] Instance exited_dec (sv : server) : Decision (sv_pc sv = ProcessExited).
Proof. destruct (sv_pc sv); (left; done) || (right; done). Defined.

(** ** Fair runs *)

Section fair.
Context (w0 : W) (run : nat → server).
Context (Hb : hooks_bounded hooks) (H0 : sv_reachable w0 (run 0%nat)) (Hrun : execution sv_step run).
Context (Hsig : weakly_fair signal_step run) (Hmain : weakly_fair main_step run).

Lemma run_alive n : sv_pc (run n) ≠ ProcessExited → alive (run n).
Proof.
  apply (reachable_alive w0); [done|].
  apply (execution_stable sv_step run (sv_reachable w0) 0); [done| |lia|done].
  intros s s' Hs Hr. by eapply rtc_r.
Qed.

(** Some time after a signal the process is gone or closer to its end. *)
Lemma run_progress n :
  sv_signalled (run n) = true →
  ∃ m, (n <= m)%nat ∧ (sv_pc (run m) = ProcessExited ∨ (remaining (run m) < remaining (run n))%nat).
Proof.
  intros Hs.
  assert (∀ m, (n <= m)%nat → (remaining (run m) <= remaining (run n))%nat) as Hle.
  { intros m. by apply (execution_decreasing sv_step), sv_step_remaining. }
  destruct (sv_listening (run n)) eqn:El.
  - destruct (Hsig n) as (m & Hm & [Ht%signal_step_remaining|Hno]).
    { exists (S m). split; [lia|right]. specialize (Hle m Hm). lia. }
    exists m. split; [done|]. destruct (decide (sv_pc (run m) = ProcessExited)) as [|Hx]; [by left|right].
    assert (sv_signalled (run m) = true) as Hsm.
    { by apply (execution_stable sv_step run (λ s, sv_signalled s = true) n), Hs; [|apply sv_step_signalled|]. }
    destruct (sv_listening (run m)) eqn:Elm.
    + destruct Hno. eexists. apply sv_close; [by apply run_alive|done..].
    + pose proof (execution_decreasing sv_step run to_go n m Hrun sv_step_to_go Hm).
      unfold remaining. rewrite El, Elm. lia.
  - destruct (Hmain n) as (m & Hm & [Ht%main_step_remaining|Hno]).
    { exists (S m). split; [lia|right]. specialize (Hle m Hm). lia. }
    exists m. split; [done|left]. destruct (decide (sv_pc (run m) = ProcessExited)) as [|Hx]; [done|].
    destruct Hno. apply main_enabled; [by apply run_alive|].
    by apply (execution_stable sv_step run (λ s, sv_listening s = false) n), El; [|apply sv_step_closed|].
Qed.

(** After a signal there is a moment the process ends. *)
Lemma run_ends n :
  sv_signalled (run n) = true → sv_pc (run n) ≠ ProcessExited →
  ∃ m, (n <= m)%nat ∧ sv_pc (run m) ≠ ProcessExited ∧ sv_pc (run (S m)) = ProcessExited.
Proof.
  remember (remaining (run n)) as k eqn:Ek. revert n Ek. induction (lt_wf k) as [k _ IH]. intros n -> Hs Hx.
  destruct (run_progress n Hs) as (m & Hm & Hor).
  destruct (decide (sv_pc (run m) = ProcessExited)) as [Hd|Hd].
  { by apply (execution_begins run (λ s, sv_pc s = ProcessExited) n m). }
  destruct Hor as [|Hlt]; [done|]. destruct (IH _ Hlt m eq_refl) as (k & ? & ?); [|done|exists k; split; [lia|done]].
  by apply (execution_stable sv_step run (λ s, sv_signalled s = true) n m); [|apply sv_step_signalled|..].
Qed.

Lemma run_stays_gone n m :
  (n <= m)%nat → sv_pc (run n) = ProcessExited → sv_pc (run m) = ProcessExited.
Proof. apply (execution_stable sv_step run (λ s, sv_pc s = ProcessExited)); [done|apply sv_step_gone]. Qed.

Lemma run_cleanup n :
  sv_pc (run n) ≠ ProcessExited → sv_pc (run (S n)) = ProcessExited →
  sv_world (run (S n)) = cleanup (sv_listening (run n)) (sv_world (run n)).
Proof.
  intros Hn Hx. destruct (Hrun n) as [E|Hs]; [by rewrite E in Hx|]. by apply sv_step_exits.
Qed.

End fair.

End server.
End Server.

(** * Properties of the daemon as a whole *)
Module ServerProps.
Import Xdr Protocol Hook Proxy ProxyConn Daemon DaemonProps Server.

Section props.
Context {W H : Type} `{!HookRunner W H} `{!FileSystem W} `{!Sockets W} `{!SocketsLaws W}.
Context (hooks : H) (path : string) (ext : relation W).

(** C6: connections do not interfere: in every reachable state of the daemon,
    with any number of clients and whatever order everything happens in, each
    connection by itself is in a state it could have reached alone, had the
    world changed under it; so its client got a prefix of what its own server
    sent, and its server got the processed messages of its own client, in
    order. *)
Theorem connections_isolated (w0 : W) (sv : server) (i : nat) (s : state) :
  sv_reachable hooks path ext w0 sv → handler_at sv i = Some s →
  ∃ wi, rtc (disturb (H:=H) path ext) w0 wi ∧
    reachable hooks (disturb (H:=H) path ext) wi s ∧
    cn_out (client s) `prefix_of` cn_recv (upstream s) ∧
    delivered hooks (disturb (H:=H) path ext) wi s.
Proof.
  intros Hr Hi. destruct (handler_reachable _ _ _ _ _ Hr) as [_ Hall].
  destruct (Hall i s Hi) as (wi & Hwi & Hs). exists wi. split_and!; [done..| |].
  - by eapply inv_s2c_prefix, reachable_inv_s2c.
  - by apply inv_c2s_delivered, reachable_inv_c2s.
Qed.


End props.

(** ** Witnesses

    A world that only has the socket, and hooks that answer with a fixed XML. *)
Import ProxyProps.

#[local] Instance socket_files : FileSystem bool := {|
  os_Stat p _ := Err (ErrNotExist p);
  os_Lstat p (w : bool) := if w then Ok (mkFileInfo false false 493) else Err (ErrNotExist p);
  os_ReadDir p _ := Err (ErrNotExist p);
  os_ReadFile p _ := Err (ErrNotExist p);
  os_WriteFile p _ _ w := (Some (ErrNotExist p), w);
  filepath_EvalSymlinks p _ := Err (ErrNotExist p);
|}.

#[local] Instance socket_only : Sockets bool := {|
  os_Remove p (w : bool) := if w then (None, false) else (Some (ErrNotExist p), w);
  net_Listen p (w : bool) := if w then (Some (SysError "address already in use"), w) else (None, true);
  listener_Close p w := false;
|}.

#[local] Instance socket_only_laws : SocketsLaws bool.
Proof.
  split.
  - by intros p [] w' [= <-].
  - by intros p [] w' what [= _ <-].
  - by intros p [] w' [= <-].
Qed.

#[local] Program Instance answer_hooks : HookRunner bool unit := {|
  hook_run _ xml w := Some (("<patched/>", None), w);
  hook_thread := Empty_set;
  hook_begin _ _ _ := Finished ("<patched/>", None);
  hook_next t _ := match t with end;
  hook_size _ := O;
|}.
Next Obligation. done. Qed.
Next Obligation. by intros []. Qed.
Next Obligation.
  intros h xml w r w'. split; [intros [= <- <-]; constructor|]. intros Hr. by inversion Hr.
Qed.

Definition quiet : relation bool := λ _ _, False.

(** A client connects and defines a domain; then the daemon is signalled. *)
Lemma demo_serving : ∃ sv s,
  sv_reachable () "/tmp/p.sock" quiet true sv ∧ sv_signalled sv = true ∧ sv_pc sv = Accepting ∧
  sv_listening sv = true ∧ handler_at sv 7 = Some s ∧
  cn_out (upstream s) = frame define_header (EncodeXDRString "<patched/>" ++ be_bytes 1).
Proof.
  set (call := EncodeXDRString "<d/>" ++ be_bytes 1).
  set (call' := EncodeXDRString "<patched/>" ++ be_bytes 1).
  assert (∀ b, alive (mkServer true b Accepting (∅ : gmap nat (@state bool unit _)) true)) as H0
    by (intros; split; [done|apply map_Forall_empty]).
  assert (∀ b (s : @state bool unit _), crashed s = false → alive (mkServer true b Accepting {[ 7%nat := s ]} true)) as H1.
  { intros b s Hs. split; [done|]. by apply map_Forall_singleton. }
  eexists _, _. split.
  - eapply rtc_l; [eapply (sv_accept _ _ _ (sv_init true) 7); [apply H0|reflexivity..|apply dial_ok]|].
    eapply rtc_l; [eapply (sv_handler _ _ _ _ 7); [by apply H1|reflexivity|];
      apply (step_receive _ _ _ C2S (frame define_header call)); reflexivity|].
    eapply rtc_l; [eapply (sv_handler _ _ _ _ 7); [by apply H1|reflexivity|];
      eapply (step_go _ _ _ C2S); [reflexivity|];
      eapply (g_read_ok _ _ _ define_header call (mkReader [] EOF)); reflexivity|].
    eapply rtc_l; [eapply (sv_handler _ _ _ _ 7); [by apply H1|reflexivity|];
      eapply (step_go _ _ _ C2S); [reflexivity|];
      eapply (g_process _ _ _ define_header call); reflexivity|].
    eapply rtc_l; [eapply (sv_handler _ _ _ _ 7); [by apply H1|reflexivity|];
      eapply (step_go _ _ _ C2S); [reflexivity|];
      eapply (g_write_ok _ _ _ define_header call' (frame define_header call')); reflexivity|].
    eapply rtc_l; [apply sv_signal; by apply H1|]. apply rtc_refl.
  - split_and!; [reflexivity..|vm_compute; reflexivity].
Qed.

Lemma connections_isolated_witness :
  ∃ sv s, handler_at sv 7 = Some s ∧
    cn_out (upstream s) = frame define_header (EncodeXDRString "<patched/>" ++ be_bytes 1) ∧
    ∃ wi, rtc (disturb (H:=unit) "/tmp/p.sock" quiet) true wi ∧
      reachable () (disturb (H:=unit) "/tmp/p.sock" quiet) wi s ∧
      cn_out (client s) `prefix_of` cn_recv (upstream s) ∧
      delivered () (disturb (H:=unit) "/tmp/p.sock" quiet) wi s.
Proof.
  destruct demo_serving as (sv & s & Hr & _ & _ & _ & Hs & Ho). exists sv, s. split_and!; [exact Hs|exact Ho|].
  exact (connections_isolated () "/tmp/p.sock" quiet true sv 7 s Hr Hs).
Defined.

(** From [sv] on: the listener is closed, the loop ends, the cleanup runs, and
    nothing more happens. *)
Definition demo_run (sv : @server bool unit _) (n : nat) : server :=
  let hs := sv_handlers sv in
  match n with
  | 0 => sv
  | 1 => mkServer false true Accepting hs false
  | 2 => mkServer false true LoopDone hs false
  | _ => mkServer false true ProcessExited hs false
  end%nat.

Lemma demo_run_execution sv :
  alive sv → sv_signalled sv = true → sv_listening sv = true → sv_pc sv = Accepting →
  execution (sv_step () "/tmp/p.sock" quiet) (demo_run sv).
Proof.
  intros [_ Ha] Hs Hl Hpc [|[|[|n]]]; [right..|by left]; simpl.
  - apply sv_signal_goroutine. pose proof (sv_close "/tmp/p.sock" sv) as Hc. rewrite Hpc in Hc.
    by apply Hc; [split; [rewrite Hpc|]|..].
  - apply sv_main.
    by apply (sv_loop_end "/tmp/p.sock" (mkServer false true Accepting (sv_handlers sv) false)); [split|..].
  - apply sv_main.
    pose proof (sv_cleanup "/tmp/p.sock" (mkServer false true LoopDone (sv_handlers sv) false)) as Hc.
    cbn in Hc. by apply Hc; [split|].
Qed.

(** At the end no goroutine can step. *)
Lemma demo_run_fair R sv :
  (∀ s s' : @server bool unit _, R s s' → alive s) → weakly_fair R (demo_run sv).
Proof.
  intros HR n. exists (S (S (S n))). split; [lia|]. right. intros [s' [Hx _]%HR]. by apply Hx.
Qed.

Lemma answer_hooks_bounded : hooks_bounded ().
Proof. intros xml w xml' w' Hrun. inversion Hrun; subst. vm_compute. discriminate. Qed.


End ServerProps.
