(* ===== verification/SriovVF.v ===== *)
(** * SR-IOV virtual function setup (setup/sriovvf/main.go)

    Selects a physical function in sysfs, sets its number of virtual
    functions and assigns NUMA nodes to them.  sysfs is any [FileSystem]; the
    operations pass the world explicitly and return it with their error, so a
    write that fails half-way is visible.  Logging is reduced to the final
    report of try mode. *)

From S2P Require Import Prelude GoStrings GoPath OS.
Local Open Scope Z_scope.

Module SriovVF.

Definition defaultSysfsRoot : string := "/sys".
Definition defaultNumVFs : Z := 4.

Record config := mkConfig {
  sysfsRoot : string;
  numVFs : Z;
  pfNUMANode : Z;
  verbosity : string;
  pciAddr : string;
  tryMode : bool;
}.

Record pfDevice := mkPF {
  pf_pciAddr : string;
  path : string;
  totalVFs : Z;
  currentVFs : Z;
}.

(** ** Pure helpers *)

Definition is_hex (c : ascii) : bool :=
  ((48 <=? code c) && (code c <=? 57)) || ((97 <=? code c) && (code c <=? 102)) ||
  ((65 <=? code c) && (code c <=? 70)).

Definition isFixedHex (s : string) (width : Z) : bool :=
  if negb (strlen s =? width) then false else forallb is_hex (chars s).

Definition isPCIAddress (addr : string) : bool :=
  match Split addr ":"%char with
  | [p0; p1; p2] =>
      if negb (isFixedHex p0 4) || negb (isFixedHex p1 2) then false
      else
        match Split p2 "."%char with
        | [l0; l1] => isFixedHex l0 2 && isFixedHex l1 1
        | _ => false
        end
  | _ => false
  end.

(** [strings.ToLower]: the ASCII letters, and the two other code points whose
    lower case is an ASCII letter (U+0130 and U+212A). Other letters stay
    outside ASCII and are left as they are. *)
Fixpoint to_lower (l : list ascii) : list ascii :=
  match l with
  | [] => []
  | c :: l1 =>
      let ascii_case :=
        (if (65 <=? code c) && (code c <=? 90) then chr (code c + 32) else c) :: to_lower l1 in
      match l1 with
      | c1 :: l2 =>
          if (code c =? 0xC4) && (code c1 =? 0xB0) then "i"%char :: to_lower l2
          else
            match l2 with
            | c2 :: l3 =>
                if (code c =? 0xE2) && (code c1 =? 0x84) && (code c2 =? 0xAA)
                then "k"%char :: to_lower l3 else ascii_case
            | [] => ascii_case
            end
      | [] => ascii_case
      end
  end.

Definition ToLower (s : string) : string := of_chars (to_lower (chars s)).

Definition LevelError : Z := 8.
Definition LevelInfo : Z := 0.
Definition LevelDebug : Z := -4.

(** The level of the logger. *)
Definition newLogger (verbosity : string) : res Z :=
  let v := ToLower (TrimSpace verbosity) in
  if bool_decide (v ∈ ["quiet"; "error"]) then Ok LevelError
  else if bool_decide (v ∈ ["info"; "normal"]) then Ok LevelInfo
  else if bool_decide (v = "debug") then Ok LevelDebug
  else Err (Errorf "unsupported verbosity %q (expected quiet|info|debug)" [ArgQ verbosity]).

(** How a run ends: the error it returns, and what try mode reports. *)
Inductive report := NoReport | Partial | Succeeded.

Record run_end := mkEnd {
  re_err : option goerror;
  re_report : report;
}.

Definition finishTryMode (tryMode hadFailures : bool) : run_end :=
  if negb tryMode then mkEnd None NoReport
  else if hadFailures then mkEnd None Partial
  else mkEnd None Succeeded.

Definition newline : string := String (chr 10) "".

(** [errors.Is(err, os.ErrNotExist)] on the errors of [os.Stat]. *)
Definition is_not_exist (e : goerror) : bool :=
  match e with ErrNotExist _ => true | _ => false end.

Section sriov.
Context {W : Type} `{!FileSystem W}.

(** ** Files *)

Definition ensureDir (path : string) (w : W) : option goerror :=
  match os_Stat path w with
  | Err e => Some e
  | Ok info => if negb (fi_IsDir info) then Some (Errorf "not a directory: %s" [ArgS path]) else None
  end.

Definition readIntFromFile (path : string) (w : W) : res Z :=
  match os_ReadFile path w with
  | Err e => Err e
  | Ok data => parse_int (TrimSpace data)
  end.

Definition writeIntToFile (path : string) (value : Z) (w : W) : option goerror * W :=
  os_WriteFile path (Itoa value +:+ newline) 0 w.

(** ** The physical function *)

Definition validatePFDevice (devRoot pci : string) (w : W) : res pfDevice :=
  let devPath := Join [devRoot; pci] in
  match ensureDir devPath w with
  | Some err => Err (Errorf "PCI device %s not found: %w" [ArgS pci; ArgW err])
  | None =>
  match os_Stat (Join [devPath; "physfn"]) w with
  | Ok _ => Err (Errorf "PCI device %s is a VF, not a PF" [ArgS pci])
  | Err err =>
  if negb (is_not_exist err) then
    Err (Errorf "failed to inspect PF/VF role of %s: %w" [ArgS pci; ArgW err])
  else
  match ensureDir (Join [devPath; "net"]) w with
  | Some _ => Err (Errorf "PCI device %s is not a network interface device" [ArgS pci])
  | None =>
  match readIntFromFile (Join [devPath; "sriov_totalvfs"]) w with
  | Err err => Err (Errorf "PCI device %s is not SR-IOV capable: %w" [ArgS pci; ArgW err])
  | Ok totalVFs =>
  if totalVFs <=? 0 then Err (Errorf "PCI device %s reports no SR-IOV capacity" [ArgS pci])
  else
  match readIntFromFile (Join [devPath; "sriov_numvfs"]) w with
  | Err err => Err (Errorf "failed reading current VF count for %s: %w" [ArgS pci; ArgW err])
  | Ok currentVFs => Ok (mkPF pci devPath totalVFs currentVFs)
  end end end end end.

(** The loop over the sorted entries: the first device that validates. *)
Fixpoint first_pf (devRoot : string) (entries : list DirEntry) (w : W) : res pfDevice :=
  match entries with
  | [] => Err (Errorf "no SR-IOV-capable PF network device found" [])
  | entry :: entries =>
      if negb (de_IsDir entry) && negb (de_IsSymlink entry) then first_pf devRoot entries w
      else if negb (isPCIAddress (de_Name entry)) then first_pf devRoot entries w
      else
        match validatePFDevice devRoot (de_Name entry) w with
        | Ok pf => Ok pf
        | Err _ => first_pf devRoot entries w
        end
  end.

Definition by_name : relation DirEntry := λ a b, String.le (de_Name a) (de_Name b).

#[global] Instance by_name_dec a b : Decision (by_name a b).
Proof. unfold by_name. apply _. Defined.

Definition resolvePF (sysfsRoot userPCI : string) (w : W) : res pfDevice :=
  if negb (bool_decide (userPCI = "")) then
    if negb (isPCIAddress userPCI) then
      Err (Errorf "invalid PCI address format %q" [ArgQ userPCI])
    else validatePFDevice (Join [sysfsRoot; "bus"; "pci"; "devices"]) userPCI w
  else
    let devRoot := Join [sysfsRoot; "bus"; "pci"; "devices"] in
    match os_ReadDir devRoot w with
    | Err err => Err (Errorf "failed to list PCI devices in %s: %w" [ArgS devRoot; ArgW err])
    | Ok entries => first_pf devRoot (merge_sort by_name entries) w
    end.

Definition setNumVFs (pf : pfDevice) (requested : Z) (w : W) : option goerror * W :=
  let target := Join [path pf; "sriov_numvfs"] in
  if currentVFs pf =? requested then (None, w)
  else
    let '(reset, w) :=
      if currentVFs pf >? 0 then writeIntToFile target 0 w else (None, w) in
    match reset with
    | Some err => (Some (Errorf "failed to reset VFs for %s: %w" [ArgS (pf_pciAddr pf); ArgW err]), w)
    | None =>
        match writeIntToFile target requested w with
        | (Some err, w) =>
            (Some (Errorf "failed to configure %d VFs for %s: %w"
                     [ArgD requested; ArgS (pf_pciAddr pf); ArgW err]), w)
        | (None, w) => (None, w)
        end
    end.

(** ** Virtual functions and NUMA nodes *)

(** Collects the resolved links, stopping at the first that fails. *)
Fixpoint resolve_links (pfPath : string) (entries : list DirEntry) (w : W) : res (list string) :=
  match entries with
  | [] => Ok []
  | entry :: entries =>
      if negb (HasPrefix (de_Name entry) "virtfn") then resolve_links pfPath entries w
      else
        let linkPath := Join [pfPath; de_Name entry] in
        match filepath_EvalSymlinks linkPath w with
        | Err err => Err (Errorf "failed to resolve %s: %w" [ArgS linkPath; ArgW err])
        | Ok resolved =>
            match resolve_links pfPath entries w with
            | Err err => Err err
            | Ok vfPaths => Ok (resolved :: vfPaths)
            end
        end
  end.

Definition listVFPaths (pfPath : string) (w : W) : res (list string) :=
  match os_ReadDir pfPath w with
  | Err err => Err err
  | Ok entries =>
      match resolve_links pfPath entries w with
      | Err err => Err err
      | Ok vfPaths => Ok (sort_Strings vfPaths)
      end
  end.

(** The NUMA node of an entry of the node directory, if it is one that is
    online: without an [online] file, or with a non-zero number in it. *)
Definition numa_node (nodeRoot : string) (w : W) (entry : DirEntry) : option Z :=
  if negb (de_IsDir entry) then None
  else
    let name := de_Name entry in
    if negb (HasPrefix name "node") then None
    else
      match parse_int (TrimPrefix name "node") with
      | Err _ => None
      | Ok idx =>
          let onlinePath := Join [nodeRoot; name; "online"] in
          match os_Stat onlinePath w with
          | Err _ => Some idx
          | Ok _ =>
              match readIntFromFile onlinePath w with
              | Err _ => None
              | Ok online => if online =? 0 then None else Some idx
              end
          end
      end.

Definition listNUMANodes (sysfsRoot : string) (w : W) : res (list Z) :=
  let nodeRoot := Join [sysfsRoot; "devices"; "system"; "node"] in
  match os_ReadDir nodeRoot w with
  | Err err => Err err
  | Ok entries => Ok (merge_sort Z.le (omap (numa_node nodeRoot w) entries))
  end.

Definition setPFNUMANode (pf : pfDevice) (node : Z) (w : W) : option goerror * W :=
  match writeIntToFile (Join [path pf; "numa_node"]) node w with
  | (Some err, w) =>
      (Some (Errorf "failed to set PF %s numa_node=%d: %w"
               [ArgS (pf_pciAddr pf); ArgD node; ArgW err]), w)
  | (None, w) => (None, w)
  end.

(** The body of the two loops over the VFs. *)
Definition set_vf_node (vfPath : string) (node : Z) (w : W) : option goerror * W :=
  match writeIntToFile (Join [vfPath; "numa_node"]) node w with
  | (Some err, w) =>
      (Some (Errorf "failed to set VF %s numa_node=%d: %w" [ArgS vfPath; ArgD node; ArgW err]), w)
  | (None, w) => (None, w)
  end.

Fixpoint pinVFNUMA (vfPaths : list string) (node : Z) (w : W) : option goerror * W :=
  match vfPaths with
  | [] => (None, w)
  | vfPath :: vfPaths =>
      match set_vf_node vfPath node w with
      | (Some err, w) => (Some err, w)
      | (None, w) => pinVFNUMA vfPaths node w
      end
  end.

(** [nodes[idx%len(nodes)]]; indexing an empty slice panics. *)
Fixpoint balance_from (idx : nat) (vfPaths : list string) (nodes : list Z) (w : W)
  : panicking (option goerror * W) :=
  match vfPaths with
  | [] => Normal (None, w)
  | vfPath :: vfPaths =>
      match nodes !! (idx mod length nodes)%nat with
      | None => Panic "integer divide by zero"
      | Some node =>
          match set_vf_node vfPath node w with
          | (Some err, w) => Normal (Some err, w)
          | (None, w) => balance_from (S idx) vfPaths nodes w
          end
      end
  end.

Definition balanceVFNUMA (vfPaths : list string) (nodes : list Z) (w : W)
  : panicking (option goerror * W) := balance_from 0 vfPaths nodes w.

(** ** The run *)

(** The closure of [run]: without try mode the error is returned, in try mode
    it is recorded. *)
Definition handleFailure (cfg : config) (err : option goerror) (hadFailures : bool)
  : option goerror * bool :=
  match err with
  | None => (None, hadFailures)
  | Some e => if negb (tryMode cfg) then (Some e, hadFailures) else (None, true)
  end.

(** A failure after which [run] stops. *)
Definition stop (cfg : config) (err : goerror) (hadFailures : bool) : run_end :=
  match handleFailure cfg (Some err) hadFailures with
  | (Some e, _) => mkEnd (Some e) NoReport
  | (None, hadFailures) => finishTryMode (tryMode cfg) hadFailures
  end.

(** From the discovery of the VFs on. *)
Definition run_vfs (cfg : config) (pf : pfDevice) (hadFailures : bool) (w : W)
  : panicking (run_end * W) :=
  let finish had := finishTryMode (tryMode cfg) had in
  let after (r : option goerror * W) :=
    match handleFailure cfg r.1 hadFailures with
    | (Some e, _) => (mkEnd (Some e) NoReport, r.2)
    | (None, had) => (finish had, r.2)
    end in
  match listVFPaths (path pf) w with
  | Err err =>
      Normal (stop cfg (Errorf "failed to discover VFs under %s: %w" [ArgS (path pf); ArgW err])
                hadFailures, w)
  | Ok vfPaths =>
      if (zlen vfPaths =? 0) || (numVFs cfg =? 0) then Normal (finish hadFailures, w)
      else if pfNUMANode cfg >=? 0 then Normal (after (pinVFNUMA vfPaths (pfNUMANode cfg) w))
      else
        match listNUMANodes (sysfsRoot cfg) w with
        | Err err =>
            Normal (stop cfg (Errorf "failed to list NUMA nodes: %w" [ArgW err]) hadFailures, w)
        | Ok nodes =>
            if zlen nodes =? 0 then Normal (finish hadFailures, w)
            else
              match balanceVFNUMA vfPaths nodes w with
              | Panic why => Panic why
              | Normal r => Normal (after r)
              end
        end
  end.

(** The configuration of a selected physical function. *)
Definition run_pf (cfg : config) (pf : pfDevice) (w : W) : panicking (run_end * W) :=
  if numVFs cfg >? totalVFs pf then
    Normal (stop cfg (Errorf "requested %d VFs exceeds device maximum (%d) for %s"
                        [ArgD (numVFs cfg); ArgD (totalVFs pf); ArgS (pf_pciAddr pf)]) false, w)
  else
    let '(e1, w) := setNumVFs pf (numVFs cfg) w in
    match handleFailure cfg e1 false with
    | (Some e, _) => Normal (mkEnd (Some e) NoReport, w)
    | (None, hadFailures) =>
        let '(e2, w) :=
          if pfNUMANode cfg >=? 0 then setPFNUMANode pf (pfNUMANode cfg) w else (None, w) in
        match handleFailure cfg e2 hadFailures with
        | (Some e, _) => Normal (mkEnd (Some e) NoReport, w)
        | (None, hadFailures) => run_vfs cfg pf hadFailures w
        end
    end.

Definition run (cfg : config) (w : W) : panicking (run_end * W) :=
  if numVFs cfg <? 0 then
    Normal (stop cfg (Errorf "--num-vfs must be >= 0, got %d" [ArgD (numVFs cfg)]) false, w)
  else
    match ensureDir (sysfsRoot cfg) w with
    | Some err =>
        Normal (stop cfg (Errorf "invalid sysfs root %q: %w" [ArgQ (sysfsRoot cfg); ArgW err]) false, w)
    | None =>
        match resolvePF (sysfsRoot cfg) (pciAddr cfg) w with
        | Err err => Normal (stop cfg err false, w)
        | Ok pf => run_pf cfg pf w
        end
    end.

(** [main] after the flags: the exit status. *)
Definition main (cfg : config) (w : W) : panicking (Z * W) :=
  match newLogger (verbosity cfg) with
  | Err _ => Normal (2, w)
  | Ok _ =>
      match run cfg w with
      | Panic why => Panic why
      | Normal (r, w) => Normal (match re_err r with Some _ => 1 | None => 0 end, w)
      end
  end.

End sriov.

(** The positional arguments: at most one, the PCI address. *)
Definition parseFlags (flags : config) (args : list string) : option config :=
  if zlen args >? 1 then None
  else
    match args with
    | [a] => Some (mkConfig (sysfsRoot flags) (numVFs flags) (pfNUMANode flags)
                     (verbosity flags) a (tryMode flags))
    | _ => Some flags
    end.

(** ** Specifications *)

(** Writes carried out in order until one fails. *)
Fixpoint write_plan {W} `{!FileSystem W} (plan : list (string * Z)) (w : W) : option goerror * W :=
  match plan with
  | [] => (None, w)
  | (vf, node) :: plan =>
      match set_vf_node vf node w with
      | (Some err, w) => (Some err, w)
      | (None, w) => write_plan plan w
      end
  end.

(** The VFs paired with the nodes in turn, from position [idx]. *)
Fixpoint round_robin (idx : nat) (vfPaths : list string) (nodes : list Z) : list (string * Z) :=
  match vfPaths with
  | [] => []
  | vf :: vfPaths => (vf, nodes !!! (idx mod length nodes)%nat) :: round_robin (S idx) vfPaths nodes
  end.

(** How many of the first [m] positions fall on the [j]-th of [n] nodes. *)
Definition share (m n j : nat) : nat := length (filter (λ i, i mod n = j)%nat (seq 0 m)).

(** How many VFs an assignment puts on a node. *)
Definition load (node : Z) (plan : list (string * Z)) : nat :=
  length (filter (λ vn, vn.2 = node) plan).

(** The same configuration without try mode. *)
Definition strict (cfg : config) : config :=
  mkConfig (sysfsRoot cfg) (numVFs cfg) (pfNUMANode cfg) (verbosity cfg) (pciAddr cfg) false.

(** ** Lemmas: addresses *)

Lemma is_hex_not c d : is_hex c = true → is_hex d = false → c ≠ d.
Proof. congruence. Qed.

Lemma hex_free s width d : isFixedHex s width = true → is_hex d = false → d ∉ chars s.
Proof.
  unfold isFixedHex. case_cond; [done|]. rewrite forallb_forall. intros Hall Hd Hin.
  apply list_elem_of_In, Hall in Hin. congruence.
Qed.

Lemma Split_fields s c ws :
  Split s c = ws → chars s = join_on c (String.list_ascii_of_string <$> ws).
Proof.
  intros <-. unfold Split. rewrite <-list_fmap_compose.
  rewrite (list_fmap_ext _ id); [by rewrite list_fmap_id, join_split_on|].
  intros i l _. apply chars_of_chars.
Qed.

Lemma Split_unique s c ws :
  ws ≠ [] → Forall (λ w, c ∉ chars w) ws →
  chars s = join_on c (String.list_ascii_of_string <$> ws) → Split s c = ws.
Proof.
  intros Hne Hws Hs. unfold Split. rewrite Hs, split_on_join.
  - rewrite <-list_fmap_compose. rewrite (list_fmap_ext _ id); [by rewrite list_fmap_id|].
    intros i l _. apply of_chars_chars.
  - by destruct ws.
  - by rewrite Forall_fmap.
Qed.

(** ** Lemmas: round robin *)

Lemma share_S m n j : share (S m) n j = (share m n j + if decide (m mod n = j) then 1 else 0)%nat.
Proof.
  unfold share. rewrite seq_S, filter_app, length_app. f_equal.
  rewrite filter_cons, filter_nil. simpl. by case_decide.
Qed.

Lemma share_spec m n j :
  (j < n)%nat → share m n j = (m / n + if decide (j < m mod n) then 1 else 0)%nat.
Proof.
  intros Hj. induction m as [|m IH].
  - unfold share. simpl. rewrite Nat.Div0.div_0_l, Nat.Div0.mod_0_l. by case_decide; [lia|].
  - rewrite share_S, IH. pose proof (Nat.div_mod_eq m n) as Hdm.
    pose proof (Nat.mod_upper_bound m n ltac:(lia)) as Hub.
    destruct (decide (m mod n = n - 1)%nat) as [El|El].
    + assert (S m / n = m / n + 1 ∧ S m mod n = 0)%nat as [-> ->].
      { split; symmetry; [apply (Nat.div_unique _ _ _ 0)|apply (Nat.mod_unique _ _ (m / n + 1))];
          rewrite ?Nat.mul_add_distr_l; lia. }
      repeat case_decide; lia.
    + assert (S m / n = m / n ∧ S m mod n = m mod n + 1)%nat as [-> ->].
      { split; symmetry; [apply (Nat.div_unique _ _ _ (m mod n + 1))|apply (Nat.mod_unique _ _ (m / n))]; lia. }
      repeat case_decide; lia.
Qed.

Lemma fst_round_robin idx vfs nodes : (round_robin idx vfs nodes).*1 = vfs.
Proof. revert idx. induction vfs; intros; simpl; f_equal; auto. Qed.

Lemma round_robin_lookup idx vfs nodes i vf :
  vfs !! i = Some vf →
  round_robin idx vfs nodes !! i = Some (vf, nodes !!! ((idx + i) mod length nodes)%nat).
Proof.
  revert idx i. induction vfs as [|v vfs IH]; intros idx [|i]; simpl; try done.
  - intros [= ->]. by rewrite Nat.add_0_r.
  - intros Hi. rewrite (IH (S idx) i Hi). do 4 f_equal. lia.
Qed.

(** With distinct nodes the VFs of the j-th node are those at its positions. *)
Lemma round_robin_load idx vfs nodes j node :
  NoDup nodes → nodes !! j = Some node →
  load node (round_robin idx vfs nodes)
  = length (filter (λ i, i mod length nodes = j)%nat (seq idx (length vfs))).
Proof.
  intros Hnd Hj. assert (length nodes ≠ 0%nat) as Hn by (by destruct nodes).
  unfold load. revert idx. induction vfs as [|vf vfs IH]; intros idx; [done|]. simpl.
  destruct (lookup_lt_is_Some_2 nodes (idx mod length nodes)%nat) as [node' Hnode];
    [by apply Nat.mod_upper_bound|].
  rewrite (list_lookup_total_correct _ _ _ Hnode), !filter_cons. simpl.
  assert (node' = node ↔ (idx mod length nodes)%nat = j) as Hiff.
  { split; [intros ->; by eapply NoDup_lookup|intros E; rewrite E in Hnode; congruence]. }
  do 2 case_decide; try tauto; simpl; by rewrite IH.
Qed.

Lemma round_robin_balanced vfs nodes a b :
  NoDup nodes → a ∈ nodes → b ∈ nodes →
  (load a (round_robin 0 vfs nodes) <= load b (round_robin 0 vfs nodes) + 1)%nat.
Proof.
  intros Hnd [j Hj]%list_elem_of_lookup [k Hk]%list_elem_of_lookup.
  rewrite (round_robin_load 0 vfs nodes j a), (round_robin_load 0 vfs nodes k b) by done.
  fold (share (length vfs) (length nodes) j) (share (length vfs) (length nodes) k).
  apply lookup_lt_Some in Hj, Hk. rewrite !share_spec by done. repeat case_decide; lia.
Qed.

Lemma round_robin_nodes idx vfs nodes :
  nodes ≠ [] → Forall (λ n, n ∈ nodes) (round_robin idx vfs nodes).*2.
Proof.
  intros Hn. assert (length nodes ≠ 0%nat) by (by destruct nodes).
  revert idx. induction vfs as [|vf vfs IH]; intros idx; [done|]. simpl. constructor; [|apply IH].
  destruct (lookup_lt_is_Some_2 nodes (idx mod length nodes)%nat) as [node Hnode];
    [by apply Nat.mod_upper_bound|].
  rewrite (list_lookup_total_correct _ _ _ Hnode). by eapply list_elem_of_lookup_2.
Qed.

Section lemmas.
Context {W : Type} `{!FileSystem W}.

Lemma pinVFNUMA_plan vfs node (w : W) :
  pinVFNUMA vfs node w = write_plan ((λ vf, (vf, node)) <$> vfs) w.
Proof.
  revert w. induction vfs as [|vf vfs IH]; intros w; [done|]. simpl.
  destruct (set_vf_node vf node w) as [[]]; [done|]. apply IH.
Qed.

Lemma balance_plan idx vfs nodes (w : W) :
  nodes ≠ [] → balance_from idx vfs nodes w = Normal (write_plan (round_robin idx vfs nodes) w).
Proof.
  intros Hn. revert idx w. induction vfs as [|vf vfs IH]; intros idx w; [done|]. simpl.
  assert (length nodes ≠ 0%nat) by (by destruct nodes).
  destruct (lookup_lt_is_Some_2 nodes (idx mod length nodes)%nat) as [node Hnode];
    [by apply Nat.mod_upper_bound|].
  rewrite Hnode, (list_lookup_total_correct _ _ _ Hnode).
  destruct (set_vf_node vf node w) as [[]]; [done|]. apply IH.
Qed.

(** ** Lemmas: try mode *)

Lemma handleFailure_strict cfg err had :
  handleFailure (strict cfg) err had = (err, had).
Proof. by destruct err. Qed.

(** What a run with and without try mode have to do with each other: never a
    panic, and try mode reports success exactly when the strict run returns
    no error, with the same effect. *)
Definition simulates (cfg : config) (had : bool) (r r' : panicking (run_end * W)) : Prop :=
  ∃ e w1 e' w2, r = Normal (e, w1) ∧ r' = Normal (e', w2) ∧
    re_report e' = NoReport ∧
    re_err e = None ∧ re_report e ≠ NoReport ∧
    (re_report e = Succeeded → had = false) ∧
    (had = false → (re_report e = Succeeded ↔ re_err e' = None)) ∧
    (re_report e = Succeeded → w1 = w2).

Lemma stop_try cfg err had : tryMode cfg = true → stop cfg err had = mkEnd None Partial.
Proof. intros Ht. unfold stop, handleFailure. by rewrite Ht. Qed.

Lemma stop_strict cfg err had : stop (strict cfg) err had = mkEnd (Some err) NoReport.
Proof. done. Qed.

Lemma simulates_stop cfg err err' had w w' :
  tryMode cfg = true →
  simulates cfg had (Normal (stop cfg err had, w)) (Normal (stop (strict cfg) err' had, w')).
Proof.
  intros Ht. rewrite stop_try, stop_strict by done.
  do 4 eexists. by split_and!.
Qed.

Lemma simulates_finish cfg had w :
  tryMode cfg = true →
  simulates cfg had (Normal (finishTryMode (tryMode cfg) had, w))
                    (Normal (finishTryMode (tryMode (strict cfg)) had, w)).
Proof.
  intros Ht. rewrite Ht. do 4 eexists. split_and!; try done; destruct had; simpl; naive_solver.
Qed.

Lemma simulates_after cfg had (r : option goerror * W) :
  tryMode cfg = true →
  let after c := match handleFailure c r.1 had with
    | (Some e, _) => (mkEnd (Some e) NoReport, r.2)
    | (None, had) => (finishTryMode (tryMode c) had, r.2) end in
  simulates cfg had (Normal (after cfg)) (Normal (after (strict cfg))).
Proof.
  intros Ht. cbv beta zeta. rewrite handleFailure_strict. unfold handleFailure. rewrite Ht.
  destruct r as [[err|] w]; simpl; do 4 eexists; split_and!; try done; destruct had; simpl; naive_solver.
Qed.

Lemma run_vfs_simulates cfg pf had (w : W) :
  tryMode cfg = true → simulates cfg had (run_vfs cfg pf had w) (run_vfs (strict cfg) pf had w).
Proof.
  intros Ht. unfold run_vfs.
  destruct (listVFPaths (path pf) w) as [vfs|]; [|by apply simulates_stop].
  change (numVFs (strict cfg)) with (numVFs cfg).
  change (pfNUMANode (strict cfg)) with (pfNUMANode cfg).
  change (sysfsRoot (strict cfg)) with (sysfsRoot cfg).
  case_cond; [by apply simulates_finish|].
  case_cond; [by apply (simulates_after cfg had (pinVFNUMA _ _ _))|].
  destruct (listNUMANodes (sysfsRoot cfg) w) as [nodes|]; [|by apply simulates_stop].
  case_cond; [by apply simulates_finish|].
  unfold balanceVFNUMA. rewrite balance_plan by (by destruct nodes).
  by apply (simulates_after cfg had (write_plan _ _)).
Qed.

(** After a recorded failure try mode goes on, the strict run has stopped. *)
Lemma simulates_failed cfg had r r' err (w : W) :
  simulates cfg true r r' → simulates cfg had r (Normal (mkEnd (Some err) NoReport, w)).
Proof.
  intros (e & w1 & e' & w2 & -> & _ & _ & ? & ? & Hs & _ & _).
  do 4 eexists. split_and!; try done; simpl; naive_solver.
Qed.

Lemma run_pf_simulates cfg pf (w : W) :
  tryMode cfg = true → simulates cfg false (run_pf cfg pf w) (run_pf (strict cfg) pf w).
Proof.
  intros Ht. unfold run_pf.
  change (numVFs (strict cfg)) with (numVFs cfg).
  change (pfNUMANode (strict cfg)) with (pfNUMANode cfg).
  case_cond; [by apply simulates_stop|].
  destruct (setNumVFs pf (numVFs cfg) w) as [e1 w1]. rewrite handleFailure_strict.
  destruct (if pfNUMANode cfg >=? 0 then _ else _) as [e2 w2].
  unfold handleFailure at 1. rewrite Ht. cbn [negb].
  destruct e1 as [e1|]; rewrite ?handleFailure_strict; unfold handleFailure; rewrite Ht; cbn [negb];
    destruct e2 as [e2|]; eauto using simulates_failed, run_vfs_simulates.
Qed.

Lemma run_simulates cfg (w : W) :
  tryMode cfg = true → simulates cfg false (run cfg w) (run (strict cfg) w).
Proof.
  intros Ht. unfold run.
  change (numVFs (strict cfg)) with (numVFs cfg).
  change (sysfsRoot (strict cfg)) with (sysfsRoot cfg).
  change (pciAddr (strict cfg)) with (pciAddr cfg).
  case_cond; [by apply simulates_stop|].
  destruct (ensureDir (sysfsRoot cfg) w); [by apply simulates_stop|].
  destruct (resolvePF _ _ w); [by apply run_pf_simulates|by apply simulates_stop].
Qed.

Lemma strict_id cfg : tryMode cfg = false → strict cfg = cfg.
Proof. destruct cfg. simpl. by intros ->. Qed.

(** ** Lemmas: the selected device *)

(** What [validatePFDevice] checked of the device it returns. *)
Definition pf_valid (devRoot pci : string) (w : W) (pf : pfDevice) : Prop :=
  pf_pciAddr pf = pci ∧ path pf = Join [devRoot; pci] ∧
  (∃ i, os_Stat (path pf) w = Ok i ∧ fi_IsDir i = true) ∧
  (∃ e, os_Stat (Join [path pf; "physfn"]) w = Err (ErrNotExist e)) ∧
  (∃ i, os_Stat (Join [path pf; "net"]) w = Ok i ∧ fi_IsDir i = true) ∧
  readIntFromFile (Join [path pf; "sriov_totalvfs"]) w = Ok (totalVFs pf) ∧
  0 < totalVFs pf ∧
  readIntFromFile (Join [path pf; "sriov_numvfs"]) w = Ok (currentVFs pf).

Lemma ensureDir_None p (w : W) :
  ensureDir p w = None ↔ ∃ i, os_Stat p w = Ok i ∧ fi_IsDir i = true.
Proof.
  unfold ensureDir. destruct (os_Stat p w) as [i|]; [destruct (fi_IsDir i) eqn:?|]; simpl;
    split; intros Hi; try done; eauto; destruct Hi as (i' & ? & ?); go_inv; congruence.
Qed.

Lemma validatePFDevice_Ok devRoot pci (w : W) pf :
  validatePFDevice devRoot pci w = Ok pf ↔ pf_valid devRoot pci w pf.
Proof.
  unfold validatePFDevice, pf_valid. split.
  - destruct (ensureDir (Join [devRoot; pci]) w) eqn:E1; [done|].
    destruct (os_Stat _ w) as [|e2] eqn:E2; [done|]. destruct e2; try done. cbn [is_not_exist negb].
    destruct (ensureDir (Join [Join [devRoot; pci]; "net"]) w) eqn:E3; [done|].
    destruct (readIntFromFile _ w) eqn:E4; [|done]. case_cond; [done|]. zb.
    destruct (readIntFromFile (Join [_; "sriov_numvfs"]) w) eqn:E5; [|done].
    intros; go_inv. simpl. apply ensureDir_None in E1, E3. by eauto 20.
  - destruct pf as [pci' p t c]; simpl. intros (-> & -> & H1 & [e H2] & H3 & H4 & H5 & H6).
    apply ensureDir_None in H1, H3. rewrite H1, H2. cbn [is_not_exist negb]. rewrite H3, H4, H6.
    case_cond; zb; [lia|done].
Qed.

(** A candidate of the device scan. *)
Definition candidate (e : DirEntry) : bool :=
  (de_IsDir e || de_IsSymlink e) && isPCIAddress (de_Name e).

Lemma first_pf_Ok devRoot es (w : W) pf :
  first_pf devRoot es w = Ok pf ↔
  ∃ pre e post, es = pre ++ e :: post ∧ candidate e = true ∧
    pf_valid devRoot (de_Name e) w pf ∧
    ∀ e' pf', e' ∈ pre → candidate e' = true → ¬ pf_valid devRoot (de_Name e') w pf'.
Proof.
  induction es as [|e es IH]; simpl.
  { split; [done|]. intros (pre & e & post & He & _). by destruct pre. }
  assert (candidate e = false ∨ (candidate e = true ∧ ∃ err, validatePFDevice devRoot (de_Name e) w = Err err) →
    (first_pf devRoot es w = Ok pf ↔ ∃ pre e' post, e :: es = pre ++ e' :: post ∧ candidate e' = true ∧
      pf_valid devRoot (de_Name e') w pf ∧
      ∀ e'' pf', e'' ∈ pre → candidate e'' = true → ¬ pf_valid devRoot (de_Name e'') w pf')) as Hskip.
  { intros Hno. rewrite IH. split.
    - intros (pre & e' & post & -> & ? & ? & Hpre). exists (e :: pre), e', post. split_and!; try done.
      intros e'' pf' [->|Hin]%elem_of_cons Hc Hv; [|by eapply Hpre].
      apply validatePFDevice_Ok in Hv. destruct Hno as [?|(_ & err & ?)]; congruence.
    - intros (pre & e' & post & He & Hc & Hv & Hpre). destruct pre as [|e0 pre]; simplify_eq/=.
      + apply validatePFDevice_Ok in Hv. destruct Hno as [?|(_ & err & ?)]; congruence.
      + exists pre, e', post. split_and!; try done. intros e'' pf' Hin. apply Hpre. by right. }
  unfold candidate in Hskip at 1 2.
  destruct (de_IsDir e || de_IsSymlink e) eqn:Ed.
  2: { apply orb_false_iff in Ed as [-> ->]. simpl. apply Hskip. by left. }
  assert (negb (de_IsDir e) && negb (de_IsSymlink e) = false) as ->
    by (by destruct (de_IsDir e), (de_IsSymlink e)).
  destruct (isPCIAddress (de_Name e)) eqn:Ep; simpl; [|apply Hskip; by left].
  destruct (validatePFDevice devRoot (de_Name e) w) as [pf0|err] eqn:Ev; [|apply Hskip; right; eauto].
  split.
  - intros; go_inv. exists [], e, es. split_and!; try done.
    + unfold candidate. by rewrite Ed, Ep.
    + by apply validatePFDevice_Ok.
    + intros ? ? Hin. by apply elem_of_nil in Hin.
  - intros (pre & e' & post & He & Hc & Hv & Hpre). destruct pre as [|e0 pre]; simplify_eq/=.
    + apply validatePFDevice_Ok in Hv. congruence.
    + destruct (Hpre e0 pf0); [by left|unfold candidate; by rewrite Ed, Ep|by apply validatePFDevice_Ok].
Qed.

(** A resolved device was validated. *)
Lemma resolvePF_valid sysfs user (w : W) pf :
  resolvePF sysfs user w = Ok pf → ∃ devRoot pci, pf_valid devRoot pci w pf.
Proof.
  unfold resolvePF. case_cond; [case_cond; [done|]; intros ?%validatePFDevice_Ok; eauto|].
  destruct (os_ReadDir _ w); [|done]. intros (pre & e & post & _ & _ & ? & _)%first_pf_Ok. eauto.
Qed.

End lemmas.

End SriovVF.

(** * Properties of the VF setup *)
Module SriovVFProps.
Import SriovVF.

(** A field of hexadecimal digits, of either case, of the given length. *)
Definition hex_field (n : nat) (s : string) : Prop :=
  String.length s = n ∧ ∀ c, c ∈ chars s → c ∈ chars "0123456789abcdefABCDEF".

Lemma is_hex_spec c : is_hex c = true ↔ c ∈ chars "0123456789abcdefABCDEF".
Proof.
  rewrite <-(bool_decide_eq_true (c ∈ _)).
  destruct c as [[] [] [] [] [] [] [] []]; vm_compute; done.
Qed.

Lemma isFixedHex_spec s n : isFixedHex s (Z.of_nat n) = true ↔ hex_field n s.
Proof.
  unfold isFixedHex, hex_field, strlen. setoid_rewrite <-is_hex_spec.
  case_cond; zb; [split; [done|intros []; lia]|]. rewrite forallb_forall.
  setoid_rewrite list_elem_of_In. split; [intros; split; [lia|done]|by intros []].
Qed.

(** C29: [isPCIAddress] accepts exactly dddd:bb:ss.f with fields of four, two,
    two and one hexadecimal digits, of either case. *)
Theorem pci_address_grammar (addr : string) :
  isPCIAddress addr = true ↔
  ∃ dom bus slot fn,
    addr = dom +:+ ":" +:+ bus +:+ ":" +:+ slot +:+ "." +:+ fn ∧
    hex_field 4 dom ∧ hex_field 2 bus ∧ hex_field 2 slot ∧ hex_field 1 fn.
Proof.
  unfold isPCIAddress. split.
  - destruct (Split addr ":"%char) as [|dom [|bus [|p2 [|? ?]]]] eqn:E1; try done.
    case_cond; [done|]. zb.
    destruct (Split p2 "."%char) as [|slot [|fn [|? ?]]] eqn:E2; try done. intros Hl. zb.
    exists dom, bus, slot, fn. split_and!; try (by apply isFixedHex_spec).
    apply Split_fields in E1, E2. apply (inj String.list_ascii_of_string).
    rewrite E1. simpl. rewrite E2. rewrite !chars_app. done.
  - intros (dom & bus & slot & fn & -> & H1%isFixedHex_spec & H2%isFixedHex_spec
            & H3%isFixedHex_spec & H4%isFixedHex_spec).
    change (Z.of_nat 4) with 4 in H1. change (Z.of_nat 2) with 2 in H2, H3. change (Z.of_nat 1) with 1 in H4.
    rewrite (Split_unique _ _ [dom; bus; slot +:+ "." +:+ fn]); [|done| |simpl; by rewrite !chars_app].
    + rewrite H1, H2. simpl. rewrite (Split_unique _ _ [slot; fn]); [|done| |simpl; by rewrite !chars_app].
      * by rewrite H3, H4.
      * repeat constructor; by eapply hex_free.
    + repeat constructor; try (by eapply hex_free).
      rewrite !chars_app, !elem_of_app. intros [Hin|[Hin|Hin]].
      * by eapply hex_free in Hin.
      * by apply list_elem_of_singleton in Hin.
      * by eapply hex_free in Hin.
Qed.

(** C26: VFs are balanced round robin: when there are NUMA nodes, the loop never
    panics and carries out, in order and until a write fails, the assignment
    of the i-th VF to the (i mod n)-th node; that assignment puts on no node
    more than one VF more than on another. *)
Theorem vfs_balanced {W} `{!FileSystem W} (vfs : list string) (nodes : list Z) (w : W) :
  nodes ≠ [] →
  ∃ plan,
    balanceVFNUMA vfs nodes w = Normal (write_plan plan w) ∧ plan.*1 = vfs ∧
    (∀ i vf, vfs !! i = Some vf →
       ∃ node, nodes !! (i mod length nodes)%nat = Some node ∧ plan !! i = Some (vf, node)) ∧
    (NoDup nodes → ∀ a b, a ∈ nodes → b ∈ nodes → (load a plan <= load b plan + 1)%nat).
Proof.
  intros Hn. exists (round_robin 0 vfs nodes). split_and!.
  - by apply balance_plan.
  - apply fst_round_robin.
  - intros i vf Hi. assert (length nodes ≠ 0%nat) by (by destruct nodes).
    destruct (lookup_lt_is_Some_2 nodes (i mod length nodes)%nat) as [node Hnode];
      [by apply Nat.mod_upper_bound|].
    exists node. split; [done|]. rewrite (round_robin_lookup 0 _ nodes _ vf Hi). simpl.
    by rewrite (list_lookup_total_correct _ _ _ Hnode).
  - intros Hnd a b. by apply round_robin_balanced.
Qed.

(** C25: the run never panics; in try mode it always returns without an error,
    and reports success exactly when the same run without try mode would
    return no error, with the same effect on the system. *)
Theorem try_mode_faithful {W} `{!FileSystem W} (cfg : config) (w : W) :
  tryMode cfg = true →
  ∃ e w1 e' w2, run cfg w = Normal (e, w1) ∧ run (strict cfg) w = Normal (e', w2) ∧
    re_err e = None ∧ (re_report e = Succeeded ∨ re_report e = Partial) ∧
    (re_report e = Succeeded ↔ re_err e' = None) ∧
    (re_report e = Succeeded → w1 = w2).
Proof.
  intros Ht. destruct (run_simulates cfg w Ht) as (e & w1 & e' & w2 & ? & ? & _ & ? & Hr & _ & Hiff & ?).
  exists e, w1, e', w2. split_and!; try done; [|by apply Hiff].
  destruct (re_report e); tauto.
Qed.

(** C28: an invalid request changes nothing: a negative count, a bad sysfs root,
    no usable device, or more VFs than the device has leave the system as it
    was, in both modes. *)
Theorem refused_request_no_effect {W} `{!FileSystem W} (cfg : config) (w : W) :
  numVFs cfg < 0 ∨ is_Some (ensureDir (sysfsRoot cfg) w) ∨
  (∃ err, resolvePF (sysfsRoot cfg) (pciAddr cfg) w = Err err) ∨
  (∃ pf, resolvePF (sysfsRoot cfg) (pciAddr cfg) w = Ok pf ∧ totalVFs pf < numVFs cfg) →
  ∃ e, run cfg w = Normal (e, w) ∧ (tryMode cfg = false → is_Some (re_err e)).
Proof.
  assert (∀ err, tryMode cfg = false → is_Some (re_err (stop cfg err false))) as Hs.
  { intros err Ht. unfold stop, handleFailure. rewrite Ht. simpl. eauto. }
  intros Hbad. unfold run, run_pf. case_cond; [eauto|]. zb.
  destruct (ensureDir (sysfsRoot cfg) w) as [err|]; [eauto|].
  destruct (resolvePF _ _ w) as [pf|err]; [|eauto].
  case_cond; [eauto|]. zb.
  destruct Hbad as [?|[[? ?]|[[? ?]|(? & ? & ?)]]]; go_inv; try done; lia.
Qed.

(** C27: the device that is used: with a PCI address, that device if it
    validates; without, the first in the order of the names among the devices
    that look like PCI addresses and validate as an SR-IOV capable physical
    function with a network interface. *)
Theorem resolved_pf_is_first {W} `{!FileSystem W} (root user : string) (w : W) pf :
  let devRoot := Join [root; "bus"; "pci"; "devices"] in
  resolvePF root user w = Ok pf ↔
  (user ≠ "" ∧ isPCIAddress user = true ∧ pf_valid devRoot user w pf) ∨
  (user = "" ∧ ∃ es pre e post, os_ReadDir devRoot w = Ok es ∧
     merge_sort by_name es = pre ++ e :: post ∧ candidate e = true ∧
     pf_valid devRoot (de_Name e) w pf ∧
     ∀ e' pf', e' ∈ pre → candidate e' = true → ¬ pf_valid devRoot (de_Name e') w pf').
Proof.
  intros devRoot. unfold resolvePF. fold devRoot. case_bool_decide as Hu; simpl.
  - destruct (os_ReadDir devRoot w) as [es|].
    + rewrite first_pf_Ok. split.
      * intros (pre & e & post & ?). right. split; [done|]. by exists es, pre, e, post.
      * intros [[? ?]|(_ & es' & pre & e & post & ? & ?)]; [done|]. go_inv. by exists pre, e, post.
    + split; [done|]. intros [[? ?]|(_ & ? & ? & ? & ? & ? & _)]; done.
  - destruct (isPCIAddress user) eqn:Ep; simpl.
    + rewrite validatePFDevice_Ok. split; [by left|]. intros [(_ & _ & ?)|[? _]]; done.
    + split; [done|]. intros [(_ & ? & _)|[? _]]; done.
Qed.

(** Setting the VF count writes nothing if the count is already right,
    resets to zero first if there are VFs, and stops at the first failure. *)
Theorem set_num_vfs {W} `{!FileSystem W} (pf : pfDevice) (requested : Z) (w : W) :
  let target := Join [path pf; "sriov_numvfs"] in
  match setNumVFs pf requested w with
  | (None, w') =>
      (currentVFs pf = requested ∧ w' = w) ∨
      (currentVFs pf ≠ requested ∧ currentVFs pf ≤ 0 ∧
         writeIntToFile target requested w = (None, w')) ∨
      (currentVFs pf ≠ requested ∧ 0 < currentVFs pf ∧
         ∃ w1, writeIntToFile target 0 w = (None, w1) ∧
               writeIntToFile target requested w1 = (None, w'))
  | (Some _, w') =>
      currentVFs pf ≠ requested ∧
      ((∃ e, 0 < currentVFs pf ∧ writeIntToFile target 0 w = (Some e, w')) ∨
       (∃ e w1, (currentVFs pf ≤ 0 ∧ w1 = w ∨
                 0 < currentVFs pf ∧ writeIntToFile target 0 w = (None, w1)) ∧
          writeIntToFile target requested w1 = (Some e, w')))
  end.
Proof.
  intros target. unfold setNumVFs. fold target. case_cond; zb; [by left|].
  case_cond; zb.
  - destruct (writeIntToFile target 0 w) as [[e|] w1] eqn:E1; [split; eauto|].
    destruct (writeIntToFile target requested w1) as [[e|] w2] eqn:E2; [|by eauto 10].
    split; [done|]. right. exists e, w1. eauto.
  - destruct (writeIntToFile target requested w) as [[e|] w2] eqn:E2; [|by eauto 10].
    split; [done|]. right. exists e, w. eauto.
Qed.

(** Numbers survive the file system: a file holding what
    [writeIntToFile] writes for an [int] is read back as that [int]. *)
Theorem int_file_roundtrip {W} `{!FileSystem W} (file : string) (v : Z) :
  is_int64 v →
  ∃ data, (∀ w : W, writeIntToFile file v w = os_WriteFile file data 0 w) ∧
    ∀ w : W, os_ReadFile file w = Ok data → readIntFromFile file w = Ok v.
Proof.
  intros Hv. exists (Itoa v +:+ newline). split; [done|]. intros w Hr.
  unfold readIntFromFile. rewrite Hr. by apply parse_int_line.
Qed.

(** ** Witnesses: a small sysfs *)

Definition dev : string := "/sys/bus/pci/devices/0000:05:00.0".

Definition demo_sysfs : MemFS :=
  let dir l := NDir l in
  mkMemFS
    (list_to_map [
      ("/sys", dir []);
      ("/sys/bus/pci/devices", dir [mkDirEntry "0000:05:00.0" false true; mkDirEntry "bogus" true false]);
      (dev, dir [mkDirEntry "virtfn0" false true; mkDirEntry "virtfn1" false true; mkDirEntry "virtfn2" false true]);
      (dev +:+ "/net", dir []);
      (dev +:+ "/sriov_totalvfs", NFile 292 ("7" +:+ newline));
      (dev +:+ "/sriov_numvfs", NFile 420 ("0" +:+ newline));
      (dev +:+ "/virtfn0", dir []); (dev +:+ "/virtfn1", dir []); (dev +:+ "/virtfn2", dir []);
      ("/sys/devices/system/node", dir [mkDirEntry "node0" true false; mkDirEntry "node1" true false; mkDirEntry "possible" false false])])
    ∅.

Definition demo_cfg : config := mkConfig "/sys" 3 (-1) "info" "" true.

Lemma vfs_balanced_witness :
  ∃ plan,
    balanceVFNUMA ["a"; "b"; "c"] [0; 1] demo_sysfs = Normal (write_plan plan demo_sysfs) ∧
    plan.*1 = ["a"; "b"; "c"] ∧
    (∀ i vf, ["a"; "b"; "c"] !! i = Some vf →
       ∃ node, [0; 1] !! (i mod 2)%nat = Some node ∧ plan !! i = Some (vf, node)) ∧
    (NoDup [0; 1] → ∀ a b, a ∈ [0; 1] → b ∈ [0; 1] → (load a plan <= load b plan + 1)%nat).
Proof. apply (vfs_balanced ["a"; "b"; "c"] [0; 1] demo_sysfs). discriminate. Defined.

Lemma try_mode_faithful_witness :
  ∃ e w1 e' w2, run demo_cfg demo_sysfs = Normal (e, w1) ∧
    run (strict demo_cfg) demo_sysfs = Normal (e', w2) ∧
    re_err e = None ∧ (re_report e = Succeeded ∨ re_report e = Partial) ∧
    (re_report e = Succeeded ↔ re_err e' = None) ∧
    (re_report e = Succeeded → w1 = w2).
Proof. apply (try_mode_faithful demo_cfg demo_sysfs). reflexivity. Defined.

(** The run of the example succeeds and assigns the nodes in turn. *)
Example demo_run :
  match run demo_cfg demo_sysfs with
  | Normal (e, w) =>
      re_report e = Succeeded ∧
      (λ i, os_ReadFile (dev +:+ "/virtfn" +:+ i +:+ "/numa_node") w) <$> ["0"; "1"; "2"] =
      [Ok ("0" +:+ newline); Ok ("1" +:+ newline); Ok ("0" +:+ newline)]
  | Panic _ => False
  end.
Proof. vm_compute. split; reflexivity. Qed.

Lemma refused_request_no_effect_witness :
  ∃ e, run (mkConfig "/sys" 9 (-1) "info" "" false) demo_sysfs = Normal (e, demo_sysfs) ∧
    (false = false → is_Some (re_err e)).
Proof.
  apply (refused_request_no_effect (mkConfig "/sys" 9 (-1) "info" "" false) demo_sysfs).
  right. right. right. eexists. split; [vm_compute; reflexivity|]. vm_compute. reflexivity.
Defined.

Lemma int_file_roundtrip_witness :
  ∃ data, (∀ w : MemFS, writeIntToFile "f" (-6) w = os_WriteFile "f" data 0 w) ∧
    ∀ w : MemFS, os_ReadFile "f" w = Ok data → readIntFromFile "f" w = Ok (-6).
Proof. apply (int_file_roundtrip "f" (-6)). vm_compute. split; [discriminate|reflexivity]. Defined.

End SriovVFProps.
