(* ===== verification/SriovKernel.v ===== *)
(** * SR-IOV setup on Linux

    [SriovVF.v] says what the tool reads and writes; here is what comes of it.
    [SriovKernel] is the part of sysfs the tool drives, seen as the state it
    stands for (enabled VFs, NUMA node of each device, online nodes), and
    [SriovKernelLaws] how the files present and change it, as the kernel's
    sysfs-bus-pci documentation has it: the VF count can only be changed from
    or to zero, every enabled VF has a link [virtfnN] in the directory of its
    PF, and [numa_node] takes any online node.  The physical functions the
    class speaks of are those whose driver does what it is asked to.
    [SimPci] is an instance with one of them. *)

From S2P Require Import Prelude GoStrings GoPath OS SriovVF.
Local Open Scope Z_scope.

(** What the files of sysfs stand for; devices are named by their path. *)
Class SriovKernel (W : Type) := {
  healthy_pf : string → nat → Prop;
  vfs_enabled : string → W → nat;
  vf_path : string → nat → string;
  numa_of : string → W → Z;
  online : W → list Z;
}.

Module SriovSysfs.
Import SriovVF.

(** The number as a sysfs attribute has it. *)
Definition attr (z : Z) : string := Itoa z +:+ newline.

Definition virtfn (i : nat) : string := "virtfn" +:+ Itoa (Z.of_nat i).
Definition node_name (node : Z) : string := "node" +:+ Itoa node.

(** A device whose NUMA node can be set. *)
Definition has_numa_file {W} `{!SriovKernel W} (d : string) (w : W) : Prop :=
  ∃ pf total, healthy_pf pf total ∧ (d = pf ∨ ∃ i, (i < vfs_enabled pf w)%nat ∧ d = vf_path pf i).

End SriovSysfs.
Import SriovSysfs.

Class SriovKernelLaws (W : Type) `{!FileSystem W} `{!SriovKernel W} (root : string) := {
  total_read : ∀ pf total (w : W), healthy_pf pf total →
    (vfs_enabled pf w <= total)%nat ∧ Z.of_nat total < 65536 ∧
    os_ReadFile (Join [pf; "sriov_totalvfs"]) w = Ok (attr (Z.of_nat total));
  numvfs_read : ∀ pf total (w : W), healthy_pf pf total →
    os_ReadFile (Join [pf; "sriov_numvfs"]) w = Ok (attr (Z.of_nat (vfs_enabled pf w)));
  (** From zero or to zero; the other changes are refused (EBUSY). *)
  numvfs_write : ∀ pf total n perm (w : W), healthy_pf pf total → (n <= total)%nat →
    match os_WriteFile (Join [pf; "sriov_numvfs"]) (attr (Z.of_nat n)) perm w with
    | (None, w') => vfs_enabled pf w' = n ∧ online w' = online w
    | (Some _, w') => w' = w ∧ vfs_enabled pf w ≠ 0%nat ∧ n ≠ 0%nat
    end;
  virtfn_links : ∀ pf total (w : W), healthy_pf pf total →
    ∃ es rest, os_ReadDir pf w = Ok es ∧
      es ≡ₚ ((λ i, mkDirEntry (virtfn i) false true) <$> seq 0 (vfs_enabled pf w)) ++ rest ∧
      Forall (λ e, HasPrefix (de_Name e) "virtfn" = false) rest;
  virtfn_target : ∀ pf total i (w : W), healthy_pf pf total → (i < vfs_enabled pf w)%nat →
    filepath_EvalSymlinks (Join [pf; virtfn i]) w = Ok (vf_path pf i);
  vf_path_inj : ∀ pf total i j, healthy_pf pf total → vf_path pf i = vf_path pf j → i = j;
  vf_not_pf : ∀ pf total i, healthy_pf pf total → vf_path pf i ≠ pf;
  numa_write : ∀ d node perm (w : W), has_numa_file d w → node ∈ online w →
    ∃ w', os_WriteFile (Join [d; "numa_node"]) (attr node) perm w = (None, w') ∧
      numa_of d w' = node ∧ (∀ d', d' ≠ d → numa_of d' w' = numa_of d' w) ∧
      (∀ pf, vfs_enabled pf w' = vfs_enabled pf w) ∧ online w' = online w;
  online_nodes : ∀ w : W, NoDup (online w) ∧ Forall is_int64 (online w);
  node_dirs : ∀ w : W,
    let nodeRoot := Join [root; "devices"; "system"; "node"] in
    ∃ es rest, os_ReadDir nodeRoot w = Ok es ∧
      es ≡ₚ ((λ n, mkDirEntry (node_name n) true false) <$> online w) ++ rest ∧
      Forall (λ e, de_IsDir e = false ∨ HasPrefix (de_Name e) "node" = false) rest ∧
      ∀ n, n ∈ online w → is_ok (os_Stat (Join [nodeRoot; node_name n; "online"]) w) = false;
}.

(** * What the setup achieves *)
Module SriovKernelProps.
Import SriovVF.

Lemma filter_all {A} (P : A → Prop) `{!∀ x, Decision (P x)} l : Forall P l → filter P l = l.
Proof. induction 1 as [|x l Hx _ IH]; [done|]. by rewrite filter_cons_True, IH. Qed.

Lemma filter_none {A} (P : A → Prop) `{!∀ x, Decision (P x)} l : Forall (λ x, ¬ P x) l → filter P l = [].
Proof. induction 1 as [|x l Hx _ IH]; [done|]. by rewrite filter_cons_False. Qed.

Lemma length_filter_fmap {A B} (f : A → B) (P : B → Prop) `{!∀ x, Decision (P x)} l :
  length (filter P (f <$> l)) = length (filter (λ x, P (f x)) l).
Proof. induction l as [|x l IH]; [done|]. rewrite fmap_cons, !filter_cons. case_decide; simpl; by rewrite IH. Qed.

Section props.
Context {W : Type} `{!FileSystem W} `{!SriovKernel W} (root : string) `{!SriovKernelLaws W root}.

(** How many of the VFs are on a node. *)
Definition vfs_on (pf : string) (node : Z) (w : W) : nat :=
  length (filter (λ i, numa_of (vf_path pf i) w = node) (seq 0 (vfs_enabled pf w))).

(** Where the configuration wants the VFs: on the node it names, or spread
    over the online nodes as evenly as possible. *)
Definition placed (cfg : config) (pf : string) (w : W) : Prop :=
  if pfNUMANode cfg >=? 0 then
    ∀ i, (i < vfs_enabled pf w)%nat → numa_of (vf_path pf i) w = pfNUMANode cfg
  else
    (∀ i, (i < vfs_enabled pf w)%nat → numa_of (vf_path pf i) w ∈ online w) ∧
    ∀ a b, a ∈ online w → b ∈ online w → (vfs_on pf a w <= vfs_on pf b w + 1)%nat.

(** ** Discovery *)

Lemma resolve_links_Ok pf es (w : W) (target : string → string) :
  (∀ e, e ∈ es → HasPrefix (de_Name e) "virtfn" = true →
     filepath_EvalSymlinks (Join [pf; de_Name e]) w = Ok (target (de_Name e))) →
  resolve_links pf es w
  = Ok ((λ e, target (de_Name e)) <$> filter (λ e, HasPrefix (de_Name e) "virtfn" = true) es).
Proof.
  induction es as [|e es IH]; intros Hall; [done|]. cbn [resolve_links]. rewrite filter_cons.
  specialize (IH ltac:(intros; apply Hall; [by right|done])).
  destruct (HasPrefix (de_Name e) "virtfn") eqn:Ep; cbn [negb].
  - rewrite (Hall e) by (done || by left). rewrite IH. by rewrite decide_True.
  - by rewrite IH, decide_False.
Qed.

Lemma listVFPaths_Ok pf total (w : W) :
  healthy_pf pf total →
  ∃ vfs, listVFPaths pf w = Ok vfs ∧ vfs ≡ₚ vf_path pf <$> seq 0 (vfs_enabled pf w).
Proof.
  intros Hpf. destruct (virtfn_links pf total w Hpf) as (es & rest & Hes & Hperm & Hrest).
  set (target name := match filepath_EvalSymlinks (Join [pf; name]) w with Ok p => p | Err _ => "" end).
  assert (∀ i, i ∈ seq 0 (vfs_enabled pf w) → target (virtfn i) = vf_path pf i) as Ht.
  { intros i Hi%elem_of_seq. unfold target. erewrite virtfn_target; [done..|lia]. }
  unfold listVFPaths. rewrite Hes, (resolve_links_Ok _ _ _ target).
  - eexists. split; [done|]. rewrite sort_Strings_perm, Hperm, filter_app, fmap_app.
    rewrite (filter_none _ rest), app_nil_r.
    + rewrite filter_all by (apply Forall_fmap, Forall_true; intros; apply HasPrefix_app).
      rewrite <-list_fmap_compose. apply Permutation_refl', list_fmap_ext. intros i x Hx. simpl.
      apply Ht. by eapply list_elem_of_lookup_2.
    + eapply Forall_impl; [done|]. simpl. by intros e ->.
  - intros e He Hp. rewrite Hperm, elem_of_app in He. destruct He as [He|He].
    + apply list_elem_of_fmap in He as (i & -> & Hi). simpl. rewrite Ht by done.
      apply elem_of_seq in Hi. eapply virtfn_target; [done|lia].
    + rewrite Forall_forall in Hrest. rewrite Hrest in Hp by done. done.
Qed.

Lemma numa_node_online (w : W) n :
  let nodeRoot := Join [root; "devices"; "system"; "node"] in
  is_int64 n → is_ok (os_Stat (Join [nodeRoot; node_name n; "online"]) w) = false →
  numa_node nodeRoot w (mkDirEntry (node_name n) true false) = Some n.
Proof.
  intros nodeRoot Hn Hs. unfold numa_node, node_name in *. cbn [de_IsDir de_Name negb].
  rewrite HasPrefix_app, TrimPrefix_app, parse_int_Itoa by done. cbn [negb].
  by destruct (os_Stat _ w).
Qed.

Lemma listNUMANodes_Ok (w : W) : ∃ nodes, listNUMANodes root w = Ok nodes ∧ nodes ≡ₚ online w.
Proof.
  destruct (node_dirs w) as (es & rest & Hes & Hperm & Hrest & Hoff).
  destruct (online_nodes w) as [_ Hint]. unfold listNUMANodes. rewrite Hes. eexists. split; [done|].
  rewrite merge_sort_Permutation, Hperm, omap_app.
  assert (omap (numa_node (Join [root; "devices"; "system"; "node"]) w) rest = []) as ->.
  { clear -Hrest. induction Hrest as [|e rest He _ IH]; [done|]. cbn [omap list_omap].
    replace (numa_node _ w e) with (@None Z); [done|].
    unfold numa_node. destruct He as [-> | ->]; [done|]. by destruct (de_IsDir e). }
  rewrite app_nil_r. clear -Hint Hoff.
  induction (online w) as [|n ns IH]; [done|]. apply Forall_cons in Hint as [Hn Hint].
  cbn [fmap list_fmap omap list_omap]. rewrite numa_node_online; [|done|apply Hoff; by left].
  f_equiv. apply IH; [|done]. intros n' Hn'. apply Hoff. by right.
Qed.

(** ** Effects of the writes *)

Lemma write_plan_Ok pf total plan (w : W) :
  healthy_pf pf total → NoDup plan.*1 →
  Forall (λ vn, (∃ i, (i < vfs_enabled pf w)%nat ∧ vn.1 = vf_path pf i) ∧ vn.2 ∈ online w) plan →
  ∃ w', write_plan plan w = (None, w') ∧
    (∀ vf node, (vf, node) ∈ plan → numa_of vf w' = node) ∧
    (∀ d, d ∉ plan.*1 → numa_of d w' = numa_of d w) ∧
    vfs_enabled pf w' = vfs_enabled pf w ∧ online w' = online w.
Proof.
  intros Hpf. revert w. induction plan as [|[vf node] plan IH]; intros w Hnd Hall.
  { exists w. split_and!; try done. by intros ? ? ?%elem_of_nil. }
  apply Forall_cons in Hall as [[(i & Hi & Hvf) Hnode] Hall]. apply NoDup_cons in Hnd as [Hvf' Hnd].
  cbn [fst snd] in *.
  destruct (numa_write vf node 0 w) as (w1 & E & Hn & Hother & Hen & Hon); [|done|].
  { exists pf, total. eauto. }
  destruct (IH w1 Hnd) as (w' & E' & Hin & Hout & Hen' & Hon').
  { by rewrite Hen, Hon. }
  exists w'. cbn [write_plan]. unfold set_vf_node, writeIntToFile. unfold attr in E. rewrite E.
  split_and!; [done| | |congruence..].
  - intros vf0 node0 [[= -> ->]|Hp]%elem_of_cons; [by rewrite Hout|by apply Hin].
  - intros d Hd. apply not_elem_of_cons in Hd as [Hd1 Hd2]. by rewrite Hout, Hother.
Qed.

Lemma setNumVFs_Ok pf total n (w : W) :
  healthy_pf (path pf) total → currentVFs pf = Z.of_nat (vfs_enabled (path pf) w) → (n <= total)%nat →
  ∃ w', setNumVFs pf (Z.of_nat n) w = (None, w') ∧ vfs_enabled (path pf) w' = n ∧ online w' = online w.
Proof.
  intros Hpf Hcur Hn. unfold setNumVFs, writeIntToFile. rewrite Hcur.
  case_cond; zb; [exists w; split_and!; try done; lia|].
  pose proof (λ m w0, numvfs_write (path pf) total m 0 w0 Hpf) as Hw. unfold attr in Hw.
  destruct (Z.of_nat (vfs_enabled (path pf) w) >? 0) eqn:Ec; zb.
  - pose proof (Hw 0%nat w ltac:(lia)) as H0. change (Z.of_nat 0) with 0 in H0.
    destruct (os_WriteFile _ (Itoa 0 +:+ newline) 0 w) as [[e|] w1]; [by destruct H0 as (_ & _ & [])|].
    destruct H0 as [He1 Ho1]. pose proof (Hw n w1 Hn) as H1.
    destruct (os_WriteFile _ (Itoa (Z.of_nat n) +:+ newline) 0 w1) as [[e|] w2]; [by destruct H1 as (_ & [] & _)|].
    destruct H1 as [? ?]. exists w2. split_and!; [done..|congruence].
  - pose proof (Hw n w Hn) as H1.
    destruct (os_WriteFile _ (Itoa (Z.of_nat n) +:+ newline) 0 w) as [[e|] w2]; [destruct H1 as (_ & ? & _); lia|].
    destruct H1 as [? ?]. by exists w2.
Qed.

(** ** The run *)

Lemma plan_vfs_on pf plan (w : W) node :
  plan.*1 ≡ₚ vf_path pf <$> seq 0 (vfs_enabled pf w) →
  (∀ vf n, (vf, n) ∈ plan → numa_of vf w = n) → vfs_on pf node w = load node plan.
Proof.
  intros Hperm Hn. unfold vfs_on, load.
  etransitivity; [symmetry; exact (length_filter_fmap (vf_path pf) (λ vf, numa_of vf w = node) _)|].
  rewrite <-Hperm, length_filter_fmap. clear Hperm. induction plan as [|[vf n] plan IH]; [done|]. rewrite !filter_cons. simpl.
  rewrite (Hn vf n) by (by left). specialize (IH ltac:(intros; apply Hn; by right)).
  case_decide; simpl; by rewrite IH.
Qed.

(** An assignment of online nodes to the VFs is carried out. *)
Lemma assign_Ok pf total plan (w : W) :
  healthy_pf pf total → plan.*1 ≡ₚ vf_path pf <$> seq 0 (vfs_enabled pf w) →
  Forall (λ n, n ∈ online w) plan.*2 →
  ∃ w', write_plan plan w = (None, w') ∧
    (∀ vf node, (vf, node) ∈ plan → numa_of vf w' = node) ∧ numa_of pf w' = numa_of pf w ∧
    vfs_enabled pf w' = vfs_enabled pf w ∧ online w' = online w.
Proof.
  intros Hpf Hperm Hon.
  destruct (write_plan_Ok pf total plan w Hpf) as (w' & ? & ? & Hout & ? & ?).
  - rewrite Hperm. apply NoDup_fmap_2_strong; [|apply NoDup_seq].
    intros i j _ _. by eapply vf_path_inj.
  - apply Forall_forall. intros [vf n] Hin. split; simpl.
    + assert (vf ∈ plan.*1) as Hvf by (by apply (list_elem_of_fmap_2 fst) in Hin).
      rewrite Hperm in Hvf. apply list_elem_of_fmap in Hvf as (i & -> & Hi%elem_of_seq).
      exists i. split; [lia|done].
    + rewrite Forall_forall in Hon. apply Hon. by apply (list_elem_of_fmap_2 snd) in Hin.
  - exists w'. split_and!; try done. apply Hout. rewrite Hperm.
    intros (i & Hi & _)%list_elem_of_fmap. by destruct (vf_not_pf pf total i Hpf).
Qed.

(** The VF of a plan that has all of them. *)
Lemma plan_vf pf (plan : list (string * Z)) k i :
  plan.*1 ≡ₚ vf_path pf <$> seq 0 k → (i < k)%nat → ∃ node, (vf_path pf i, node) ∈ plan.
Proof.
  intros Hperm Hi. assert (vf_path pf i ∈ plan.*1) as Hin.
  { rewrite Hperm. apply list_elem_of_fmap. exists i. split; [done|]. apply elem_of_seq. lia. }
  apply list_elem_of_fmap in Hin as ([vf n] & Hvf & Hin). exists n. by rewrite Hvf.
Qed.

Lemma run_vfs_Ok cfg pf total (w : W) :
  sysfsRoot cfg = root → healthy_pf (path pf) total →
  numVFs cfg = Z.of_nat (vfs_enabled (path pf) w) → online w ≠ [] →
  pfNUMANode cfg < 0 ∨ pfNUMANode cfg ∈ online w →
  ∃ w', run_vfs cfg pf false w = Normal (finishTryMode (tryMode cfg) false, w') ∧
    vfs_enabled (path pf) w' = vfs_enabled (path pf) w ∧
    numa_of (path pf) w' = numa_of (path pf) w ∧ online w' = online w ∧ placed cfg (path pf) w'.
Proof.
  intros Hroot Hpf Hn Hon Hnode. destruct (listVFPaths_Ok _ _ w Hpf) as (vfs & Hvfs & Hperm).
  assert (length vfs = vfs_enabled (path pf) w) as Hlen by (by rewrite Hperm, length_fmap, length_seq).
  unfold run_vfs. rewrite Hvfs. case_cond; zb.
  { assert (vfs_enabled (path pf) w = 0%nat) as H0 by (unfold zlen in *; lia).
    exists w. unfold placed, vfs_on. rewrite H0. split_and!; try done.
    case_cond; [lia|]. split; [lia|]. intros. simpl. lia. }
  unfold placed. destruct (pfNUMANode cfg >=? 0) eqn:Ep; zb.
  - destruct Hnode as [?|Hnode]; [lia|]. rewrite pinVFNUMA_plan.
    destruct (assign_Ok _ _ ((λ vf, (vf, pfNUMANode cfg)) <$> vfs) w Hpf) as (w' & -> & Hin & Hnu & Hen & ?).
    { rewrite <-list_fmap_compose. change (fst ∘ _) with (@id string). by rewrite list_fmap_id. }
    { apply Forall_fmap, Forall_fmap, Forall_true. done. }
    exists w'. split_and!; try done. intros i Hi. apply Hin, list_elem_of_fmap. eexists. split; [done|].
    rewrite Hperm. apply list_elem_of_fmap. exists i. split; [done|]. apply elem_of_seq. lia.
  - rewrite Hroot. destruct (listNUMANodes_Ok w) as (nodes & -> & Hnodes).
    destruct (online_nodes w) as [Hnd _]. rewrite <-Hnodes in Hnd.
    assert (nodes ≠ []) as Hne by (intros ->; by apply Permutation_nil_l in Hnodes).
    case_cond; zb; [by destruct nodes|]. unfold balanceVFNUMA. rewrite balance_plan by done.
    destruct (assign_Ok _ _ (round_robin 0 vfs nodes) w Hpf) as (w' & -> & Hin & Hnu & Hen & Hon').
    { by rewrite fst_round_robin. }
    { eapply Forall_impl; [by apply round_robin_nodes|]. intros n Hx. by rewrite <-Hnodes. }
    assert (∀ a, vfs_on (path pf) a w' = load a (round_robin 0 vfs nodes)) as Hload.
    { intros a. apply plan_vfs_on; [|done]. by rewrite fst_round_robin, Hen. }
    exists w'. split_and!; try done.
    + intros i Hi. rewrite Hen in Hi.
      destruct (plan_vf (path pf) (round_robin 0 vfs nodes) (vfs_enabled (path pf) w) i) as [n Hin']; [by rewrite fst_round_robin|done|].
      rewrite (Hin _ _ Hin'), Hon', <-Hnodes.
      pose proof (round_robin_nodes 0 vfs nodes Hne) as Hall. rewrite Forall_forall in Hall.
      apply Hall. by apply (list_elem_of_fmap_2 snd) in Hin'.
    + intros a b. rewrite Hon', <-Hnodes, !Hload. by apply round_robin_balanced.
Qed.

(** C24: the setup on a physical function that works, whatever number of VFs it
    has: a request within the device's capacity succeeds and leaves exactly the
    requested number of VFs, each on the node the configuration names, the PF
    included, or else spread over the online nodes with no node having two more
    than another. *)
Theorem vfs_configured (cfg : config) (pf : pfDevice) (total : nat) (w : W) :
  sysfsRoot cfg = root → ensureDir root w = None →
  resolvePF root (pciAddr cfg) w = Ok pf → healthy_pf (path pf) total →
  0 ≤ numVFs cfg ≤ Z.of_nat total → online w ≠ [] →
  pfNUMANode cfg < 0 ∨ pfNUMANode cfg ∈ online w →
  ∃ e w', run cfg w = Normal (e, w') ∧ re_err e = None ∧ re_report e ≠ Partial ∧
    Z.of_nat (vfs_enabled (path pf) w') = numVFs cfg ∧ placed cfg (path pf) w' ∧
    (0 ≤ pfNUMANode cfg → numa_of (path pf) w' = pfNUMANode cfg).
Proof.
  intros Hroot Hdir Hpf Hok Hn Hon Hnode.
  destruct (resolvePF_valid _ _ _ _ Hpf) as (devRoot & pci & _ & _ & _ & _ & _ & Htot & _ & Hcur).
  destruct (total_read _ _ w Hok) as (Hle & Hmax & Ht). pose proof (numvfs_read _ _ w Hok) as Hc.
  unfold readIntFromFile, attr in *. rewrite Ht, parse_int_line in Htot by (unfold is_int64, two63; lia).
  rewrite Hc, parse_int_line in Hcur by (unfold is_int64, two63; lia). injection Htot as Htot. injection Hcur as Hcur.
  unfold run. case_cond; zb; [lia|]. rewrite Hroot, Hdir, Hpf. unfold run_pf. case_cond; zb; [lia|].
  destruct (setNumVFs_Ok pf total (Z.to_nat (numVFs cfg)) w Hok) as (w1 & E1 & Hen1 & Hon1); [done|lia|].
  rewrite Z2Nat.id in E1 by lia. rewrite E1. cbn [handleFailure].
  assert (∃ w2, (if pfNUMANode cfg >=? 0 then setPFNUMANode pf (pfNUMANode cfg) w1 else (None, w1)) = (None, w2) ∧
    vfs_enabled (path pf) w2 = vfs_enabled (path pf) w1 ∧ online w2 = online w1 ∧
    (0 ≤ pfNUMANode cfg → numa_of (path pf) w2 = pfNUMANode cfg)) as (w2 & -> & Hen2 & Hon2 & Hnu2).
  { case_cond; zb; [|exists w1; split_and!; try done; lia].
    destruct Hnode as [?|Hnode]; [lia|]. rewrite <-Hon1 in Hnode.
    destruct (numa_write (path pf) (pfNUMANode cfg) 0 w1) as (w2 & E2 & ? & _ & ? & ?);
      [exists (path pf), total; auto|done|].
    exists w2. unfold setPFNUMANode, writeIntToFile. unfold attr in E2. rewrite E2. by split_and!. }
  cbn [handleFailure]. destruct (run_vfs_Ok cfg pf total w2) as (w3 & -> & Hen3 & Hnu3 & Hon3 & Hp);
    [done|done|rewrite Hen2, Hen1; lia|by rewrite Hon2, Hon1|by rewrite Hon2, Hon1|].
  eexists _, w3. split_and!; [done| | |rewrite Hen3, Hen2, Hen1; lia|done|].
  - by destruct (tryMode cfg).
  - by destruct (tryMode cfg).
  - intros. rewrite Hnu3. by apply Hnu2.
Qed.

End props.

(** ** Witness: a machine with two nodes and a device with four VFs *)

Record SimPci := mkSim {
  sim_vfs : nat;
  sim_numa : gmap string Z;
}.

Definition sim_pf : string := "/sys/bus/pci/devices/0000:05:00.0".
Definition sim_nodes : string := "/sys/devices/system/node".
Definition sim_vf (i : nat) : string := "/sys/devices/pci0000:00/0000:05:02." +:+ Itoa (Z.of_nat i).
Definition sim_enabled (w : SimPci) : nat := Nat.min 4 (sim_vfs w).

(** The devices that have a file [numa_node]. *)
Definition sim_devices (w : SimPci) : list string := sim_pf :: (sim_vf <$> seq 0 (sim_enabled w)).

Definition sim_write (p data : string) (w : SimPci) : option goerror * SimPci :=
  match parse_int (TrimSpace data) with
  | Err e => (Some e, w)
  | Ok v =>
      if decide (p = Join [sim_pf; "sriov_numvfs"]) then
        if decide (0 ≤ v ≤ 4) then
          if decide (v = 0 ∨ sim_enabled w = 0%nat) then (None, mkSim (Z.to_nat v) (sim_numa w))
          else if decide (v = Z.of_nat (sim_enabled w)) then (None, w)
          else (Some (SysError "device or resource busy"), w)
        else (Some (SysError "numerical result out of range"), w)
      else
        match list_find (λ d, p = Join [d; "numa_node"]) (sim_devices w) with
        | Some (_, d) =>
            if decide (v ∈ [0; 1]) then (None, mkSim (sim_vfs w) (<[d := v]> (sim_numa w)))
            else (Some (SysError "invalid argument"), w)
        | None => (Some (ErrNotExist p), w)
        end
  end.

#[local] Instance sim_files : FileSystem SimPci := {|
  os_Stat p _ :=
    if decide (p ∈ ["/sys"; sim_pf; Join [sim_pf; "net"]]) then Ok (mkFileInfo true false 493)
    else Err (ErrNotExist p);
  os_Lstat p _ := Err (ErrNotExist p);
  os_ReadDir p w :=
    if decide (p = "/sys/bus/pci/devices") then Ok [mkDirEntry "0000:05:00.0" false true]
    else if decide (p = sim_pf) then
      Ok (mkDirEntry "net" true false :: ((λ i, mkDirEntry (virtfn i) false true) <$> seq 0 (sim_enabled w)))
    else if decide (p = sim_nodes) then
      Ok [mkDirEntry "has_cpu" false false; mkDirEntry "node0" true false; mkDirEntry "node1" true false]
    else Err (ErrNotExist p);
  os_ReadFile p w :=
    if decide (p = Join [sim_pf; "sriov_totalvfs"]) then Ok (attr 4)
    else if decide (p = Join [sim_pf; "sriov_numvfs"]) then Ok (attr (Z.of_nat (sim_enabled w)))
    else Err (ErrNotExist p);
  os_WriteFile p data _ w := sim_write p data w;
  filepath_EvalSymlinks p w :=
    match list_find (λ i, p = Join [sim_pf; virtfn i]) (seq 0 (sim_enabled w)) with
    | Some (_, i) => Ok (sim_vf i)
    | None => Err (ErrNotExist p)
    end;
|}.

#[local] Instance sim_kernel : SriovKernel SimPci := {|
  healthy_pf pf total := pf = sim_pf ∧ total = 4%nat;
  vfs_enabled _ w := sim_enabled w;
  vf_path _ i := sim_vf i;
  numa_of d w := default (-1) (sim_numa w !! d);
  online _ := [0; 1];
|}.

Lemma sim_vf_inj i j : sim_vf i = sim_vf j → i = j.
Proof. unfold sim_vf, Itoa. intros H%(inj (String.app _))%(inj pretty). lia. Qed.

(** Among the few names there are, the paths under a device tell it apart. *)
Lemma sim_virtfn_inj i j :
  (i < 4)%nat → (j < 4)%nat → Join [sim_pf; virtfn i] = Join [sim_pf; virtfn j] → i = j.
Proof.
  intros Hi Hj. do 4 (destruct i as [|i]; [do 4 (destruct j as [|j]; [vm_compute; (done || discriminate)|]); lia|]).
  lia.
Qed.

Lemma sim_numa_inj (w : SimPci) d d' :
  d ∈ sim_devices w → d' ∈ sim_devices w → Join [d; "numa_node"] = Join [d'; "numa_node"] → d = d'.
Proof.
  assert (∀ d, d ∈ sim_devices w → d ∈ sim_pf :: (sim_vf <$> seq 0 4)) as Hsub.
  { intros x [->|(i & -> & Hi%elem_of_seq)%list_elem_of_fmap]%elem_of_cons; [by left|right].
    apply list_elem_of_fmap. exists i. split; [done|]. apply elem_of_seq. unfold sim_enabled in Hi. lia. }
  intros Hd%Hsub Hd'%Hsub. revert d d' Hd Hd'.
  assert (Forall (λ d, Forall (λ d', Join [d; "numa_node"] = Join [d'; "numa_node"] → d = d')
    (sim_pf :: (sim_vf <$> seq 0 4))) (sim_pf :: (sim_vf <$> seq 0 4))) as Hall.
  { repeat constructor; vm_compute; (done || discriminate). }
  intros d d' Hd Hd'. rewrite Forall_forall in Hall. specialize (Hall _ Hd).
  rewrite Forall_forall in Hall. by apply Hall.
Qed.

Lemma sim_numvfs_other (w : SimPci) d :
  d ∈ sim_devices w → Join [d; "numa_node"] ≠ Join [sim_pf; "sriov_numvfs"].
Proof.
  intros [->|(i & -> & Hi%elem_of_seq)%list_elem_of_fmap]%elem_of_cons; [by vm_compute|].
  unfold sim_enabled in Hi. do 4 (destruct i as [|i]; [by vm_compute|]). lia.
Qed.

Lemma sim_numa_write d node perm (w : SimPci) :
  has_numa_file d w → node ∈ online w →
  ∃ w', os_WriteFile (Join [d; "numa_node"]) (attr node) perm w = (None, w') ∧
    numa_of d w' = node ∧ (∀ d', d' ≠ d → numa_of d' w' = numa_of d' w) ∧
    (∀ pf, vfs_enabled pf w' = vfs_enabled pf w) ∧ online w' = online w.
Proof.
  intros Hd Hnode. cbn in Hnode |- *. unfold sim_write, attr.
  assert (is_int64 node) as Hint.
  { apply list_elem_of_In in Hnode as [<-|[<-|[]]]; by split. }
  rewrite parse_int_line by done.
  assert (d ∈ sim_devices w) as Hdev.
  { destruct Hd as (pf & total & [-> ->] & [->|(i & Hi & ->)]); [by left|right]. cbn in Hi |- *.
    apply list_elem_of_fmap. exists i. split; [done|]. apply elem_of_seq. lia. }
  rewrite decide_False by (by apply sim_numvfs_other in Hdev).
  destruct (list_find _ _) as [[k d']|] eqn:E.
  - apply list_find_Some in E as (Hk%list_elem_of_lookup_2 & Hj & _).
    rewrite <-(sim_numa_inj w d d') by done. rewrite decide_True by done.
    eexists. split_and!; [done| | |done|done]; cbn [sim_numa].
    + by rewrite lookup_insert_eq.
    + intros d0 Hd0. by rewrite lookup_insert_ne.
  - apply list_find_None in E. rewrite Forall_forall in E. by destruct (E d).
Qed.

#[local] Instance sim_laws : SriovKernelLaws SimPci "/sys".
Proof.
  split.
  - intros pf total w [-> ->]. split; [simpl; unfold sim_enabled; lia|]. done.
  - intros pf total w [-> ->]. done.
  - intros pf total n perm w [-> ->] Hn. cbn [vfs_enabled sim_kernel online os_WriteFile sim_files]. unfold sim_write, attr.
    rewrite parse_int_line by (unfold is_int64, two63; lia). rewrite decide_True by done.
    rewrite decide_True by lia. case_decide as H0.
    + split; [|done]. unfold sim_enabled. cbn [sim_vfs]. lia.
    + case_decide; [split; [lia|done]|]. split_and!; [done|tauto|lia].
  - intros pf total w [-> ->]. exists (mkDirEntry "net" true false ::
      ((λ i, mkDirEntry (virtfn i) false true) <$> seq 0 (sim_enabled w))), [mkDirEntry "net" true false].
    split_and!; [done| |by repeat constructor]. apply Permutation_cons_append.
  - intros pf total i w [-> ->] Hi.
    cbn [vfs_enabled sim_kernel vf_path filepath_EvalSymlinks sim_files] in Hi |- *.
    destruct (list_find _ _) as [[k j]|] eqn:E.
    + apply list_find_Some in E as (Hk & Hj & _). apply lookup_seq in Hk as [-> Hk].
      assert (sim_enabled w <= 4)%nat by apply Nat.le_min_l.
      by rewrite (sim_virtfn_inj i (0 + k)) by (done || (unfold vfs_enabled, sim_kernel in *; lia)).
    + apply list_find_None in E. rewrite Forall_forall in E. destruct (E i); [|done]. apply elem_of_seq. lia.
  - intros pf total i j _. apply sim_vf_inj.
  - by intros pf total i [-> _].
  - apply sim_numa_write.
  - intros w. split; [repeat constructor; set_solver|repeat constructor; done].
  - intros w. exists [mkDirEntry "has_cpu" false false; mkDirEntry "node0" true false; mkDirEntry "node1" true false],
      [mkDirEntry "has_cpu" false false]. split_and!; [done| |repeat constructor; by left|].
    + apply (Permutation_cons_append [_; _]).
    + intros n Hn. apply list_elem_of_In in Hn as [<-|[<-|[]]]; vm_compute; reflexivity.
Qed.

(** Three VFs are requested where there are two. *)
Definition sim_world : SimPci := mkSim 2 ∅.
Definition sim_cfg : config := mkConfig "/sys" 3 (-1) "info" "" false.
Definition sim_found : pfDevice := mkPF "0000:05:00.0" sim_pf 4 2.

Lemma vfs_configured_witness :
  ∃ e w', run sim_cfg sim_world = Normal (e, w') ∧ re_err e = None ∧ re_report e ≠ Partial ∧
    Z.of_nat (vfs_enabled sim_pf w') = 3 ∧ placed sim_cfg sim_pf w' ∧
    (0 ≤ -1 → numa_of sim_pf w' = -1).
Proof.
  apply (vfs_configured "/sys" sim_cfg sim_found 4 sim_world).
  - reflexivity.
  - vm_compute. reflexivity.
  - vm_compute. reflexivity.
  - split; reflexivity.
  - split; discriminate.
  - discriminate.
  - left. reflexivity.
Defined.

(** The nodes the three VFs are on. *)
Example sim_run :
  match run sim_cfg sim_world with
  | Normal (_, w) => (λ i, numa_of (sim_vf i) w) <$> seq 0 (sim_enabled w) = [0; 1; 0]
  | Panic _ => False
  end.
Proof. vm_compute. reflexivity. Qed.

End SriovKernelProps.
