(* ===== verification/Hugepages.v ===== *)
(** * Runtime hugepage provisioning (setup/pkg/hugepages, setup/hugepages)

    The provisioning API types, the page size validation of both build
    variants, [RuntimeHugepages] and its helpers, the configuration reader
    and the tool's [main].  The YAML parser, the topology discovery and the
    file system are parameters; a division by a zero node count is a panic. *)

From S2P Require Import Prelude GoStrings GoPath OS.
Local Open Scope Z_scope.

Module Hugepages.

Definition HugePageSize : Type := string.

Record HugePage := mkHugePage {
  Size : HugePageSize;
  Count : Z;
  Node : option Z;
}.

Record HugePageProvisionSpec := mkSpec {
  DefaultHugePagesSize : option HugePageSize;
  Pages : list HugePage;
}.

Record TypeMeta := mkTypeMeta {
  Kind : string;
  APIVersion : string;
}.

Record ObjectMeta := mkObjectMeta {
  Name : string;
  Namespace : string;
  Labels : gmap string string;
  Annotations : gmap string string;
}.

Record HugePageProvisionStatus := mkStatus {}.

Record HugePageProvision := mkProvision {
  hp_TypeMeta : TypeMeta;
  hp_ObjectMeta : ObjectMeta;
  hp_Spec : HugePageProvisionSpec;
  hp_Status : HugePageProvisionStatus;
}.

Record HugePageProvisionList := mkProvisionList {
  hpl_TypeMeta : TypeMeta;
  hpl_Items : list HugePageProvision;
}.

(** The zero value of the struct. *)
Definition zero_provision : HugePageProvision :=
  mkProvision (mkTypeMeta "" "") (mkObjectMeta "" "" ∅ ∅) (mkSpec None []) mkStatus.

(** [Count] and [Node] are [int32]s. *)
Definition page_ok (hp : HugePage) : Prop :=
  is_int32 (Count hp) ∧ match Node hp with Some n => is_int32 n | None => True end.

(** ** Page sizes, per architecture *)

Definition ValidateHugePageSize_amd64 (hps : HugePageSize) : res string :=
  if bool_decide (hps = "1G") || bool_decide (hps = "1Gi") || bool_decide (hps = "1g") then
    Ok "1048576kB"
  else if bool_decide (hps = "2M") || bool_decide (hps = "2Mi") || bool_decide (hps = "2m") then
    Ok "2048kB"
  else Err (Errorf "unsupported size" []).

Definition ValidateHugePageSize_others (hps : HugePageSize) : res string :=
  Err (Errorf "not yet unsupported" []).

Definition pickNode (hp : HugePage) : Z :=
  match Node hp with
  | None => 0
  | Some n => n
  end.

(** The sysfs file of a node's pages of a size. *)
Definition hp_path (sysRoot : string) (numaNode : Z) (hpSize : string) : string :=
  Join [sysRoot; "sys"; "devices"; "system"; "node"; "node" +:+ Itoa numaNode;
        "hugepages"; "hugepages-" +:+ hpSize; "nr_hugepages"].

Section provision.
Context {W : Type} `{!OpenFiles W}.
(** The variant of [ValidateHugePageSize] that is built in. *)
Context (validate : HugePageSize → res string).

Definition provisionOnNode (numaNode hpCount : Z) (apiHpSize : HugePageSize) (sysRoot : string) (w : W)
  : option goerror * W :=
  match validate apiHpSize with
  | Err err => (Some err, w)
  | Ok hpSize =>
      let hpPath := hp_path sysRoot numaNode hpSize in
      match os_OpenWrite hpPath w with
      | Some err => (Some err, w)
      | None =>
          match file_WriteString hpPath (Itoa hpCount) w with
          | (Some err, w) => (Some (Errorf "failed to write on %q: %w" [ArgQ hpPath; ArgW err]), w)
          | (None, w) => (None, w)
          end
      end
  end.

(** The loop over the nodes from [numaNode] on, [k] of them. *)
Fixpoint provision_rest (k : nat) (numaNode perNode : Z) (hpSize : HugePageSize) (sysRoot : string) (w : W)
  : option goerror * W :=
  match k with
  | O => (None, w)
  | S k =>
      match provisionOnNode numaNode perNode hpSize sysRoot w with
      | (Some err, w) => (Some err, w)
      | (None, w) => provision_rest k (numaNode + 1) perNode hpSize sysRoot w
      end
  end.

Definition provisionOnMultiNode (numaNodeCount hpCount : Z) (hpSize : HugePageSize) (sysRoot : string) (w : W)
  : panicking (option goerror * W) :=
  if numaNodeCount =? 0 then Panic "integer divide by zero"
  else
    let extra := Z.rem hpCount numaNodeCount in
    let perNode := Z.quot hpCount numaNodeCount in
    match provisionOnNode 0 (perNode + extra) hpSize sysRoot w with
    | (Some err, w) => Normal (Some err, w)
    | (None, w) => Normal (provision_rest (Z.to_nat (numaNodeCount - 1)) 1 perNode hpSize sysRoot w)
    end.

Fixpoint provision_pages (pages : list HugePage) (sysRoot : string) (numaZones : Z) (w : W)
  : panicking (option goerror * W) :=
  match pages with
  | [] => Normal (None, w)
  | conf :: pages =>
      let r :=
        if numaZones =? 1 then
          Normal (provisionOnNode (pickNode conf) (Count conf) (Size conf) sysRoot w)
        else provisionOnMultiNode numaZones (Count conf) (Size conf) sysRoot w in
      match r with
      | Panic why => Panic why
      | Normal (Some err, w) => Normal (Some err, w)
      | Normal (None, w) => provision_pages pages sysRoot numaZones w
      end
  end.

Definition RuntimeHugepages (hpp : HugePageProvision) (sysRoot : string) (numaZones : Z) (w : W)
  : panicking (option goerror * W) :=
  provision_pages (Pages (hp_Spec hpp)) sysRoot numaZones w.

(** ** Configuration and main *)
Context `{!FileSystem W}.
(** [yaml.Unmarshal]: the object it fills and its error. *)
Context (yaml_Unmarshal : string → HugePageProvision → HugePageProvision * option goerror).

Definition ReadConfigurationFrom (r : res string) : HugePageProvision * option goerror :=
  match r with
  | Err err => (zero_provision, Some err)
  | Ok data => yaml_Unmarshal data zero_provision
  end.

(** [stdin] is what reading standard input gives. *)
Definition ReadConfiguration (stdin : res string) (source : string) (w : W)
  : HugePageProvision * option goerror :=
  if bool_decide (source = "-") then ReadConfigurationFrom stdin
  else ReadConfigurationFrom (os_ReadFile source w).

(** Standard input is at its end once it was read. *)
Definition stdin_after (stdin : res string) (source : string) : res string :=
  if bool_decide (source = "-") && is_ok stdin then Ok "" else stdin.

(** The loop over the arguments: the exit status. *)
Fixpoint provision_args (stdin : res string) (args : list string) (sysRoot : string) (nodes : Z) (w : W)
  : panicking (Z * W) :=
  match args with
  | [] => Normal (0, w)
  | arg :: args =>
      match ReadConfiguration stdin arg w with
      | (_, Some _) => Normal (2, w)
      | (config, None) =>
          match RuntimeHugepages config sysRoot nodes w with
          | Panic why => Panic why
          | Normal (Some _, w) => Normal (4, w)
          | Normal (None, w) => provision_args (stdin_after stdin arg) args sysRoot nodes w
          end
      end
  end.

(** [topology]: the number of NUMA nodes found, or the discovery error. *)
Definition main (topology : res Z) (stdin : res string) (args : list string) (sysRoot : string) (w : W)
  : panicking (Z * W) :=
  match topology with
  | Err _ => Normal (1, w)
  | Ok nodes => provision_args stdin args sysRoot nodes w
  end.

(** ** Specification: a plan of pages per node *)

Fixpoint write_pages (plan : list (Z * Z)) (hpSize : HugePageSize) (sysRoot : string) (w : W)
  : option goerror * W :=
  match plan with
  | [] => (None, w)
  | (node, count) :: plan =>
      match provisionOnNode node count hpSize sysRoot w with
      | (Some err, w) => (Some err, w)
      | (None, w) => write_pages plan hpSize sysRoot w
      end
  end.

(** Equal shares, the excess on node 0. *)
Definition split_plan (n count : Z) : list (Z * Z) :=
  (0, Z.quot count n + Z.rem count n) ::
  ((λ i, (Z.of_nat i, Z.quot count n)) <$> seq 1 (Z.to_nat (n - 1))).

Lemma provision_rest_plan k i perNode hpSize sysRoot w :
  provision_rest k (Z.of_nat i) perNode hpSize sysRoot w
  = write_pages ((λ j, (Z.of_nat j, perNode)) <$> seq i k) hpSize sysRoot w.
Proof.
  revert i w. induction k as [|k IH]; intros i w; [done|]. simpl.
  destruct (provisionOnNode _ _ _ _ w) as [[err|] w1]; [done|].
  replace (Z.of_nat i + 1) with (Z.of_nat (S i)) by lia. apply IH.
Qed.

Lemma provisionOnMultiNode_plan n count hpSize sysRoot w :
  n ≠ 0 → provisionOnMultiNode n count hpSize sysRoot w
          = Normal (write_pages (split_plan n count) hpSize sysRoot w).
Proof.
  intros Hn. unfold provisionOnMultiNode. case_cond; zb; [done|]. unfold split_plan. simpl.
  destruct (provisionOnNode _ _ _ _ w) as [[err|] w1]; [done|].
  f_equal. apply (provision_rest_plan _ 1).
Qed.

End provision.

Lemma sum_const (l : list nat) (c : Z) :
  foldr Z.add 0 ((λ i, (Z.of_nat i, c)) <$> l).*2 = Z.of_nat (length l) * c.
Proof. induction l as [|x l IH]; [done|]. cbn [fmap list_fmap foldr length snd]. rewrite IH. lia. Qed.

Lemma split_plan_sum n count : 0 < n → foldr Z.add 0 (split_plan n count).*2 = count.
Proof.
  intros Hn. unfold split_plan. cbn [fmap list_fmap foldr snd]. rewrite sum_const, length_seq.
  pose proof (Z.quot_rem count n ltac:(lia)) as Hq.
  replace (Z.of_nat (Z.to_nat (n - 1))) with (n - 1) by lia. lia.
Qed.

Lemma split_plan_nodes n count :
  0 < n → (split_plan n count).*1 = Z.of_nat <$> seq 0 (Z.to_nat n).
Proof.
  intros Hn. unfold split_plan. replace (Z.to_nat n) with (S (Z.to_nat (n - 1))) by lia.
  cbn [fmap list_fmap seq fst]. f_equal. rewrite <-list_fmap_compose. done.
Qed.

End Hugepages.

(** * Properties of provisioning *)
Module HugepagesProps.
Import Hugepages.

Section props.
Context {W : Type} `{!OpenFiles W} (validate : HugePageSize → res string).

(** C38: on a machine with several NUMA nodes the pages are split over all
    nodes 0 .. n-1, in that order and until a write fails; the counts add up
    to the requested count, every node but 0 gets count/n, and node 0 gets the
    excess of less than n pages on top. *)
Theorem pages_conserved (n count : Z) (hpSize : HugePageSize) (sysRoot : string) (w : W) :
  0 < n → 0 ≤ count →
  ∃ plan,
    provisionOnMultiNode validate n count hpSize sysRoot w
      = Normal (write_pages validate plan hpSize sysRoot w) ∧
    plan.*1 = Z.of_nat <$> seq 0 (Z.to_nat n) ∧
    foldr Z.add 0 plan.*2 = count ∧
    ∀ node c, (node, c) ∈ plan →
      c = count / n + (if node =? 0 then count mod n else 0) ∧ 0 ≤ c.
Proof.
  intros Hn Hc. exists (split_plan n count). split_and!.
  - apply provisionOnMultiNode_plan. lia.
  - by apply split_plan_nodes.
  - by apply split_plan_sum.
  - intros node c Hin. unfold split_plan in Hin.
    rewrite Z.quot_div_nonneg, Z.rem_mod_nonneg in Hin by lia.
    pose proof (Z.mod_pos_bound count n Hn). pose proof (Z.div_pos count n Hc Hn).
    apply elem_of_cons in Hin as [[= -> ->]|Hin]; [simpl; lia|].
    apply list_elem_of_fmap in Hin as (i & [= -> ->] & Hi%elem_of_seq).
    case_cond; zb; lia.
Qed.

(** The node requested for a group of pages is ignored unless the machine
    has exactly one NUMA node: with several, two configurations that differ
    only in the nodes they name are provisioned the same way. *)
Theorem node_field_ignored (pages pages' : list HugePage) (sysRoot : string) (numaZones : Z) (w : W) :
  numaZones ≠ 1 →
  Forall2 (λ p q, Size p = Size q ∧ Count p = Count q) pages pages' →
  provision_pages validate pages sysRoot numaZones w
  = provision_pages validate pages' sysRoot numaZones w.
Proof.
  intros Hz Hp. revert w. induction Hp as [|p q ps qs [Hs Hc] _ IH]; intros w; [done|]. simpl.
  rewrite (proj2 (Z.eqb_neq _ _)) by done. rewrite Hs, Hc.
  destruct (provisionOnMultiNode _ _ _ _ _ w) as [[[err|] w1]|]; done.
Qed.

(** The page size is checked before anything is written: a group with an
    unsupported size is an error that leaves the system unchanged. *)
Theorem unsupported_size_no_effect (p : HugePage) (pages : list HugePage) (sysRoot : string)
  (numaZones : Z) (w : W) (err : goerror) :
  0 < numaZones → validate (Size p) = Err err →
  provision_pages validate (p :: pages) sysRoot numaZones w = Normal (Some err, w).
Proof.
  intros Hz Hv. simpl. case_cond.
  - unfold provisionOnNode. by rewrite Hv.
  - unfold provisionOnMultiNode. case_cond; zb; [lia|]. unfold provisionOnNode. by rewrite Hv.
Qed.

(** A topology without NUMA nodes makes the provisioning panic on its first
    group of pages; with at least one node it never panics. *)
Theorem zero_nodes_panic (p : HugePage) (pages : list HugePage) (sysRoot : string) (w : W) :
  provision_pages validate (p :: pages) sysRoot 0 w = Panic "integer divide by zero" ∧
  ∀ numaZones, 0 < numaZones →
    ∃ e w', provision_pages validate (p :: pages) sysRoot numaZones w = Normal (e, w').
Proof.
  split; [done|]. intros n Hn. generalize (p :: pages) as ps. intros ps. revert w.
  induction ps as [|q ps IH]; intros w; [eauto|]. simpl.
  rewrite provisionOnMultiNode_plan by lia. case_cond;
    [destruct (provisionOnNode _ _ _ _ _ w) as [[]]|destruct (write_pages _ _ _ _ w) as [[]]]; eauto.
Qed.

End props.

(** On amd64 exactly the six spellings of 1 GiB and 2 MiB are accepted,
    each with its sysfs name; on other architectures nothing is. *)
Theorem page_sizes (s : HugePageSize) :
  (∀ v, ValidateHugePageSize_amd64 s = Ok v ↔
     (v = "1048576kB" ∧ s ∈ ["1G"; "1Gi"; "1g"]) ∨ (v = "2048kB" ∧ s ∈ ["2M"; "2Mi"; "2m"])) ∧
  is_ok (ValidateHugePageSize_others s) = false.
Proof.
  split; [|reflexivity]. intros v. unfold ValidateHugePageSize_amd64.
  rewrite !elem_of_cons, elem_of_nil.
  repeat (case_bool_decide; cbn [orb]);
    (split; [intros Hv; inversion Hv; tauto|]);
    intros [[-> H']|[-> H']]; first [reflexivity | exfalso; intuition congruence].
Qed.

(** ** Witnesses *)

Definition demo_nodes : MemFS :=
  mkMemFS (list_to_map
    ((λ i, (hp_path "/" i "2048kB", NFile 420 "")) <$> [0; 1; 2])) ∅.

Lemma pages_conserved_witness :
  ∃ plan,
    provisionOnMultiNode ValidateHugePageSize_amd64 3 10 "2M" "/" demo_nodes
      = Normal (write_pages ValidateHugePageSize_amd64 plan "2M" "/" demo_nodes) ∧
    plan.*1 = Z.of_nat <$> seq 0 3 ∧
    foldr Z.add 0 plan.*2 = 10 ∧
    ∀ node c, (node, c) ∈ plan →
      c = 10 / 3 + (if node =? 0 then 10 mod 3 else 0) ∧ 0 ≤ c.
Proof. apply (pages_conserved ValidateHugePageSize_amd64 3 10 "2M" "/" demo_nodes); lia. Defined.

(** Ten pages on three nodes: four on node 0, three on the others. *)
Example demo_split :
  match provisionOnMultiNode ValidateHugePageSize_amd64 3 10 "2M" "/" demo_nodes with
  | Normal (None, w) => (λ i, os_ReadFile (hp_path "/" i "2048kB") w) <$> [0; 1; 2] = [Ok "4"; Ok "3"; Ok "3"]
  | _ => False
  end.
Proof. vm_compute. reflexivity. Qed.

Lemma node_field_ignored_witness :
  provision_pages ValidateHugePageSize_amd64 [mkHugePage "2M" 6 (Some 1)] "/" 2 demo_nodes
  = provision_pages ValidateHugePageSize_amd64 [mkHugePage "2M" 6 None] "/" 2 demo_nodes.
Proof. apply node_field_ignored; [discriminate|]. repeat constructor. Defined.

Lemma unsupported_size_no_effect_witness :
  provision_pages ValidateHugePageSize_amd64 [mkHugePage "4k" 6 None] "/" 2 demo_nodes
  = Normal (Some (Errorf "unsupported size" []), demo_nodes).
Proof. apply unsupported_size_no_effect; [lia|reflexivity]. Defined.

End HugepagesProps.
