(* ===== verification/Containerd.v ===== *)
(** * The containerd configuration editor (setup/pkg/containerd, setup/containerd)

    The configuration is decoded into nested [map[string]any] values, which Go
    passes by reference: [process] obtains inner tables with [getMap] and
    writes into them, and the root is encoded afterwards. The maps therefore
    live in a [heap]; [repr] relates a reference to the tree it holds and
    [process_tree] is the update the editor promises on trees. The TOML
    library is a parameter. *)

From S2P Require Import Prelude GoStrings GoPath OS.
Local Open Scope Z_scope.

Module Containerd.

Abbreviation loc := positive.

(** The dynamic values of an [any]: [AScalar] stands for the numbers and
    dates, which are never looked at; [AMap] is a reference. *)
Inductive any :=
  | ABool (b : bool)
  | AString (s : string)
  | AStrings (ss : list string)
  | AScalar (text : string)
  | AArr (vs : list any)
  | AMap (l : loc).

Abbreviation heap := (gmap loc (gmap string any)).

(** TOML values. *)
Inductive tree :=
  | TBool (b : bool)
  | TString (s : string)
  | TScalar (text : string)
  | TArr (ts : list tree)
  | TTab (t : gmap string tree).

Abbreviation table := (gmap string tree).

(** ** The operations *)

(** [node[key] = v] *)
Definition set_key (node : loc) (key : string) (v : any) (h : heap) : heap :=
  alter <[key := v]> node h.

Definition getMap (h : heap) (node : loc) (key : string) : option loc :=
  match h !! node with
  | None => None
  | Some m =>
      match m !! key with
      | Some (AMap subMap) => Some subMap
      | _ => None
      end
  end.

Definition nri_key : string := "io.containerd.nri.v1.nri".
Definition cri_key : string := "io.containerd.grpc.v1.cri".

Definition nri_map : gmap string any := list_to_map [
  ("disable", ABool false);
  ("disable_connections", ABool false);
  ("plugin_config_path", AString "/etc/nri/conf.d");
  ("plugin_path", AString "/opt/nri/plugins");
  ("plugin_registration_timeout", AString "5s");
  ("plugin_request_timeout", AString "5s");
  ("socket_path", AString "/var/run/nri/nri.sock")].

(** A map literal is a new map. *)
Definition processNRI (plugins : loc) (h : heap) : heap :=
  let nri := fresh (dom h) in
  set_key plugins nri_key (AMap nri) (<[nri := nri_map]> h).

Definition processCDI (cri : loc) (h : heap) : heap :=
  let h := set_key cri "enable_cdi" (ABool true) h in
  set_key cri "cdi_spec_dirs" (AStrings ["/etc/cdi"; "/var/run/cdi"]) h.

Definition processHugepages (cri : loc) (h : heap) : heap :=
  let h := set_key cri "tolerate_missing_hugetlb_controller" (ABool false) h in
  set_key cri "disable_hugetlb_controller" (ABool false) h.

Definition process (conf : loc) (h : heap) : heap :=
  match getMap h conf "plugins" with
  | None => h
  | Some plugins =>
      let h := processNRI plugins h in
      match getMap h plugins cri_key with
      | None => h
      | Some cri =>
          let h := processCDI cri h in
          processHugepages cri h
      end
  end.

(** ** The abstract update *)

Definition nri_tree : table := list_to_map [
  ("disable", TBool false);
  ("disable_connections", TBool false);
  ("plugin_config_path", TString "/etc/nri/conf.d");
  ("plugin_path", TString "/opt/nri/plugins");
  ("plugin_registration_timeout", TString "5s");
  ("plugin_request_timeout", TString "5s");
  ("socket_path", TString "/var/run/nri/nri.sock")].

Definition cri_settings (cri : table) : table :=
  <["disable_hugetlb_controller" := TBool false]>
  (<["tolerate_missing_hugetlb_controller" := TBool false]>
  (<["cdi_spec_dirs" := TArr [TString "/etc/cdi"; TString "/var/run/cdi"]]>
  (<["enable_cdi" := TBool true]> cri))).

(** Rewrite the sub-table of a key, if there is one. *)
Definition in_table (key : string) (f : table → table) (t : table) : table :=
  match t !! key with
  | Some (TTab c) => <[key := TTab (f c)]> t
  | _ => t
  end.

Definition plugin_settings (plugins : table) : table :=
  in_table cri_key cri_settings (<[nri_key := TTab nri_tree]> plugins).

Definition process_tree (conf : table) : table := in_table "plugins" plugin_settings conf.

(** ** What a reference holds

    [repr h v t ls]: in the heap [h] the value [v] is the tree [t], built from
    maps within [ls], none of them used twice. *)

Inductive repr (h : heap) : any → tree → gset loc → Prop :=
  | repr_bool b ls : repr h (ABool b) (TBool b) ls
  | repr_string s ls : repr h (AString s) (TString s) ls
  | repr_strings ss ls : repr h (AStrings ss) (TArr (TString <$> ss)) ls
  | repr_scalar s ls : repr h (AScalar s) (TScalar s) ls
  | repr_arr vs ts (F : nat → gset loc) ls :
      length vs = length ts → (∀ i, F i ⊆ ls) → (∀ i j, i ≠ j → F i ## F j) →
      (∀ i v t, vs !! i = Some v → ts !! i = Some t → repr h v t (F i)) →
      repr h (AArr vs) (TArr ts) ls
  | repr_map l m t (F : string → gset loc) ls :
      h !! l = Some m → l ∈ ls → (∀ k, F k ⊆ ls ∖ {[l]}) → (∀ j k, j ≠ k → F j ## F k) →
      (∀ k, is_Some (m !! k) ↔ is_Some (t !! k)) →
      (∀ k v t', m !! k = Some v → t !! k = Some t' → repr h v t' (F k)) →
      repr h (AMap l) (TTab t) ls.

(** ** Lemmas: representation *)

Lemma repr_frame h h' v t ls :
  repr h v t ls → (∀ l, l ∈ ls → h' !! l = h !! l) → repr h' v t ls.
Proof.
  induction 1 as [| | | |vs ts F ls ? Hsub ? _ IH|l m t F ls Hl ? Hsub ? ? _ IH]; intros Hh;
    [constructor..| |].
  - econstructor; eauto. intros i v t Hv Ht. eapply IH; eauto. set_solver.
  - econstructor; eauto; [by rewrite Hh|]. intros k v t' Hv Ht. eapply IH; eauto.
    intros l' Hl'. apply Hh. set_solver.
Qed.

Lemma repr_weaken h v t ls ls' : repr h v t ls → ls ⊆ ls' → repr h v t ls'.
Proof.
  destruct 1; intros Hs; econstructor; eauto; set_solver.
Qed.

(** Writing a key whose new value is built from maps of its own. *)
Lemma repr_set_key h h1 l t ls k v tv lv :
  repr h (AMap l) (TTab t) ls → (∀ l', l' ∈ ls → h1 !! l' = h !! l') →
  repr h1 v tv lv → lv ## ls →
  repr (set_key l k v h1) (AMap l) (TTab (<[k := tv]> t)) (ls ∪ lv).
Proof.
  intros Hr Hh Hv Hd. inversion Hr as [| | | | |? m ? F ? Hl Hin Hsub Hdis Hdom Hch]; subst.
  apply (repr_map _ _ (<[k := v]> m) _ (λ j, if decide (j = k) then lv else F j)).
  - unfold set_key. by rewrite lookup_alter_eq, Hh, Hl.
  - set_solver.
  - intros j. case_decide; set_solver.
  - intros i j Hij. specialize (Hsub i) as Hi. specialize (Hsub j) as Hj.
    specialize (Hdis i j Hij). repeat case_decide; set_solver.
  - intros j. rewrite !lookup_insert_is_Some, Hdom. done.
  - intros j v' t' Hm Ht. case_decide as E.
    + subst. rewrite lookup_insert_eq in Hm. rewrite lookup_insert_eq in Ht. simplify_eq.
      eapply repr_frame; [done|]. intros l' Hl'. unfold set_key. rewrite lookup_alter_ne; [done|set_solver].
    + rewrite lookup_insert_ne in Hm by done. rewrite lookup_insert_ne in Ht by done.
      eapply repr_frame; [eauto|]. intros l' Hl'. specialize (Hsub j).
      unfold set_key. rewrite lookup_alter_ne by set_solver. apply Hh. set_solver.
Qed.

Lemma repr_set_imm h l t ls k v tv :
  repr h (AMap l) (TTab t) ls → (∀ h', repr h' v tv ∅) →
  repr (set_key l k v h) (AMap l) (TTab (<[k := tv]> t)) ls.
Proof.
  intros Hr Hv. rewrite <-(union_empty_r_L ls). by eapply repr_set_key; [..|apply Hv|set_solver].
Qed.

Lemma set_key_ne l k v h l' : l' ≠ l → set_key l k v h !! l' = h !! l'.
Proof. intros. unfold set_key. by rewrite lookup_alter_ne. Qed.

(** [getMap] finds a sub-table exactly where the tree has one. *)
Lemma getMap_none h l t ls k :
  repr h (AMap l) (TTab t) ls → (∀ c, t !! k ≠ Some (TTab c)) → getMap h l k = None.
Proof.
  intros Hr Hk. inversion Hr as [| | | | |? m ? F ? Hl _ _ _ Hdom Hch]; subst.
  unfold getMap. rewrite Hl. destruct (m !! k) as [v|] eqn:Hm; [|done].
  destruct (proj1 (Hdom k)) as [t' Ht]; [by eexists|].
  specialize (Hch _ _ _ Hm Ht). inversion Hch; subst; try done. by destruct (Hk t0).
Qed.

(** Access to a sub-table, and what an update of it through its reference
    does to the table it is in. *)
Lemma repr_child h l t ls k c :
  repr h (AMap l) (TTab t) ls → t !! k = Some (TTab c) →
  ∃ lc lsc, getMap h l k = Some lc ∧ repr h (AMap lc) (TTab c) lsc ∧ lsc ⊆ ls ∧
    ∀ h' c' new,
      repr h' (AMap lc) (TTab c') (lsc ∪ new) → new ## ls →
      (∀ l', l' ∈ ls → l' ∉ lsc → h' !! l' = h !! l') →
      repr h' (AMap l) (TTab (<[k := TTab c']> t)) (ls ∪ new).
Proof.
  intros Hr Hk. inversion Hr as [| | | | |? m ? F ? Hl Hin Hsub Hdis Hdom Hch]; subst.
  destruct (proj2 (Hdom k)) as [v Hm]; [by eexists|].
  pose proof (Hch _ _ _ Hm Hk) as Hc. inversion Hc as [| | | | |lc ? ? ? ? ? ? ? ? ? ?]; subst.
  exists lc, (F k). split_and!.
  - unfold getMap. by rewrite Hl, Hm.
  - done.
  - specialize (Hsub k). set_solver.
  - intros h' c' new Hc' Hnew Hh'.
    apply (repr_map _ _ m _ (λ j, if decide (j = k) then F k ∪ new else F j)).
    + rewrite Hh'; [done..|]. specialize (Hsub k). set_solver.
    + set_solver.
    + intros j. specialize (Hsub j). case_decide; set_solver.
    + intros i j Hij. pose proof (Hsub i). pose proof (Hsub j). specialize (Hdis i j Hij).
      repeat case_decide; set_solver.
    + intros j. rewrite Hdom, lookup_insert_is_Some. destruct (decide (k = j)) as [->|]; [|tauto].
      split; [by left|]. intros _. by eexists.
    + intros j v' t' Hv' Ht'. case_decide as E.
      * subst. rewrite lookup_insert_eq in Ht'. simplify_eq. done.
      * rewrite lookup_insert_ne in Ht' by done. eapply repr_frame; [eauto|].
        intros l' Hl'. specialize (Hsub j). specialize (Hdis j k E). apply Hh'; set_solver.
Qed.

(** ** Lemmas: the steps of the editor *)

Lemma cri_repr h cri t ls :
  repr h (AMap cri) (TTab t) ls →
  repr (processHugepages cri (processCDI cri h)) (AMap cri) (TTab (cri_settings t)) ls.
Proof.
  intros Hr. unfold processHugepages, processCDI, cri_settings.
  do 4 (apply repr_set_imm; [|intros; apply (repr_strings _ ["/etc/cdi"; "/var/run/cdi"]) || constructor]).
  done.
Qed.

Lemma cri_frame h cri l :
  l ≠ cri → processHugepages cri (processCDI cri h) !! l = h !! l.
Proof. intros. unfold processHugepages, processCDI. by rewrite !set_key_ne. Qed.

Lemma nri_repr h l : h !! l = Some nri_map → repr h (AMap l) (TTab nri_tree) {[l]}.
Proof.
  intros Hl. apply (repr_map _ _ nri_map _ (λ _, ∅)); [done|set_solver..| |].
  - intros k. unfold nri_map, nri_tree. simpl.
    rewrite !lookup_insert_is_Some, !lookup_empty, !is_Some_alt. done.
  - intros k v t. unfold nri_map, nri_tree. simpl. rewrite !lookup_insert_Some, !lookup_empty.
    naive_solver (constructor).
Qed.
Lemma processNRI_repr h p t ls :
  repr h (AMap p) (TTab t) ls → ls ⊆ dom h →
  repr (processNRI p h) (AMap p) (TTab (<[nri_key := TTab nri_tree]> t)) (ls ∪ {[fresh (dom h)]}).
Proof.
  intros Hr Hd. unfold processNRI. pose proof (is_fresh (dom h)) as Hf.
  apply (repr_set_key h); [done| | |set_solver].
  - intros l Hl. rewrite lookup_insert_ne; [done|set_solver].
  - apply nri_repr. by rewrite lookup_insert_eq.
Qed.

Lemma processNRI_frame h p l : l ≠ p → l ∈ dom h → processNRI p h !! l = h !! l.
Proof.
  intros Hp Hl. unfold processNRI. rewrite set_key_ne by done. rewrite lookup_insert_ne; [done|].
  intros E. apply (is_fresh (dom h)). by rewrite E.
Qed.

Lemma dom_processNRI h p : dom (processNRI p h) = dom h ∪ {[fresh (dom h)]}.
Proof. unfold processNRI, set_key. rewrite dom_alter_L, dom_insert_L. set_solver. Qed.

Lemma dom_set_key l k v h : dom (set_key l k v h) = dom h.
Proof. apply dom_alter_L. Qed.

(** What happens to the plugins table, and that nothing else is touched. *)
Definition process_plugins (plugins : loc) (h : heap) : heap :=
  let h := processNRI plugins h in
  match getMap h plugins cri_key with
  | None => h
  | Some cri => processHugepages cri (processCDI cri h)
  end.

Lemma dom_process_plugins h p : dom (process_plugins p h) = dom h ∪ {[fresh (dom h)]}.
Proof.
  unfold process_plugins, processHugepages, processCDI.
  case_match; rewrite ?dom_set_key; apply dom_processNRI.
Qed.

Lemma repr_root_in h l t ls : repr h (AMap l) (TTab t) ls → l ∈ ls.
Proof. by inversion 1. Qed.

Lemma process_plugins_repr h p t ls :
  repr h (AMap p) (TTab t) ls → ls ⊆ dom h →
  repr (process_plugins p h) (AMap p) (TTab (plugin_settings t)) (ls ∪ {[fresh (dom h)]}) ∧
  (∀ l, l ∈ dom h → l ∉ ls → process_plugins p h !! l = h !! l).
Proof.
  intros Hr Hd. pose proof (processNRI_repr _ _ _ _ Hr Hd) as Hn.
  pose proof (repr_root_in _ _ _ _ Hr) as Hp.
  assert (∀ l, l ∈ dom h → l ∉ ls → processNRI p h !! l = h !! l) as Hfr.
  { intros l Hl Hnl. apply processNRI_frame; [set_solver|done]. }
  unfold process_plugins, plugin_settings, in_table.
  set (t1 := <[nri_key:=TTab nri_tree]> t) in *. set (h1 := processNRI p h) in *.
  destruct (t1 !! cri_key) as [[| | | |c]|] eqn:Ec;
    try (rewrite (getMap_none h1 p t1 (ls ∪ {[fresh (dom h)]}) cri_key) by (done || congruence); done).
  destruct (repr_child _ _ _ _ _ _ Hn Ec) as (lc & lsc & -> & Hc & Hsub & Hback).
  pose proof (repr_root_in _ _ _ _ Hc) as Hlc. split.
  - rewrite <-(union_empty_r_L (ls ∪ _)). apply Hback; [|set_solver|].
    + rewrite union_empty_r_L. by apply cri_repr.
    + intros l _ Hl. apply cri_frame. set_solver.
  - intros l Hl Hnl. rewrite cri_frame; [by apply Hfr|].
    pose proof (is_fresh (dom h)). set_solver.
Qed.

(** The edit in place implements the update on trees: it changes the maps of
    the configuration only, and allocates only new ones. *)
Lemma process_repr h conf t ls :
  repr h (AMap conf) (TTab t) ls → ls ⊆ dom h →
  ∃ new, new ## dom h ∧ dom (process conf h) = dom h ∪ new ∧
    repr (process conf h) (AMap conf) (TTab (process_tree t)) (ls ∪ new) ∧
    (∀ l, l ∈ dom h → l ∉ ls → process conf h !! l = h !! l).
Proof.
  intros Hr Hd. unfold process, process_tree, in_table.
  destruct (t !! "plugins") as [[| | | |c]|] eqn:Ec;
    try (rewrite (getMap_none h conf t ls) by (done || congruence); exists ∅;
         rewrite !union_empty_r_L; split_and!; [set_solver|done..]).
  destruct (repr_child _ _ _ _ _ _ Hr Ec) as (lc & lsc & -> & Hc & Hsub & Hback).
  destruct (process_plugins_repr h lc c lsc Hc) as [Hp Hfr]; [set_solver|].
  pose proof (is_fresh (dom h)) as Hf. fold (process_plugins lc h).
  exists {[fresh (dom h)]}. split_and!; [set_solver|apply dom_process_plugins| |].
  - apply Hback; [done|set_solver|]. intros l Hl Hnl. apply Hfr; [|done]. set_solver.
  - intros l Hl Hnl. apply Hfr; [done|]. set_solver.
Qed.

(** ** Reading and writing configurations *)

(** The TOML library: decoding allocates the maps of the document, encoding
    reads them. *)
Class Toml := {
  toml_Unmarshal : string → heap → res (loc * heap);
  toml_Marshal : loc → heap → res string;
}.

(** Documented behaviour of the library: a document denotes a table, decoding
    builds it out of new maps, and encoding depends only on the table that is
    held. *)
Class TomlLaws `{!Toml} := {
  toml_parse : string → res table;
  toml_print : table → res string;
  Unmarshal_law : ∀ data h,
    match toml_Unmarshal data h with
    | Ok (conf, h') => ∃ t ls, toml_parse data = Ok t ∧ repr h' (AMap conf) (TTab t) ls ∧ ls ⊆ dom h'
    | Err e => toml_parse data = Err e
    end;
  Marshal_law : ∀ conf h t ls,
    repr h (AMap conf) (TTab t) ls → toml_Marshal conf h = toml_print t;
}.

Section config.
Context {W : Type} `{!FileSystem W} `{!Toml}.

(** [src] is what reading the source to its end gives, [dst] the error of the
    destination for a write. The result is the error and the bytes handed to
    the destination, if it got that far. *)
Definition ConfigStream (src : res string) (dst : string → option goerror)
  : option goerror * option string :=
  match src with
  | Err err => (Some err, None)
  | Ok data =>
      match toml_Unmarshal data ∅ with
      | Err err => (Some err, None)
      | Ok (conf, h) =>
          let h := process conf h in
          match toml_Marshal conf h with
          | Err err => (Some err, None)
          | Ok b => (dst b, Some b)
          end
      end
  end.

(** A [bytes.Buffer] accepts every write. *)
Definition ConfigInplace (confPath : string) (w : W) : option goerror * W :=
  match os_Lstat confPath w with
  | Err err => (Some err, w)
  | Ok finfo =>
      match os_ReadFile confPath w with
      | Err err => (Some err, w)
      | Ok inData =>
          match ConfigStream (Ok inData) (λ _, None) with
          | (Some err, _) => (Some err, w)
          | (None, outBuf) => os_WriteFile confPath (default "" outBuf) (fi_Perm finfo) w
          end
      end
  end.

Definition ConfigNameStdio : string := "-".

(** The bytes written to standard output come with the result. *)
Definition Config (configName : string) (stdin : res string) (stdout : string → option goerror) (w : W)
  : option goerror * option string * W :=
  if bool_decide (configName = ConfigNameStdio) then (ConfigStream stdin stdout, w)
  else let '(err, w) := ConfigInplace configName w in (err, None, w).

(** The exit code, the standard output and the world after the tool ran with
    the [-script] flag and the arguments left after the flags. [setupScript]
    is the embedded file. *)
Definition main (setupScript : string) (emitScript : bool) (args : list string)
  (stdin : res string) (stdout : string → option goerror) (w : W) : Z * option string * W :=
  if emitScript then (0, Some setupScript, w)
  else
    match args with
    | [arg] =>
        match Config arg stdin stdout w with
        | (Some _, out, w) => (127, out, w)
        | (None, out, w) => (0, out, w)
        end
    | _ => (1, None, w)
    end.

(** ** Specification: the stream filter on documents *)

Definition convert `{!TomlLaws} (data : string) : res string :=
  match toml_parse data with
  | Err err => Err err
  | Ok t => toml_print (process_tree t)
  end.

Lemma ConfigStream_convert `{!TomlLaws} data dst :
  ConfigStream (Ok data) dst =
  match convert data with
  | Err err => (Some err, None)
  | Ok b => (dst b, Some b)
  end.
Proof.
  unfold ConfigStream, convert. pose proof (Unmarshal_law data ∅) as Hu.
  destruct (toml_Unmarshal data ∅) as [[conf h]|e]; [|by rewrite Hu].
  destruct Hu as (t & ls & -> & Hr & Hd).
  destruct (process_repr h conf t ls Hr Hd) as (new & _ & _ & Hr' & _).
  by rewrite (Marshal_law _ _ _ _ Hr').
Qed.

End config.
End Containerd.

(** * Properties of the configuration editor *)
Module ContainerdProps.
Import Containerd.

(** C30: the edit in place is the promised update: if the configuration is held
    in maps [ls] of the heap, then after [process] the same root holds the
    updated table, although only inner maps were written through references;
    maps that are not part of the configuration are unchanged, and the only
    further maps used are new. *)
Theorem process_in_place (h : heap) (conf : loc) (t : table) (ls : gset loc) :
  repr h (AMap conf) (TTab t) ls → ls ⊆ dom h →
  ∃ new, new ## dom h ∧
    repr (process conf h) (AMap conf) (TTab (process_tree t)) (ls ∪ new) ∧
    (∀ l, l ∈ dom h → l ∉ ls → process conf h !! l = h !! l).
Proof. intros Hr Hd. destruct (process_repr _ _ _ _ Hr Hd) as (new & ? & _ & ? & ?). by exists new. Qed.

Lemma in_table_other key f t k : k ≠ key → in_table key f t !! k = t !! k.
Proof.
  intros Hk. unfold in_table. destruct (t !! key) as [[]|]; try done. by rewrite lookup_insert_ne.
Qed.

Lemma in_table_self key f t :
  in_table key f t !! key = match t !! key with Some (TTab c) => Some (TTab (f c)) | x => x end.
Proof.
  unfold in_table. destruct (t !! key) as [[]|] eqn:E; try done. by rewrite lookup_insert_eq.
Qed.

Lemma in_table_idemp key f t :
  (∀ c, f (f c) = f c) → in_table key f (in_table key f t) = in_table key f t.
Proof.
  intros Hf. apply map_eq. intros k. destruct (decide (k = key)) as [->|Hk].
  - rewrite !in_table_self. destruct (t !! key) as [[]|]; try done. by rewrite Hf.
  - by rewrite !in_table_other.
Qed.

(** The keys the editor sets in the CRI table. *)
Definition cri_keys : list string :=
  ["enable_cdi"; "cdi_spec_dirs"; "tolerate_missing_hugetlb_controller"; "disable_hugetlb_controller"].

Lemma cri_settings_other cri k : k ∉ cri_keys → cri_settings cri !! k = cri !! k.
Proof. intros Hk. unfold cri_settings. rewrite !lookup_insert_ne by set_solver. done. Qed.

Lemma cri_settings_idemp cri : cri_settings (cri_settings cri) = cri_settings cri.
Proof.
  apply map_eq. intros k. destruct (decide (k ∈ cri_keys)) as [Hk|Hk]; [|by rewrite !cri_settings_other].
  unfold cri_settings. rewrite !lookup_insert. by repeat case_decide.
Qed.

Lemma plugin_settings_idemp ps : plugin_settings (plugin_settings ps) = plugin_settings ps.
Proof.
  unfold plugin_settings. rewrite (insert_id _ nri_key); [|rewrite in_table_other, lookup_insert_eq; done].
  apply in_table_idemp, cri_settings_idemp.
Qed.

Lemma process_tree_idemp t : process_tree (process_tree t) = process_tree t.
Proof. apply in_table_idemp, plugin_settings_idemp. Qed.

(** The plugins table after the edit. *)
Lemma plugin_settings_cri ps :
  match ps !! cri_key with
  | Some (TTab cri) =>
      ∃ cri', plugin_settings ps !! cri_key = Some (TTab cri') ∧
        cri' !! "enable_cdi" = Some (TBool true) ∧
        cri' !! "cdi_spec_dirs" = Some (TArr [TString "/etc/cdi"; TString "/var/run/cdi"]) ∧
        cri' !! "tolerate_missing_hugetlb_controller" = Some (TBool false) ∧
        cri' !! "disable_hugetlb_controller" = Some (TBool false) ∧
        (∀ k, k ∉ cri_keys → cri' !! k = cri !! k)
  | x => plugin_settings ps !! cri_key = x
  end.
Proof.
  unfold plugin_settings. rewrite in_table_self, lookup_insert_ne by done.
  destruct (ps !! cri_key) as [[| | | |cri]|]; try done.
  exists (cri_settings cri). split_and!; [done|..|by apply cri_settings_other];
    unfold cri_settings; rewrite !lookup_insert; by repeat case_decide.
Qed.

(** C31: what [process] sets and what it keeps, read off the configuration its
    root holds afterwards: without a plugins table nothing changes; with one, the
    NRI section is the built-in one with exactly these seven keys, an existing
    CRI section has CDI enabled with its two directories and the huge-page
    controller required, and keeps its other keys, a missing one is not created,
    and every other key at every level is kept. Running it again leaves the
    same configuration. *)
Theorem edit_exact (h : heap) (conf : loc) (t : table) (ls : gset loc) :
  repr h (AMap conf) (TTab t) ls → ls ⊆ dom h →
  ∃ t' ls' ls'',
    repr (process conf h) (AMap conf) (TTab t') ls' ∧
    repr (process conf (process conf h)) (AMap conf) (TTab t') ls'' ∧
    (∀ k, k ≠ "plugins" → t' !! k = t !! k) ∧
    match t !! "plugins" with
    | Some (TTab ps) =>
        ∃ ps', t' !! "plugins" = Some (TTab ps') ∧
          ps' !! "io.containerd.nri.v1.nri" = Some (TTab (list_to_map [
            ("disable", TBool false); ("disable_connections", TBool false);
            ("plugin_config_path", TString "/etc/nri/conf.d");
            ("plugin_path", TString "/opt/nri/plugins");
            ("plugin_registration_timeout", TString "5s"); ("plugin_request_timeout", TString "5s");
            ("socket_path", TString "/var/run/nri/nri.sock")])) ∧
          (∀ k, k ≠ "io.containerd.nri.v1.nri" → k ≠ "io.containerd.grpc.v1.cri" → ps' !! k = ps !! k) ∧
          match ps !! "io.containerd.grpc.v1.cri" with
          | Some (TTab cri) =>
              ∃ cri', ps' !! "io.containerd.grpc.v1.cri" = Some (TTab cri') ∧
                cri' !! "enable_cdi" = Some (TBool true) ∧
                cri' !! "cdi_spec_dirs" = Some (TArr [TString "/etc/cdi"; TString "/var/run/cdi"]) ∧
                cri' !! "tolerate_missing_hugetlb_controller" = Some (TBool false) ∧
                cri' !! "disable_hugetlb_controller" = Some (TBool false) ∧
                (∀ k, k ∉ ["enable_cdi"; "cdi_spec_dirs"; "tolerate_missing_hugetlb_controller";
                           "disable_hugetlb_controller"] → cri' !! k = cri !! k)
          | x => ps' !! "io.containerd.grpc.v1.cri" = x
          end
    | _ => t' = t
    end.
Proof.
  intros Hr Hd. destruct (process_repr _ _ _ _ Hr Hd) as (new & _ & Hdom & Hr' & _).
  destruct (process_repr _ _ _ _ Hr') as (new' & _ & _ & Hr'' & _); [rewrite Hdom; set_solver|].
  rewrite process_tree_idemp in Hr''. exists (process_tree t), (ls ∪ new), (ls ∪ new ∪ new'). split_and!; [done..| |].
  - intros k Hk. by apply in_table_other.
  - unfold process_tree. destruct (t !! "plugins") as [[| | | |ps]|] eqn:Ep;
      try (unfold in_table; rewrite Ep; reflexivity).
    exists (plugin_settings ps). rewrite in_table_self, Ep. split_and!; [done|..|apply plugin_settings_cri].
    + unfold plugin_settings. by rewrite in_table_other, lookup_insert_eq.
    + intros k Hn Hc. unfold plugin_settings. by rewrite in_table_other, lookup_insert_ne.
Qed.

Section config.
Context {W : Type} `{!FileSystem W} `{!Toml} `{!TomlLaws}.

(** C32: editing a file writes the converted document over it with the file's
    permission bits, in one write at the end; if the file cannot be inspected,
    read or decoded, or the result not encoded, the error is returned and
    nothing is written. *)
Theorem config_inplace_safe (confPath : string) (w : W) :
  match os_Lstat confPath w, os_ReadFile confPath w with
  | Ok finfo, Ok data =>
      match convert data with
      | Ok out => ConfigInplace confPath w = os_WriteFile confPath out (fi_Perm finfo) w
      | Err e => ConfigInplace confPath w = (Some e, w)
      end
  | _, _ => ∃ e, ConfigInplace confPath w = (Some e, w)
  end.
Proof.
  unfold ConfigInplace. destruct (os_Lstat confPath w) as [finfo|]; [|eauto].
  destruct (os_ReadFile confPath w) as [data|]; [|eauto].
  rewrite ConfigStream_convert. by destruct (convert data).
Qed.

End config.

(** ** Witnesses

    A document with a CRI section, and an encoder that lists the plugins. *)

Definition demo_m3 : gmap string any :=
  list_to_map [("enable_cdi", ABool false); ("sandbox_image", AString "pause")].
Definition demo_m2 : gmap string any := list_to_map [(cri_key, AMap 3)].
Definition demo_m1 : gmap string any :=
  list_to_map [("version", AScalar "2"); ("plugins", AMap 2)].
Definition demo_heap : heap :=
  list_to_map [(1%positive, demo_m1); (2%positive, demo_m2); (3%positive, demo_m3)].

Definition demo_cri : table :=
  list_to_map [("enable_cdi", TBool false); ("sandbox_image", TString "pause")].
Definition demo_plugins : table := list_to_map [(cri_key, TTab demo_cri)].
Definition demo_table : table :=
  list_to_map [("version", TScalar "2"); ("plugins", TTab demo_plugins)].

(** A map of the example holds the table with the same keys. *)
Local Ltac demo_map m F :=
  apply (repr_map _ _ m _ F);
  [reflexivity|set_solver|intros k; repeat case_decide; set_solver
  |intros j k ?; repeat case_decide; set_solver
  |intros k; unfold demo_m1, demo_m2, demo_m3, demo_table, demo_plugins, demo_cri; simpl;
   rewrite !lookup_insert_is_Some, !lookup_empty, !is_Some_alt; done
  |intros k v t; unfold demo_m1, demo_m2, demo_m3, demo_table, demo_plugins, demo_cri; simpl;
   rewrite !lookup_insert_Some, !lookup_empty; intros;
   repeat match goal with H : _ ∧ _ |- _ => destruct H | H : _ ∨ _ |- _ => destruct H end; simplify_eq; try constructor; rewrite ?decide_True by done].

Lemma demo_repr : repr demo_heap (AMap 1) (TTab demo_table) {[1; 2; 3]}%positive.
Proof.
  demo_map demo_m1 (λ k, if decide (k = "plugins") then {[2; 3]}%positive else ∅ : gset loc).
  demo_map demo_m2 (λ k, if decide (k = cri_key) then {[3]}%positive else ∅ : gset loc).
  demo_map demo_m3 (λ k : string, ∅ : gset loc).
Qed.

Lemma process_in_place_witness :
  ∃ new, new ## dom demo_heap ∧
    repr (process 1 demo_heap) (AMap 1) (TTab (process_tree demo_table))
      ({[1; 2; 3]}%positive ∪ new) ∧
    (∀ l, l ∈ dom demo_heap → l ∉ ({[1; 2; 3]}%positive : gset loc) →
       process 1 demo_heap !! l = demo_heap !! l).
Proof. apply (process_in_place demo_heap 1 demo_table); [exact demo_repr|]. vm_compute. set_solver. Defined.

Lemma edit_exact_witness :
  ∃ t' ls' ls'' ps' cri',
    repr (process 1 demo_heap) (AMap 1) (TTab t') ls' ∧
    repr (process 1 (process 1 demo_heap)) (AMap 1) (TTab t') ls'' ∧
    t' !! "version" = Some (TScalar "2") ∧ t' !! "plugins" = Some (TTab ps') ∧
    ps' !! "io.containerd.grpc.v1.cri" = Some (TTab cri') ∧
    cri' !! "enable_cdi" = Some (TBool true) ∧ cri' !! "sandbox_image" = Some (TString "pause").
Proof.
  destruct (edit_exact demo_heap 1 demo_table {[1; 2; 3]}%positive demo_repr)
    as (t' & ls' & ls'' & H1 & H2 & Hk & ps' & Hp & _ & _ & cri' & Hc & He & _ & _ & _ & Hs);
    [vm_compute; set_solver|].
  exists t', ls', ls'', ps', cri'. split_and!; [exact H1|exact H2| |exact Hp|exact Hc|exact He|].
  - apply Hk. discriminate.
  - apply Hs. set_solver.
Defined.

(** The references of the example after the edit: the CRI map was changed in
    place and the NRI map is a new one. *)
Example demo_process :
  let h := process 1 demo_heap in
  getMap h 1 "plugins" = Some 2%positive ∧ getMap h 2 cri_key = Some 3%positive ∧
  (h !! 3%positive ≫= lookup "enable_cdi") = Some (ABool true) ∧
  (h !! 3%positive ≫= lookup "sandbox_image") = Some (AString "pause") ∧
  getMap h 2 nri_key = Some 4%positive.
Proof. vm_compute. split_and!; reflexivity. Qed.

Definition keys {A} (m : gmap string A) : string := String.concat "," (elements (dom m)).

#[local] Instance demo_toml : Toml := {|
  toml_Unmarshal data _ := if decide (data = "") then Err (SysError "toml: empty") else Ok (1%positive, demo_heap);
  toml_Marshal conf h :=
    match getMap h conf "plugins" with
    | Some ps => Ok (keys (default ∅ (h !! ps)))
    | None => Ok ""
    end;
|}.

#[local, refine] Instance demo_toml_laws : TomlLaws := {|
  toml_parse data := if decide (data = "") then Err (SysError "toml: empty") else Ok demo_table;
  toml_print t := match t !! "plugins" with Some (TTab ps) => Ok (keys ps) | _ => Ok "" end;
|}.
Proof.
  - intros data h. simpl. case_decide; [done|]. exists demo_table, {[1; 2; 3]}%positive.
    split_and!; [done|exact demo_repr|]. vm_compute. set_solver.
  - intros conf h t ls Hr. simpl.
    destruct (t !! "plugins") as [[| | | |c]|] eqn:Ec;
      try (by rewrite (getMap_none h conf t ls) by (done || congruence)).
    destruct (repr_child _ _ _ _ _ _ Hr Ec) as (lc & lsc & -> & Hc & _).
    inversion Hc as [| | | | |? m ? F ? Hl _ _ _ Hdom _]; subst. rewrite Hl. simpl.
    unfold keys. do 3 f_equal. apply set_eq. intros k. by rewrite !elem_of_dom.
Defined.

Definition demo_files : MemFS := mkMemFS (list_to_map [("/etc/c.toml", NFile 420 "x")]) ∅.

Lemma config_inplace_safe_witness :
  ConfigInplace "/etc/c.toml" demo_files
  = os_WriteFile "/etc/c.toml" (cri_key +:+ "," +:+ nri_key) 420 demo_files.
Proof. exact (config_inplace_safe "/etc/c.toml" demo_files). Defined.

End ContainerdProps.
