(* ===== verification/Alignment.v ===== *)
(** * The NUMA alignment report for Kind clusters (validation/kind/alignment)

    Where the cgroup of a container of a Kind node is, the CPU topology of the
    machine, and the report of the memory and CPUs each container has per NUMA
    zone. CPU sets are sets of integers; their parser, the order in which Go
    iterates over a map, and the Kubernetes and Docker clients are parameters. *)

From S2P Require Import Prelude GoStrings GoPath OS.
Local Open Scope Z_scope.

Module Alignment.

Definition cgroupRoot : string := "/sys/fs/cgroup".
Definition nodeRoot : string := "/sys/devices/system/node".

Abbreviation CPUSet := (gset Z).

(** NUMA node to its CPUs. *)
Abbreviation Topology := (gmap Z CPUSet).

(** [CPUSet.List]: in increasing order. *)
Definition cpuset_List (s : CPUSet) : list Z := merge_sort Z.le (elements s).

Record ContainerStatus := mkStatus {
  cs_Name : string;
  cs_ContainerID : string;
}.

Record Pod := mkPod {
  pod_Namespace : string;
  pod_Name : string;
  pod_UID : string;
  pod_NodeName : string;
  pod_QOSClass : string;
  pod_ContainerStatuses : list ContainerStatus;
}.

Definition PodQOSBurstable : string := "Burstable".
Definition PodQOSBestEffort : string := "BestEffort".

Definition is_not_exist {A} (r : res A) : bool :=
  match r with Err (ErrNotExist _) => true | _ => false end.

Section alignment.
Context {W : Type} `{!FileSystem W}.
Context (cpuset_Parse : string → res CPUSet).

(** ** The cgroup of a container *)

Definition qos_slice (qos : string) : string :=
  if bool_decide (qos = PodQOSBurstable) then "kubelet-kubepods-burstable.slice"
  else if bool_decide (qos = PodQOSBestEffort) then "kubelet-kubepods-besteffort.slice"
  else "".

Definition qos_sub_slice (qos podUID : string) : string :=
  if bool_decide (qos = PodQOSBurstable) then "kubelet-kubepods-burstable-pod" +:+ podUID +:+ ".slice"
  else if bool_decide (qos = PodQOSBestEffort) then "kubelet-kubepods-besteffort-pod" +:+ podUID +:+ ".slice"
  else "kubelet-kubepods-pod" +:+ podUID +:+ ".slice".

Definition container_scope (runtime containerID : string) : string :=
  if bool_decide (runtime = "containerd") then "cri-containerd-" +:+ containerID +:+ ".scope"
  else "crio-" +:+ containerID +:+ ".scope".

Definition findKindCgroupPath (kindNodeID : string) (pod : Pod) (fullContainerID : string) (w : W)
  : res string :=
  match SplitStr fullContainerID "://" with
  | runtime :: containerID :: _ =>
      let podUID := ReplaceAll (pod_UID pod) "-" "_" in
      let baseKindPath := Join [cgroupRoot; "system.slice"; "docker-" +:+ kindNodeID +:+ ".scope"] in
      let qosSlice := qos_slice (pod_QOSClass pod) in
      let containerScope := container_scope runtime containerID in
      let path := Clean (Join [baseKindPath; "kubelet.slice"; "kubelet-kubepods.slice"; qosSlice]) in
      let qosSubSlice := qos_sub_slice (pod_QOSClass pod) podUID in
      let path := Join [path; qosSubSlice; containerScope] in
      if is_not_exist (os_Stat path w) then Err (Errorf "path not found: %s" [ArgS path])
      else Ok path
  | _ => Err (Errorf "invalid container ID" [])
  end.

(** ** The topology *)

Definition loadCPUSetFromFile (fpath : string) (w : W) : res CPUSet :=
  match os_ReadFile fpath w with
  | Err err => Err err
  | Ok cpuListRaw => cpuset_Parse (TrimSpace cpuListRaw)
  end.

(** The names the pattern [node[0-9]*] matches. *)
Definition is_node_name (name : string) : bool :=
  match strip_prefix (chars "node") (chars name) with
  | Some (c :: _) => (48 <=? code c) && (code c <=? 57)
  | _ => false
  end.

(** [filepath.Glob]: the matching entries of a directory in the order of their
    names; nothing if the directory cannot be read. *)
Definition glob_nodes (w : W) : list string :=
  match os_ReadDir nodeRoot w with
  | Err _ => []
  | Ok entries => (λ name, Join [nodeRoot; name]) <$> sort_Strings (filter (λ n, is_node_name n = true) (de_Name <$> entries))
  end.

(** [filepath.Base(nodePath)[4:]] through [strconv.Atoi], its error ignored. *)
Definition node_id (nodePath : string) : Z :=
  (Atoi (of_chars (drop 4 (chars (Base nodePath))))).1.

Fixpoint load_nodes (nodes : list string) (topo : Topology) (w : W) : res Topology :=
  match nodes with
  | [] => Ok topo
  | nodePath :: nodes =>
      match loadCPUSetFromFile (Join [nodePath; "cpulist"]) w with
      | Err err => Err err
      | Ok cpus => load_nodes nodes (<[node_id nodePath := cpus]> topo) w
      end
  end.

Definition loadPhysicalTopology (w : W) : res Topology := load_nodes (glob_nodes w) ∅ w.

(** ** The report *)

(** A line of the output. *)
Inductive line :=
  | LUsage (program : string)
  | LHeader (pod : Pod) (kindNodeID : string)
  | LRule
  | LContainer (name : string)
  | LMemory
  | LZone (node : Z)
  | LCPU
  | LZoneCPUs (node : Z) (cpus : CPUSet)
  | LBlank.

(** The order in which [range] visits the entries of a map. *)
Context (range : Topology → list (Z * CPUSet)).

Definition zone_line (assignedCPUs : CPUSet) (entry : Z * CPUSet) : option line :=
  let matches := entry.2 ∩ assignedCPUs in
  if decide (matches = ∅) then None else Some (LZoneCPUs entry.1 matches).

(** An error is logged and the rest of the container's report left out. *)
Definition report_container (kindNodeID : string) (pod : Pod) (allNUMANodes : CPUSet)
  (topo : Topology) (w : W) (status : ContainerStatus) : list line :=
  LContainer (cs_Name status) ::
  match findKindCgroupPath kindNodeID pod (cs_ContainerID status) w with
  | Err _ => []
  | Ok cgroupPath =>
      match loadCPUSetFromFile (Join [cgroupPath; "cpuset.cpus"]) w with
      | Err _ => []
      | Ok assignedCPUs =>
          match loadCPUSetFromFile (Join [cgroupPath; "cpuset.mems"]) w with
          | Err _ => []
          | Ok mems =>
              let assignedNodes := if decide (mems = ∅) then allNUMANodes else mems in
              LMemory :: (LZone <$> cpuset_List assignedNodes) ++
              LCPU :: omap (zone_line assignedCPUs) (range topo) ++ [LBlank]
          end
      end
  end.

(** [main] with the command line, the error of setting up the clients if any,
    and what fetching the pod and inspecting the node container return: the
    exit status and the output. *)
Definition main (args : list string) (connect : option goerror) (get_pod : string → string → res Pod)
  (inspect : string → res string) (w : W) : Z * list line :=
  match args with
  | _ :: podNamespace :: podName :: _ =>
      match loadCPUSetFromFile (Join [nodeRoot; "online"]) w with
      | Err _ => (1, [])
      | Ok allNUMANodes =>
          match loadPhysicalTopology w with
          | Err _ => (1, [])
          | Ok topo =>
              match connect with
              | Some _ => (1, [])
              | None =>
                  match get_pod podNamespace podName with
                  | Err _ => (1, [])
                  | Ok pod =>
                      match inspect (pod_NodeName pod) with
                      | Err _ => (1, [])
                      | Ok kindNodeID =>
                          (0, LHeader pod kindNodeID :: LRule ::
                              concat (report_container kindNodeID pod allNUMANodes topo w
                                        <$> pod_ContainerStatuses pod))
                      end
                  end
              end
          end
      end
  | _ => (1, [LUsage (Base (hd "" args))])
  end.

End alignment.

(** ** Lemmas: paths *)

Definition kind_elems (kindNodeID : string) : list string :=
  ["sys"; "fs"; "cgroup"; "system.slice"; "docker-" +:+ kindNodeID +:+ ".scope";
   "kubelet.slice"; "kubelet-kubepods.slice"].

(** The slice of the QoS class, for the classes that have one. *)
Definition qos_elems (qos : string) : list string :=
  if decide (qos_slice qos = "") then [] else [qos_slice qos].

Lemma no_slash_app s t : slash ∉ chars s → slash ∉ chars t → slash ∉ chars (s +:+ t).
Proof. rewrite chars_app, elem_of_app. tauto. Qed.

Lemma string_length_app s t : String.length (s +:+ t) = (String.length s + String.length t)%nat.
Proof. induction s as [|a s IH]; [done|]. simpl. by rewrite <-IH. Qed.

Lemma plain_wrap pre s suf :
  (2 < String.length pre)%nat → slash ∉ chars pre → slash ∉ chars s → slash ∉ chars suf →
  plain_name (pre +:+ s +:+ suf).
Proof.
  intros Hl Hp Hs Hf. assert (2 < String.length (pre +:+ s +:+ suf))%nat as Hlen
    by (rewrite string_length_app; lia).
  split_and!; [intros E; rewrite E in Hlen; simpl in Hlen; lia..|].
  by repeat apply no_slash_app.
Qed.

Lemma ReplaceAll_no_slash s : slash ∉ chars s → slash ∉ chars (ReplaceAll s "-" "_").
Proof.
  intros Hs. unfold ReplaceAll. rewrite chars_of_chars, list_elem_of_fmap.
  intros (c & Hc & Hin). case_decide; [done|]. congruence.
Qed.

Lemma filter_plain es : Forall plain_name es → filter (λ e, e ≠ "") es = es.
Proof.
  induction 1 as [|e es [He _] _ IH]; [done|]. by rewrite filter_cons, decide_True, IH.
Qed.

Lemma Clean_abs es : es ≠ [] → Forall plain_name es → Clean (abs es) = abs es.
Proof.
  intros Hne Hes. change (Clean (abs es)) with (Join [abs es]).
  rewrite Join_abs, app_nil_r, filter_plain; try done.
  eapply Forall_impl; [done|]. by right.
Qed.

Lemma Join_abs_plain es es' :
  es ≠ [] → Forall plain_name es → Forall plain_name es' → Join (abs es :: es') = abs (es ++ es').
Proof.
  intros Hne Hes Hes'. rewrite Join_abs; try done.
  - by rewrite filter_plain by (by apply Forall_app).
  - eapply Forall_impl; [done|]. by right.
  - eapply Forall_impl; [done|]. by right.
Qed.

(** Constant names are decided, composed ones are wrapped. *)
Local Ltac plain :=
  lazymatch goal with
  | |- plain_name (_ +:+ _ +:+ _) =>
      apply plain_wrap; [vm_compute; lia| |try done|]; by apply (bool_decide_unpack _)
  | |- _ => by apply (bool_decide_unpack _)
  end.

Lemma kind_elems_plain id : slash ∉ chars id → Forall plain_name (kind_elems id).
Proof. intros Hid. repeat (apply Forall_cons_2; [plain|]). by apply Forall_nil. Qed.

Lemma qos_slice_optional qos : optional_name (qos_slice qos).
Proof. unfold qos_slice. repeat case_bool_decide; [right; plain..|by left]. Qed.

Lemma qos_elems_plain qos : Forall plain_name (qos_elems qos).
Proof.
  unfold qos_elems. case_decide; [by apply Forall_nil|]. apply Forall_singleton.
  by destruct (qos_slice_optional qos).
Qed.

Lemma qos_sub_slice_plain qos uid : slash ∉ chars uid → plain_name (qos_sub_slice qos uid).
Proof. intros Hu. unfold qos_sub_slice. repeat case_bool_decide; plain. Qed.

Lemma container_scope_plain runtime id : slash ∉ chars id → plain_name (container_scope runtime id).
Proof. intros Hu. unfold container_scope. case_bool_decide; plain. Qed.

Lemma SplitStr_id runtime id :
  ":"%char ∉ chars runtime → Contains id "://" = false →
  SplitStr (runtime +:+ "://" +:+ id) "://" = [runtime; id].
Proof.
  intros Hr Hid. unfold SplitStr. rewrite !chars_app.
  change (chars "://") with (":"%char :: chars "//") at 1 2.
  rewrite split_str_first by done. unfold Contains in Hid.
  change (":"%char :: chars "//") with (chars "://"). rewrite split_str_none by done.
  simpl. by rewrite !of_chars_chars.
Qed.

(** ** Lemmas: topology *)

Lemma Base_abs es name : Forall plain_name es → plain_name name → Base (abs (es ++ [name])) = name.
Proof.
  intros Hes Hn. assert (Forall plain_name (es ++ [name])) as Hall by (apply Forall_app; auto).
  assert (abs (es ++ [name]) = join_slash ("" :: es ++ [name])) as E by (by destruct es).
  unfold Base. rewrite E, Split_join_slash; [|done|].
  - rewrite filter_cons, decide_False by tauto. rewrite filter_plain by done.
    by rewrite reverse_app.
  - constructor; [apply not_elem_of_nil|]. eapply Forall_impl; [done|]. by intros ? (_ & _ & _ & ?).
Qed.

(** The directory of a node. *)
Definition node_path (i : Z) : string := Join [nodeRoot; "node" +:+ Itoa i].

Lemma node_name_plain name : is_node_name name = true → slash ∉ chars name → plain_name name.
Proof.
  intros Hn Hs. unfold is_node_name in Hn.
  destruct (strip_prefix (chars "node") (chars name)) as [l|] eqn:E; [|done].
  split_and!; [intros ->; done..|done].
Qed.

Lemma node_id_path name i :
  is_node_name name = true → slash ∉ chars name → name = "node" +:+ Itoa i → is_int64 i →
  node_id (Join [nodeRoot; name]) = i.
Proof.
  intros Hn Hs -> Hi. apply node_name_plain in Hs; [|done].
  change nodeRoot with (abs ["sys"; "devices"; "system"; "node"]).
  rewrite Join_abs_plain; [|done|repeat (apply Forall_cons_2; [plain|]); by apply Forall_nil|by apply Forall_singleton].
  unfold node_id. rewrite Base_abs; [|repeat (apply Forall_cons_2; [plain|]); by apply Forall_nil|done].
  rewrite chars_app. change (drop 4 (chars "node" ++ chars (Itoa i))) with (chars (Itoa i)).
  by rewrite of_chars_chars, Atoi_Itoa.
Qed.

Section lemmas.
Context {W : Type} `{!FileSystem W} (cpuset_Parse : string → res CPUSet).

Lemma load_nodes_spec nodes topo (w : W) topo' :
  NoDup (node_id <$> nodes) → load_nodes cpuset_Parse nodes topo w = Ok topo' →
  ∀ n cs, topo' !! n = Some cs ↔
    (∃ p, (p ∈ nodes) ∧ node_id p = n ∧ loadCPUSetFromFile cpuset_Parse (Join [p; "cpulist"]) w = Ok cs) ∨
    ((n ∉ (node_id <$> nodes)) ∧ topo !! n = Some cs).
Proof.
  revert topo. induction nodes as [|p nodes IH]; intros topo Hnd Hl n cs; cbn [load_nodes] in Hl.
  { injection Hl as ->. set_solver. }
  rewrite fmap_cons, NoDup_cons in Hnd. destruct Hnd as [Hp Hnd].
  destruct (loadCPUSetFromFile _ (Join [p; "cpulist"]) w) as [cpus|] eqn:Ep; [|done].
  rewrite (IH _ Hnd Hl). rewrite fmap_cons. destruct (decide (n = node_id p)) as [->|Hne].
  - rewrite lookup_insert_eq. split.
    + intros [(q & Hq & E & Hcs)|[_ [= ->]]]; left; [exists q; set_solver|exists p; set_solver].
    + intros [(q & [->|Hq]%elem_of_cons & E & Hcs)|[Hn _]]; [right; split; congruence| |set_solver].
      left. by exists q.
  - rewrite lookup_insert_ne by done. rewrite not_elem_of_cons. split.
    + intros [(q & Hq & E & Hcs)|[Hn Hcs]]; [left; exists q; set_solver|right; done].
    + intros [(q & [->|Hq]%elem_of_cons & E & Hcs)|[[_ Hn] Hcs]]; [done|left; by exists q|right; done].
Qed.

End lemmas.

End Alignment.

(** * Properties of the report *)
Module AlignmentProps.
Import Alignment.

Section props.
Context {W : Type} `{!FileSystem W} (cpuset_Parse : string → res CPUSet).

(** Where the cgroup of a container is looked for: under the node's Docker
    scope and the kubelet's slice, in the slice of the pod's QoS class (none
    for guaranteed pods), then the pod's slice, its UID with underscores, then
    the scope of the container, by runtime. It is returned unless it is not
    there. *)
Theorem kind_cgroup_path (id runtime cid : string) (pod : Pod) (w : W) :
  slash ∉ chars id → slash ∉ chars (pod_UID pod) → slash ∉ chars cid →
  ":"%char ∉ chars runtime → Contains cid "://" = false →
  let path := abs (kind_elems id ++ qos_elems (pod_QOSClass pod) ++
                   [qos_sub_slice (pod_QOSClass pod) (ReplaceAll (pod_UID pod) "-" "_");
                    container_scope runtime cid]) in
  findKindCgroupPath id pod (runtime +:+ "://" +:+ cid) w =
  if is_not_exist (os_Stat path w) then Err (Errorf "path not found: %s" [ArgS path]) else Ok path.
Proof.
  intros Hid Huid Hcid Hr Hsep path. unfold findKindCgroupPath. rewrite SplitStr_id by done.
  pose proof (kind_elems_plain id Hid) as Hk.
  pose proof (qos_elems_plain (pod_QOSClass pod)) as Hq.
  assert (Join [cgroupRoot; "system.slice"; "docker-" +:+ id +:+ ".scope"] = abs (take 5 (kind_elems id))) as ->.
  { change cgroupRoot with (abs (take 3 (kind_elems id))).
    rewrite Join_abs_plain; [done|done|by apply Forall_take|].
    exact (Forall_take _ 2 _ (Forall_drop _ 3 _ Hk)). }
  rewrite Join_abs; [|done|eapply Forall_impl; [by apply Forall_take|by right]|].
  2: { repeat (apply Forall_cons_2; [first [apply qos_slice_optional|right; by apply (bool_decide_unpack _)]|]).
       by apply Forall_nil. }
  change (take 5 (kind_elems id) ++ ["kubelet.slice"; "kubelet-kubepods.slice"; qos_slice (pod_QOSClass pod)])
    with (kind_elems id ++ [qos_slice (pod_QOSClass pod)]).
  rewrite filter_app, filter_plain by done.
  assert (filter (λ e, e ≠ "") [qos_slice (pod_QOSClass pod)] = qos_elems (pod_QOSClass pod)) as ->.
  { unfold qos_elems. rewrite filter_cons, filter_nil. by repeat case_decide. }
  rewrite Clean_abs, Join_abs_plain, <-app_assoc; try done; try (by apply Forall_app).
  apply Forall_cons_2; [by apply qos_sub_slice_plain, ReplaceAll_no_slash|].
  by apply Forall_singleton, container_scope_plain.
Qed.

(** C34: the topology is the machine's: if the node directories are named after
    integers, the map has an entry for exactly the nodes that are listed, with
    the CPUs of their cpulist file. *)
Theorem topology_exact `{!FileSystemLaws W} (es : list DirEntry) (topo : Topology) (w : W) :
  os_ReadDir nodeRoot w = Ok es →
  (∀ name, name ∈ (de_Name <$> es) → is_node_name name = true →
     ∃ i, is_int64 i ∧ name = "node" +:+ Itoa i) →
  loadPhysicalTopology cpuset_Parse w = Ok topo →
  ∀ n cs, topo !! n = Some cs ↔
    is_int64 n ∧ "node" +:+ Itoa n ∈ (de_Name <$> es) ∧ is_node_name ("node" +:+ Itoa n) = true ∧
    loadCPUSetFromFile cpuset_Parse (Join [node_path n; "cpulist"]) w = Ok cs.
Proof.
  intros Hes Hnames Hload n cs. unfold loadPhysicalTopology, glob_nodes in Hload. rewrite Hes in Hload.
  set (ns := sort_Strings _) in Hload.
  assert (∀ name, name ∈ ns ↔ is_node_name name = true ∧ name ∈ (de_Name <$> es)) as Hns.
  { intros name. unfold ns. by rewrite sort_Strings_perm, list_elem_of_filter. }
  assert (∀ name, name ∈ ns → ∃ i, is_int64 i ∧ name = "node" +:+ Itoa i ∧
            node_id (Join [nodeRoot; name]) = i) as Hid.
  { intros name [Hn Hin]%Hns. destruct (Hnames name Hin Hn) as (i & Hi & E). exists i. split_and!; [done..|].
    apply node_id_path; try done. pose proof (ReadDir_plain _ _ _ Hes) as Hp.
    rewrite Forall_forall in Hp. by apply Hp in Hin as (_ & _ & _ & ?). }
  apply load_nodes_spec with (n := n) (cs := cs) in Hload.
  - rewrite Hload. rewrite lookup_empty. split.
    + intros [(p & Hp & E & Hcs)|[_ ?]]; [|done]. apply list_elem_of_fmap in Hp as (name & -> & Hin).
      destruct (Hid _ Hin) as (i & Hi & -> & Hni). apply Hns in Hin as [? ?].
      rewrite Hni in E. subst. by split_and!.
    + intros (Hi & Hin & Hn & Hcs). left. exists (node_path n). split_and!; [| |done].
      * apply list_elem_of_fmap. exists ("node" +:+ Itoa n). split; [done|]. by apply Hns.
      * destruct (Hid ("node" +:+ Itoa n)) as (i & Hi' & E & Hni); [by apply Hns|].
        unfold node_path. rewrite Hni. apply (inj (String.app "node")) in E.
        assert (Atoi (Itoa n) = Atoi (Itoa i)) as Ea by congruence.
        rewrite !Atoi_Itoa in Ea by done. congruence.
  - rewrite <-list_fmap_compose. apply NoDup_fmap_2_strong.
    + intros x y Hx Hy. destruct (Hid _ Hx) as (i & _ & -> & Hi), (Hid _ Hy) as (j & _ & -> & Hj).
      unfold compose. rewrite Hi, Hj. by intros ->.
    + unfold ns. rewrite sort_Strings_perm. apply NoDup_filter. by eapply ReadDir_nodup.
Qed.

Context (range : Topology → list (Z * CPUSet)).

Lemma cpuset_List_elem (cs : CPUSet) n : n ∈ cpuset_List cs ↔ n ∈ cs.
Proof. unfold cpuset_List. by rewrite merge_sort_Permutation, elem_of_elements. Qed.

Lemma zone_lines_elem topo cpus n S :
  range topo ≡ₚ map_to_list topo →
  LZoneCPUs n S ∈ omap (zone_line cpus) (range topo) ↔
  ∃ cs, topo !! n = Some cs ∧ S = cs ∩ cpus ∧ S ≠ ∅.
Proof.
  intros Hr. rewrite Hr, list_elem_of_omap. split.
  - intros ([m cs] & Hin%elem_of_map_to_list & Hz). unfold zone_line in Hz. simpl in Hz.
    case_decide; [done|]. injection Hz as <- <-. eauto.
  - intros (cs & Hl & -> & Hne). exists (n, cs). split; [by apply elem_of_map_to_list|].
    unfold zone_line. simpl. by rewrite decide_False.
Qed.

(** C33: the report of a container whose cgroup can be read: the memory zones
    are its cpuset.mems, or all online nodes if that is empty, in increasing
    order; a CPU line appears for exactly the zones it has CPUs in, with
    exactly those CPUs, whatever the order of the map iteration; so each of
    its CPUs that belongs to a zone is shown there. *)
Theorem report_exact (id : string) (pod : Pod) (all : CPUSet) (topo : Topology) (w : W)
  (status : ContainerStatus) (cgroup : string) (cpus mems : CPUSet) :
  range topo ≡ₚ map_to_list topo →
  findKindCgroupPath id pod (cs_ContainerID status) w = Ok cgroup →
  loadCPUSetFromFile cpuset_Parse (Join [cgroup; "cpuset.cpus"]) w = Ok cpus →
  loadCPUSetFromFile cpuset_Parse (Join [cgroup; "cpuset.mems"]) w = Ok mems →
  let zones := if decide (mems = ∅) then all else mems in
  ∃ cpu_lines,
    report_container cpuset_Parse range id pod all topo w status =
      LContainer (cs_Name status) :: LMemory :: (LZone <$> cpuset_List zones) ++ LCPU :: cpu_lines ++ [LBlank] ∧
    StronglySorted Z.le (cpuset_List zones) ∧
    (∀ n, n ∈ cpuset_List zones ↔ n ∈ zones) ∧
    (∀ n S, LZoneCPUs n S ∈ cpu_lines ↔ ∃ cs, topo !! n = Some cs ∧ S = cs ∩ cpus ∧ S ≠ ∅) ∧
    (∀ c n cs, c ∈ cpus → topo !! n = Some cs → c ∈ cs →
       ∃ S, LZoneCPUs n S ∈ cpu_lines ∧ c ∈ S).
Proof.
  intros Hr Hp Hc Hm zones. exists (omap (zone_line cpus) (range topo)). split_and!.
  - unfold report_container. by rewrite Hp, Hc, Hm.
  - apply (StronglySorted_merge_sort _).
  - intros n. apply cpuset_List_elem.
  - intros n S. by apply zone_lines_elem.
  - intros c n cs Hcc Hn Hcs. exists (cs ∩ cpus). split; [|set_solver].
    apply zone_lines_elem; [done|]. exists cs. split_and!; [done..|set_solver].
Qed.

End props.

(** ** Witnesses: a Kind node on a machine with two NUMA nodes *)

(** A parser for the sets of the example. *)
Definition demo_Parse (s : string) : res CPUSet :=
  if decide (s = "0-1") then Ok {[0; 1]}
  else if decide (s = "2-3") then Ok {[2; 3]}
  else if decide (s = "1-2") then Ok {[1; 2]}
  else if decide (s = "") then Ok ∅
  else Err (Errorf "invalid cpuset %q" [ArgQ s]).

Definition demo_pod : Pod :=
  mkPod "default" "p" "ab-cd" "kind-worker" PodQOSBurstable [mkStatus "c" "containerd://77"].

Definition demo_path : string :=
  "/sys/fs/cgroup/system.slice/docker-d0.scope/kubelet.slice/kubelet-kubepods.slice" +:+
  "/kubelet-kubepods-burstable.slice/kubelet-kubepods-burstable-podab_cd.slice/cri-containerd-77.scope".

Definition demo_machine : MemFS :=
  mkMemFS (list_to_map [
    (nodeRoot, NDir [mkDirEntry "node0" true false; mkDirEntry "node1" true false; mkDirEntry "online" false false]);
    (nodeRoot +:+ "/node0/cpulist", NFile 292 "0-1");
    (nodeRoot +:+ "/node1/cpulist", NFile 292 "2-3");
    (demo_path, NDir []);
    (demo_path +:+ "/cpuset.cpus", NFile 292 "1-2");
    (demo_path +:+ "/cpuset.mems", NFile 292 "")]) ∅.

Definition demo_topo : Topology := {[0 := {[0; 1]}; 1 := {[2; 3]}]}.

Lemma kind_cgroup_path_witness :
  findKindCgroupPath "d0" demo_pod "containerd://77" demo_machine = Ok demo_path.
Proof.
  etransitivity; [apply (kind_cgroup_path "d0" "containerd" "77" demo_pod demo_machine);
    first [reflexivity|by apply (bool_decide_unpack _)]|vm_compute; reflexivity].
Defined.

Lemma report_exact_witness :
  ∃ cpu_lines,
    report_container demo_Parse map_to_list "d0" demo_pod {[0; 1]} demo_topo demo_machine
      (mkStatus "c" "containerd://77") =
      LContainer "c" :: LMemory :: (LZone <$> [0; 1]) ++ LCPU :: cpu_lines ++ [LBlank] ∧
    (∀ n S, LZoneCPUs n S ∈ cpu_lines ↔
       ∃ cs, demo_topo !! n = Some cs ∧ S = cs ∩ {[1; 2]} ∧ S ≠ ∅).
Proof.
  destruct (report_exact demo_Parse map_to_list "d0" demo_pod {[0; 1]} demo_topo demo_machine
    (mkStatus "c" "containerd://77") demo_path {[1; 2]} ∅) as (ls & Hl & _ & _ & Hc & _);
    [reflexivity|vm_compute; reflexivity..|].
  exists ls. split; [exact Hl|exact Hc].
Defined.

(** A fixed file system with the node directories. *)
Definition kind_es : list DirEntry :=
  [mkDirEntry "node0" true false; mkDirEntry "node1" true false; mkDirEntry "online" false false].

#[local] Instance kind_fs : FileSystem unit := {|
  os_Stat path _ := Err (ErrNotExist path);
  os_Lstat path _ := Err (ErrNotExist path);
  os_ReadDir _ _ := Ok kind_es;
  os_ReadFile path _ :=
    if decide (path = nodeRoot +:+ "/node0/cpulist") then Ok "0-1"
    else if decide (path = nodeRoot +:+ "/node1/cpulist") then Ok "2-3"
    else Err (ErrNotExist path);
  os_WriteFile path _ _ w := (Some (ErrNotExist path), w);
  filepath_EvalSymlinks path _ := Ok path;
|}.

#[local] Instance kind_fs_laws : FileSystemLaws unit.
Proof.
  split; intros dir w es [= <-]; by apply (bool_decide_unpack _).
Qed.

Lemma topology_exact_witness :
  demo_topo !! 1 = Some {[2; 3]} ↔
    is_int64 1 ∧ "node" +:+ Itoa 1 ∈ (de_Name <$> kind_es) ∧ is_node_name ("node" +:+ Itoa 1) = true ∧
    loadCPUSetFromFile demo_Parse (Join [node_path 1; "cpulist"]) () = Ok {[2; 3]}.
Proof.
  apply (topology_exact demo_Parse kind_es demo_topo ()); [reflexivity| |vm_compute; reflexivity].
  intros name Hin Hn. cbn in Hin. apply elem_of_cons in Hin as [->|Hin].
  - exists 0. split; [by apply (bool_decide_unpack _)|reflexivity].
  - apply elem_of_cons in Hin as [->|Hin].
    + exists 1. split; [by apply (bool_decide_unpack _)|reflexivity].
    + apply elem_of_cons in Hin as [->|Hin]; [vm_compute in Hn; discriminate|].
      by apply elem_of_nil in Hin.
Defined.

End AlignmentProps.
