(* ===== verification/Workernode.v ===== *)
(** * The worker set-up job (setup/workernode)

    The tool lists the worker nodes of a cluster and prints a Job with one pod
    for each of them. The records below have the fields of the Kubernetes types
    that the source sets; the API client, the selector parser and the YAML
    printer are parameters. What a cluster does with the job is not modelled. *)

From S2P Require Import Prelude GoStrings.
Local Open Scope Z_scope.

Module Workernode.

Definition roleWorker : string := "worker".
Definition labelRole : string := "node-role.kubernetes.io".
Definition labelHostname : string := "kubernetes.io/hostname".

Abbreviation labels := (gmap string string).

Record Node := mkNode {
  node_Name : string;
  node_Labels : labels;
}.

(** ** The job and its parts *)

Record chrootJob := mkChrootJob {
  cj_Name : string;
  cj_Namespace : string;
  cj_ServiceAccount : string;
  cj_Image : string;
  cj_Kubeconfig : string;
}.

Definition chrootJobWithDefaults : chrootJob := mkChrootJob "drasetup" "kube-system" "drasetup" "" "".

(** The message [log.Fatalf] exits with, if a field is missing. *)
Definition ValidateOrFail (cj : chrootJob) : option string :=
  if bool_decide (cj_Namespace cj = "") then Some "missing job namespace"
  else if bool_decide (cj_Name cj = "") then Some "missing job name"
  else if bool_decide (cj_ServiceAccount cj = "") then Some "missing service account"
  else if bool_decide (cj_Image cj = "") then Some "missing image"
  else None.

Inductive HostPathType := HostPathDirectory.
Inductive RestartPolicy := RestartPolicyNever.
Inductive UnsatisfiableConstraintAction := DoNotSchedule.

Record VolumeMount := mkVolumeMount { vm_MountPath : string; vm_Name : string }.
Record Volume := mkVolume { v_Name : string; v_HostPath : string; v_HostPathType : HostPathType }.

Record Container := mkContainer {
  c_Name : string;
  c_Image : string;
  c_Command : list string;
  c_Requests : labels;
  c_Privileged : bool;
  c_RunAsUser : Z;
  c_VolumeMounts : list VolumeMount;
}.

Record TopologySpreadConstraint := mkSpread {
  MaxSkew : Z;
  WhenUnsatisfiable : UnsatisfiableConstraintAction;
  TopologyKey : string;
  MatchLabels : labels;
  MatchLabelKeys : list string;
}.

Record PodSpec := mkPodSpec {
  Containers : list Container;
  ps_RestartPolicy : RestartPolicy;
  ServiceAccountName : string;
  NodeSelector : labels;
  HostNetwork : bool;
  HostPID : bool;
  ps_RunAsUser : Z;
  TopologySpreadConstraints : list TopologySpreadConstraint;
  Volumes : list Volume;
}.

Record Job := mkJob {
  job_APIVersion : string;
  job_Kind : string;
  job_Namespace : string;
  job_GenerateName : string;
  Parallelism : Z;
  Completions : Z;
  pod_Labels : labels;
  pod_Spec : PodSpec;
}.

Definition makeSetupRuntimeJob (cj : chrootJob) (workers : list Node) : res Job :=
  let parallelism := wrap_i32 (zlen workers) in
  let root_ := 0 in
  let true_ := true in
  let jobLabels : labels := {[ "app" := cj_Name cj ]} in
  Ok (mkJob "batch/v1" "Job" (cj_Namespace cj) (cj_Name cj +:+ "-") parallelism parallelism jobLabels
    (mkPodSpec
      [mkContainer "setup-runtime" (cj_Image cj) ["/bin/setup-runtime"]
         (list_to_map [("cpu", "100m"); ("memory", "256Mi")]) true_ root_
         [mkVolumeMount "/etc" "etc"]]
      RestartPolicyNever (cj_ServiceAccount cj)
      {[ labelRole +:+ "/" +:+ roleWorker := "" ]}
      true true root_
      [mkSpread 1 DoNotSchedule "kubernetes.io/hostname" jobLabels ["pod-template-hash"]]
      [mkVolume "etc" "/etc" HostPathDirectory])).

(** ** Listing the workers and main *)

(** The packages of the API client: configurations and client sets, parsing
    and printing label selectors, listing the nodes a selector selects, and
    printing a job. *)
Class Cluster := {
  Config : Type;
  BuildConfigFromFlags : string → res Config;
  InClusterConfig : res Config;
  set_content_types : string → string → Config → Config;
  Clientset : Type;
  NewForConfig : Config → res Clientset;
  Selector : Type;
  labels_Parse : string → res Selector;
  selector_String : Selector → string;
  nodes_List : Clientset → string → res (list Node);
  yaml_Marshal : Job → res string;
}.

Section main.
Context `{!Cluster}.

Definition getNodesBySelector (cs : Clientset) (selector : Selector) : res (list Node) :=
  nodes_List cs (selector_String selector).

Definition getNodesByRole (cs : Clientset) (role : string) : res (list Node) :=
  match labels_Parse (labelRole +:+ "/" +:+ role +:+ "=") with
  | Err err => Err err
  | Ok selector => getNodesBySelector cs selector
  end.

Definition getWorkerNodes (cs : Clientset) : res (list Node) := getNodesByRole cs roleWorker.

Definition createClientset (kubeconfig : string) : res Clientset :=
  let config :=
    if bool_decide (kubeconfig = "") then InClusterConfig else BuildConfigFromFlags kubeconfig in
  match config with
  | Err err => Err err
  | Ok config =>
      NewForConfig (set_content_types "application/vnd.kubernetes.protobuf,application/json"
                      "application/vnd.kubernetes.protobuf" config)
  end.

(** [log.Fatalf] exits with status 1; the standard output is the job. *)
Definition main (cj : chrootJob) : Z * option string :=
  match ValidateOrFail cj with
  | Some _ => (1, None)
  | None =>
      match createClientset (cj_Kubeconfig cj) with
      | Err _ => (1, None)
      | Ok cs =>
          match getWorkerNodes cs with
          | Err _ => (1, None)
          | Ok workers =>
              match makeSetupRuntimeJob cj workers with
              | Err _ => (1, None)
              | Ok job =>
                  match yaml_Marshal job with
                  | Err _ => (1, None)
                  | Ok jobData => (0, Some (jobData +:+ String (chr 10) ""))
                  end
              end
          end
      end
  end.

End main.

End Workernode.

(** * Properties of the job *)
Module WorkernodeProps.
Import Workernode.

(** What a label selector of the form key= selects in a cluster. *)
Class ClusterLaws `{!Cluster} (all : list Node) := {
  List_selects : ∀ cs key selector ns,
    labels_Parse (key +:+ "=") = Ok selector → nodes_List cs (selector_String selector) = Ok ns →
    ns = filter (λ n, node_Labels n !! key = Some "") all;
}.

Definition is_worker (n : Node) : Prop := node_Labels n !! (labelRole +:+ "/" +:+ roleWorker) = Some "".

#[global] Instance is_worker_dec n : Decision (is_worker n).
Proof. unfold is_worker. apply _. Defined.

Section props.
Context `{!Cluster} (all : list Node) `{!ClusterLaws all}.

Lemma getWorkerNodes_spec cs workers :
  getWorkerNodes cs = Ok workers → workers = filter is_worker all.
Proof.
  unfold getWorkerNodes, getNodesByRole, getNodesBySelector.
  destruct (labels_Parse _) as [sel|] eqn:E; [|done]. intros Hl.
  by apply (List_selects cs (labelRole +:+ "/" +:+ roleWorker) sel).
Qed.

(** What makes the tool give up: a missing field of the request, or a call into a
    package that failed. *)
Definition setup_fails (cj : chrootJob) : Prop :=
  (cj_Namespace cj = "" ∨ cj_Name cj = "" ∨ cj_ServiceAccount cj = "" ∨ cj_Image cj = "") ∨
  (∃ e, (if decide (cj_Kubeconfig cj = "") then InClusterConfig
         else BuildConfigFromFlags (cj_Kubeconfig cj)) = Err e) ∨
  (∃ config e, NewForConfig config = Err e) ∨
  (∃ s e, labels_Parse s = Err e) ∨
  (∃ cs s e, nodes_List cs s = Err e) ∨
  (∃ job e, yaml_Marshal job = Err e).

Lemma createClientset_fails cj e : createClientset (cj_Kubeconfig cj) = Err e → setup_fails cj.
Proof.
  unfold createClientset, setup_fails. case_bool_decide as Hk; case_decide; try done;
    match goal with |- context [match ?c with Ok _ => _ | Err _ => _ end] => destruct c end; eauto 10.
Qed.

Lemma getWorkerNodes_fails cj cs e : getWorkerNodes cs = Err e → setup_fails cj.
Proof.
  unfold getWorkerNodes, getNodesByRole, getNodesBySelector, setup_fails.
  destruct (labels_Parse _) eqn:E; eauto 10.
Qed.

(** The documented meaning of a pod's node selector: nodes with all its labels. *)
Definition eligible (job : Job) : list Node :=
  filter (λ n, NodeSelector (pod_Spec job) ⊆ node_Labels n) all.

Lemma eligible_workers cj workers job :
  makeSetupRuntimeJob cj workers = Ok job → eligible job = filter is_worker all.
Proof.
  intros [= <-]. unfold eligible, is_worker. apply list_filter_iff. intros n. cbn [pod_Spec NodeSelector].
  apply map_singleton_subseteq_l.
Qed.

(** C35: the tool prints a job that fits the cluster it was made for, or nothing.
    If it prints anything its exit code is 0 and no field of the request is
    missing; what it prints is the YAML of a job that asks for as many pods as
    there are nodes its own node selector admits, all at once, provided their
    number fits 32 bits, and that the scheduler is to spread over hosts, counting
    the pods of this job. Otherwise it exits with code 1, because a field is
    missing or one of the calls into the client library or the printer failed. *)
Theorem job_matches_cluster (cj : chrootJob) code out :
  main cj = (code, out) →
  (out = None ∧ code = 1 ∧ setup_fails cj) ∨
  ∃ job yaml, out = Some (yaml +:+ String (chr 10) "") ∧ code = 0 ∧ yaml_Marshal job = Ok yaml ∧
    cj_Namespace cj ≠ "" ∧ cj_Name cj ≠ "" ∧ cj_ServiceAccount cj ≠ "" ∧ cj_Image cj ≠ "" ∧
    job_Namespace job = cj_Namespace cj ∧ ServiceAccountName (pod_Spec job) = cj_ServiceAccount cj ∧
    c_Image <$> Containers (pod_Spec job) = [cj_Image cj] ∧
    (is_int32 (zlen (eligible job)) →
       Completions job = zlen (eligible job) ∧ Parallelism job = zlen (eligible job)) ∧
    ∃ c, TopologySpreadConstraints (pod_Spec job) = [c] ∧ TopologyKey c = "kubernetes.io/hostname" ∧
      MaxSkew c = 1 ∧ WhenUnsatisfiable c = DoNotSchedule ∧ MatchLabels c = pod_Labels job ∧
      pod_Labels job !! "app" = Some (cj_Name cj).
Proof.
  unfold main, ValidateOrFail.
  repeat (case_bool_decide; [intros [= <- <-]; left; split_and!; [done..|]; by left; eauto|]).
  destruct (createClientset (cj_Kubeconfig cj)) as [cs|] eqn:Ec;
    [|intros [= <- <-]; left; eauto using createClientset_fails].
  destruct (getWorkerNodes cs) as [workers|] eqn:Ew;
    [|intros [= <- <-]; left; eauto using getWorkerNodes_fails].
  destruct (makeSetupRuntimeJob cj workers) as [job|] eqn:Ej; [|done].
  destruct (yaml_Marshal job) as [yaml|] eqn:Ey; [|intros [= <- <-]; left; unfold setup_fails; eauto 15].
  intros [= <- <-]. right. exists job, yaml. rewrite (eligible_workers _ _ _ Ej).
  rewrite <-(getWorkerNodes_spec _ _ Ew). injection Ej as <-. split_and!; try done.
  - intros Hn. simpl. by rewrite wrap_i32_small.
  - eexists. split_and!; reflexivity.
Qed.

End props.

(** ** Witness: a control plane node and two workers *)

Definition worker_labels : labels := {[ "node-role.kubernetes.io/worker" := "" ]}.

Definition demo_nodes : list Node :=
  [mkNode "cp" ∅; mkNode "w1" worker_labels; mkNode "w2" worker_labels].

#[local] Instance demo_cluster : Cluster := {|
  Config := unit;
  BuildConfigFromFlags _ := Ok ();
  InClusterConfig := Ok ();
  set_content_types _ _ c := c;
  Clientset := unit;
  NewForConfig _ := Ok ();
  Selector := string;
  labels_Parse := Ok;
  selector_String s := s;
  nodes_List _ s :=
    Ok (filter (λ n, node_Labels n !! of_chars (removelast (chars s)) = Some "") demo_nodes);
  yaml_Marshal job := Ok (job_GenerateName job);
|}.

#[local] Instance demo_cluster_laws : ClusterLaws demo_nodes.
Proof.
  split. intros cs key sel ns [= <-]. unfold nodes_List, selector_String, demo_cluster.
  rewrite chars_app. change (chars "=") with ["="%char]. rewrite removelast_last, of_chars_chars.
  congruence.
Qed.

Definition demo_job : chrootJob := mkChrootJob "drasetup" "kube-system" "drasetup" "img" "".

Lemma job_matches_cluster_witness :
  ∃ job, c_Image <$> Containers (pod_Spec job) = ["img"] ∧
    (is_int32 (zlen (eligible demo_nodes job)) →
       Completions job = zlen (eligible demo_nodes job) ∧ Parallelism job = zlen (eligible demo_nodes job)).
Proof.
  destruct (job_matches_cluster demo_nodes demo_job 0 (Some ("drasetup-" +:+ String (chr 10) "")))
    as [[H _]|(job & yaml & _ & _ & _ & _ & _ & _ & _ & _ & _ & Hi & Hc & _)];
    [vm_compute; reflexivity|discriminate H|].
  exists job. split; [exact Hi|exact Hc].
Defined.

End WorkernodeProps.
