(* ===== verification/MemoryDriver.v ===== *)
(** * The entry point of the memory driver (driver/memory)

    One command per run, selected by the flags.
    The driver itself is a third-party package. Every call into a package is a
    parameter that gives its result, and a run is the sequence of those calls
    with its outcome. *)

From S2P Require Import Prelude GoStrings GoPath OS.
Local Open Scope Z_scope.

Module MemoryDriver.

Inductive command :=
  | CVersion | CInspect | CValidate | CManifests | CDaemon.

(** The parameters that select the command; [inspecting] is
    [InspectMode != InspectNone]. *)
Record Params := mkParams {
  DoVersion : bool;
  inspecting : bool;
  DoValidation : bool;
  DoManifests : bool;
}.

(** Results of the package's functions: the logger, the version, and the error
    of each command. *)
Record Command := mkCommand {
  MakeLogger : option goerror;
  GetVersion : option string;
  Inspect : option goerror;
  Validate : option goerror;
  MakeManifests : option goerror;
  RunDaemon : option goerror;
}.

Definition exit_of (err : option goerror) : Z := match err with Some _ => 1 | None => 0 end.

(** The exit status and the commands that ran. *)
Definition main (params : Params) (c : Command) : Z * list command :=
  match MakeLogger c with
  | Some _ => (1, [])
  | None =>
      if DoVersion params then
        (match GetVersion c with None => 1 | Some _ => 0 end, [CVersion])
      else if inspecting params then (exit_of (Inspect c), [CInspect])
      else if DoValidation params then (exit_of (Validate c), [CValidate])
      else if DoManifests params then (exit_of (MakeManifests c), [CManifests])
      else (exit_of (RunDaemon c), [CDaemon])
  end.

End MemoryDriver.

(** * Properties of the memory driver's entry point *)
Module MemoryDriverProps.
Import MemoryDriver.

(** The command of a run is the first one asked for in the order version,
    inspection, validation, manifests, and the daemon if none is; it runs alone,
    and its failure is the exit status. *)
Theorem memory_dispatch (params : Params) (c : Command) :
  MakeLogger c = None →
  ∃ cmd, (main params c).2 = [cmd] ∧
    (cmd = CDaemon ↔ params = mkParams false false false false) ∧
    (DoVersion params = true → cmd = CVersion) ∧
    ((main params c).1 = 0 ∨ (main params c).1 = 1) ∧
    (cmd = CDaemon → (main params c).1 = 0 ↔ RunDaemon c = None).
Proof.
  unfold main. intros ->. destruct params as [[] [] [] []]; simpl; eexists;
    (split; [reflexivity|]); unfold exit_of;
    destruct (GetVersion c), (Inspect c), (Validate c), (MakeManifests c), (RunDaemon c);
    split_and!; try done; auto.
Qed.

End MemoryDriverProps.
