(* ===== verification/Calls.v ===== *)
(** * Sequences of calls

    The entry points of the drivers and the generic validation do little but
    call packages in order and give up at the first error.  [calls E A] is such
    a run: the calls made, which carry their arguments, and the error it ended
    with or its value. *)

From S2P Require Import Prelude.

Definition calls (E A : Type) : Type := list E * res A.

Section calls.
Context {E : Type}.

Definition cret {A} (a : A) : calls E A := ([], Ok a).

Definition cbind {A B} (m : calls E A) (k : A → calls E B) : calls E B :=
  match m with
  | (trace, Err err) => (trace, Err err)
  | (trace, Ok a) => let '(trace', r) := k a in (trace ++ trace', r)
  end.

(** A call with its result, and one that cannot fail. *)
Definition invoke {A} (e : E) (r : res A) : calls E A := ([e], r).
Definition emit (e : E) : calls E unit := ([e], Ok ()).

(** The error of a run as the caller wraps it. *)
Definition on_error {A} (f : goerror → goerror) (m : calls E A) : calls E A :=
  let '(trace, r) := m in (trace, match r with Ok a => Ok a | Err err => Err (f err) end).

(** Calls that are made however the run ends. *)
Definition deferred {A} (m : calls E A) (after : list E) : calls E A :=
  let '(trace, r) := m in (trace ++ after, r).

End calls.

Declare Scope calls_scope.
Delimit Scope calls_scope with calls.
Notation "'let*' x ':=' m 'in' k" := (cbind m (λ x, k))
  (at level 10, x pattern, m at level 100, k at level 200) : calls_scope.
Notation "'do*' m 'in' k" := (cbind m (λ _, k))
  (at level 10, m at level 100, k at level 200) : calls_scope.

Section lemmas.
Context {E A B : Type}.
Implicit Types (m : calls E A) (k : A → calls E B).

Lemma cbind_emit (e : E) (k : unit → calls E B) :
  cbind (emit e) k = let '(trace, r) := k () in (e :: trace, r).
Proof. simpl. by destruct (k ()). Qed.

Lemma cbind_invoke (e : E) (r : res A) k :
  cbind (invoke e r) k =
  match r with Ok a => let '(trace, r) := k a in (e :: trace, r) | Err err => ([e], Err err) end.
Proof. by destruct r. Qed.

(** A run that returned went through both parts. *)
Lemma cbind_Ok m k trace b :
  cbind m k = (trace, Ok b) ↔
  ∃ a t1 t2, m = (t1, Ok a) ∧ k a = (t2, Ok b) ∧ trace = t1 ++ t2.
Proof.
  destruct m as [t1 [a|e]]; simpl.
  - destruct (k a) as [t2 r] eqn:Ek. split.
    + intros [= <- ->]. exists a, t1, t2. by rewrite Ek.
    + intros (a' & t1' & t2' & [= <- <-] & Hk & ->). congruence.
  - split; [done|]. by intros (? & ? & ? & ? & _).
Qed.

(** A run that failed did so in the first part or in the second. *)
Lemma cbind_Err m k trace err :
  cbind m k = (trace, Err err) ↔
  m = (trace, Err err) ∨
  ∃ a t1 t2, m = (t1, Ok a) ∧ k a = (t2, Err err) ∧ trace = t1 ++ t2.
Proof.
  destruct m as [t1 [a|e]]; simpl.
  - destruct (k a) as [t2 r] eqn:Ek. split.
    + intros [= <- ->]. right. exists a, t1, t2. by rewrite Ek.
    + intros [?|(a' & t1' & t2' & [= <- <-] & Hk & ->)]; congruence.
  - split; [intros [= <- <-]; by left|]. by intros [[= <- <-]|(? & ? & ? & ? & _)].
Qed.

End lemmas.
