(* ===== verification/CpuDriver.v ===== *)
(** * The entry point of the CPU driver (driver/cpu)

    The flags with their checks, the start-up and shutdown of the driver with
    what each call is given, the readiness endpoint and the line with the
    version.  The driver, the Kubernetes client and the other packages [main]
    calls are parameters. *)

From S2P Require Import Prelude GoStrings GoPath OS Calls.
Local Open Scope Z_scope.
Local Open Scope calls_scope.

Module CpuDriver.

Definition driverName : string := "dra.cpu".

(** The values the driver package accepts. *)
Record Modes := mkModes {
  CPU_DEVICE_MODE_GROUPED : string;
  CPU_DEVICE_MODE_INDIVIDUAL : string;
  GROUP_BY_SOCKET : string;
  GROUP_BY_NUMA_NODE : string;
}.

(** ** Flags *)

(** The package variables behind the flags. *)
Record flagvars := mkFlags {
  hostnameOverride : string;
  kubeconfig : string;
  bindAddress : string;
  reservedCPUs : string;
  cpuDeviceMode : string;
  groupBy : string;
}.

Section flags.
Context (m : Modes).

(** [newCPUDeviceModeValue] and [newGroupByValue] store the default. *)
Definition newCPUDeviceModeValue (def : string) (v : flagvars) : flagvars :=
  mkFlags (hostnameOverride v) (kubeconfig v) (bindAddress v) (reservedCPUs v) def (groupBy v).

Definition newGroupByValue (def : string) (v : flagvars) : flagvars :=
  mkFlags (hostnameOverride v) (kubeconfig v) (bindAddress v) (reservedCPUs v) (cpuDeviceMode v) def.

Definition cpuDeviceModeValue_String (v : flagvars) : string := cpuDeviceMode v.
Definition groupByValue_String (v : flagvars) : string := groupBy v.

Definition cpuDeviceModeValue_Set (s : string) (v : flagvars) : option goerror * flagvars :=
  if bool_decide (s ≠ CPU_DEVICE_MODE_GROUPED m) && bool_decide (s ≠ CPU_DEVICE_MODE_INDIVIDUAL m) then
    (Some (Errorf "invalid value: %q, must be %s or %s"
             [ArgQ s; ArgS (CPU_DEVICE_MODE_GROUPED m); ArgS (CPU_DEVICE_MODE_INDIVIDUAL m)]), v)
  else (None, newCPUDeviceModeValue s v).

Definition groupByValue_Set (s : string) (v : flagvars) : option goerror * flagvars :=
  if bool_decide (s ≠ GROUP_BY_SOCKET m) && bool_decide (s ≠ GROUP_BY_NUMA_NODE m) then
    (Some (Errorf "invalid value: %q, must be %s or %s"
             [ArgQ s; ArgS (GROUP_BY_SOCKET m); ArgS (GROUP_BY_NUMA_NODE m)]), v)
  else (None, newGroupByValue s v).

(** [init] declares the flags with their defaults. *)
Definition init : flagvars :=
  newGroupByValue (GROUP_BY_NUMA_NODE m)
    (newCPUDeviceModeValue (CPU_DEVICE_MODE_GROUPED m) (mkFlags "" "" ":8080" "" "" "")).

(** An occurrence of one of the flags on the command line. *)
Inductive flag_arg :=
  | FKubeconfig (s : string) | FHostnameOverride (s : string) | FBindAddress (s : string)
  | FReservedCPUs (s : string) | FCpuDeviceMode (s : string) | FGroupBy (s : string).

(** Setting a flag: the two with a type of their own check the value. *)
Definition set_flag (a : flag_arg) (v : flagvars) : option goerror * flagvars :=
  match a with
  | FKubeconfig s =>
      (None, mkFlags (hostnameOverride v) s (bindAddress v) (reservedCPUs v) (cpuDeviceMode v) (groupBy v))
  | FHostnameOverride s =>
      (None, mkFlags s (kubeconfig v) (bindAddress v) (reservedCPUs v) (cpuDeviceMode v) (groupBy v))
  | FBindAddress s =>
      (None, mkFlags (hostnameOverride v) (kubeconfig v) s (reservedCPUs v) (cpuDeviceMode v) (groupBy v))
  | FReservedCPUs s =>
      (None, mkFlags (hostnameOverride v) (kubeconfig v) (bindAddress v) s (cpuDeviceMode v) (groupBy v))
  | FCpuDeviceMode s => cpuDeviceModeValue_Set s v
  | FGroupBy s => groupByValue_Set s v
  end.

(** [flag.Parse] sets them in order and exits at the first error. *)
Fixpoint parse (args : list flag_arg) (v : flagvars) : option goerror * flagvars :=
  match args with
  | [] => (None, v)
  | a :: args =>
      match set_flag a v with
      | (Some err, v) => (Some err, v)
      | (None, v) => parse args v
      end
  end.

End flags.

(** ** Version *)

(** [debug.BuildInfo]: the version of Go and the build settings. *)
Record BuildInfo := mkBuildInfo {
  GoVersion : string;
  Settings : list (string * string);
}.

(** The loop over the settings. *)
Fixpoint vcs (settings : list (string * string)) (vcsRevision vcsTime : string) : string * string :=
  match settings with
  | [] => (vcsRevision, vcsTime)
  | (key, value) :: settings =>
      if bool_decide (key = "vcs.revision") then vcs settings value vcsTime
      else if bool_decide (key = "vcs.time") then vcs settings vcsRevision value
      else vcs settings vcsRevision vcsTime
  end.

(** The line it logs, if any. *)
Definition printVersion (info : option BuildInfo) : option string :=
  match info with
  | None => None
  | Some info =>
      let '(vcsRevision, vcsTime) := vcs (Settings info) "" "" in
      Some ("dracpu go " +:+ GoVersion info +:+ " build: " +:+ vcsRevision +:+ " time: " +:+ vcsTime)
  end.

(** ** The process *)

Inductive Signal := SIGINT | SIGTERM | SIGHUP.

#[global] Instance Signal_eq_dec : EqDecision Signal.
Proof. solve_decision. Defined.

(** [os.Interrupt] is SIGINT. *)
Definition os_Interrupt : Signal := SIGINT.

(** What ends the wait. *)
Inductive wait_end := Received (s : Signal) | ContextDone.

(** How the process ends: [main] returns, or a signal that is not trapped
    kills it. *)
Inductive ended := Returned | Killed (s : Signal).

Definition healthz (ready : bool) : Z := if negb ready then 503 else 200.

Section process.
(** Types of the packages: sets of CPUs, what else a client configuration
    holds, and clients. *)
Context {CPUSet RC Clientset : Type}.

Record restConfig := mkRest {
  rc_rest : RC;
  AcceptContentTypes : string;
  ContentType : string;
}.

(** [driver.Config] *)
Record Config := mkConfig {
  DriverName : string;
  NodeName : string;
  ReservedCPUs : CPUSet;
  CpuDeviceMode : string;
  CPUDeviceGroupBy : string;
}.

(** The calls into packages, with their results. *)
Record Packages := mkPackages {
  cpuset_Parse : string → res CPUSet;
  BuildConfigFromFlags : string → string → res restConfig;
  InClusterConfig : res restConfig;
  NewForConfig : restConfig → res Clientset;
  GetHostname : string → res string;
  driver_Start : Clientset → Config → res unit;
}.

Inductive event :=
  | EvParseCPUSet (s : string)
  | EvListenAndServe (addr : string)
  | EvBuildConfig (master path : string)
  | EvInClusterConfig
  | EvNewForConfig (c : restConfig)
  | EvGetHostname (override : string)
  | EvNotify (signals : list Signal)
  | EvStart (c : Clientset) (cfg : Config)
  | EvReady
  | EvWait
  | EvCancel
  | EvShutdown
  | EvStop
  | EvCloseSignals.

(** [ready] is stored once the driver has started. *)
Fixpoint ready_after (trace : list event) (ready : bool) : bool :=
  match trace with
  | [] => ready
  | EvReady :: trace => ready_after trace true
  | _ :: trace => ready_after trace ready
  end.

Context (p : Packages).

(** [klog.Fatalf] logs and ends the process: no deferred call runs. *)
Definition fatal {A} (fmt : string) (m : calls event A) : calls event A :=
  on_error (λ err, Errorf fmt [ArgW err]) m.

Definition load_config (path : string) : calls event restConfig :=
  fatal "can not create client-go configuration: %v"
    (if negb (bool_decide (path = "")) then invoke (EvBuildConfig "" path) (BuildConfigFromFlags p "" path)
     else invoke EvInClusterConfig (InClusterConfig p)).

(** Protobuf is preferred. *)
Definition use_protobuf (config : restConfig) : restConfig :=
  mkRest (rc_rest config) "application/vnd.kubernetes.protobuf,application/json"
    "application/vnd.kubernetes.protobuf".

(** The start-up of the process, after the flags. *)
Definition start (v : flagvars) : calls event unit :=
  let* reservedCPUSet :=
    fatal "failed to parse reserved CPUs: %v"
      (invoke (EvParseCPUSet (reservedCPUs v)) (cpuset_Parse p (reservedCPUs v))) in
  do* emit (EvListenAndServe (bindAddress v)) in
  let* config := load_config (kubeconfig v) in
  let config := use_protobuf config in
  let* clientset :=
    fatal "can not create client-go client: %v" (invoke (EvNewForConfig config) (NewForConfig p config)) in
  let* nodeName :=
    fatal "can not obtain the node name, use the hostname-override flag if you want to set it to a specific value: %v"
      (invoke (EvGetHostname (hostnameOverride v)) (GetHostname p (hostnameOverride v))) in
  do* emit (EvNotify [os_Interrupt; SIGINT]) in
  let driverConfig := mkConfig driverName nodeName reservedCPUSet (cpuDeviceMode v) (groupBy v) in
  do* fatal "driver failed to start: %v"
        (invoke (EvStart clientset driverConfig) (driver_Start p clientset driverConfig)) in
  emit EvReady.

(** The signals that are relayed to the channel rather than kill the process:
    those of the calls of [signal.Notify] made so far. *)
Definition notified (trace : list event) : list Signal :=
  trace ≫= λ e, match e with EvNotify signals => signals | _ => [] end.

(** From the wait on; the server is shut down before the deferred calls run. *)
Definition finish (trapped : list Signal) (w : wait_end) : calls event ended :=
  do* emit EvWait in
  match w with
  | Received s =>
      if bool_decide (s ∈ trapped) then ([EvCancel; EvShutdown; EvStop; EvCloseSignals; EvCancel], Ok Returned)
      else ([], Ok (Killed s))
  | ContextDone => ([EvShutdown; EvStop; EvCloseSignals; EvCancel], Ok Returned)
  end.

(** [main] after the flags. *)
Definition main (v : flagvars) (w : wait_end) : calls event ended :=
  let trapped := notified (start v).1 in
  do* start v in finish trapped w.

End process.
End CpuDriver.

(** * Properties of the CPU driver's entry point *)
Module CpuDriverProps.
Import CpuDriver.

Section cpu_flags.
Context (m : Modes).

Definition modes_ok (v : flagvars) : Prop :=
  cpuDeviceMode v ∈ [CPU_DEVICE_MODE_GROUPED m; CPU_DEVICE_MODE_INDIVIDUAL m] ∧
  groupBy v ∈ [GROUP_BY_SOCKET m; GROUP_BY_NUMA_NODE m].

(** The values given for each checked flag. *)
Definition device_modes (args : list flag_arg) : list string :=
  omap (λ a, match a with FCpuDeviceMode s => Some s | _ => None end) args.
Definition group_bys (args : list flag_arg) : list string :=
  omap (λ a, match a with FGroupBy s => Some s | _ => None end) args.

Lemma default_last_cons (x d : string) l : default d (last (x :: l)) = default x (last l).
Proof. rewrite last_cons. by destruct (last l). Qed.

Lemma parse_spec args v err v' :
  modes_ok v → parse m args v = (err, v') →
  modes_ok v' ∧
  (err = None → cpuDeviceMode v' = default (cpuDeviceMode v) (last (device_modes args)) ∧
                groupBy v' = default (groupBy v) (last (group_bys args))).
Proof.
  revert v. induction args as [|a args IH]; intros v Hv; cbn [parse set_flag]; [by intros [= <- <-]|].
  destruct a as [s|s|s|s|s|s]; cbn [set_flag];
    try (match goal with |- context [parse m args ?v1] => exact (IH v1 Hv) end).
  - unfold cpuDeviceModeValue_Set. case_cond; [by intros [= <- <-]|].
    cbn [device_modes omap list_omap]. rewrite default_last_cons. apply (IH (newCPUDeviceModeValue s v)).
    destruct Hv. split; [|done]. simpl. do 2 case_bool_decide; try done; set_solver.
  - unfold groupByValue_Set. case_cond; [by intros [= <- <-]|].
    cbn [group_bys omap list_omap]. rewrite default_last_cons. apply (IH (newGroupByValue s v)).
    destruct Hv. split; [done|]. simpl. do 2 case_bool_decide; try done; set_solver.
Qed.

(** The flags of the CPU driver always hold values the driver accepts,
    whatever the command line: a refused value changes nothing, and without
    errors each flag has the last value given for it, or its default. *)
Theorem cpu_flags_valid (args : list flag_arg) :
  let '(err, v) := parse m args (init m) in
  cpuDeviceMode v ∈ [CPU_DEVICE_MODE_GROUPED m; CPU_DEVICE_MODE_INDIVIDUAL m] ∧
  groupBy v ∈ [GROUP_BY_SOCKET m; GROUP_BY_NUMA_NODE m] ∧
  (err = None →
     cpuDeviceMode v = default (CPU_DEVICE_MODE_GROUPED m) (last (device_modes args)) ∧
     groupBy v = default (GROUP_BY_NUMA_NODE m) (last (group_bys args))).
Proof.
  destruct (parse m args (init m)) as [err v] eqn:E.
  apply parse_spec in E as [[? ?] ?]; [done|]. split; simpl; set_solver.
Qed.

End cpu_flags.

Section lifecycle.
Context {CPUSet RC Clientset : Type} (p : @Packages CPUSet RC Clientset).

(** The calls after the driver is ready. *)
Definition shutdown_calls (w : wait_end) : list (@event CPUSet RC Clientset) * ended :=
  match w with
  | Received SIGINT => ([EvCancel; EvShutdown; EvStop; EvCloseSignals; EvCancel], Returned)
  | Received s => ([], Killed s)
  | ContextDone => ([EvShutdown; EvStop; EvCloseSignals; EvCancel], Returned)
  end.

(** The one call that loads the client configuration. *)
Definition config_call (path : string) : @event CPUSet RC Clientset :=
  if decide (path = "") then EvInClusterConfig else EvBuildConfig "" path.

Definition config_of (path : string) : res restConfig :=
  if decide (path = "") then InClusterConfig p else BuildConfigFromFlags p "" path.

Lemma load_config_eq path :
  load_config p path = fatal "can not create client-go configuration: %v" (invoke (config_call path) (config_of path)).
Proof. unfold load_config, config_call, config_of. by case_decide; case_bool_decide. Qed.

(** The configuration the client is made of. *)
Definition protobuf (config : @restConfig RC) : restConfig :=
  mkRest (rc_rest config) "application/vnd.kubernetes.protobuf,application/json"
    "application/vnd.kubernetes.protobuf".

(** What the driver is to be started with. *)
Definition driver_config (v : flagvars) (node : string) (set : CPUSet) : Config :=
  mkConfig "dra.cpu" node set (cpuDeviceMode v) (groupBy v).

(** The calls of the start-up up to one that fails, or all of them: each is made
    once, in this order, with the values the calls before it gave. *)
Inductive starts (v : flagvars) : list (@event CPUSet RC Clientset) → option goerror → Prop :=
  | bad_reserved e :
      cpuset_Parse p (reservedCPUs v) = Err e →
      starts v [EvParseCPUSet (reservedCPUs v)] (Some (Errorf "failed to parse reserved CPUs: %v" [ArgW e]))
  | no_config set e :
      cpuset_Parse p (reservedCPUs v) = Ok set → config_of (kubeconfig v) = Err e →
      starts v [EvParseCPUSet (reservedCPUs v); EvListenAndServe (bindAddress v); config_call (kubeconfig v)]
        (Some (Errorf "can not create client-go configuration: %v" [ArgW e]))
  | no_client set config e :
      cpuset_Parse p (reservedCPUs v) = Ok set → config_of (kubeconfig v) = Ok config →
      NewForConfig p (protobuf config) = Err e →
      starts v [EvParseCPUSet (reservedCPUs v); EvListenAndServe (bindAddress v); config_call (kubeconfig v);
                EvNewForConfig (protobuf config)]
        (Some (Errorf "can not create client-go client: %v" [ArgW e]))
  | no_node set config c e :
      cpuset_Parse p (reservedCPUs v) = Ok set → config_of (kubeconfig v) = Ok config →
      NewForConfig p (protobuf config) = Ok c → GetHostname p (hostnameOverride v) = Err e →
      starts v [EvParseCPUSet (reservedCPUs v); EvListenAndServe (bindAddress v); config_call (kubeconfig v);
                EvNewForConfig (protobuf config); EvGetHostname (hostnameOverride v)]
        (Some (Errorf "can not obtain the node name, use the hostname-override flag if you want to set it to a specific value: %v" [ArgW e]))
  | driver_started set config c node r :
      cpuset_Parse p (reservedCPUs v) = Ok set → config_of (kubeconfig v) = Ok config →
      NewForConfig p (protobuf config) = Ok c → GetHostname p (hostnameOverride v) = Ok node →
      driver_Start p c (driver_config v node set) = r →
      starts v [EvParseCPUSet (reservedCPUs v); EvListenAndServe (bindAddress v); config_call (kubeconfig v);
                EvNewForConfig (protobuf config); EvGetHostname (hostnameOverride v);
                EvNotify [SIGINT; SIGINT]; EvStart c (driver_config v node set)]
        (match r with Ok _ => None | Err e => Some (Errorf "driver failed to start: %v" [ArgW e]) end).

(** The start-up makes those calls, and then the driver is ready. *)
Lemma start_starts v :
  ∃ trace err, starts v trace err ∧
    start p v = match err with Some err => (trace, Err err) | None => (trace ++ [EvReady], Ok ()) end.
Proof.
  unfold start. rewrite load_config_eq. unfold fatal, on_error, invoke, emit. cbn [cbind].
  destruct (cpuset_Parse p (reservedCPUs v)) as [set|] eqn:Eset;
    [|eexists _, _; split; [by apply bad_reserved|done]]. cbn [cbind].
  destruct (config_of (kubeconfig v)) as [config|] eqn:Econf;
    [|eexists _, _; split; [by eapply no_config|done]]. cbn [cbind].
  change (use_protobuf config) with (protobuf config).
  destruct (NewForConfig p (protobuf config)) as [c|] eqn:Ec;
    [|eexists _, _; split; [by eapply no_client|done]]. cbn [cbind].
  destruct (GetHostname p (hostnameOverride v)) as [node|] eqn:En;
    [|eexists _, _; split; [by eapply no_node|done]]. cbn [cbind].
  change (mkConfig driverName node set (cpuDeviceMode v) (groupBy v)) with (driver_config v node set).
  eexists _, _. split; [by eapply driver_started|].
  by destruct (driver_Start p c (driver_config v node set)) as [[]|].
Qed.

(** No call of the start-up sets the readiness or belongs to the shutdown. *)
Definition startup_event (e : @event CPUSet RC Clientset) : Prop :=
  match e with
  | EvReady | EvWait | EvCancel | EvShutdown | EvStop | EvCloseSignals => False
  | _ => True
  end.

Lemma starts_events v trace err :
  starts v trace err → Forall startup_event trace ∧ (err = None → length trace = 7%nat ∧ notified trace = [SIGINT; SIGINT]).
Proof.
  assert (startup_event (config_call (kubeconfig v))) by (unfold config_call; by case_decide).
  destruct 1; (split; [by repeat constructor|]); try done.
  intros _. split; [done|]. unfold config_call. by case_decide.
Qed.

Lemma ready_after_spec (t : list (@event CPUSet RC Clientset)) b :
  ready_after t b = b || existsb (λ e, match e with EvReady => true | _ => false end) t.
Proof.
  revert b. induction t as [|e t IH]; intros b; simpl; [by rewrite orb_false_r|].
  destruct e; rewrite IH; destruct b; done.
Qed.

Lemma startup_not_ready t k : Forall startup_event t → ready_after (take k t) false = false.
Proof.
  intros Ht%(Forall_take _ k). rewrite ready_after_spec. simpl. induction Ht as [|[] ? ? ? IH]; done.
Qed.

Lemma ready_at t rest k :
  Forall startup_event t →
  healthz (ready_after (take k (t ++ EvReady :: rest)) false) = 200 ↔ (length t < k)%nat.
Proof.
  intros Ht. destruct (decide (length t < k)%nat) as [Hk|Hk].
  - rewrite take_app_ge by lia. replace (k - length t)%nat with (S (k - length t - 1)) by lia. cbn [take].
    rewrite ready_after_spec, existsb_app. cbn [existsb]. by rewrite !orb_true_r.
  - rewrite take_app_le by lia. rewrite startup_not_ready by done. done.
Qed.

Lemma finish_eq w :
  finish [SIGINT; SIGINT] w = (EvWait :: (shutdown_calls w).1, Ok (shutdown_calls w).2).
Proof. by destruct w as [[]|]. Qed.

(** A run of [main] is a start-up that failed, or one and then the wait. *)
Lemma main_spec v w :
  ∃ trace err, starts v trace err ∧
    main p v w =
    match err with
    | Some err => (trace, Err err)
    | None => (trace ++ EvReady :: EvWait :: (shutdown_calls w).1, Ok (shutdown_calls w).2)
    end.
Proof.
  destruct (start_starts v) as (trace & err & Hs & E). exists trace, err. split; [done|].
  unfold main. rewrite E. destruct err as [err|]; [done|]. cbn [fst].
  destruct (starts_events _ _ _ Hs) as [_ [_ Hn]]; [done|].
  replace (notified (trace ++ [EvReady])) with [SIGINT; SIGINT]
    by (unfold notified in *; rewrite bind_app, Hn; done).
  rewrite finish_eq. cbn [cbind]. by rewrite <-app_assoc.
Qed.

(** C37: the life of the CPU driver. The start-up makes its calls once each, in
    this order and with the values the flags and the earlier calls give: the
    reserved CPUs, the HTTP server, the client configuration the flags select, a
    client that prefers protobuf, the node name, the handler for interrupts, and
    then the driver; at the first call that fails the run ends, with that error
    and no further call. Once the driver started, /healthz answers 200, and not
    before; an interrupt then ends the run through the shutdown of the server
    and the driver, in that order, and any other signal kills it without. *)
Theorem cpu_driver_lifecycle (v : flagvars) (w : wait_end) :
  let '(trace, r) := main p v w in
  (∀ k, healthz (ready_after (take k trace) false) = 200 ↔ is_ok r = true ∧ (8 <= k)%nat) ∧
  match r with
  | Err err => starts v trace (Some err)
  | Ok e =>
      ∃ started, starts v started None ∧
        trace = started ++ EvReady :: EvWait :: (shutdown_calls w).1 ∧ e = (shutdown_calls w).2
  end.
Proof.
  destruct (main_spec v w) as (t & [err|] & Hs & ->); destruct (starts_events _ _ _ Hs) as [Ht Hlen].
  - split; [|done]. intros k. rewrite startup_not_ready by done. by split; [|intros []].
  - split; [|by exists t]. intros k. rewrite ready_at by done. destruct (Hlen eq_refl) as [-> _].
    split; [intros; split; [done|lia]|intros []; lia].
Qed.

(** SIGTERM, which stops a container, is not trapped ([os.Interrupt] and
    [unix.SIGINT] are the same signal): neither the server nor the driver is
    shut down. *)
Theorem cpu_sigterm_kills (v : flagvars) trace e :
  main p v (Received SIGTERM) = (trace, Ok e) →
  e = Killed SIGTERM ∧ (EvShutdown ∉ trace) ∧ (EvStop ∉ trace).
Proof.
  destruct (main_spec v (Received SIGTERM)) as (t & [err|] & Hs & ->); [done|].
  destruct (starts_events _ _ _ Hs) as [Ht _]. intros [= <- <-]. split; [done|].
  rewrite Forall_forall in Ht.
  split; rewrite elem_of_app, !elem_of_cons, elem_of_nil;
    (intros [Hin|[?|[?|[]]]]; [by apply (Ht _ Hin)|done..]).
Qed.

End lifecycle.

(** The last setting of each name is reported. *)
Lemma vcs_spec settings rev time :
  vcs settings rev time =
  (default rev (last (snd <$> filter (λ kv, kv.1 = "vcs.revision") settings)),
   default time (last (snd <$> filter (λ kv, kv.1 = "vcs.time") settings))).
Proof.
  revert rev time. induction settings as [|[k x] settings IH]; intros rev time; [done|].
  rewrite !filter_cons. cbn [vcs fst].
  case_bool_decide; [|case_bool_decide]; repeat case_decide; simplify_eq; rewrite IH;
    rewrite ?fmap_cons, ?default_last_cons; done.
Qed.
End CpuDriverProps.
