(* ===== verification/SriovDriver.v ===== *)
(** * The entry point of the SR-IOV driver (driver/sriov)

    The command line application with its flags and [RunPlugin]: the order in
    which the parts of the driver are started and stopped, and what each is
    given.  The driver itself, the command line library and the Kubernetes
    packages are third-party: their results are parameters. *)

From S2P Require Import Prelude GoStrings GoPath OS Calls.
Local Open Scope Z_scope.
Local Open Scope calls_scope.

Module SriovDriver.

(** ** The flags *)

(** [types.Flags]: the fields the application's own flags set. *)
Record Flags := mkFlags {
  NodeName : string;
  CdiRoot : string;
  KubeletRegistrarDirectoryPath : string;
  KubeletPluginsDirectoryPath : string;
  HealthcheckPort : Z;
  DefaultInterfacePrefix : string;
  Namespace : string;
}.

(** [cli.StringFlag] and [cli.IntFlag]; the destination is the field they set. *)
Inductive cli_flag :=
  | StringFlag (name : string) (required : bool) (value : string) (envVars : list string)
      (destination : string → Flags → Flags)
  | IntFlag (name : string) (value : Z) (envVars : list string) (destination : Z → Flags → Flags).

Definition flag_name (f : cli_flag) : string :=
  match f with StringFlag n _ _ _ _ => n | IntFlag n _ _ _ => n end.
Definition flag_env (f : cli_flag) : list string :=
  match f with StringFlag _ _ _ e _ => e | IntFlag _ _ e _ => e end.

(** [flagsOptions] before anything is parsed. *)
Definition no_flags : Flags := mkFlags "" "" "" "" 0 "" "".

Section app.
(** The directories of the kubelet. *)
Context (KubeletRegistryDir KubeletPluginsDir : string).
(** The value the command line library finds for a flag, on the command line
    or in one of its environment variables. *)
Context (given : string → list string → option string).
Context (given_int : string → list string → option Z).
(** Its error for required flags that are missing. *)
Context (required_error : list string → goerror).

Definition cliFlags : list cli_flag := [
  StringFlag "node-name" true "" ["NODE_NAME"]
    (λ s f, mkFlags s (CdiRoot f) (KubeletRegistrarDirectoryPath f) (KubeletPluginsDirectoryPath f)
              (HealthcheckPort f) (DefaultInterfacePrefix f) (Namespace f));
  StringFlag "cdi-root" false "/var/run/cdi" ["CDI_ROOT"]
    (λ s f, mkFlags (NodeName f) s (KubeletRegistrarDirectoryPath f) (KubeletPluginsDirectoryPath f)
              (HealthcheckPort f) (DefaultInterfacePrefix f) (Namespace f));
  StringFlag "kubelet-registrar-directory-path" false KubeletRegistryDir ["KUBELET_REGISTRAR_DIRECTORY_PATH"]
    (λ s f, mkFlags (NodeName f) (CdiRoot f) s (KubeletPluginsDirectoryPath f)
              (HealthcheckPort f) (DefaultInterfacePrefix f) (Namespace f));
  StringFlag "kubelet-plugins-directory-path" false KubeletPluginsDir ["KUBELET_PLUGINS_DIRECTORY_PATH"]
    (λ s f, mkFlags (NodeName f) (CdiRoot f) (KubeletRegistrarDirectoryPath f) s
              (HealthcheckPort f) (DefaultInterfacePrefix f) (Namespace f));
  IntFlag "healthcheck-port" (-1) ["HEALTHCHECK_PORT"]
    (λ z f, mkFlags (NodeName f) (CdiRoot f) (KubeletRegistrarDirectoryPath f) (KubeletPluginsDirectoryPath f)
              z (DefaultInterfacePrefix f) (Namespace f));
  StringFlag "default-interface-prefix" false "vfnet" ["DEFAULT_INTERFACE_PREFIX"]
    (λ s f, mkFlags (NodeName f) (CdiRoot f) (KubeletRegistrarDirectoryPath f) (KubeletPluginsDirectoryPath f)
              (HealthcheckPort f) s (Namespace f));
  StringFlag "namespace" false "dra-sriov-driver" ["NAMESPACE"]
    (λ s f, mkFlags (NodeName f) (CdiRoot f) (KubeletRegistrarDirectoryPath f) (KubeletPluginsDirectoryPath f)
              (HealthcheckPort f) (DefaultInterfacePrefix f) s)].

(** A flag stores what was given for it, or its value. *)
Definition apply_flag (f : cli_flag) (opts : Flags) : Flags :=
  match f with
  | StringFlag name _ value envVars dest => dest (default value (given name envVars)) opts
  | IntFlag name value envVars dest => dest (default value (given_int name envVars)) opts
  end.

Definition missing (f : cli_flag) : option string :=
  match f with
  | StringFlag name true _ envVars _ =>
      match given name envVars with Some _ => None | None => Some name end
  | _ => None
  end.

Definition parse_flags : res Flags :=
  match omap missing cliFlags with
  | [] => Ok (foldl (λ opts f, apply_flag f opts) no_flags cliFlags)
  | names => Err (required_error names)
  end.

(** ** The plugin *)

Inductive Signal := SIGHUP | SIGINT | SIGTERM | SIGQUIT.

#[global] Instance Signal_eq_dec : EqDecision Signal.
Proof. solve_decision. Defined.

Inductive event :=
  | MkdirAll (path : string) (perm : Z) | Stat (path : string) | NotifyContext (signals : list Signal)
  | NewCDIHandler (root : string) | NewDeviceState | NewPodManager | DriverStart | SetRepublishCallback
  | NewClientSetConfig | NewManager (watched : list string) | SetupController (node namespace : string)
  | ManagerStart | WaitForCacheSync | CancelCtx | NewCNI (name : string) (dirs : list string)
  | NewNRIPlugin | NRIStart | WaitDone | StopSignals | LogCause | NRIStop | DriverShutdown.

#[global] Instance event_eq_dec : EqDecision event.
Proof. solve_decision. Defined.

(** Results of the calls. [e_stat] is the CDI root; [e_cause] the cause the
    context ended with, [e_canceled] whether it is the plain cancellation. The
    error of the final shutdown is only logged. *)
Record Env := mkEnv {
  DriverPluginPath : string;
  DriverName : string;
  e_mkdir : res unit;
  e_stat : res FileInfo;
  e_mkdir_cdi : res unit;
  e_cdi : res unit;
  e_state : res unit;
  e_pods : res unit;
  e_driver : res unit;
  e_rest : res unit;
  e_manager : res unit;
  e_controller : res unit;
  e_synced : bool;
  e_nri : res unit;
  e_nri_start : res unit;
  e_cause : option goerror;
  e_canceled : bool;
}.

(** The error of a call, wrapped. *)
Definition wrapped {A} (fmt : string) (m : calls event A) : calls event A :=
  on_error (λ err, Errorf fmt [ArgW err]) m.

(** From the end of the context on. *)
Definition shutdown (env : Env) : calls event unit :=
  do* emit StopSignals in
  do* (match e_cause env with
       | Some _ => if negb (e_canceled env) then emit LogCause else cret ()
       | None => cret ()
       end) in
  do* emit NRIStop in
  emit DriverShutdown.

(** From the signal handler on; the caller adds the deferred [stop]. *)
Definition serve (opts : Flags) (env : Env) : calls event unit :=
  do* wrapped "unable to create CDI handler: %v" (invoke (NewCDIHandler (CdiRoot opts)) (e_cdi env)) in
  do* invoke NewDeviceState (e_state env) in
  do* invoke NewPodManager (e_pods env) in
  do* wrapped "failed to start DRA driver: %w" (invoke DriverStart (e_driver env)) in
  do* emit SetRepublishCallback in
  do* wrapped "failed to create REST config: %w" (invoke NewClientSetConfig (e_rest env)) in
  do* wrapped "failed to create controller manager: %w" (invoke (NewManager [Namespace opts]) (e_manager env)) in
  do* wrapped "failed to setup resource filter controller: %w"
        (invoke (SetupController (NodeName opts) (Namespace opts)) (e_controller env)) in
  do* emit ManagerStart in
  do* emit WaitForCacheSync in
  if negb (e_synced env) then invoke CancelCtx (Err (Errorf "cache not synced" []))
  else
  do* emit (NewCNI (DriverName env) ["/opt/cni/bin"]) in
  do* wrapped "failed to create NRI plugin: %w" (invoke NewNRIPlugin (e_nri env)) in
  do* wrapped "failed to start NRI plugin: %w" (invoke NRIStart (e_nri_start env)) in
  do* emit WaitDone in
  shutdown env.

Definition trapped : list Signal := [SIGHUP; SIGINT; SIGTERM; SIGQUIT].

Definition RunPlugin (opts : Flags) (env : Env) : calls event unit :=
  do* invoke (MkdirAll (DriverPluginPath env) 488) (e_mkdir env) in
  do* emit (Stat (CdiRoot opts)) in
  do* (match e_stat env with
       | Err (ErrNotExist _) => invoke (MkdirAll (CdiRoot opts) 488) (e_mkdir_cdi env)
       | Err err => ([], Err err)
       | Ok info =>
           if negb (fi_IsDir info) then
             ([], Err (Errorf "path for cdi file generation is not a directory: '%v'" [ArgS "<nil>"]))
           else cret ()
       end) in
  do* emit (NotifyContext trapped) in
  deferred (serve opts env) [StopSignals].

(** The application: missing flags and extra arguments are refused before the
    action runs, whose first step is the client. *)
Definition app_Run (args : list string) (apply_logging new_client : option goerror) (env : Env)
  : calls event unit :=
  match parse_flags with
  | Err err => ([], Err err)
  | Ok opts =>
      if negb (zlen args =? 0) then
        ([], Err (Errorf "arguments not supported: %v" [ArgS ("[" +:+ String.concat " " args +:+ "]")]))
      else
        match apply_logging with
        | Some err => ([], Err err)
        | None =>
            match new_client with
            | Some err => ([], Err (Errorf "create client: %v" [ArgW err]))
            | None => RunPlugin opts env
            end
        end
  end.

Definition main (args : list string) (apply_logging new_client : option goerror) (env : Env)
  : Z * list event :=
  let '(trace, r) := app_Run args apply_logging new_client env in
  (match r with Err _ => 1 | Ok _ => 0 end, trace).

End app.

End SriovDriver.

(** * Properties of the SR-IOV driver's entry point *)
Module SriovDriverProps.
Import SriovDriver.

(** The calls of the shutdown. *)
Definition shutdown_calls (env : Env) : list event :=
  StopSignals ::
  (match e_cause env with Some _ => if e_canceled env then [] else [LogCause] | None => [] end) ++
  [NRIStop; DriverShutdown].

(** The error of a call as it is returned, if it fails. *)
Definition failure {A} (wrap : goerror → goerror) (r : res A) : option goerror :=
  match r with Ok _ => None | Err err => Some (wrap err) end.

Definition as_is (err : goerror) : goerror := err.

(** The calls of the start-up, in order, each with the error the plugin is to
    return if it fails. The directory of the CDI files is made only if it is
    missing. *)
Definition plan (opts : Flags) (env : Env) : list (event * option goerror) :=
  [(MkdirAll (DriverPluginPath env) 488, failure as_is (e_mkdir env));
   (Stat (CdiRoot opts),
    match e_stat env with
    | Err (ErrNotExist _) => None
    | Err err => Some err
    | Ok info =>
        if fi_IsDir info then None
        else Some (Errorf "path for cdi file generation is not a directory: '%v'" [ArgS "<nil>"])
    end)] ++
  (match e_stat env with
   | Err (ErrNotExist _) => [(MkdirAll (CdiRoot opts) 488, failure as_is (e_mkdir_cdi env))]
   | _ => []
   end) ++
  [(NotifyContext [SIGHUP; SIGINT; SIGTERM; SIGQUIT], None);
   (NewCDIHandler (CdiRoot opts), failure (λ err, Errorf "unable to create CDI handler: %v" [ArgW err]) (e_cdi env));
   (NewDeviceState, failure as_is (e_state env));
   (NewPodManager, failure as_is (e_pods env));
   (DriverStart, failure (λ err, Errorf "failed to start DRA driver: %w" [ArgW err]) (e_driver env));
   (SetRepublishCallback, None);
   (NewClientSetConfig, failure (λ err, Errorf "failed to create REST config: %w" [ArgW err]) (e_rest env));
   (NewManager [Namespace opts],
    failure (λ err, Errorf "failed to create controller manager: %w" [ArgW err]) (e_manager env));
   (SetupController (NodeName opts) (Namespace opts),
    failure (λ err, Errorf "failed to setup resource filter controller: %w" [ArgW err]) (e_controller env));
   (ManagerStart, None);
   (WaitForCacheSync, if e_synced env then None else Some (Errorf "cache not synced" []));
   (NewCNI (DriverName env) ["/opt/cni/bin"], None);
   (NewNRIPlugin, failure (λ err, Errorf "failed to create NRI plugin: %w" [ArgW err]) (e_nri env));
   (NRIStart, failure (λ err, Errorf "failed to start NRI plugin: %w" [ArgW err]) (e_nri_start env));
   (WaitDone, None)].

Definition succeeds (c : event * option goerror) : Prop := c.2 = None.

(** A run that stopped at call [n] of the plan, and one that did not stop. *)
Local Ltac stops n :=
  hnf; match goal with |- ∃ pre ev post, ?pl = @?q pre ev post ∧ _ =>
    exists (take n pl); eexists; exists (drop (S n) pl); split; [reflexivity|];
    split; [repeat constructor|reflexivity]
  end.
Local Ltac completes := split; [repeat constructor|reflexivity].

(** The cases of [serve] after the signal handler was installed as call [n]. *)
Local Ltac serve_cases env n :=
  destruct (e_cdi env) as [[]|]; [|stops (n + 1)%nat]; destruct (e_state env) as [[]|]; [|stops (n + 2)%nat];
  destruct (e_pods env) as [[]|]; [|stops (n + 3)%nat]; destruct (e_driver env) as [[]|]; [|stops (n + 4)%nat];
  destruct (e_rest env) as [[]|]; [|stops (n + 6)%nat]; destruct (e_manager env) as [[]|]; [|stops (n + 7)%nat];
  destruct (e_controller env) as [[]|]; [|stops (n + 8)%nat]; destruct (e_synced env); [|stops (n + 10)%nat];
  destruct (e_nri env) as [[]|]; [|stops (n + 12)%nat]; destruct (e_nri_start env) as [[]|]; [|stops (n + 13)%nat];
  destruct (e_cause env) as [?|]; [destruct (e_canceled env)|]; completes.

(** C36: the life of the SR-IOV driver: it makes the calls of its start-up in a
    fixed order, each with the values of the flags. If one fails, it is the first
    that does: all before it succeeded, none after it is made, and its error is
    the one returned; a cache that does not sync also cancels the context, and
    the signal handler is released if it was installed. Otherwise no call failed
    and all were made; then, when the context ends, the NRI plugin and after it
    the driver are stopped. *)
Theorem plugin_lifecycle (opts : Flags) (env : Env) :
  let '(trace, r) := RunPlugin opts env in
  match r with
  | Ok _ =>
      Forall succeeds (plan opts env) ∧
      trace = (plan opts env).*1 ++ shutdown_calls env ++ [StopSignals]
  | Err err =>
      ∃ pre ev post, plan opts env = pre ++ (ev, Some err) :: post ∧ Forall succeeds pre ∧
        trace = pre.*1 ++ [ev] ++
          (if decide (ev = WaitForCacheSync) then [CancelCtx] else []) ++
          (if decide (NotifyContext [SIGHUP; SIGINT; SIGTERM; SIGQUIT] ∈ pre.*1) then [StopSignals] else [])
  end.
Proof.
  unfold RunPlugin, serve, shutdown, shutdown_calls, plan, wrapped, on_error, invoke, emit, cret.
  destruct (e_mkdir env) as [[]|]; [|stops 0%nat].
  destruct (e_stat env) as [info|e] eqn:Es; [|destruct e]; try (simpl; stops 1%nat).
  - destruct (fi_IsDir info); [serve_cases env 2%nat|stops 1%nat].
  - destruct (e_mkdir_cdi env) as [[]|]; [serve_cases env 3%nat|stops 2%nat].
Qed.

(** Every flag sets the field it is for, to what was given or its default; only
    the node is required, and no two flags share a name or a variable. *)
Theorem sriov_flags (reg plug : string) given given_int required_error :
  parse_flags reg plug given given_int required_error =
  match given "node-name" ["NODE_NAME"] with
  | None => Err (required_error ["node-name"])
  | Some node =>
      Ok {| NodeName := node;
            CdiRoot := default "/var/run/cdi" (given "cdi-root" ["CDI_ROOT"]);
            KubeletRegistrarDirectoryPath :=
              default reg (given "kubelet-registrar-directory-path" ["KUBELET_REGISTRAR_DIRECTORY_PATH"]);
            KubeletPluginsDirectoryPath :=
              default plug (given "kubelet-plugins-directory-path" ["KUBELET_PLUGINS_DIRECTORY_PATH"]);
            HealthcheckPort := default (-1) (given_int "healthcheck-port" ["HEALTHCHECK_PORT"]);
            DefaultInterfacePrefix := default "vfnet" (given "default-interface-prefix" ["DEFAULT_INTERFACE_PREFIX"]);
            Namespace := default "dra-sriov-driver" (given "namespace" ["NAMESPACE"]) |}
  end ∧
  NoDup (flag_name <$> cliFlags reg plug) ∧ NoDup (cliFlags reg plug ≫= flag_env).
Proof.
  split; [unfold parse_flags; cbn; by destruct (given "node-name" ["NODE_NAME"])|].
  split; apply (bool_decide_unpack _); vm_compute; done.
Qed.

End SriovDriverProps.
