(* ===== verification/GenericAlignment.v ===== *)
(** * The alignment check inside a container (validation/generic/alignment)

    [main] discovers the resources of the container and of the machine, checks
    their alignment, prints the result as JSON and waits for a signal.  The
    discovery, the check and the encoder are packages: parameters with their
    types. *)

From S2P Require Import Prelude GoStrings Calls.
Local Open Scope calls_scope.

Module GenericAlignment.

Inductive Signal := SIGINT | SIGTERM | SIGHUP | SIGQUIT.

#[global] Instance Signal_eq_dec : EqDecision Signal.
Proof. solve_decision. Defined.

Section check.
Context {Environ Container Machine Result : Type}.
Context (environ_New : Environ).
Context (resources_Discover : Environ → res Container).
Context (machine_Discover : Environ → res Machine).
Context (align_Check : Environ → Container → Machine → res Result).
(** What [Encode] writes, and its error. *)
Context (Encode : Result → string * option goerror).

(** What the process does that can be seen from outside. *)
Inductive event :=
  | Stdout (text : string)
  | Notify (signals : list Signal)
  | Wait.

(** How it ends: fatally with a logged error (status 1), by returning from
    [main] (status 0), or killed by a signal that is not trapped. *)
Inductive ended := Fatal (err : goerror) | Returned | Killed (s : Signal).

Definition fatal {A} (fmt : string) (r : res A) : calls event A :=
  on_error (λ err, Errorf fmt [ArgW err]) ([], r).

Definition encode (result : Result) : calls event unit :=
  let '(text, err) := Encode result in
  ([Stdout text], match err with Some e => Err e | None => Ok () end).

(** Until the wait. *)
Definition check : calls event unit :=
  let env := environ_New in
  let* container := fatal "ERR: resource discover failed: %v" (resources_Discover env) in
  let* machine := fatal "ERR: machine discover failed: %v" (machine_Discover env) in
  let* result := fatal "ERR: alignment check failed: %v" (align_Check env container machine) in
  do* on_error (λ err, Errorf "ERR: response encoding failed: %v" [ArgW err]) (encode result) in
  do* emit (Notify [SIGINT; SIGTERM]) in
  emit Wait.

(** [main]; [s] is the signal that comes in the end. *)
Definition main (s : Signal) : list event * ended :=
  match check with
  | (trace, Err err) => (trace, Fatal err)
  | (trace, Ok _) => (trace, if bool_decide (s ∈ [SIGINT; SIGTERM]) then Returned else Killed s)
  end.

End check.
End GenericAlignment.

(** * Properties of the alignment check *)
Module GenericAlignmentProps.
Import GenericAlignment.

Section props.
Context {Environ Container Machine Result : Type} (env : Environ).
Context (resources : Environ → res Container) (machine : Environ → res Machine).
Context (Check : Environ → Container → Machine → res Result) (Encode : Result → string * option goerror).

(** The report of the check, if there is one. *)
Definition report : res (string * option goerror) :=
  rbind (resources env) (λ c, rbind (machine env) (λ m, rbind (Check env c m) (λ r, Ok (Encode r)))).

(** The alignment check prints its report, the encoding of the check of
    what was discovered, once and nothing else, and only then waits, to return
    on SIGINT or SIGTERM; if anything fails it ends fatally before it waits,
    and has printed nothing unless the encoder itself failed. *)
Theorem check_reports (s : Signal) :
  match report with
  | Ok (text, None) =>
      main env resources machine Check Encode s
      = ([Stdout text; Notify [SIGINT; SIGTERM]; Wait],
         if decide (s = SIGINT ∨ s = SIGTERM) then Returned else Killed s)
  | Ok (text, Some _) => ∃ err, main env resources machine Check Encode s = ([Stdout text], Fatal err)
  | Err _ => ∃ err, main env resources machine Check Encode s = ([], Fatal err)
  end.
Proof.
  unfold report, main, check, fatal, on_error, encode, emit.
  destruct (resources env) as [c|]; cbn [rbind cbind]; [|by eexists].
  destruct (machine env) as [m|]; cbn [rbind cbind]; [|by eexists].
  destruct (Check env c m) as [r|]; cbn [rbind cbind]; [|by eexists].
  destruct (Encode r) as [text [e|]]; cbn [cbind app]; [by eexists|]. by destruct s.
Qed.

End props.
End GenericAlignmentProps.
